(* ===== verification/_CoqProject ===== *)
-Q . S2P
Prelude.v
Links.v
Threads.v
Pthread.v
CString.v
Common.v
Hashmap.v
Chunk.v
Queue.v
QueueLock.v
QueueMutex.v
QueueSpinlock.v
QueueCondvar.v
QueueSemaphore.v
SemaphoreThreads.v
QueueThreads.v
OldQueue.v
Counter.v
Uthread.v
HttpUtils.v
HttpSend.v
SwapList.v
Threadpool.v
Context.v
Subscription.v
Cache.v
Broadcast.v
Handler.v
Serve.v
MyThread.v
Process.v
Lab1.v
ForkJoin.v
Handover.v
Cancellation.v
Cancel.v
Detached.v
Signals.v
Server.v
