(* ===== verification/Prelude.v ===== *)
(** * The operating-systems labs: thread pools, queues, locks and a caching proxy

    The repository holds three labs in C. This library models their program
    logic and proves it correct, or shows by an execution where it is not.

    ** The programs

    - lab1/src/1 to lab1/src/5: small programs on POSIX threads: threads that are
      created and joined, return a value, are detached, are handed data, are
      cancelled, and take signals;
      lab1/src/6: kernel threads on clone(2), each with a mapped stack and a
      guard page, and a program that creates, runs and clears them;
      lab1/src/7: cooperative user threads on ucontext, with a scheduler kept as
      a list (uthreadpool.c) or as a ring (uthreadpool2.c).
    - lab2/src/1 and lab2/src/2: a bounded queue of ints between a reader and a
      writer, without synchronisation (lab2/src/old has the first version) and
      under a mutex, a spinlock, condition variables and semaphores, with a monitor
      thread that prints statistics;
      lab2/src/3: a list whose nodes are locked hand over hand while threads
      compare and swap them; lab2/src/4: a spinlock and a futex mutex, tested by
      threads that increment one counter.
    - lab3: a caching HTTP proxy. server.c accepts connections and pushes each to
      a pool of handlers (threadpool.c). A handler (handler.c) receives and parses
      the request (http_utils.c), finds the subscription manager of the URL in a
      table (hashmap.c) and subscribes the client to it (subscription.c). The
      first client of a URL runs the session: it reads the response from a file
      of the cache (cache.c) or downloads it with libcurl, appends it in chunks
      (chunk.c) to the manager, whose upload pool sends them to every
      subscriber, and destroys the manager at the end.

    ** How C is modelled

    - Prelude.v: an int, a long and so on is a [Z]; signed overflow is a fault,
      the unsigned types and the conversions wrap ([u_wrap], [s_wrap]). A
      function that runs without interruption is a [C S A]: from the running
      thread and the state to an [outcome]: a value and the next state, or
      [Blocked], or the [Fault] it runs into (an invalid pointer, an index out of
      its array, a read of an object never written, overflow, a failed
      assertion, an unlock by another thread, [abort]). Every struct type has a
      typed heap ([mem], class [Heap]) whose addresses are never handed out
      twice, so that each use of a freed object is a fault. The answers of
      malloc, send, recv and so on are scripts of the state, or parameters, so
      that the definitions have every failure they may report. Not every theorem
      ranges over all scripts: those that start in [mstart_with] (Subscription.v)
      or [pstart] (Threadpool.v) say what happens while malloc succeeds; see
      "What is assumed to succeed" below.
    - Threads.v: code that other threads may overlap with is a [prog], a tree of
      atomic actions with loops; [step] interleaves a list of them over the
      shared state, [run] is a program run alone. The rest is a rely/guarantee
      logic: [safe] of a thread under what the others may do (class [RG]), its
      rules, and its soundness [rg_sound] for all reachable configurations.
    - Pthread.v: mutexes, condition variables, semaphores and read-write locks as
      POSIX describes them. A wakeup for no reason is the step of a thread of its
      own; so each theorem on condition variables covers them.
    - Links.v: singly and doubly linked chains in a heap, for every component
      that links structs. CString.v: the functions of string.h and stdio.h that
      the programs call, on lists of character codes.

    ** The components

    A definition has the name of the C function it translates, except where
    the files share one (each is in a Module then), or where a loop or a stretch
    of a function needs one of its own; structs are Records with the fields of
    the C struct, in their order.

    - Queue.v: queue.c of lab2/src/1, with one action per access of the queue;
      a.c and b.c. Run alone the queue refines the list [fifo]
      ([queue_refines_fifo]); the race of b.c is shown in two executions
      ([unsynchronised_queue_races]).
    - QueueLock.v: class [Lock], what a lock promises to a queue, and the
      invariant, rely and guarantee of a queue under one, shared by
      QueueMutex.v, QueueSpinlock.v (two instances) and QueueCondvar.v, which
      adds what its threads wait for. QueueSemaphore.v and SemaphoreThreads.v:
      the semaphore queue touches the queue outside of its mutex as well, so it
      has an invariant of its own, in which each thread relies on the counters
      and semaphores only it changes. For each variant the [_queue_correct]
      theorem says that in every interleaving the reader gets 0, 1, 2, ..., that
      nothing but the overflow of a counter or a failed allocation stops a
      thread, and (except for the spinlock, which spins) that there is no
      deadlock and no lost wakeup.
    - QueueThreads.v: queue_threads.c of lab2/src/2, the whole program: main,
      which creates, cancels and joins the two threads and destroys the queue,
      a thread that exists being blocked until it is created. With the mutex
      queue no thread uses the queue after it is destroyed
      ([mutex_program_correct]); with the condition variables main never
      returns, and every variant uses a destroyed queue when the second
      pthread_create fails ([program_hazards]).
    - Counter.v: lab2/src/4, the spinlock on compare-and-exchange and the mutex
      on futex(2), with early wakeups; the final count is exact.
    - SwapList.v: lab2/src/3, for its three kinds of locks: neither a node nor a
      value is lost, in every interleaving, without a deadlock
      ([hand_over_hand]).
    - Process.v: a process with room for a number of threads, creating, joining,
      detaching and cancelling them, with rely/guarantee rules for each and an
      exhaustive [search] for programs with finitely many executions. Lab1.v: the
      programs of lab1/src/1 to lab1/src/4, a Module for each. ForkJoin.v: those
      whose threads are all joined ([fork_join_correct]). Detached.v: those that
      create threads as long as they can. Handover.v: values and data that pass
      between [main] and a thread. Cancellation.v: the rules for
      cancelling a thread; Cancel.v: the programs that do, with their cleanup
      handlers ([cancelled_and_joined]).
      Signals.v: lab1/src/5, signal masks, handlers and sigwait; its [main] is
      terminated by its own SIGQUIT ([sigquit_terminates]).
    - OldQueue.v: lab2/src/old over class [FifoQueue], what the programs need of a
      queue, which is not in that directory; the queue of lab2/src/1 is an
      instance.
    - Uthread.v: lab1/src/7; a context is the list of operations a thread has
      left. MyThread.v: lab1/src/6, over the mapped pages of the process: the
      layout of the address space is an invariant ([main_layout]) and the ways
      in which the program fails are executions ([mythread_hazards]).
    - Common.v, Hashmap.v, Chunk.v: common.c, hashmap.c and chunk.c of lab3. The
      table refines a stack of values per key; the container a list of buffers;
      destroying either frees each node once.
    - Threadpool.v: threadpool.c with any number of threads that push and ten
      workers; Context.v: context.c over the table and the two pools.
    - HttpUtils.v and HttpSend.v: http_utils.c; parsing returns and keeps to its
      buffers except when the received bytes fill the buffer and end in a single
      LF ([parse_http_request_bounded], [parse_overruns]), reads well-formed
      messages back, and its defects are shown; the requests, headers and
      progress reports of a download over a parameter for libcurl, which may
      refuse a handle, an option or any header ([prepare_headers_spec],
      [send_http_request_spec]).
    - Subscription.v, Cache.v, Broadcast.v: subscription.c and cache.c, and
      the theorem on a whole session with its upload workers
      ([broadcast_complete]). Handler.v, Serve.v, Server.v: handler.c and
      server.c; [client_served] follows one client from its request to the end
      of its session in every interleaving with the workers, and composes the
      parser, the table, the subscriptions, the cache and the uploads.
      [client_turned_away] lists the ways in which a client is refused and
      [client_joins] is a client that comes while the session of its URL is at
      work, in any state of it described by [session_repr].

    ** Bounds and fuel

    Loops of a [prog] are unbounded: the theorems on interleavings hold for
    executions of every length ([safe] at each number of steps). Where a
    function runs alone its loops have fuel, and a theorem of the component says
    it suffices: one more than the nodes of the heap for walks over linked structs
    ([nodes_fuel]), one more than the answers of send for send_data_to_fd, the
    length of the buffer for the header loop, a number linear in the tasks for
    the user threads. [OutOfFuel] is the fault of a loop without fuel, and no
    theorem allows it. The exhaustive [search] of Handover.v has fuel for 40
    steps, and answers no when an execution is longer. The counters the C code
    declares as int or long overflow in the model as they do in C; a theorem
    either bounds the run or lists the overflow.

    ** What is assumed to succeed

    [client_served], [broadcast_complete], [threadpool_no_lost_wakeup],
    [threadpool_destroyed], [threadpool_stack], [uthreads_run_all],
    [handover_correct] and [subscribers_refine_list] are about executions in
    which malloc succeeds; in the first two each send takes all it is given, and
    in [client_served] libcurl accepts the handle and the headers. What the code
    does otherwise is stated apart: [manager_locks_itself],
    [client_turned_away], [handover_hazards], [prepare_headers_spec],
    [send_http_request_spec], [init_context_spec], [add_chunk_appends],
    [send_data_to_fd_delivers] and [table_refines_stacks] start in states where
    allocations or calls fail.

    ** Not modelled

    - Output (log.c, printf, the process ids and times printed), CPU affinity,
      main.c of lab3, which calls three modelled functions in order.
    - In lab1/src/1 to lab1/src/5: thread attributes but for the detach state,
      cancellation points other than sleep, signals from outside of the program,
      signal dispositions inherited from the process that starts it (an ignored
      SIGQUIT would not terminate lab1/src/5).
    - libcurl, the kernel's scheduler, memory models weaker than an interleaving
      of the accesses, the blocking of I/O.
    - Handlers that change the table of managers at the same time: the code has
      no lock there, and the model lets one handler change it at a time; the
      pools that a handler's context points to are state of their own. *)
From stdpp Require Export base gmap list list_numbers numbers strings sorting.
From Stdlib Require Export ZArith Lia.

#[export] Set Default Goal Selector "!".

(** * Machine integers

    A C integer is a [Z]; the wrap-around of the unsigned types and the
    conversions between widths are written out. *)

Declare Scope c_scope.
Delimit Scope c_scope with C.

Definition u_wrap (w z : Z) : Z := (z mod 2 ^ w)%Z.
Definition s_wrap (w z : Z) : Z :=
  let r := (z mod 2 ^ w)%Z in
  if decide (r < 2 ^ (w - 1))%Z then r else (r - 2 ^ w)%Z.

Abbreviation u32 := (u_wrap 32).
Abbreviation u64 := (u_wrap 64).
Abbreviation s8 := (s_wrap 8).
Abbreviation s32 := (s_wrap 32).

Definition INT_MAX : Z := (2 ^ 31 - 1)%Z.
Definition LONG_MAX : Z := (2 ^ 63 - 1)%Z.

(** * Outcomes of C code

    A call returns a value, waits for another thread (a mutex that is held, a
    condition that is not signalled), or runs into behaviour the language
    leaves undefined. *)

Inductive fault :=
  | Segv         (* NULL, freed or never allocated object *)
  | OutOfBounds  (* access outside of an array *)
  | Uninit       (* read of an object that was never written *)
  | Overflow     (* signed overflow *)
  | AssertFailed
  | BadUnlock    (* unlocking a mutex the thread does not hold *)
  | Aborted
  | OutOfFuel.   (* the model's loop bound, never reached: see the fuel lemmas *)

#[export] Instance fault_eq_dec : EqDecision fault.
Proof. solve_decision. Defined.

Inductive outcome (S A : Type) :=
  | Ok (a : A) (s : S)
  | Blocked
  | Fault (f : fault).
Arguments Ok {S A} a s.
Arguments Blocked {S A}.
Arguments Fault {S A} f.

Abbreviation tid := nat (only parsing).
Abbreviation loc := positive (only parsing).
Abbreviation ptr := (option positive) (only parsing).
Abbreviation NULL := (@None positive).

(** The code of one thread between two scheduling points: it reads the identity
    of the running thread and transforms the shared state. *)
Definition C (S A : Type) : Type := tid → S → outcome S A.

#[export] Instance C_ret S : MRet (C S) := λ A a _ s, Ok a s.
#[export] Instance C_bind S : MBind (C S) := λ A B f m t s,
  match m t s with
  | Ok a s' => f a t s'
  | Blocked => Blocked
  | Fault e => Fault e
  end.

Definition fail {S A} (e : fault) : C S A := λ _ _, Fault e.
Definition wait {S A} : C S A := λ _ _, Blocked.
Definition self {S} : C S tid := λ t s, Ok t s.
Definition gets {S A} (f : S → A) : C S A := λ _ s, Ok (f s) s.
Definition modify {S} (f : S → S) : C S unit := λ _ s, Ok tt (f s).
Definition assert {S} (b : bool) : C S unit :=
  if b then mret tt else fail AssertFailed.
Definition signed_add {S} (max a b : Z) : C S Z :=
  if decide (- max - 1 ≤ a + b ≤ max)%Z then mret (a + b)%Z else fail Overflow.

(** [a[i]]: an index outside of the array is undefined behaviour *)
Definition array_get {S A} (a : list A) (i : nat) : C S A :=
  match a !! i with Some x => mret x | None => fail OutOfBounds end.

(** Two computations that behave alike from every state. *)
#[export] Instance C_equiv S A : Equiv (C S A) := λ m m', ∀ t s, m t s = m' t s.

#[export] Instance C_equivalence S A : Equivalence (≡@{C S A}).
Proof.
  split.
  - intros m t s; done.
  - intros m m' H t s; by rewrite H.
  - intros m1 m2 m3 H1 H2 t s; by rewrite H1, H2.
Qed.

#[export] Instance C_bind_proper S A B :
  Proper (pointwise_relation A (≡) ==> (≡) ==> (≡)) (@mbind (C S) _ A B).
Proof.
  intros f f' Hf m m' Hm t s. unfold mbind, C_bind. rewrite (Hm t s).
  destruct (m' t s); try done. apply Hf.
Qed.

Lemma bind_ret_l {S A B} (a : A) (f : A → C S B) : mret a ≫= f ≡ f a.
Proof. intros t s; done. Qed.
Lemma bind_ret_r {S A} (m : C S A) : m ≫= mret ≡ m.
Proof. intros t s. unfold mbind, C_bind. by destruct (m t s). Qed.
Lemma bind_assoc {S A B D} (m : C S A) (f : A → C S B) (g : B → C S D) :
  (m ≫= f) ≫= g ≡ m ≫= (λ x, f x ≫= g).
Proof. intros t s. unfold mbind, C_bind. by destruct (m t s). Qed.

Lemma bind_ok {S A B} (m : C S A) (f : A → C S B) t s a s' :
  m t s = Ok a s' → (m ≫= f) t s = f a t s'.
Proof. intros H. unfold mbind, C_bind. by rewrite H. Qed.
Lemma bind_fault {S A B} (m : C S A) (f : A → C S B) t s e :
  m t s = Fault e → (m ≫= f) t s = Fault e.
Proof. intros Hm. unfold mbind, C_bind. by rewrite Hm. Qed.
Lemma bind_ok_inv {S A B} (m : C S A) (f : A → C S B) t s b s' :
  (m ≫= f) t s = Ok b s' → ∃ a s1, m t s = Ok a s1 ∧ f a t s1 = Ok b s'.
Proof. unfold mbind, C_bind. destruct (m t s); naive_solver. Qed.

(** * Typed heaps

    Every struct type of the program has a heap of its own: a finite map from
    addresses to struct values, and a break above which no address was handed
    out, so that a freed address never comes back and every use of a freed
    object is seen as a fault. *)

Record mem (N : Type) := Mem { cells : gmap positive N; brk : positive }.
Arguments Mem {N}.
Arguments cells {N}.
Arguments brk {N}.

Definition top_of {N} (h : gmap positive N) : positive :=
  map_fold (λ l _ acc, Pos.max (Pos.succ l) acc) 1%positive h.
Definition fresh_loc {N} (m : mem N) : positive := Pos.max (brk m) (top_of (cells m)).

Definition mem_alloc {N} (n : N) (m : mem N) : mem N :=
  let l := fresh_loc m in Mem (<[l := n]> (cells m)) (Pos.succ l).
Definition mem_set {N} (l : positive) (n : N) (m : mem N) : mem N :=
  Mem (<[l := n]> (cells m)) (brk m).
Definition mem_del {N} (l : positive) (m : mem N) : mem N :=
  Mem (delete l (cells m)) (brk m).
Definition mem_empty {N} : mem N := Mem ∅ 1.

Lemma top_of_above {N} (h : gmap positive N) l : is_Some (h !! l) → (l < top_of h)%positive.
Proof.
  unfold top_of. revert l.
  apply (map_fold_weak_ind (λ r h, ∀ l, is_Some (h !! l) → (l < r)%positive)).
  - intros l [x Hx]. by rewrite lookup_empty in Hx.
  - intros l n h' r _ IH l' Hl'. destruct (decide (l = l')) as [->|Hne]; [lia|].
    rewrite lookup_insert_ne in Hl' by done. specialize (IH _ Hl'). lia.
Qed.
Lemma fresh_loc_none {N} (m : mem N) : cells m !! fresh_loc m = None.
Proof.
  destruct (cells m !! fresh_loc m) as [n|] eqn:E; [|done].
  pose proof (top_of_above (cells m) (fresh_loc m) ltac:(eauto)).
  unfold fresh_loc in *. lia.
Qed.

Lemma mem_set_set {N} l (n n' : N) m : mem_set l n (mem_set l n' m) = mem_set l n m.
Proof. unfold mem_set. simpl. by rewrite insert_insert_eq. Qed.
Lemma mem_set_alloc {N} (n n' : N) m : mem_set (fresh_loc m) n (mem_alloc n' m) = mem_alloc n m.
Proof. unfold mem_set, mem_alloc. simpl. by rewrite insert_insert_eq. Qed.
Lemma mem_alloc_lookup {N} (n : N) m : cells (mem_alloc n m) !! fresh_loc m = Some n.
Proof. simpl. by rewrite lookup_insert_eq. Qed.

(** What a component needs of the program's state to allocate structs of type
    [N]: a place for their heap. *)
Class Heap (S N : Type) := {
  heap : S → mem N;
  set_heap : mem N → S → S;
  heap_set m s : heap (set_heap m s) = m;
  set_heap_set m m' s : set_heap m (set_heap m' s) = set_heap m s;
  set_heap_id s : set_heap (heap s) s = s;
}.
Arguments heap {S} N {_} s.
Arguments set_heap {S} N {_} m s.

(** The heap of one type is untouched by writes to the heap of another. *)
Class HeapIndep (S N N' : Type) `{Heap S N, Heap S N'} :=
  heap_other m s : heap N (set_heap N' m s) = heap N s.

(** The answers [malloc] gives: an exhausted script means success. *)
Class Oom (S : Type) := {
  oom : S → list bool;
  set_oom : list bool → S → S;
  oom_set o s : oom (set_oom o s) = o;
  set_oom_id s : set_oom (oom s) s = s;
}.
Class OomIndep (S N : Type) `{Oom S, Heap S N} := {
  heap_oom o s : heap N (set_oom o s) = heap N s;
  oom_heap m s : oom (set_heap N m s) = oom s;
}.

Create Rewrite HintDb heap.
#[export] Hint Rewrite @heap_set @set_heap_set @set_heap_id @heap_other @oom_set
  @heap_oom @oom_heap using (apply _) : heap.
Tactic Notation "heap_simpl" :=
  repeat (progress (autorewrite with heap; cbn [cells brk mem_set mem_del mem_alloc])).
Tactic Notation "heap_simpl" "in" hyp(H) :=
  repeat (progress (autorewrite with heap in H; cbn [cells brk mem_set mem_del mem_alloc] in H)).

Section heap_ops.
Context {S N : Type} `{Heap S N}.

Definition load (p : ptr) : C S N := λ _ s,
  match p with
  | Some l => match cells (heap N s) !! l with Some n => Ok n s | None => Fault Segv end
  | None => Fault Segv
  end.

(** [p->field = v], the struct given by what it becomes *)
Definition update (p : ptr) (f : N → N) : C S unit := λ _ s,
  match p with
  | Some l =>
      match cells (heap N s) !! l with
      | Some n => Ok tt (set_heap N (mem_set l (f n) (heap N s)) s)
      | None => Fault Segv
      end
  | None => Fault Segv
  end.

(** [free(NULL)] does nothing *)
Definition free (p : ptr) : C S unit := λ _ s,
  match p with
  | Some l =>
      match cells (heap N s) !! l with
      | Some _ => Ok tt (set_heap N (mem_del l (heap N s)) s)
      | None => Fault Segv
      end
  | None => Ok tt s
  end.

Context `{Oom S}.

(** One answer of the allocator *)
Definition malloc_answer : C S bool := λ _ s,
  match oom s with
  | [] => Ok true s
  | b :: r => Ok b (set_oom r s)
  end.
Definition new_cell (n : N) : C S ptr := λ _ s,
  Ok (Some (fresh_loc (heap N s))) (set_heap N (mem_alloc n (heap N s)) s).

(** [malloc(sizeof(N))] followed by the assignments that make the object [n] *)
Definition malloc (n : N) : C S ptr :=
  ok ← malloc_answer;
  if (ok : bool) then new_cell n else mret NULL.

Lemma load_ok l n t s : cells (heap N s) !! l = Some n → load (Some l) t s = Ok n s.
Proof. intros Hl. unfold load. by rewrite Hl. Qed.
Lemma update_ok l n f t s : cells (heap N s) !! l = Some n →
  update (Some l) f t s = Ok tt (set_heap N (mem_set l (f n) (heap N s)) s).
Proof. intros Hl. unfold update. by rewrite Hl. Qed.
Lemma free_ok l n t s : cells (heap N s) !! l = Some n →
  free (Some l) t s = Ok tt (set_heap N (mem_del l (heap N s)) s).
Proof. intros Hl. unfold free. by rewrite Hl. Qed.

(** The next allocation fails. *)
Definition malloc_fails (s : S) : Prop := head (oom s) = Some false.
#[export] Instance malloc_fails_dec s : Decision (malloc_fails s).
Proof. unfold malloc_fails. apply _. Defined.

Lemma malloc_answer_run t s :
  malloc_answer t s = Ok (bool_decide (¬ malloc_fails s)) (set_oom (tl (oom s)) s).
Proof.
  unfold malloc_answer. case_bool_decide as Hf; unfold malloc_fails in Hf.
  - destruct (oom s) as [|[] o] eqn:E; simpl in *; [by rewrite <-E, set_oom_id|done..].
  - destruct (oom s) as [|[] o] eqn:E; simpl in *; [|exfalso|]; try done; by apply Hf.
Qed.
Lemma malloc_ok n t s `{!OomIndep S N} : ¬ malloc_fails s →
  malloc n t s = Ok (Some (fresh_loc (heap N s)))
    (set_heap N (mem_alloc n (heap N s)) (set_oom (tl (oom s)) s)).
Proof.
  intros Hf. unfold malloc. rewrite (bind_ok _ _ _ _ _ _ (malloc_answer_run t s)).
  rewrite bool_decide_true by done. unfold new_cell. by rewrite heap_oom.
Qed.
Lemma malloc_null n t s : malloc_fails s → malloc n t s = Ok NULL (set_oom (tl (oom s)) s).
Proof.
  intros Hf. unfold malloc. rewrite (bind_ok _ _ _ _ _ _ (malloc_answer_run t s)).
  by rewrite bool_decide_false by auto.
Qed.
End heap_ops.

Arguments load {S} N {_} p.
Arguments update {S} N {_} p f.
Arguments free {S} N {_} p.
Arguments malloc {S} N {_ _} n.

(** [cstep] runs the first command of a sequence: a primitive of this file, or a
    call whose outcome is a hypothesis. Lookups are left as goals when they are
    not hypotheses. *)
Ltac run_command :=
  lazymatch goal with
  | |- load _ _ _ _ = _ => eapply load_ok; try eassumption
  | |- update _ _ _ _ _ = _ => eapply update_ok; try eassumption
  | |- free _ _ _ _ = _ => eapply free_ok; try eassumption
  | |- malloc _ _ _ _ = _ => first [eapply malloc_ok; eassumption | eapply malloc_null; eassumption]
  | |- gets _ _ _ = _ => reflexivity
  | |- modify _ _ _ = _ => reflexivity
  | |- self _ _ = _ => reflexivity
  | |- mret _ _ _ = _ => reflexivity
  | |- malloc_answer _ _ = _ => apply malloc_answer_run
  | |- _ => eassumption
  end.
Ltac cstep := erewrite bind_ok by run_command; cbv beta iota.
Ltac cstep_with tac := erewrite bind_ok; [cbv beta iota|run_command; tac].
Ltac csteps := repeat cstep.
