(* ===== verification/Links.v ===== *)
(** Linked structures in a typed heap: the chain of nodes reached through one
    link field, and the doubly linked lists built of two chains. The queues of
    lab2, the hash table's buckets, the chunk container and the subscriber list
    of lab3 and the scheduler of lab1 are all shaped this way. *)
From S2P Require Import Prelude.

(** * Chains through one link field *)

Section chain.
Context {N : Type} (next : N → ptr).
Implicit Types (h : gmap positive N) (p q : ptr) (ls : list positive).

(** Following [next] from [p] visits exactly [ls] and arrives at [q]. *)
Fixpoint chain h p ls q : Prop :=
  match ls with
  | [] => p = q
  | l :: ls' => p = Some l ∧ ∃ n, h !! l = Some n ∧ chain h (next n) ls' q
  end.

Lemma chain_app h p l1 l2 q :
  chain h p (l1 ++ l2) q ↔ ∃ r, chain h p l1 r ∧ chain h r l2 q.
Proof.
  revert p. induction l1 as [|l l1 IH]; intros p; simpl.
  - naive_solver.
  - setoid_rewrite IH. naive_solver.
Qed.

Lemma chain_snoc h p ls l q :
  chain h p (ls ++ [l]) q ↔ chain h p ls (Some l) ∧ ∃ n, h !! l = Some n ∧ next n = q.
Proof. rewrite chain_app. simpl. naive_solver. Qed.

(** Only the link fields of the visited nodes matter. *)
Lemma chain_ext h h' p ls q :
  (∀ l, l ∈ ls → next <$> h' !! l = next <$> h !! l) →
  chain h p ls q → chain h' p ls q.
Proof.
  revert p. induction ls as [|l ls IH]; intros p Hext; simpl; [done|].
  intros [-> (n & Hn & Hc)]. split; [done|].
  specialize (Hext l ltac:(set_solver)) as Hl. rewrite Hn in Hl.
  destruct (h' !! l) as [n'|] eqn:Hn'; simplify_eq/=.
  exists n'. split; [done|]. rewrite Hl. apply IH; [set_solver|done].
Qed.

Lemma chain_insert_notin h p ls q l n :
  l ∉ ls → chain h p ls q → chain (<[l := n]> h) p ls q.
Proof.
  intros Hl. apply chain_ext. intros l' Hl'. rewrite lookup_insert_ne; [done|set_solver].
Qed.

Lemma chain_delete_notin h p ls q l :
  l ∉ ls → chain h p ls q → chain (delete l h) p ls q.
Proof.
  intros Hl. apply chain_ext. intros l' Hl'. rewrite lookup_delete_ne; [done|set_solver].
Qed.

Lemma chain_insert_same h p ls q l n n' :
  h !! l = Some n → next n' = next n → chain h p ls q → chain (<[l := n']> h) p ls q.
Proof.
  intros Hl Hn. apply chain_ext. intros l' _.
  destruct (decide (l = l')) as [<-|Hne].
  - by rewrite lookup_insert_eq, Hl; simpl; rewrite Hn.
  - by rewrite lookup_insert_ne.
Qed.

Lemma chain_lookup h p ls q l : chain h p ls q → l ∈ ls → is_Some (h !! l).
Proof.
  revert p. induction ls as [|l' ls IH]; intros p; simpl; [set_solver|].
  intros [-> (n & Hn & Hc)] [->|Hl]%elem_of_cons; eauto.
Qed.

Lemma chain_det h p ls ls' : chain h p ls NULL → chain h p ls' NULL → ls = ls'.
Proof.
  revert p ls'. induction ls as [|l ls IH]; intros p [|l' ls']; simpl; naive_solver.
Qed.

(** A chain that ends has no cycle. *)
Lemma chain_NoDup h p ls : chain h p ls NULL → NoDup ls.
Proof.
  revert p. induction ls as [|l ls IH]; intros p Hc; [constructor|].
  pose proof Hc as Hc0. simpl in Hc. destruct Hc as [-> (n & Hn & Hc)].
  constructor; [|by eapply IH].
  intros Hin. apply list_elem_of_split in Hin as (l1 & l2 & ->).
  assert (chain h (Some l) (l :: l2) NULL) as Hc2.
  { apply chain_app in Hc as (r & _ & Hr). pose proof Hr as [-> _]. done. }
  pose proof (chain_det _ _ _ _ Hc0 Hc2) as Heq.
  apply (f_equal length) in Heq. simpl in Heq. rewrite length_app in Heq. simpl in Heq. lia.
Qed.

Lemma chain_length h p ls : chain h p ls NULL → length ls ≤ size h.
Proof.
  intros Hc. pose proof (chain_NoDup _ _ _ Hc) as Hnd.
  rewrite <-(size_list_to_set (C:=gset positive) ls) by done.
  rewrite <-size_dom. apply subseteq_size. intros l Hl.
  apply elem_of_list_to_set in Hl. apply elem_of_dom. by eapply chain_lookup.
Qed.

Lemma chain_head h p ls : chain h p ls NULL → p = head ls.
Proof. destruct ls; simpl; naive_solver. Qed.

(** Taking the node behind [a] out of the chain. *)
Lemma chain_unlink h p l1 a x l2 nx n' :
  chain h p (l1 ++ a :: x :: l2) NULL → h !! x = Some nx → next n' = next nx →
  chain (delete x (<[a := n']> h)) p (l1 ++ a :: l2) NULL.
Proof.
  intros Hc Hx Hn. pose proof (chain_NoDup _ _ _ Hc) as Hnd.
  apply NoDup_app in Hnd as (_ & Hl1 & [Ha [Hx2 _]%NoDup_cons]%NoDup_cons).
  apply chain_app in Hc as (r & H1 & H2). apply chain_app. exists r. split.
  - apply chain_delete_notin; [set_solver|]. apply chain_insert_notin; [set_solver|done].
  - simpl in H2. destruct H2 as (-> & na & Hna & Hax & nx' & Hnx' & H2). simplify_eq.
    split; [done|]. exists n'. rewrite lookup_delete_ne, lookup_insert_eq by set_solver.
    split; [done|]. rewrite Hn.
    apply chain_delete_notin; [set_solver|]. apply chain_insert_notin; [set_solver|done].
Qed.

Lemma chain_null h ls q : chain h NULL ls q → ls = [] ∧ q = NULL.
Proof. destruct ls; simpl; naive_solver. Qed.

Lemma chain_some h l ls : chain h (Some l) ls NULL →
  ∃ n ls', ls = l :: ls' ∧ h !! l = Some n ∧ chain h (next n) ls' NULL.
Proof. destruct ls; simpl; [done|]. intros [? (n & ? & ?)]. naive_solver. Qed.
End chain.

(** The structs of a chain, in order *)
Definition nodes {N} (h : gmap positive N) (ls : list positive) : list N :=
  omap (h !!.) ls.

Lemma nodes_cons {N} (h : gmap positive N) l ls :
  nodes h (l :: ls) = match h !! l with Some n => n :: nodes h ls | None => nodes h ls end.
Proof. done. Qed.
Lemma nodes_app {N} (h : gmap positive N) l1 l2 : nodes h (l1 ++ l2) = nodes h l1 ++ nodes h l2.
Proof. apply omap_app. Qed.
Lemma nodes_ext {N} (h h' : gmap positive N) ls :
  (∀ l, l ∈ ls → h' !! l = h !! l) → nodes h' ls = nodes h ls.
Proof.
  induction ls as [|l ls IH]; intros Hext; [done|]. rewrite !nodes_cons.
  rewrite (Hext l) by set_solver. rewrite IH by set_solver. done.
Qed.
Lemma nodes_map_ext {N A} (f : N → A) (h h' : gmap positive N) ls :
  (∀ l, l ∈ ls → f <$> h' !! l = f <$> h !! l) → f <$> nodes h' ls = f <$> nodes h ls.
Proof.
  induction ls as [|l ls IH]; intros Hext; [done|]. rewrite !nodes_cons.
  specialize (Hext l ltac:(set_solver)) as Hl.
  destruct (h' !! l), (h !! l); simplify_eq/=; rewrite IH by set_solver; congruence.
Qed.
Lemma nodes_length {N} (h : gmap positive N) ls :
  (∀ l, l ∈ ls → is_Some (h !! l)) → length (nodes h ls) = length ls.
Proof.
  induction ls as [|l ls IH]; intros Hd; [done|]. rewrite nodes_cons.
  destruct (Hd l ltac:(set_solver)) as [n ->]. simpl. rewrite IH by set_solver. done.
Qed.
Lemma nodes_lookup {N} (h : gmap positive N) ls i l n :
  (∀ l, l ∈ ls → is_Some (h !! l)) → ls !! i = Some l → h !! l = Some n →
  nodes h ls !! i = Some n.
Proof.
  revert i. induction ls as [|l' ls IH]; intros i Hd Hi Hn; [done|]. rewrite nodes_cons.
  destruct (Hd l' ltac:(set_solver)) as [n' Hn']. rewrite Hn'.
  destruct i as [|i]; simpl in *; [congruence|]. apply IH; [set_solver|done..].
Qed.

Lemma alter_insert_some {K N} `{Countable K} (f : N → N) (h : gmap K N) (l : K) n :
  h !! l = Some n → alter f l h = <[l := f n]> h.
Proof.
  intros Hl. apply map_eq. intros k. rewrite lookup_insert. case_decide as Hk.
  - subst. by rewrite lookup_alter_eq, Hl.
  - by rewrite lookup_alter_ne.
Qed.

(** * Doubly linked lists *)

(** The two link fields of a struct, and what writing one of them leaves. *)
Class Linked (N : Type) := {
  next : N → ptr;
  prev : N → ptr;
  set_next : ptr → N → N;
  set_prev : ptr → N → N;
  next_set_next p n : next (set_next p n) = p;
  prev_set_next p n : prev (set_next p n) = prev n;
  next_set_prev p n : next (set_prev p n) = next n;
  prev_set_prev p n : prev (set_prev p n) = p;
}.

Section dll.
Context {N : Type} `{Linked N}.
Implicit Types (h : gmap positive N) (ls : list positive).

(** [first]/[last] delimit the list [ls], linked forwards and backwards. *)
Definition dll h (first last : ptr) ls : Prop :=
  chain next h first ls NULL ∧ chain prev h last (reverse ls) NULL.

Lemma dll_nil h : dll h NULL NULL [].
Proof. done. Qed.

Lemma dll_NoDup h f l ls : dll h f l ls → NoDup ls.
Proof. intros [Hc _]. by eapply chain_NoDup. Qed.
Lemma dll_first h f l ls : dll h f l ls → f = head ls.
Proof. intros [Hc _]. by eapply chain_head. Qed.
Lemma dll_last h f l ls : dll h f l ls → l = last ls.
Proof. intros [_ Hc]. apply chain_head in Hc. by rewrite head_reverse in Hc. Qed.
Lemma dll_lookup h f l ls k : dll h f l ls → k ∈ ls → is_Some (h !! k).
Proof. intros [Hc _]. by eapply chain_lookup. Qed.
Lemma dll_length h f l ls : dll h f l ls → length ls ≤ size h.
Proof. intros [Hc _]. by eapply chain_length. Qed.

(** Writes that keep both links keep the list. *)
Lemma dll_ext h h' f l ls :
  (∀ k, k ∈ ls → next <$> h' !! k = next <$> h !! k ∧ prev <$> h' !! k = prev <$> h !! k) →
  dll h f l ls → dll h' f l ls.
Proof.
  intros Hext [H1 H2]. split.
  - eapply chain_ext; [|done]. intros k Hk. by destruct (Hext k Hk).
  - eapply chain_ext; [|done]. intros k Hk. rewrite elem_of_reverse in Hk. by destruct (Hext k Hk).
Qed.

(** The links of the node at position [i]. *)
Lemma dll_links h f l l1 k l2 :
  dll h f l (l1 ++ k :: l2) →
  ∃ n, h !! k = Some n ∧ prev n = last l1 ∧ next n = head l2.
Proof.
  intros [H1 H2]. apply chain_app in H1 as (r & H1a & -> & n & Hn & H1b).
  rewrite reverse_app, reverse_cons, <-app_assoc in H2. simpl in H2.
  apply chain_app in H2 as (r' & H2a & H2b). destruct H2b as [-> (n' & Hn' & H2b)].
  rewrite Hn in Hn'. simplify_eq. exists n'. split; [done|]. split.
  - apply chain_head in H2b. by rewrite head_reverse in H2b.
  - by apply chain_head in H1b.
Qed.

(** The local characterisation used to build lists: right ends, and every
    node linked to its neighbours. *)
Lemma dll_intro h f l ls :
  f = head ls → l = last ls →
  (∀ l1 k l2, ls = l1 ++ k :: l2 →
     ∃ n, h !! k = Some n ∧ prev n = last l1 ∧ next n = head l2) →
  dll h f l ls.
Proof.
  intros -> -> Hl. split.
  - assert (∀ l1 l2, ls = l1 ++ l2 → chain next h (head l2) l2 NULL) as Hc; [|by apply (Hc [])].
    intros l1 l2. revert l1. induction l2 as [|k l2 IH]; intros l1 ->; simpl; [done|].
    split; [done|]. destruct (Hl l1 k l2 eq_refl) as (n & Hn & _ & Hnx).
    exists n. split; [done|]. rewrite Hnx. apply (IH (l1 ++ [k])). by rewrite <-app_assoc.
  - assert (∀ l1 l2, ls = l1 ++ l2 → chain prev h (last l1) (reverse l1) NULL) as Hc.
    { intros l1. induction l1 as [|k l1 IH] using rev_ind; intros l2 ->; [done|].
      rewrite reverse_app, last_snoc. simpl. split; [done|].
      destruct (Hl l1 k l2) as (n & Hn & Hp & _); [by rewrite <-app_assoc|].
      exists n. split; [done|]. rewrite Hp. apply (IH (k :: l2)). by rewrite <-app_assoc. }
    apply (Hc ls []). by rewrite app_nil_r.
Qed.

(** Appending a fresh node behind the last one. *)
Lemma dll_append h f l ls k n :
  dll h f l ls → h !! k = None → next n = NULL → prev n = l →
  dll (match l with
       | Some a => <[k := n]> (alter (set_next (Some k)) a h)
       | None => <[k := n]> h
       end) (match l with Some _ => f | None => Some k end) (Some k) (ls ++ [k]).
Proof.
  intros Hd Hk Hnx Hp.
  pose proof (dll_first _ _ _ _ Hd) as ->. pose proof (dll_last _ _ _ _ Hd) as ->.
  assert (k ∉ ls) as Hkl by (intros Hin; destruct (dll_lookup _ _ _ _ _ Hd Hin); congruence).
  destruct (decide (ls = [])) as [->|Hne].
  { apply dll_intro; [done..|]. intros [|?[]] k' l2 Heq; simplify_eq/=.
    exists n. by rewrite lookup_insert_eq. }
  destruct (exists_last Hne) as (l0 & a & ->).
  rewrite last_snoc in *; cbn [head].
  assert (NoDup (l0 ++ [a])) as Hnd by (by eapply dll_NoDup).
  apply NoDup_app in Hnd as (_ & Hal & _).
  apply dll_intro.
  - by destruct l0.
  - by rewrite last_snoc.
  - intros l1 k' l2 Heq. destruct (decide (l2 = [])) as [->|Hl2].
    { apply app_inj_tail in Heq as [<- <-]. exists n.
      rewrite lookup_insert_eq, last_snoc. done. }
    destruct (exists_last Hl2) as (l2' & b & ->).
    rewrite app_comm_cons, app_assoc in Heq. apply app_inj_tail in Heq as [Heq <-].
    rewrite Heq in Hd. destruct (dll_links _ _ _ _ _ _ Hd) as (n' & Hn' & Hp' & Hnx').
    rewrite lookup_insert_ne by (intros ->; set_solver).
    destruct (decide (l2' = [])) as [->|Hl2'].
    + apply app_inj_tail in Heq as [-> ->]. rewrite lookup_alter_eq, Hn'. simpl.
      eexists. split; [done|]. by rewrite prev_set_next, next_set_next.
    + destruct (exists_last Hl2') as (l3 & c & ->).
      rewrite app_comm_cons, app_assoc in Heq. apply app_inj_tail in Heq as [-> ->].
      rewrite lookup_alter_ne by set_solver. exists n'. split; [done|].
      split; [done|]. rewrite Hnx'. by destruct l3.
Qed.

(** Taking the node [x] out: its neighbours are linked to each other. *)
Definition unlink h (x : positive) (p q : ptr) : gmap positive N :=
  let h1 := match p with Some a => alter (set_next q) a h | None => h end in
  let h2 := match q with Some b => alter (set_prev p) b h1 | None => h1 end in
  delete x h2.

Lemma unlink_other h x p q k :
  k ≠ x → p ≠ Some k → q ≠ Some k → unlink h x p q !! k = h !! k.
Proof.
  intros Hx Hp Hq. unfold unlink. rewrite lookup_delete_ne by done.
  destruct q, p; simpl; rewrite ?lookup_alter_ne by congruence; done.
Qed.
Lemma unlink_prev h x q k :
  k ≠ x → q ≠ Some k → unlink h x (Some k) q !! k = set_next q <$> h !! k.
Proof.
  intros Hx Hq. unfold unlink. rewrite lookup_delete_ne by done.
  destruct q; simpl; rewrite ?lookup_alter_ne by congruence; by rewrite lookup_alter_eq.
Qed.
Lemma unlink_next h x p k :
  k ≠ x → p ≠ Some k → unlink h x p (Some k) !! k = set_prev p <$> h !! k.
Proof.
  intros Hx Hp. unfold unlink. rewrite lookup_delete_ne by done. rewrite lookup_alter_eq.
  destruct p; simpl; rewrite ?lookup_alter_ne by congruence; done.
Qed.

Lemma last_elem {A} (l : list A) x : last l = Some x → x ∈ l.
Proof. intros (l' & ->)%last_Some. set_solver. Qed.
Lemma head_elem {A} (l : list A) x : head l = Some x → x ∈ l.
Proof. destruct l; set_solver. Qed.
Lemma last_app_cons {A} (l1 l2 : list A) x : last (l1 ++ x :: l2) = last (x :: l2).
Proof. rewrite last_app. destruct (last (x :: l2)) eqn:E; [done|]. by apply last_None in E. Qed.
Lemma head_app_cons {A} (l1 l2 : list A) x : head ((x :: l1) ++ l2) = Some x.
Proof. done. Qed.

Lemma dll_remove h f l l1 x l2 :
  dll h f l (l1 ++ x :: l2) →
  dll (unlink h x (last l1) (head l2))
      (match last l1 with Some _ => f | None => head l2 end)
      (match head l2 with Some _ => l | None => last l1 end) (l1 ++ l2).
Proof.
  intros Hd. pose proof (dll_first _ _ _ _ Hd) as ->. pose proof (dll_last _ _ _ _ Hd) as ->.
  pose proof (dll_NoDup _ _ _ _ Hd) as (Hn1 & Hn12 & Hn2)%NoDup_app.
  apply NoDup_cons in Hn2 as [Hx Hn2].
  apply dll_intro.
  - destruct l1 as [|a l1] using rev_ind; [done|]. rewrite last_snoc. by destruct l1.
  - destruct l2 as [|b l2]; simpl; [by rewrite app_nil_r|]. by rewrite !last_app_cons.
  - assert (∀ c k b, l2 = c ++ k :: b → ∃ n, unlink h x (last l1) (head l2) !! k = Some n ∧
      prev n = last (l1 ++ c) ∧ next n = head b) as HB.
    { intros c k b ->.
      rewrite (app_comm_cons c (k :: b) x), app_assoc in Hd.
      destruct (dll_links _ _ _ _ _ _ Hd) as (n & Hn & Hp & Hnx).
      assert (k ≠ x) as Hkx by set_solver.
      assert (last l1 ≠ Some k) as Hkl by (intros ?%last_elem; set_solver).
      destruct c as [|y c]; simpl.
      - rewrite unlink_next, Hn by done. eexists. split; [done|].
        by rewrite prev_set_prev, next_set_prev, app_nil_r.
      - exists n. apply NoDup_app in Hn2 as (_ & Hn2 & _).
        rewrite unlink_other; [|done..|intros [= ->]; set_solver].
        split; [done|]. split; [|done]. rewrite Hp. by rewrite !last_app_cons. }
    intros a k b Heq. apply app_eq_inv in Heq as [(c & -> & Heq)|(c & -> & Heq)].
    + destruct c as [|k' c]; simplify_eq/=.
      { destruct (HB [] k b) as (n & ? & ? & ?); [done|]. exists n.
        by rewrite ?app_nil_r in *. }
      rewrite <-app_assoc in Hd. simpl in Hd.
      destruct (dll_links _ _ _ _ _ _ Hd) as (n & Hn & Hp & Hnx).
      assert (head l2 ≠ Some k') as Hkl by (intros ?%head_elem; set_solver).
      assert (k' ≠ x) by set_solver.
      destruct c as [|y c]; simpl.
      * rewrite last_snoc, unlink_prev, Hn by done. eexists. split; [done|].
        by rewrite prev_set_next, next_set_next.
      * exists n. rewrite unlink_other; [done..| |done].
        rewrite last_app_cons. intros Hl. change (k' :: y :: c) with ([k'] ++ y :: c) in Hl.
        rewrite last_app_cons in Hl. apply last_elem in Hl.
        apply NoDup_app in Hn1 as (_ & _ & Hn1). apply NoDup_cons in Hn1. tauto.
    + destruct (HB c k b) as (n & Hn); [done|]. by exists n.
Qed.
End dll.
