(* ===== verification/Threads.v ===== *)
(** Threads: programs whose atomic actions interleave, the step relation of a
    set of threads over a shared state, and a rely/guarantee logic for it. Each
    C function that other threads can overlap with is such a program; one that
    runs alone is its sequential run [run]. *)
From S2P Require Import Prelude.
From Stdlib Require Import FunctionalExtensionality.

(** * Programs

    A program is a sequence of atomic actions on the shared state. An action is
    one access of the source: a load, a store, a lock operation. [Loop] is a C
    loop: the body either goes round with a new loop state or leaves with a
    result. *)
Inductive prog (S A : Type) : Type :=
  | Ret (a : A)
  | Act {B : Type} (m : C S B) (k : B → prog S A)
  | Loop {X Y : Type} (body : X → prog S (X + Y)) (x : X) (k : Y → prog S A).
Arguments Ret {S A} a.
Arguments Act {S A B} m k.
Arguments Loop {S A X Y} body x k.

Fixpoint pbind {S A B} (p : prog S A) (f : A → prog S B) : prog S B :=
  match p with
  | Ret a => f a
  | Act m k => Act m (λ b, pbind (k b) f)
  | Loop body x k => Loop body x (λ y, pbind (k y) f)
  end.

#[export] Instance prog_ret S : MRet (prog S) := λ A a, Ret a.
#[export] Instance prog_bind S : MBind (prog S) := λ A B f p, pbind p f.

(** Sequencing is associative; equality of programs is that of their
    continuations as functions. *)
Lemma pbind_assoc {S A B D} (p : prog S A) (f : A → prog S B) (g : B → prog S D) :
  pbind (pbind p f) g = pbind p (λ a, pbind (f a) g).
Proof.
  revert f. induction p as [a|A B' m k IH|A X Y body _ x k IH]; intros f; simpl; [done|..];
    f_equal; apply functional_extensionality; intros b; apply IH.
Qed.
Lemma pbind_ret_r {S A} (p : prog S A) : pbind p Ret = p.
Proof.
  induction p as [a|A B m k IH|A X Y body _ x k IH]; simpl; [done|..];
    f_equal; apply functional_extensionality; intros b; apply IH.
Qed.
Lemma bind_assoc_prog {S A B D} (p : prog S A) (f : A → prog S B) (g : B → prog S D) :
  (p ≫= f) ≫= g = p ≫= (λ a, f a ≫= g).
Proof. apply pbind_assoc. Qed.

Ltac assoc := rewrite ?bind_assoc_prog.

(** One atomic action as a program *)
Definition atomic {S A} (m : C S A) : prog S A := Act m Ret.

(** [while (1) body] with a loop state *)
Definition forever {S X} (body : X → prog S X) (x : X) : prog S unit :=
  Loop (λ x, pbind (body x) (λ x', Ret (inl x' : X + unit))) x Ret.

(** The next program of a thread, and the state it leaves *)
Definition prog_step {S A} (p : prog S A) : C S (prog S A) := λ t s,
  match p with
  | Ret a => Blocked
  | Act m k => match m t s with Ok b s' => Ok (k b) s' | Blocked => Blocked | Fault e => Fault e end
  | Loop body x k =>
      Ok (pbind (body x) (λ r, match r with inl x' => Loop body x' k | inr y => k y end)) s
  end.

(** At most [n] rounds of a loop *)
Fixpoint rounds {S X Y} (body : X → C S (X + Y)) (n : nat) (x : X) : C S Y :=
  match n with
  | O => fail OutOfFuel
  | Datatypes.S n' =>
      body x ≫= (λ r, match r with inl x' => rounds body n' x' | inr y => mret y end)
  end.

(** The program run alone, with at most [fuel] rounds of each of its loops. *)
Fixpoint run {S A} (fuel : nat) (p : prog S A) : C S A :=
  match p with
  | Ret a => mret a
  | Act m k => m ≫= (λ b, run fuel (k b))
  | Loop body x k => rounds (λ x, run fuel (body x)) fuel x ≫= (λ y, run fuel (k y))
  end.

(** * Interleavings *)

Section interleaving.
Context {S : Type}.
Implicit Types (s : S) (ths : list (prog S unit)).

(** A configuration: the shared state and what is left of each thread *)
Definition config : Type := S * list (prog S unit).

Inductive step : config → config → Prop :=
  | step_thread s ths i p p' s' :
      ths !! i = Some p → prog_step p i s = Ok p' s' →
      step (s, ths) (s', <[i := p']> ths).

Definition steps : config → config → Prop := rtc step.

(** Some thread is about to run into a fault. *)
Definition faulty (c : config) (e : fault) : Prop :=
  ∃ i p, snd c !! i = Some p ∧ prog_step p i (fst c) = Fault e.

(** No thread can run. *)
Definition stuck (c : config) : Prop :=
  ∀ i p, snd c !! i = Some p → prog_step p i (fst c) = Blocked.

(** A schedule is the list of threads that run, in order; a thread that cannot
    run is passed over. *)
Fixpoint run_schedule (sched : list nat) (c : config) : config + fault :=
  match sched with
  | [] => inl c
  | i :: sched' =>
      match snd c !! i with
      | None => run_schedule sched' c
      | Some p =>
          match prog_step p i (fst c) with
          | Ok p' s' => run_schedule sched' (s', <[i := p']> (snd c))
          | Blocked => run_schedule sched' c
          | Fault e => inr e
          end
      end
  end.

Lemma run_schedule_steps sched c c' : run_schedule sched c = inl c' → steps c c'.
Proof.
  revert c. induction sched as [|i sched IH]; intros [s ths]; simpl.
  { intros [= ->]. constructor. }
  destruct (ths !! i) as [p|] eqn:Hp; [|by apply IH].
  destruct (prog_step p i s) as [p' s'| |e] eqn:Hs; [|by apply IH|done].
  intros Hr. eapply rtc_l; [by econstructor|]. by apply IH.
Qed.

(** The same, for what a computation shows of the end *)
Lemma run_schedule_ends (P : config → Prop) sched c :
  match run_schedule sched c with inl c' => P c' | inr _ => False end → ∃ c', steps c c' ∧ P c'.
Proof.
  destruct (run_schedule sched c) as [c'|] eqn:E; [|done]. intros HP. exists c'. split; [|done].
  by eapply run_schedule_steps.
Qed.

Lemma run_schedule_faulty sched c e : run_schedule sched c = inr e →
  ∃ c', steps c c' ∧ faulty c' e.
Proof.
  revert c. induction sched as [|i sched IH]; intros [s ths]; simpl; [done|].
  destruct (ths !! i) as [p|] eqn:Hp; [|by apply IH].
  destruct (prog_step p i s) as [p' s'| |e'] eqn:Hs; [|by apply IH|].
  - intros Hr. destruct (IH _ Hr) as (c' & Hc & Hf). exists c'. split; [|done].
    eapply rtc_l; [by econstructor|done].
  - intros [= ->]. exists (s, ths). split; [constructor|]. by exists i, p.
Qed.

Lemma steps_length c c' : steps c c' → length (snd c') = length (snd c).
Proof.
  induction 1 as [|c1 c2 c3 Hs _ IH]; [done|]. rewrite IH. destruct Hs. simpl. by rewrite length_insert.
Qed.

(** One of the first [n] threads can take a step or is about to fault. *)
Definition can_move (n : nat) (c : config) : Prop :=
  ∃ i p, i < n ∧ snd c !! i = Some p ∧ prog_step p i (fst c) ≠ Blocked.

Lemma can_move_or_blocked n c : n ≤ length (snd c) →
  can_move n c ∨ ∀ i p, i < n → snd c !! i = Some p → prog_step p i (fst c) = Blocked.
Proof.
  induction n as [|n IH]; intros Hn; [right; lia|].
  destruct IH as [(i & p & Hi & Hp)|Hall]; [lia|left; exists i, p; split; [lia|done]|].
  destruct (lookup_lt_is_Some_2 (snd c) n) as [p Hp]; [lia|].
  destruct (prog_step p n (fst c)) as [p' s'| |e] eqn:E.
  - left. exists n, p. split_and!; [lia|done|by rewrite E].
  - right. intros i q Hi Hq. destruct (decide (i = n)) as [->|]; [congruence|]. apply Hall; [lia|done].
  - left. exists n, p. split_and!; [lia|done|by rewrite E].
Qed.

(** The first [n] threads have returned. *)
Definition finished (n : nat) (ths : list (prog S unit)) : Prop :=
  ∀ i, i < n → ths !! i = Some (Ret tt).

(** The same for the threads in [P] *)
Lemma one_moves_or_blocked (P : nat → Prop) `{∀ i, Decision (P i)} n (c : config) : n ≤ length (snd c) →
  (∃ i p, P i ∧ snd c !! i = Some p ∧ prog_step p i (fst c) ≠ Blocked) ∨
  ∀ i p, i < n → P i → snd c !! i = Some p → prog_step p i (fst c) = Blocked.
Proof.
  induction n as [|n IH]; intros Hn; [right; lia|]. destruct IH as [|Hall]; [lia|by left|].
  destruct (lookup_lt_is_Some_2 (snd c) n) as [p Hp]; [lia|].
  destruct (decide (P n)) as [HPn|HPn].
  - destruct (prog_step p n (fst c)) as [p' s'| |e] eqn:E; [left; exists n, p; by rewrite E| |left; exists n, p; by rewrite E].
    right. intros i q Hi HPi Hq. destruct (decide (i = n)) as [->|]; [congruence|]. apply Hall; [lia|done..].
  - right. intros i q Hi HPi Hq. apply Hall; [|done..]. assert (i ≠ n) by congruence. lia.
Qed.

Lemma can_move_intro n c : n ≤ length (snd c) →
  ¬ (∀ i p, i < n → snd c !! i = Some p → prog_step p i (fst c) = Blocked) → can_move n c.
Proof. intros Hn Hb. by destruct (can_move_or_blocked n c Hn). Qed.
End interleaving.
Arguments config S : clear implicits.

(** * Rely and guarantee *)

(** What thread [i] expects of the steps of the others ([R i]), and an invariant
    [I] every step keeps; [okf] are the faults the program may run into, [wt i]
    the states in which thread [i] may have to wait, [fin i] those in which it
    may have finished. *)
Class RG (S : Type) := {
  I : S → Prop;
  R : nat → S → S → Prop;
  okf : fault → Prop;
  wt : nat → S → Prop;
  fin : nat → S → Prop;
  R_refl i s : R i s s;
  R_trans i s1 s2 s3 : R i s1 s2 → R i s2 s3 → R i s1 s3;
}.

Section rely_guarantee.
Context {S : Type} `{RG S}.
Implicit Types (s : S) (n : nat).

(** A step of thread [i] is one every other thread expects. *)
Definition G (i : nat) (s s' : S) : Prop := ∀ j, j ≠ i → R j s s'.

(** For [n] steps of thread [i], and whatever the others do in between as
    relied on: no fault other than [okf], the invariant kept, the guarantee
    given, no waiting but where [wt] allows it. *)
Fixpoint safe (n : nat) (i : nat) (p : prog S unit) (s : S) : Prop :=
  match n with
  | O => True
  | Datatypes.S n' => ∀ s1, I s1 → R i s s1 →
      match prog_step p i s1 with
      | Ok p' s2 => I s2 ∧ G i s1 s2 ∧ safe n' i p' s2
      | Blocked => match p with Ret _ => fin i s1 | _ => wt i s1 end
      | Fault e => okf e
      end
  end.

Lemma safe_rely n i p s s' : safe n i p s → R i s s' → safe n i p s'.
Proof.
  destruct n; simpl; [done|]. intros Hs HR s1 HI HR1. apply Hs; [done|]. by eapply R_trans.
Qed.

Lemma safe_mono n m i p s : safe n i p s → m ≤ n → safe m i p s.
Proof.
  revert m p s. induction n as [|n IH]; intros [|m] p s Hs Hm; simpl in *; try done; [lia|].
  intros s1 HI HR. specialize (Hs s1 HI HR). destruct (prog_step p i s1); try done.
  destruct Hs as (? & ? & ?). split; [done|]. split; [done|]. apply IH; [done|lia].
Qed.

Lemma safe_ret n i s a : (∀ s1, I s1 → R i s s1 → fin i s1) → safe n i (Ret a) s.
Proof. intros Hf. by destruct n. Qed.

(** The state the program starts from is one where the invariant holds. *)
Lemma safe_here n i p s : (∀ s', I s' → R i s s' → safe n i p s') → safe n i p s.
Proof. intros Hs. destruct n as [|n]; [done|]. intros s1 HI HR. by apply (Hs s1 HI HR s1 HI), R_refl. Qed.

Lemma safe_act {B} n i (m : C S B) k s :
  (∀ s1, I s1 → R i s s1 →
     match m i s1 with
     | Ok b s2 => I s2 ∧ G i s1 s2 ∧ safe n i (k b) s2
     | Blocked => wt i s1
     | Fault e => okf e
     end) →
  safe (Datatypes.S n) i (Act m k) s.
Proof.
  intros Hm s1 HI HR. simpl. specialize (Hm s1 HI HR). by destruct (m i s1).
Qed.

(** Arithmetic on the thread's own variables *)
Lemma safe_signed_add n i mx a b s (k : Z → prog S unit) : okf Overflow →
  (∀ m s', m ≤ n → I s' → R i s s' → safe m i (k (a + b)%Z) s') →
  safe n i (pbind (atomic (signed_add mx a b)) k) s.
Proof.
  intros Hov Hk. destruct n as [|n]; [done|]. apply safe_act. intros s1 HI HR.
  unfold signed_add. destruct (decide _); [|done].
  split; [done|]. split; [intros j _; apply R_refl|]. apply Hk; [lia|done..].
Qed.

(** A loop is safe if one round is, from a loop invariant [J] the others keep. *)
Lemma safe_loop {X Y} (J : X → S → Prop) n i (body : X → prog S (X + Y)) k x s :
  (∀ x s s', J x s → R i s s' → I s' → J x s') →
  (∀ n' x s, n' < n → J x s → (∀ m x s, m ≤ n' → J x s → safe m i (Loop body x k) s) →
     safe n' i (pbind (body x) (λ r, match r with inl x' => Loop body x' k | inr y => k y end)) s) →
  J x s → safe n i (Loop body x k) s.
Proof.
  intros Hst. revert x s. induction n as [n IH] using lt_wf_ind; intros x s Hbody HJ.
  destruct n as [|n]; [done|]. intros s1 HI HR. simpl. split; [done|].
  split; [intros j _; apply R_refl|]. apply Hbody; [lia|by eapply Hst|].
  intros m x' s' Hm HJ'. apply IH; [lia| |done].
  intros n' y s'' Hn'. apply Hbody. lia.
Qed.

(** All threads safe: nothing reachable is faulty or breaks the invariant. *)
Definition all_safe (c : config S) : Prop :=
  I (fst c) ∧ ∀ n i p, snd c !! i = Some p → safe n i p (fst c).

Lemma all_safe_step c c' : all_safe c → step c c' → all_safe c'.
Proof.
  intros [HI Hs] Hstep. destruct Hstep as [s ths i p p' s' Hp Hps]. simpl in *.
  assert (∀ n, I s' ∧ G i s s' ∧ safe n i p' s') as Hi.
  { intros n. specialize (Hs (Datatypes.S n) i p Hp s HI (R_refl i s)). by rewrite Hps in Hs. }
  destruct (Hi 0) as (HI' & HG & _). split; [done|].
  intros n j q Hq. simpl in *. destruct (decide (i = j)) as [<-|Hne].
  - rewrite list_lookup_insert_eq in Hq by (by eapply lookup_lt_Some).
    simplify_eq. by destruct (Hi n) as (_ & _ & ?).
  - rewrite list_lookup_insert_ne in Hq by done. eapply safe_rely; [by apply Hs|]. by apply HG.
Qed.

Lemma all_safe_steps c c' : all_safe c → steps c c' → all_safe c'.
Proof. intros Hc Hs. induction Hs; [done|]. eauto using all_safe_step. Qed.

(** Soundness: the invariant holds of every reachable configuration, no thread
    runs into a fault that is not expected, and one that cannot run has finished
    or waits where it may. *)
Lemma rg_sound c c' : all_safe c → steps c c' →
  I (fst c') ∧ (∀ e, faulty c' e → okf e) ∧
  ∀ i p, snd c' !! i = Some p → prog_step p i (fst c') = Blocked →
    match p with Ret _ => fin i (fst c') | _ => wt i (fst c') end.
Proof.
  intros Hc Hs. destruct (all_safe_steps _ _ Hc Hs) as [HI Hsafe]. split; [done|]. split.
  - intros e (i & p & Hp & He). specialize (Hsafe 1 i p Hp (fst c') HI (R_refl _ _)).
    by rewrite He in Hsafe.
  - intros i p Hp Hb. specialize (Hsafe 1 i p Hp (fst c') HI (R_refl _ _)). by rewrite Hb in Hsafe.
Qed.
End rely_guarantee.


(** * Programs that run alone *)

Lemma run_bind {S A B} n (p : prog S A) (f : A → prog S B) :
  run n (pbind p f) ≡ run n p ≫= (λ a, run n (f a)).
Proof.
  revert f. induction p as [a|A B' m k IH|A X Y body IHb x k IHk]; intros f; cbn [run pbind].
  - by rewrite bind_ret_l.
  - rewrite bind_assoc. apply C_bind_proper; [|done]. intros b. apply IH.
  - rewrite bind_assoc. apply C_bind_proper; [|done]. intros y. apply IHk.
Qed.

Lemma run_bind_ok {S A B} n (p : prog S A) (f : A → prog S B) t s a s' :
  run n p t s = Ok a s' → run n (p ≫= f) t s = run n (f a) t s'.
Proof. intros Hp. etransitivity; [apply (run_bind n p f t s)|]. by apply (bind_ok (run n p) (λ a, run n (f a))). Qed.

Lemma run_atomic {S A} n (m : C S A) t s : run n (atomic m) t s = m t s.
Proof. simpl. unfold mbind, C_bind. by destruct (m t s). Qed.

(** What a thread run alone does is what its steps do when it is scheduled
    without interruption, whatever comes after. *)
Inductive alone {S A} (t : tid) : prog S A → S → prog S A → S → Prop :=
  | alone_refl p s : alone t p s p s
  | alone_step p s p1 s1 p2 s2 :
      prog_step p t s = Ok p1 s1 → alone t p1 s1 p2 s2 → alone t p s p2 s2.

Lemma alone_trans {S A} t (p1 p2 p3 : prog S A) s1 s2 s3 :
  alone t p1 s1 p2 s2 → alone t p2 s2 p3 s3 → alone t p1 s1 p3 s3.
Proof. induction 1; [done|]. intros. eapply alone_step; eauto. Qed.

Lemma run_alone {S A B} n (p : prog S A) (f : A → prog S B) t s a s' :
  run n p t s = Ok a s' → alone t (pbind p f) s (f a) s'.
Proof.
  revert f s a s'. induction p as [a0|A B' m k IH|A X Y body IHb x k IHk]; intros f s res s'; cbn [run pbind].
  - intros [= -> ->]. constructor.
  - intros (b & s1 & Hm & Hk)%bind_ok_inv.
    eapply alone_step; [cbn [prog_step]; by rewrite Hm|]. by apply IH.
  - intros (y & s1 & Hr & Hk)%bind_ok_inv. eapply alone_trans; [|by apply IHk]. clear Hk.
    revert x s Hr. generalize n at 2. intros r. induction r as [|r IHr]; intros x s; [done|].
    intros (z & s2 & Hb & Hr)%bind_ok_inv.
    eapply alone_step; [done|]. eapply alone_trans; [by apply IHb|].
    destruct z as [x'|z]; [by apply IHr|]. unfold mret, C_ret in Hr. simplify_eq. constructor.
Qed.

(** Every access of a program is as [P] allows. *)
Fixpoint keeps {S A} (P : S → S → Prop) (i : nat) (p : prog S A) : Prop :=
  match p with
  | Ret _ => True
  | Act m k => (∀ s b s', m i s = Ok b s' → P s s') ∧ ∀ b, keeps P i (k b)
  | Loop body _ k => (∀ x, keeps P i (body x)) ∧ ∀ y, keeps P i (k y)
  end.

Lemma keeps_any {S A} i (p : prog S A) : keeps (λ _ _, True) i p.
Proof. by induction p; simpl. Qed.
Lemma keeps_bind {S A B} P i (p : prog S A) (f : A → prog S B) :
  keeps P i p → (∀ a, keeps P i (f a)) → keeps P i (p ≫= f).
Proof.
  unfold mbind, prog_bind. revert f.
  induction p as [a|A B' m k IH|A X Y body IHb x k IHk]; intros f Hp Hf; simpl in *; [done| |].
  - destruct Hp. split; [done|]. intros b. by apply IH.
  - destruct Hp. split; [done|]. intros y. by apply IHk.
Qed.

(** ** From one rely/guarantee argument to another *)

(** A thread safe among the threads of [H1] is safe among those of [H2], and goes
    on with [k] where it would have returned, if the states in [J] make the steps
    of [H2] steps of [H1] and those of this thread, as [P] has them, the other way
    round. *)
Lemma safe_transfer {S} (H1 H2 : RG S) (J : S → Prop) (P : S → S → Prop) n i (p : prog S unit) k s :
  (∀ s s', J s → R (RG:=H2) i s s' → I (RG:=H2) s' → J s' ∧ R (RG:=H1) i s s' ∧ I (RG:=H1) s') →
  (∀ s s', J s → I (RG:=H2) s → I (RG:=H1) s' → G (H:=H1) i s s' → P s s' →
     J s' ∧ I (RG:=H2) s' ∧ G (H:=H2) i s s') →
  (∀ e, okf (RG:=H1) e → okf (RG:=H2) e) → (∀ s, J s → wt (RG:=H1) i s → wt (RG:=H2) i s) →
  (∀ s, P s s) →
  J s → keeps P i p → safe (H:=H1) n i p s →
  (∀ m s', m ≤ n → J s' → fin (RG:=H1) i s' → safe (H:=H2) m i (k tt) s') →
  safe (H:=H2) n i (pbind p k) s.
Proof.
  intros Hin Hout Hok Hwt HP. revert p s. induction n as [|n IH]; intros p s HJ Hkp Hs Hk; [done|].
  destruct p as [[]|B m f|X Y body x f].
  - apply safe_here. intros s1 HI2 HR2. destruct (Hin s s1 HJ HR2 HI2) as (HJ1 & HR1 & HI1).
    apply Hk; [done|done|]. by apply (Hs s1 HI1 HR1).
  - intros s1 HI2 HR2. destruct (Hin s s1 HJ HR2 HI2) as (HJ1 & HR1 & HI1).
    specialize (Hs s1 HI1 HR1). destruct Hkp as [Hm Hf]. simpl in *. specialize (Hm s1).
    destruct (m i s1) as [b s2| |e]; [|by apply Hwt|by apply Hok]. specialize (Hm b s2 eq_refl).
    destruct Hs as (HI' & HG' & Hs). destruct (Hout s1 s2) as (HJ2 & HI2' & HG2); [done..|].
    split; [done|]. split; [done|]. apply IH; [done|done|done|]. intros m' s' Hm'. apply Hk. lia.
  - intros s1 HI2 HR2. destruct (Hin s s1 HJ HR2 HI2) as (HJ1 & HR1 & HI1).
    specialize (Hs s1 HI1 HR1). destruct Hkp as [Hb Hf]. simpl in *.
    destruct Hs as (HI' & HG' & Hs). destruct (Hout s1 s1) as (HJ2 & HI2' & HG2); [done..|].
    split; [done|]. split; [done|].
    assert (∀ r, pbind match r with inl x' => Loop body x' f | inr y => f y end k =
      match r with inl x' => Loop body x' (λ y, pbind (f y) k) | inr y => pbind (f y) k end) as Heq by (by intros []).
    replace (pbind (body x) _) with (pbind (pbind (body x)
      (λ r, match r with inl x' => Loop body x' f | inr y => f y end)) k).
    2:{ rewrite pbind_assoc. f_equal. apply functional_extensionality. apply Heq. }
    apply IH; [done| |done|].
    + apply keeps_bind; [done|]. intros []; [by split|done].
    + intros m' s' Hm'. apply Hk. lia.
Qed.

(** A stretch in which no other thread does anything runs as if alone. *)
Lemma safe_alone {S A} `{RG S} (E : S → Prop) (P : S → S → Prop) n i fuel (p : prog S A) k s a s' :
  (∀ s s', E s → R i s s' → I s' → s' = s) →
  (∀ s s', E s → I s → P s s' → E s' ∧ I s' ∧ G i s s') →
  E s → keeps P i p → run fuel p i s = Ok a s' →
  (∀ m, m ≤ n → E s' → safe m i (k a) s') → safe n i (pbind p k) s.
Proof.
  intros Hst Hact. revert n k s a s'.
  induction p as [a|B C m f IH|A X Y body IHb x f IHf]; intros n k s res s' HE Hk Hr Hc.
  - injection Hr as -> ->. by apply Hc.
  - destruct n as [|n]; [done|]. destruct Hk as [Hm Hf]. apply bind_ok_inv in Hr as (b & s1 & Hb & Hr).
    apply safe_act. intros s2 HI HR. assert (s2 = s) as -> by auto. rewrite Hb.
    destruct (Hact s s1 HE HI (Hm _ _ _ Hb)) as (HE1 & HI1 & HG1). split; [done|]. split; [done|].
    eapply IH; [done|done|done|]. intros m' Hm'. apply Hc. lia.
  - destruct Hk as [Hb Hf]. apply bind_ok_inv in Hr as (y & s1 & Hr & Hf').
    assert (∀ r n x s, E s → rounds (λ x, run fuel (body x)) r x i s = Ok y s1 →
      (∀ m, m ≤ n → E s1 → safe m i (pbind (f y) k) s1) →
      safe n i (Loop body x (λ y, pbind (f y) k)) s) as Hloop; [|eapply Hloop; [done..|]].
    { clear - Hst Hact Hb IHb. induction r as [|r IHr]; intros n x s HE Hr Hc; [done|].
      apply bind_ok_inv in Hr as (z & s2 & Hz & Hr). destruct n as [|n]; [done|].
      intros s3 HI HR. assert (s3 = s) as -> by auto. simpl. split; [done|].
      split; [intros j _; apply R_refl|]. eapply IHb; [done|done|done|]. intros m Hm HE2. destruct z as [x'|y'].
      - apply IHr; [done|done|]. intros m' Hm'. apply Hc. lia.
      - injection Hr as -> ->. apply Hc; [lia|done]. }
    intros m Hm HE1. eapply IHf; [done|done|done|]. intros m' Hm'. apply Hc. lia.
Qed.

(** The program on one part of a larger state *)
Section lift.
Context {S T : Type} (part : T → S) (put : S → T → T).

Definition lift_act {A} (m : C S A) : C T A := λ t s,
  match m t (part s) with
  | Ok a c => Ok a (put c s)
  | Blocked => Blocked
  | Fault e => Fault e
  end.

Fixpoint lift {A} (p : prog S A) : prog T A :=
  match p with
  | Ret a => Ret a
  | Act m k => Act (lift_act m) (λ b, lift (k b))
  | Loop body x k => Loop (λ x, lift (body x)) x (λ y, lift (k y))
  end.

Lemma run_lift {A} n (p : prog S A) t s
  (put_part : ∀ s, put (part s) s = s) (part_put : ∀ c s, part (put c s) = c)
  (put_put : ∀ c c' s, put c (put c' s) = put c s) :
  run n (lift p) t s = lift_act (run n p) t s.
Proof.
  revert s. induction p as [a|A B m k IH|A X Y body IHb x k IHk]; intros s; cbn [run lift].
  - unfold lift_act, mret, C_ret. by rewrite put_part.
  - unfold mbind, C_bind, lift_act. destruct (m t (part s)); [|done..].
    rewrite IH. unfold lift_act. rewrite part_put. destruct (run _ _ _ _); [|done..].
    by rewrite put_put.
  - assert (∀ r s, rounds (λ x, run n (lift (body x))) r x t s =
              lift_act (rounds (λ x, run n (body x)) r x) t s) as Hr.
    { clear s. intros r. revert x. induction r as [|r IHr]; intros x s; [done|].
      cbn [rounds]. unfold mbind, C_bind, lift_act. rewrite IHb. unfold lift_act.
      destruct (run n (body x) t (part s)) as [[x'|y] c| |]; [| |done..].
      - rewrite IHr. unfold lift_act. rewrite part_put.
        destruct (rounds _ _ _ _ _); [by rewrite put_put|done..].
      - done. }
    unfold mbind, C_bind. rewrite Hr. unfold lift_act.
    destruct (rounds _ _ _ _ _); [|done..]. rewrite IHk. unfold lift_act. rewrite part_put.
    destruct (run _ _ _ _); [by rewrite put_put|done..].
Qed.

Lemma lift_bind {A B} (p : prog S A) (f : A → prog S B) :
  lift (pbind p f) = pbind (lift p) (λ a, lift (f a)).
Proof.
  revert f. induction p as [a|A B' m k IH|A X Y body _ x k IH]; intros f; simpl; [done|..];
    f_equal; apply functional_extensionality; intros b; apply IH.
Qed.
Lemma keeps_lift {A} (Q : S → S → Prop) (P : T → T → Prop) i (p : prog S A) :
  (∀ c s, Q (part s) c → P s (put c s)) → keeps Q i p → keeps P i (lift p).
Proof.
  intros HP. induction p as [a|A B m k IH|A X Y body IHb x k IHk]; simpl; [done|..]; intros [Hm Hk].
  - split; [|by auto]. intros s b s'. unfold lift_act. specialize (Hm (part s)).
    destruct (m i (part s)) as [b' c| |]; [|done..]. intros [= _ <-]. by eapply HP, Hm.
  - split; auto.
Qed.
End lift.

(** Parts of parts *)
Lemma lift_lift {S T U A} (part : T → S) (put : S → T → T) (part' : U → T) (put' : T → U → U) (p : prog S A) :
  lift part' put' (lift part put p) = lift (λ u, part (part' u)) (λ s u, put' (put s (part' u)) u) p.
Proof.
  induction p as [a|A B m k IH|A X Y body IHb x k IHk]; simpl; [done|..].
  - f_equal; [|by apply functional_extensionality].
    apply functional_extensionality. intros t. apply functional_extensionality. intros u.
    unfold lift_act. by destruct (m t _).
  - f_equal; by apply functional_extensionality.
Qed.
