(* ===== verification/Pthread.v ===== *)
(** Pthread: the synchronisation objects of POSIX the programs use, as what one
    call on the object does: mutexes, condition variables, semaphores and
    read-write locks. *)
From S2P Require Import Prelude Threads.

(** * Mutexes *)

(** A mutex is the thread that holds it. *)
Abbreviation mutex := (option tid).

Definition mutex_lock : C mutex unit := λ t m,
  match m with None => Ok tt (Some t) | Some _ => Blocked end.
Definition mutex_unlock : C mutex unit := λ t m,
  if decide (m = Some t) then Ok tt None else Fault BadUnlock.

(** * Semaphores *)

Definition sem_wait : C Z unit := λ _ v,
  if decide (0 < v)%Z then Ok tt (v - 1)%Z else Blocked.
Definition sem_post : C Z unit := λ _ v, Ok tt (v + 1)%Z.

(** * Condition variables *)

(** The threads that wait, the longest waiting first. A thread that waits gives
    up the mutex in the same step, is blocked until a signal takes it off the
    list, and then locks the mutex again. *)
Record monitor := Monitor { held : mutex; waiting : list (list tid) }.

Definition cond_enter (cv : nat) : C monitor unit := λ t m,
  if decide (held m = Some t) then
    Ok tt (Monitor None (alter (λ w, w ++ [t]) cv (waiting m)))
  else Fault BadUnlock.
Definition cond_block (cv : nat) : C monitor unit := λ t m,
  match waiting m !! cv with
  | Some w => if decide (t ∈ w) then Blocked else Ok tt m
  | None => Fault OutOfBounds
  end.
Definition cond_signal (cv : nat) : C monitor unit := λ t m,
  Ok tt (Monitor (held m) (alter tail cv (waiting m))).
Definition cond_broadcast (cv : nat) : C monitor unit := λ t m,
  Ok tt (Monitor (held m) (alter (λ _, []) cv (waiting m))).
Definition monitor_lock : C monitor unit := λ t m,
  match mutex_lock t (held m) with
  | Ok _ h => Ok tt (Monitor h (waiting m)) | Blocked => Blocked | Fault e => Fault e
  end.
Definition monitor_unlock : C monitor unit := λ t m,
  match mutex_unlock t (held m) with
  | Ok _ h => Ok tt (Monitor h (waiting m)) | Blocked => Blocked | Fault e => Fault e
  end.

(** * Objects inside of structs *)

(** The object of the struct at [p]; none once the struct is freed. *)
Definition at_ptr {Y A} (p : ptr) (m : C Y A) : C (gmap positive Y) A := λ t ys,
  match p with
  | Some l =>
      match ys !! l with
      | Some y =>
          match m t y with
          | Ok a y' => Ok a (<[l := y']> ys)
          | Blocked => Blocked
          | Fault e => Fault e
          end
      | None => Fault Segv
      end
  | None => Fault Segv
  end.

Definition init_at {Y} (p : ptr) (y : Y) : C (gmap positive Y) unit := λ _ ys,
  match p with Some l => Ok tt (<[l := y]> ys) | None => Fault Segv end.
Definition free_at {Y} (p : ptr) : C (gmap positive Y) unit := λ _ ys,
  match p with Some l => Ok tt (delete l ys) | None => Fault Segv end.

(** * Read-write locks *)

(** The thread that writes, and those that read *)
Record rwlock := RWLock { rw_writer : option tid; rw_readers : list tid }.

Definition rwlock_rdlock : C rwlock unit := λ t k,
  match rw_writer k with
  | None => Ok tt (RWLock None (t :: rw_readers k))
  | Some _ => Blocked
  end.
Definition rwlock_wrlock : C rwlock unit := λ t k,
  match rw_writer k, rw_readers k with
  | None, [] => Ok tt (RWLock (Some t) [])
  | _, _ => Blocked
  end.
(** One of the locks [t] holds for reading *)
Fixpoint remove_reader (t : tid) (r : list tid) : option (list tid) :=
  match r with
  | [] => None
  | i :: r' => if decide (i = t) then Some r' else (i ::.) <$> remove_reader t r'
  end.
Definition rwlock_unlock : C rwlock unit := λ t k,
  if decide (rw_writer k = Some t) then Ok tt (RWLock None (rw_readers k)) else
  match remove_reader t (rw_readers k) with
  | Some r => Ok tt (RWLock (rw_writer k) r)
  | None => Fault BadUnlock
  end.
