(* ===== verification/CString.v ===== *)
(** Characters, strings and character arrays: the functions of [string.h] and
    [stdio.h] that the program calls, over lists of character codes 0..255. A
    list stands for memory from a pointer on; a string stops at its first NUL. *)
From stdpp Require Import pretty.
From S2P Require Import Prelude.
#[local] Open Scope Z_scope.

Abbreviation bytes := (list Z) (only parsing).

(** String literals of the source *)
Definition lit (s : string) : list Z :=
  (λ a, Z.of_N (Ascii.N_of_ascii a)) <$> String.list_ascii_of_string s.

Definition NUL : Z := 0.
Definition CR : Z := 13.
Definition LF : Z := 10.

(** * Strings in memory *)

(** The characters before the terminator *)
Fixpoint cstr (buf : list Z) : list Z :=
  match buf with
  | [] => []
  | c :: buf' => if decide (c = NUL) then [] else c :: cstr buf'
  end.

(** The string a pointer to offset [off] of the array [buf] denotes; [None] when
    no terminator is met inside of the array. *)
Definition str_at (buf : list Z) (off : nat) : option (list Z) :=
  let tail := drop off buf in
  if decide (NUL ∈ tail) then Some (cstr tail) else None.

Definition no_nul (s : list Z) : Prop := Forall (λ c, c ≠ NUL) s.

#[export] Instance no_nul_dec s : Decision (no_nul s).
Proof. unfold no_nul. apply _. Defined.

(** * Searching *)

Fixpoint starts_with (needle hay : list Z) : bool :=
  match needle, hay with
  | [], _ => true
  | _ :: _, [] => false
  | a :: needle', b :: hay' => bool_decide (a = b) && starts_with needle' hay'
  end.

Fixpoint strstr (hay needle : list Z) : option nat :=
  if starts_with needle hay then Some 0%nat
  else match hay with
       | [] => None
       | _ :: hay' => S <$> strstr hay' needle
       end.

Fixpoint strchr (s : list Z) (c : Z) : option nat :=
  match s with
  | [] => None
  | a :: s' => if decide (a = c) then Some 0%nat else S <$> strchr s' c
  end.

(** * Copying and comparing *)

(** What [strncpy] leaves in an array of [n] characters *)
Definition strncpy (n : nat) (s : list Z) : list Z :=
  take n (cstr s) ++ replicate (n - length (cstr s)) NUL.

(** [strncmp]; memory that ends counts as terminated *)
Fixpoint strncmp (n : nat) (a b : list Z) : Z :=
  match n with
  | O => 0
  | S n' =>
      let x := hd NUL a in let y := hd NUL b in
      if decide (x = y) then
        if decide (x = NUL) then 0 else strncmp n' (tl a) (tl b)
      else x - y
  end.

Definition strcmp (a b : list Z) : Z := strncmp (S (length a `max` length b)) a b.

(** [strncpy(dst + off, src, n)] into an existing array: writes exactly [n]
    characters *)
Definition write_at (dst : list Z) (off : nat) (src : list Z) : list Z :=
  take off dst ++ src ++ drop (off + length src) dst.

(** * [sscanf] with [%Ns] conversions *)

Definition is_space (c : Z) : bool :=
  bool_decide (c = 32) || (bool_decide (9 ≤ c) && bool_decide (c ≤ 13)).

Fixpoint skip_space (s : list Z) : list Z :=
  match s with
  | c :: s' => if is_space c then skip_space s' else s
  | [] => []
  end.

Fixpoint take_token (width : nat) (s : list Z) : list Z * list Z :=
  match width, s with
  | S w, c :: s' =>
      if is_space c then ([], s)
      else let '(tok, rest) := take_token w s' in (c :: tok, rest)
  | _, _ => ([], s)
  end.

(** One [%<width>s]: [None] when the input ends first *)
Definition scan_s (width : nat) (s : list Z) : option (list Z * list Z) :=
  let s' := skip_space s in
  match s' with
  | [] => None
  | _ => Some (take_token width s')
  end.

(** The fields the conversions assign, in order: the first one that fails ends
    the call *)
Fixpoint sscanf (widths : list nat) (s : list Z) : list (list Z) :=
  match widths with
  | [] => []
  | w :: ws =>
      match scan_s w s with
      | None => []
      | Some (tok, rest) => tok :: sscanf ws rest
      end
  end.

(** Decimal digits of [%d] and [%ld] *)
Definition print_dec (z : Z) : list Z := lit (pretty z).

(** * Facts *)

Lemma cstr_no_nul s : no_nul (cstr s).
Proof. induction s; simpl; [constructor|]. case_decide; constructor; auto. Qed.
Lemma cstr_id s : no_nul s → cstr s = s.
Proof. induction 1; simpl; [done|]. rewrite decide_False by done. by f_equal. Qed.
Lemma cstr_app_nul s r : no_nul s → cstr (s ++ NUL :: r) = s.
Proof. induction 1; simpl; [done|]. rewrite decide_False by done. by f_equal. Qed.
Lemma no_nul_app a b : no_nul (a ++ b) ↔ no_nul a ∧ no_nul b.
Proof. apply Forall_app. Qed.
Lemma no_nul_take n s : no_nul s → no_nul (take n s).
Proof. intros Hs. by apply Forall_take. Qed.
Lemma str_at_app pre s r : no_nul s →
  str_at (pre ++ s ++ NUL :: r) (length pre) = Some s.
Proof.
  intros Hs. unfold str_at. rewrite drop_app_length, decide_True by set_solver.
  by rewrite cstr_app_nul.
Qed.

Lemma starts_with_spec needle hay :
  starts_with needle hay = true ↔ ∃ post, hay = needle ++ post.
Proof.
  revert hay. induction needle as [|a needle IH]; intros [|b hay]; simpl; try naive_solver.
  rewrite andb_true_iff, bool_decide_eq_true, IH. naive_solver.
Qed.

Lemma strstr_Some hay needle i :
  strstr hay needle = Some i ↔
  (∃ pre post, hay = pre ++ needle ++ post ∧ length pre = i) ∧
  (∀ pre post, hay = pre ++ needle ++ post → (i ≤ length pre)%nat).
Proof.
  revert i. induction hay as [|c hay IH]; intros i; simpl.
  - destruct (starts_with needle []) eqn:E.
    + apply starts_with_spec in E as (post & E). split.
      * intros [= <-]. split; [by exists [], post|]. lia.
      * intros [(pre & post' & Hp & <-) Hm]. destruct pre; [done|]. done.
    + split; [done|]. intros [(pre & post & Hp & _) _].
      symmetry in Hp. apply app_eq_nil in Hp as [_ Hp].
      assert (starts_with needle [] = true) by (apply starts_with_spec; eauto). congruence.
  - destruct (starts_with needle (c :: hay)) eqn:E.
    + apply starts_with_spec in E as (post & E). split.
      * intros [= <-]. split; [by exists [], post|]. lia.
      * intros [_ Hm]. specialize (Hm [] post E). simpl in Hm. f_equal. lia.
    + assert (∀ post, c :: hay ≠ needle ++ post) as Hno.
      { intros post Hp. assert (starts_with needle (c :: hay) = true)
          by (apply starts_with_spec; eauto). congruence. }
      rewrite fmap_Some. setoid_rewrite IH. split.
      * intros (j & [(pre & post & -> & <-) Hm] & ->). split.
        -- by exists (c :: pre), post.
        -- intros [|c' pre'] post' Hp; simpl in *; [by apply Hno in Hp|].
           simplify_eq. apply le_n_S. eauto.
      * intros [(pre & post & Hp & <-) Hm]. destruct pre as [|c' pre]; simpl in *.
        { by apply Hno in Hp. }
        simplify_eq. exists (length pre). split; [|done]. split; [by exists pre, post|].
        intros pre' post' Hp'. specialize (Hm (c' :: pre') post'). simpl in Hm.
        rewrite Hp' in Hm. specialize (Hm eq_refl). lia.
Qed.

Lemma strstr_None hay needle :
  strstr hay needle = None ↔ ∀ pre post, hay ≠ pre ++ needle ++ post.
Proof.
  induction hay as [|c hay IH]; simpl.
  - destruct (starts_with needle []) eqn:E.
    + apply starts_with_spec in E as (post & E). split; [done|]. intros H. by destruct (H [] post).
    + split; [|done]. intros _ pre post Hp. symmetry in Hp.
      apply app_eq_nil in Hp as [_ Hp].
      assert (starts_with needle [] = true) by (apply starts_with_spec; eauto). congruence.
  - destruct (starts_with needle (c :: hay)) eqn:E.
    + apply starts_with_spec in E as (post & E). split; [done|]. intros H. by destruct (H [] post).
    + rewrite fmap_None, IH. split.
      * intros Hn [|c' pre] post Hp; simplify_eq/=; [|by destruct (Hn pre post)].
        assert (starts_with needle (c :: hay) = true)
          by (apply starts_with_spec; eauto). congruence.
      * intros Hn pre post ->. by apply (Hn (c :: pre) post).
Qed.

Lemma strchr_Some s c i :
  strchr s c = Some i ↔ ∃ pre post, s = pre ++ (c :: post) ∧ (c ∉ pre) ∧ length pre = i.
Proof.
  revert i. induction s as [|a s IH]; intros i; simpl.
  - split; [done|]. intros ([] & post & Hs & _); done.
  - case_decide as Hac.
    + subst. split.
      * intros [= <-]. exists [], s. set_solver.
      * intros ([|b pre] & post & Hs & Hn & <-); simplify_eq/=; [done|]. set_solver.
    + rewrite fmap_Some. setoid_rewrite IH. split.
      * intros (j & (pre & post & -> & Hn & <-) & ->). exists (a :: pre), post. set_solver.
      * intros ([|b pre] & post & Hs & Hn & <-); simplify_eq/=.
        exists (length pre). split; [|done]. exists pre, post. set_solver.
Qed.

Lemma strchr_None s c : strchr s c = None ↔ c ∉ s.
Proof.
  induction s as [|a s IH]; simpl; [set_solver|].
  case_decide; [set_solver|]. rewrite fmap_None, IH. set_solver.
Qed.

Lemma strncpy_length n s : length (strncpy n s) = n.
Proof. unfold strncpy. rewrite length_app, length_take, length_replicate. lia. Qed.
Lemma cstr_strncpy n s : no_nul s → cstr (strncpy n s) = take n s.
Proof.
  intros Hs. unfold strncpy. rewrite (cstr_id s) by done.
  destruct (n - length s)%nat as [|k] eqn:E; simpl.
  - rewrite app_nil_r. by apply cstr_id, no_nul_take.
  - by apply cstr_app_nul, no_nul_take.
Qed.

(** [strncmp] is zero exactly on strings with the same first [n] characters. *)
Lemma strncmp_eq n a b : strncmp n a b = 0 ↔ take n (cstr a) = take n (cstr b).
Proof.
  revert a b. induction n as [|n IH]; intros a b; [done|]. simpl.
  case_decide as Hxy; [case_decide as Hx|].
  - assert (∀ s : list Z, hd NUL s = NUL → cstr s = []) as Hc.
    { intros [|c s]; simpl; [done|]. intros ->. by rewrite decide_True. }
    rewrite (Hc a), (Hc b) by congruence. done.
  - rewrite IH. destruct a as [|x a], b as [|y b]; simplify_eq/=.
    rewrite !decide_False by done. simpl. split; [intros Ht; by rewrite Ht|by intros [= ->]].
  - split; [intros; exfalso; lia|]. intros Ht. exfalso.
    destruct a as [|x a], b as [|y b]; simpl in *; try done;
      repeat case_decide; simplify_eq/=; lia.
Qed.

Lemma strcmp_eq a b : no_nul a → no_nul b → strcmp a b = 0 ↔ a = b.
Proof.
  intros Ha Hb. unfold strcmp. rewrite strncmp_eq, !cstr_id by done.
  rewrite !take_ge by lia. done.
Qed.

Lemma skip_space_stop c s : is_space c = false → skip_space (c :: s) = c :: s.
Proof. simpl. by intros ->. Qed.

Definition graphic (s : list Z) : Prop := Forall (λ c, is_space c = false) s.

#[export] Instance graphic_dec s : Decision (graphic s).
Proof. unfold graphic. apply _. Defined.

Lemma take_token_exact w s c r :
  graphic s → (length s ≤ w)%nat → is_space c = true →
  take_token w (s ++ c :: r) = (s, c :: r).
Proof.
  intros Hs. revert w. induction Hs as [|a s Ha Hs IH]; intros w Hw Hc; simpl in *.
  - destruct w; simpl; [done|]. by rewrite Hc.
  - destruct w as [|w]; [lia|]. simpl. rewrite Ha, IH by (done || lia). done.
Qed.

(** A [%Ns] reads a whole word that fits. *)
Lemma scan_s_word w s c r :
  graphic s → s ≠ [] → (length s ≤ w)%nat → is_space c = true →
  scan_s w (s ++ c :: r) = Some (s, c :: r).
Proof.
  intros Hs Hne Hw Hc. unfold scan_s.
  destruct s as [|a s]; [done|]. pose proof Hs as [Ha Hs']%Forall_cons.
  rewrite <-app_comm_cons, skip_space_stop by done.
  by rewrite app_comm_cons, take_token_exact.
Qed.
Lemma scan_s_space w c s : is_space c = true → scan_s w (c :: s) = scan_s w s.
Proof. intros Hc. unfold scan_s. simpl. by rewrite Hc. Qed.

Lemma take_token_bound w s : (length (fst (take_token w s)) ≤ w)%nat.
Proof.
  revert s. induction w as [|w IH]; intros [|c s]; simpl; try lia.
  destruct (is_space c); simpl; [lia|]. specialize (IH s).
  destruct (take_token w s); simpl in *. lia.
Qed.
Lemma take_token_graphic w s : graphic (fst (take_token w s)).
Proof.
  revert s. induction w as [|w IH]; intros [|c s]; simpl; try constructor.
  destruct (is_space c) eqn:E; simpl; [constructor|]. specialize (IH s).
  destruct (take_token w s); simpl in *. by constructor.
Qed.

(** * Numbers *)

(** At most [k] digits *)
Lemma pretty_N_go_length k x s : (x < 10 ^ N.of_nat k)%N → (String.length (pretty_N_go x s) ≤ k + String.length s)%nat.
Proof.
  revert x s. induction k as [|k IH]; intros x s Hx.
  - assert (x = 0%N) as -> by (cbn in Hx; lia). by rewrite pretty_N_go_0.
  - destruct (decide (x = 0%N)) as [->|Hne]; [rewrite pretty_N_go_0; lia|].
    rewrite pretty_N_go_step by lia. etransitivity; [apply IH|cbn; lia].
    apply N.Div0.div_lt_upper_bound. rewrite Nat2N.inj_succ, N.pow_succ_r' in Hx. lia.
Qed.
Lemma lit_length s : length (lit s) = String.length s.
Proof. induction s as [|c s IH]; [done|]. cbn. by rewrite <-IH. Qed.
Lemma print_dec_length k z : 0 ≤ z < 10 ^ Z.of_nat k → (0 < k)%nat → (length (print_dec z) ≤ k)%nat.
Proof.
  intros Hz Hk. unfold print_dec. rewrite lit_length. destruct z as [|z|z]; [cbn; lia| |lia].
  change (pretty (Z.pos z)) with (pretty (N.pos z)). unfold pretty, pretty_N. case_decide; [cbn; lia|].
  etransitivity; [apply (pretty_N_go_length k)|cbn; lia].
  rewrite <-nat_N_Z in Hz. change (10 ^ Z.of_N (N.of_nat k)) with (Z.of_N 10 ^ Z.of_N (N.of_nat k)) in Hz.
  rewrite <-N2Z.inj_pow in Hz. lia.
Qed.
