(* ===== verification/Common.v ===== *)
(** lab3/src/common/common.c: the character hash, delivery of a buffer to a
    socket, the host part of a URL and the compare-and-swap on a flag. *)
From S2P Require Import Prelude CString.
#[local] Open Scope Z_scope.

(** * Sockets

    What the kernel does with [send] is a script of answers: -1 for an error, or
    how many bytes it took (it never takes more than it was offered). An
    exhausted script means the kernel takes everything it is offered. The log of
    a descriptor holds the bytes that were taken, in order. *)
Record net := Net { delivered : gmap Z (list Z); answers : list Z }.

Class Sockets (S : Type) := {
  net_of : S → net;
  set_net : net → S → S;
  net_set n s : net_of (set_net n s) = n;
  set_net_set n n' s : set_net n (set_net n' s) = set_net n s;
  set_net_id s : set_net (net_of s) s = s;
}.
#[export] Hint Rewrite @net_set @set_net_set @set_net_id : heap.

Definition log_of (n : net) (fd : Z) : list Z := default [] (delivered n !! fd).

(** The next answer to an offer of [len] bytes, within the contract of [send]. *)
Definition next_answer (n : net) (len : nat) : Z :=
  match answers n with
  | [] => Z.of_nat len
  | a :: _ => if decide (a < 0) then -1 else a `min` Z.of_nat len
  end.

(** One call of [send]: the answer and what the kernel took. *)
Definition send_step (fd : Z) (data : list Z) (n : net) : Z * net :=
  let r := next_answer n (length data) in
  (r, Net (if decide (r < 0) then delivered n
           else <[fd := log_of n fd ++ take (Z.to_nat r) data]> (delivered n))
          (tl (answers n))).

Section common.
Context {S : Type} `{Sockets S}.

Definition send (fd : Z) (data : list Z) : C S Z := λ _ s,
  let '(r, n) := send_step fd data (net_of s) in Ok r (set_net n s).

(** The loop of [send_data_to_fd]: it consumes one answer per round. *)
Fixpoint send_loop (fuel : nat) (fd : Z) (data : list Z) (total_sent : nat) : C S Z :=
  if decide (total_sent < length data)%nat then
    match fuel with
    | O => fail OutOfFuel
    | Datatypes.S f =>
        bytes_sent ← send fd (drop total_sent data);
        if decide (bytes_sent = -1) then mret (-1)
        else send_loop f fd data (total_sent + Z.to_nat bytes_sent)
    end
  else mret (if decide (total_sent = length data) then 0 else -1).

Definition send_data_to_fd (fd : Z) (data : list Z) : C S Z :=
  n ← gets (λ s, length (answers (net_of s)));
  send_loop (Datatypes.S n) fd data 0.

Definition cas (value expected replaceto : Z) : Z * Z :=
  if decide (value = expected) then (1, replaceto) else (0, value).

Definition parse_host `{Oom S} (url : list Z) : C S (option (list Z)) :=
  let host_start := match strstr url (lit "://") with
                    | Some i => drop (i + 3) url
                    | None => url
                    end in
  let host_length := match strchr host_start 47 with
                     | Some i => i
                     | None => length host_start
                     end in
  host ← malloc_answer;
  if (host : bool) then mret (Some (take host_length host_start)) else mret None.
End common.

(** * hashn *)

Fixpoint hashn_loop (str : list Z) (i max_size : nat) (hash : Z) : Z :=
  match str with
  | [] => hash
  | c :: str' =>
      if decide (c ≠ NUL ∧ (i < max_size)%nat)
      then hashn_loop str' (i + 1) max_size (u64 (u64 (Z.shiftl hash 5) + hash + s8 c))
      else hash
  end.
Definition hashn (str : list Z) (max_size : nat) : Z := u32 (hashn_loop str 0 max_size 5381).

(** The reference: djb2 over unbounded integers, each character a signed byte,
    reduced once at the end. *)
Definition djb2 (s : list Z) : Z := foldl (λ h c, 33 * h + s8 c) 5381 s.

Lemma u32_u64 z : u32 (u64 z) = u32 z.
Proof.
  unfold u_wrap. apply Z.mod_mod_divide. exists (2 ^ 32). reflexivity.
Qed.

Lemma u_wrap_congr w a b k : 0 <= w → a = b + k * 2 ^ w → u_wrap w a = u_wrap w b.
Proof. intros Hw ->. unfold u_wrap. apply Z.mod_add. lia. Qed.

Lemma u_wrap_step w h c : 0 <= w →
  u_wrap w (u_wrap w (Z.shiftl (u_wrap w h) 5) + u_wrap w h + c) = u_wrap w (33 * h + c).
Proof.
  intros Hw. unfold u_wrap. rewrite Z.shiftl_mul_pow2 by lia.
  pose proof (Z.div_mod h (2 ^ w) ltac:(lia)) as Eh.
  set (m := h mod 2 ^ w) in *. set (q := h / 2 ^ w) in *.
  pose proof (Z.div_mod (m * 2 ^ 5) (2 ^ w) ltac:(lia)) as Em.
  set (m' := (m * 2 ^ 5) mod 2 ^ w) in *. set (q' := (m * 2 ^ 5) / 2 ^ w) in *.
  replace (m' + m + c) with (33 * h + c + (- 33 * q - q') * 2 ^ w) by lia.
  apply Z.mod_add. lia.
Qed.

Lemma hashn_loop_fold str i max_size h :
  no_nul str →
  hashn_loop str i max_size (u64 h) =
  u64 (foldl (λ h c, 33 * h + s8 c) h (take (max_size - i) str)).
Proof.
  intros Hs. revert i h. induction Hs as [|c str Hc Hs IH]; intros i h; simpl.
  { by rewrite take_nil. }
  case_decide as Hd.
  - destruct Hd as [_ Hi]. replace (max_size - i)%nat with (S (max_size - (i + 1))) by lia.
    simpl. rewrite u_wrap_step by lia. apply IH.
  - assert (max_size - i = 0)%nat as -> by (destruct (decide (c = NUL)); naive_solver lia).
    done.
Qed.

Lemma hashn_djb2 str max_size : no_nul str →
  hashn str max_size = u32 (djb2 (take max_size str)).
Proof.
  intros Hs. unfold hashn, djb2.
  rewrite <-u32_u64. rewrite <-(u32_u64 (foldl _ _ _)).
  replace 5381 with (u64 5381) at 1 by reflexivity.
  rewrite hashn_loop_fold by done. rewrite Nat.sub_0_r, !u32_u64. done.
Qed.

Lemma hashn_bound str max_size : 0 <= hashn str max_size < 2 ^ 32.
Proof. unfold hashn, u_wrap. apply Z.mod_pos_bound. lia. Qed.

(** * send_data_to_fd *)

Lemma next_answer_range n len : next_answer n len = -1 ∨ 0 <= next_answer n len <= Z.of_nat len.
Proof. unfold next_answer. destruct (answers n); [lia|]. case_decide; lia. Qed.

Lemma log_of_insert n a fd l : log_of (Net (<[fd := l]> (delivered n)) a) fd = l.
Proof. unfold log_of. simpl. by rewrite lookup_insert_eq. Qed.
Lemma log_of_insert_ne n a fd fd' l : fd ≠ fd' →
  log_of (Net (<[fd := l]> (delivered n)) a) fd' = log_of n fd'.
Proof. intros Hne. unfold log_of. simpl. by rewrite lookup_insert_ne. Qed.

(** One call of [send]: it fails and takes nothing, or takes a prefix. *)
Lemma send_step_cases fd data n :
  ∃ r n', send_step fd data n = (r, n') ∧ answers n' = tl (answers n) ∧
    (answers n = [] → r = Z.of_nat (length data)) ∧
    (∀ fd', fd' ≠ fd → log_of n' fd' = log_of n fd') ∧
    ((r = -1 ∧ log_of n' fd = log_of n fd) ∨
     (∃ k, r = Z.of_nat k ∧ (k ≤ length data)%nat ∧ log_of n' fd = log_of n fd ++ take k data)).
Proof.
  unfold send_step. eexists _, _. split; [done|]. split; [done|]. split.
  { unfold next_answer. by intros ->. }
  destruct (next_answer_range n (length data)) as [->|Hr]; split.
  - intros fd' Hfd. by rewrite decide_True by lia.
  - left. split; [done|]. by rewrite decide_True by lia.
  - intros fd' Hfd. rewrite decide_False by lia. by rewrite log_of_insert_ne.
  - right. exists (Z.to_nat (next_answer n (length data))). rewrite decide_False by lia.
    rewrite log_of_insert. split; [lia|]. split; [lia|done].
Qed.

(** What a delivery may do: it reports success for all of [data], or failure
    for a proper prefix; other descriptors and the rest of the state stay. *)
Definition delivery {S} `{Sockets S} (fd : Z) (data : list Z) (s : S) (r : Z) (s' : S) : Prop :=
  s' = set_net (net_of s') s ∧
  (∀ fd', fd' ≠ fd → log_of (net_of s') fd' = log_of (net_of s) fd') ∧
  ((r = 0 ∧ log_of (net_of s') fd = log_of (net_of s) fd ++ data) ∨
   (r = -1 ∧ ∃ k, (k < length data)%nat ∧
      log_of (net_of s') fd = log_of (net_of s) fd ++ take k data)).

Lemma send_loop_delivers {S} `{Sockets S} fuel fd data k t (s : S) :
  (length (answers (net_of s)) < fuel)%nat → (k ≤ length data)%nat →
  ∃ r s', send_loop fuel fd data k t s = Ok r s' ∧ delivery fd (drop k data) s r s'.
Proof.
  revert k s. induction fuel as [|fuel IH]; intros k s Hf Hk; [lia|]. simpl.
  case_decide as Hlt; cycle 1.
  { rewrite decide_True by lia. exists 0, s. split; [done|]. unfold delivery.
    rewrite set_net_id, drop_ge, app_nil_r by lia. split; [done|]. split; [done|]. by left. }
  unfold mbind, C_bind, send.
  destruct (send_step_cases fd (drop k data) (net_of s))
    as (r & n' & -> & Ha & Hnil & Hoth & Hr). rewrite length_drop in *.
  destruct Hr as [[-> Hlog]|(j & -> & Hj & Hlog)].
  - rewrite decide_True by done. eexists _, _. split; [done|]. unfold delivery.
    autorewrite with heap. split; [done|]. split; [done|]. right. split; [done|].
    exists 0%nat. rewrite length_drop, Hlog, app_nil_r. split; [lia|done].
  - rewrite decide_False by lia. rewrite Nat2Z.id.
    assert (∃ r s', send_loop fuel fd data (k + j) t (set_net n' s) = Ok r s' ∧
      delivery fd (drop (k + j) data) (set_net n' s) r s') as (r & s' & -> & Hs & Ho & Hd).
    { destruct (answers (net_of s)) as [|a l] eqn:Ea.
      - assert (k + j = length data)%nat as -> by (specialize (Hnil eq_refl); lia).
        destruct fuel; simpl; rewrite decide_False by lia; rewrite decide_True by lia;
          (eexists _, _; split; [done|]; unfold delivery; autorewrite with heap;
           split; [done|]; split; [done|]; left; by rewrite drop_all, app_nil_r).
      - apply IH; [|lia]. autorewrite with heap. rewrite Ha. simpl in *. lia. }
    exists r, s'. split; [done|]. unfold delivery in *. autorewrite with heap in *.
    split; [done|]. split; [by intros fd' Hfd; rewrite Ho, Hoth|].
    rewrite <-drop_drop in Hd. rewrite length_drop in Hd.
    destruct Hd as [[-> Hd]|[-> (i & Hi & Hd)]].
    + left. split; [done|]. by rewrite Hd, Hlog, <-app_assoc, take_drop.
    + right. split; [done|]. exists (j + i)%nat. rewrite !length_drop in *. split; [lia|].
      rewrite Hd, Hlog, <-app_assoc. by rewrite take_take_drop.
Qed.

(** * parse_host *)

(** The part of a URL between the scheme and the path *)
Definition host_of (url : list Z) : list Z :=
  let start := match strstr url (lit "://") with Some i => drop (i + 3) url | None => url end in
  take (default (length start) (strchr start 47)) start.

Lemma parse_host_run {S} `{Oom S} url t (s : S) :
  parse_host url t s =
  match oom s with
  | [] => Ok (Some (host_of url)) s
  | b :: r => Ok (if b then Some (host_of url) else None) (set_oom r s)
  end.
Proof.
  unfold parse_host, malloc_answer, mbind, C_bind.
  destruct (oom s) as [|[] r]; simpl; try done; unfold host_of;
    by destruct (strchr _ _).
Qed.

Lemma host_of_no_slash url : 47 ∉ host_of url.
Proof.
  unfold host_of. set (start := match strstr url _ with Some _ => _ | None => _ end).
  destruct (strchr start 47) as [i|] eqn:E; simpl.
  - apply strchr_Some in E as (pre & post & -> & Hn & <-). by rewrite take_app_length.
  - apply strchr_None in E. by rewrite firstn_all.
Qed.
Lemma host_of_length url : (length (host_of url) ≤ length url)%nat.
Proof.
  unfold host_of. rewrite length_take.
  destruct (strstr url _); rewrite ?length_drop; lia.
Qed.

Lemma host_of_plain host rest :
  47 ∉ host → rest = [] ∨ head rest = Some 47 →
  take (default (length (host ++ rest)) (strchr (host ++ rest) 47)) (host ++ rest) = host.
Proof.
  intros Hh [->|Hr].
  - rewrite app_nil_r. apply strchr_None in Hh. rewrite Hh. simpl. by rewrite firstn_all.
  - destruct rest as [|c rest]; simplify_eq/=.
    assert (strchr (host ++ 47 :: rest) 47 = Some (length host)) as ->.
    { apply strchr_Some. by exists host, rest. }
    simpl. by rewrite take_app_length.
Qed.

Lemma strstr_scheme scheme r :
  58 ∉ scheme → strstr (scheme ++ lit "://" ++ r) (lit "://") = Some (length scheme).
Proof.
  intros Hs. apply strstr_Some. split; [by exists scheme, r|].
  intros pre post Hp. destruct (decide (length scheme ≤ length pre)%nat) as [|Hlt]; [done|].
  exfalso. apply Hs. change (lit "://") with [58; 47; 47] in Hp. simpl in Hp.
  assert ((scheme ++ [58; 47; 47] ++ r) !! length pre = Some 58) as Hi.
  { simpl. rewrite Hp. by rewrite lookup_app_r, Nat.sub_diag by done. }
  rewrite lookup_app_l in Hi by lia. by eapply list_elem_of_lookup_2.
Qed.

(** The least state these functions run in, for evaluation *)
Record io := Io { io_net : net; io_oom : list bool }.
#[export] Instance io_sockets : Sockets io.
Proof.
  refine {| net_of := io_net; set_net n s := Io n (io_oom s) |}; by intros; destruct s.
Defined.
#[export] Instance io_oom_class : Oom io.
Proof.
  refine {| oom := io_oom; set_oom o s := Io (io_net s) o |}; by intros; destruct s.
Defined.

(** * Correctness *)

(** C20: [hashn], computed with 64-bit wrap-around and truncated to 32 bits, is
    djb2 of the first [max_size] characters over the integers, reduced once. *)
Theorem hashn_is_djb2 str max_size : no_nul str →
  hashn str max_size = u32 (djb2 (take max_size str)) ∧ 0 <= hashn str max_size < 2 ^ 32.
Proof. intros Hs. split; [by apply hashn_djb2|apply hashn_bound]. Qed.

Example hashn_is_djb2_witness :
  no_nul (lit "http://a.ru/") ∧ hashn (lit "http://a.ru/") 512 = 2452772674.
Proof.
  assert (no_nul (lit "http://a.ru/")) as H by (vm_compute; repeat constructor; done).
  split; [exact H|]. destruct (hashn_is_djb2 _ 512 H) as [-> _]. vm_compute. reflexivity.
Defined.

(** C19: [send_data_to_fd] always returns, and reports success exactly when every
    byte reached the socket, in order; on an error a proper prefix did, and no
    other descriptor is written to. *)
Theorem send_data_to_fd_delivers {S} `{Sockets S} fd data t (s : S) :
  ∃ r s', send_data_to_fd fd data t s = Ok r s' ∧ delivery fd data s r s'.
Proof.
  unfold send_data_to_fd. cstep.
  destruct (send_loop_delivers (Datatypes.S (length (answers (net_of s)))) fd data 0 t s)
    as (r & s' & ? & ?); [lia..|]. by exists r, s'.
Qed.

(** [parse_host] extracts the host of [scheme://host/path] and of a URL
    without a scheme; it fails only when the allocation does. *)
Theorem parse_host_extracts {S} `{Sockets S, Oom S} scheme host rest t (s : S) :
  58 ∉ scheme → 47 ∉ host → rest = [] ∨ head rest = Some 47 → oom s = [] →
  parse_host (scheme ++ lit "://" ++ host ++ rest) t s = Ok (Some host) s ∧
  (strstr (host ++ rest) (lit "://") = None →
   parse_host (host ++ rest) t s = Ok (Some host) s).
Proof.
  intros Hs Hh Hr Ho. rewrite !parse_host_run, Ho. unfold host_of.
  rewrite strstr_scheme by done. split.
  - assert (drop (length scheme + 3) (scheme ++ lit "://" ++ host ++ rest) = host ++ rest) as ->.
    { by rewrite <-drop_drop, drop_app_length. }
    by rewrite host_of_plain.
  - intros ->. by rewrite host_of_plain.
Qed.

Example parse_host_extracts_witness :
  parse_host (lit "http://nsu.ru/os") 0%nat (Io (Net ∅ []) []) = Ok (Some (lit "nsu.ru")) (Io (Net ∅ []) []).
Proof.
  refine (proj1 (parse_host_extracts (lit "http") (lit "nsu.ru") (lit "/os") _ _ _ _ _ _));
    [vm_compute; set_solver|vm_compute; set_solver|right; reflexivity|reflexivity].
Defined.
