(* ===== verification/Hashmap.v ===== *)
(** lab3/src/common/hashmap.c: the chained hash table that maps a URL to its
    subscription manager. [insert] does not look for an older entry, so a key
    holds a stack of values: [insert] pushes, [get] reads the top, [delete] pops.
    The refinement theorems state just that. *)
From S2P Require Import Prelude Links CString Common.

Definition MAX_KEY_LENGTH : nat := 512.
Definition TABLE_SIZE : nat := 128.
#[global] Arguments strncmp : simpl never.
#[global] Arguments strncpy : simpl never.

(** [struct node]; the key array holds what [strncpy] left *)
Record node_t := Node { key : list Z; value : ptr; node_next : ptr }.
Definition set_node_next (p : ptr) (n : node_t) : node_t := Node (key n) (value n) p.

(** [struct hashmap] *)
Record hashmap_t := Hashmap { table : list ptr }.
Definition set_bucket (i : nat) (p : ptr) (ht : hashmap_t) : hashmap_t :=
  Hashmap (<[i := p]> (table ht)).

Definition index_of (k : list Z) : nat :=
  Z.to_nat (hashn k MAX_KEY_LENGTH mod Z.of_nat TABLE_SIZE).

Module HashMap.
Section hashmap.
Context {S : Type} `{HeapIndep S node_t hashmap_t, !HeapIndep S hashmap_t node_t}.
Context `{Oom S, !OomIndep S node_t, !OomIndep S hashmap_t}.

Definition create_table : C S ptr := malloc hashmap_t (Hashmap (replicate TABLE_SIZE NULL)).

Definition insert (ht : ptr) (k : list Z) (v : ptr) : C S unit :=
  let index := index_of k in
  new_node ← malloc node_t (Node (strncpy MAX_KEY_LENGTH k) v NULL);
  match new_node with
  | None => mret tt
  | Some _ =>
      t ← load hashmap_t ht;
      old ← array_get (table t) index;
      update node_t new_node (set_node_next old);;
      update hashmap_t ht (set_bucket index new_node)
  end.

Definition nodes_fuel : C S nat := gets (λ s, Datatypes.S (size (cells (heap node_t s)))).

Fixpoint get_loop (fuel : nat) (current : ptr) (k : list Z) : C S ptr :=
  match fuel with
  | O => fail OutOfFuel
  | Datatypes.S f =>
      match current with
      | None => mret NULL
      | Some _ =>
          n ← load node_t current;
          if decide (strncmp MAX_KEY_LENGTH (key n) k = 0%Z) then mret (value n)
          else get_loop f (node_next n) k
      end
  end.
Definition get (ht : ptr) (k : list Z) : C S ptr :=
  t ← load hashmap_t ht;
  current ← array_get (table t) (index_of k);
  fuel ← nodes_fuel;
  get_loop fuel current k.

Fixpoint delete_loop (fuel : nat) (ht : ptr) (index : nat) (previous current : ptr)
    (k : list Z) : C S unit :=
  match fuel with
  | O => fail OutOfFuel
  | Datatypes.S f =>
      match current with
      | None => mret tt
      | Some _ =>
          n ← load node_t current;
          if decide (strncmp MAX_KEY_LENGTH (key n) k = 0%Z) then
            (match previous with
             | None => update hashmap_t ht (set_bucket index (node_next n))
             | Some _ => update node_t previous (set_node_next (node_next n))
             end;;
             free node_t current)
          else delete_loop f ht index current (node_next n) k
      end
  end.
Definition delete (ht : ptr) (k : list Z) : C S unit :=
  let index := index_of k in
  t ← load hashmap_t ht;
  current ← array_get (table t) index;
  fuel ← nodes_fuel;
  delete_loop fuel ht index NULL current k.

Fixpoint free_bucket (fuel : nat) (current : ptr) : C S unit :=
  match fuel with
  | O => fail OutOfFuel
  | Datatypes.S f =>
      match current with
      | None => mret tt
      | Some _ => n ← load node_t current; free node_t current;; free_bucket f (node_next n)
      end
  end.
Fixpoint free_buckets (t : list ptr) : C S unit :=
  match t with
  | [] => mret tt
  | p :: t' => fuel ← nodes_fuel; free_bucket fuel p;; free_buckets t'
  end.
(** The caller's pointer becomes NULL: the result is its new value. *)
Definition destroy_hashmap (ht : ptr) : C S ptr :=
  match ht with
  | None => mret NULL
  | Some _ => t ← load hashmap_t ht; free_buckets (table t);; free hashmap_t ht;; mret NULL
  end.

End hashmap.
End HashMap.

(** * Abstraction *)

(** Keys are compared, and hashed, by their first 512 characters. *)
Definition same_key (a b : list Z) : Prop := take MAX_KEY_LENGTH a = take MAX_KEY_LENGTH b.
#[export] Instance same_key_dec a b : Decision (same_key a b).
Proof. unfold same_key. apply _. Defined.

Definition matches (k : list Z) (n : node_t) : Prop := strncmp MAX_KEY_LENGTH (key n) k = 0%Z.
#[export] Instance matches_dec k n : Decision (matches k n).
Proof. unfold matches. apply _. Defined.

(** The values stored under [k] along a bucket, newest first *)
Definition stack (h : gmap positive node_t) (k : list Z) (ls : list positive) : list ptr :=
  value <$> filter (matches k) (nodes h ls).

(** [l] is a node of bucket [i] made for some string *)
Definition node_in (h : gmap positive node_t) (i : nat) (l : positive) : Prop :=
  ∃ n k0, h !! l = Some n ∧ no_nul k0 ∧ key n = strncpy MAX_KEY_LENGTH k0 ∧ index_of k0 = i.

Record buckets_ok (h : gmap positive node_t) (t : list ptr) (bs : list (list positive)) : Prop := {
  table_length : length t = TABLE_SIZE;
  buckets_length : length bs = TABLE_SIZE;
  bucket_chain i p ls : t !! i = Some p → bs !! i = Some ls → chain node_next h p ls NULL;
  bucket_nodes i ls l : bs !! i = Some ls → l ∈ ls → node_in h i l;
}.

(** The buckets hold, for every string, the stack [m] gives. *)
Definition stacks (h : gmap positive node_t) (bs : list (list positive))
    (m : list Z → list ptr) : Prop :=
  ∀ k ls, no_nul k → bs !! index_of k = Some ls → stack h k ls = m k.

Definition repr {S} `{Heap S node_t, Heap S hashmap_t} (s : S) (ht : positive)
    (m : list Z → list ptr) : Prop :=
  ∃ t bs, cells (heap hashmap_t s) !! ht = Some (Hashmap t) ∧
    buckets_ok (cells (heap node_t s)) t bs ∧ stacks (cells (heap node_t s)) bs m.

Definition push (k0 : list Z) (v : ptr) (m : list Z → list ptr) (k : list Z) : list ptr :=
  if decide (same_key k k0) then v :: m k else m k.
Definition pop (k0 : list Z) (m : list Z → list ptr) (k : list Z) : list ptr :=
  if decide (same_key k k0) then tail (m k) else m k.
Definition top (m : list Z → list ptr) (k : list Z) : ptr := default NULL (head (m k)).

(** * Keys and indices *)

Lemma index_of_lt k : index_of k < TABLE_SIZE.
Proof.
  unfold index_of. pose proof (Z.mod_pos_bound (hashn k MAX_KEY_LENGTH) (Z.of_nat TABLE_SIZE)).
  unfold TABLE_SIZE in *. lia.
Qed.

(** Strings with the same key land in the same bucket. *)
Lemma index_of_same a b : no_nul a → no_nul b → same_key a b → index_of a = index_of b.
Proof. intros Ha Hb Hs. unfold index_of. rewrite !hashn_djb2 by done. by rewrite Hs. Qed.

Lemma matches_same k0 k n : no_nul k0 → no_nul k → key n = strncpy MAX_KEY_LENGTH k0 →
  matches k n ↔ same_key k0 k.
Proof.
  intros H0 Hk Hn. unfold matches, same_key. rewrite strncmp_eq, Hn, cstr_strncpy, cstr_id by done.
  by rewrite take_take, Nat.min_id.
Qed.

Lemma matches_key k0 k n : no_nul k0 → no_nul k → same_key k k0 → matches k n ↔ matches k0 n.
Proof.
  intros H0 Hk Hs. unfold matches. rewrite !strncmp_eq, !(cstr_id k), !(cstr_id k0) by done.
  by rewrite Hs.
Qed.

(** * Stacks along a bucket *)

Lemma stack_app h k l1 l2 : stack h k (l1 ++ l2) = stack h k l1 ++ stack h k l2.
Proof. unfold stack. by rewrite nodes_app, filter_app, fmap_app. Qed.
Lemma stack_cons_some h k l ls n : h !! l = Some n →
  stack h k (l :: ls) = if decide (matches k n) then value n :: stack h k ls else stack h k ls.
Proof. intros Hl. unfold stack. rewrite nodes_cons, Hl, filter_cons. by case_decide. Qed.
Lemma stack_none h k ls :
  (∀ l n, l ∈ ls → h !! l = Some n → ¬ matches k n) → stack h k ls = [].
Proof.
  induction ls as [|l ls IH]; intros Hn; [done|].
  change (l :: ls) with ([l] ++ ls). rewrite stack_app, (IH ltac:(set_solver)), app_nil_r.
  unfold stack. rewrite nodes_cons. destruct (h !! l) as [n|] eqn:Hl; [|done].
  rewrite filter_cons, decide_False; [done|]. apply (Hn l n); [set_solver|done].
Qed.

Lemma bucket_lookup t k : length t = TABLE_SIZE → ∃ p : ptr, t !! index_of k = Some p.
Proof. intros Ht. apply lookup_lt_is_Some. rewrite Ht. apply index_of_lt. Qed.

Section buckets.
Context (h : gmap positive node_t) (t : list ptr) (bs : list (list positive)).
Hypothesis Hok : buckets_ok h t bs.

Lemma the_bucket k : ∃ p ls, t !! index_of k = Some p ∧ bs !! index_of k = Some ls ∧
  chain node_next h p ls NULL.
Proof.
  destruct Hok as [Ht Hb Hc _]. destruct (bucket_lookup t k Ht) as [p Hp].
  destruct (lookup_lt_is_Some_2 bs (index_of k)) as [ls Hls].
  { rewrite Hb. apply index_of_lt. }
  exists p, ls. eauto.
Qed.

(** A node belongs to one bucket only. *)
Lemma bucket_unique i j ls ls' l :
  bs !! i = Some ls → bs !! j = Some ls' → l ∈ ls → l ∈ ls' → i = j.
Proof.
  intros Hi Hj Hl Hl'. destruct (bucket_nodes _ _ _ Hok _ _ _ Hi Hl) as (n & k0 & Hn & H0 & Hk0 & <-).
  destruct (bucket_nodes _ _ _ Hok _ _ _ Hj Hl') as (n' & k1 & Hn' & H1 & Hk1 & <-).
  simplify_eq. apply index_of_same; [done..|]. rewrite Hk0 in Hk1.
  apply (f_equal cstr) in Hk1. by rewrite !cstr_strncpy in Hk1 by done.
Qed.

(** Pushing a fresh node in front of a bucket. *)
Lemma buckets_push l n k0 ls :
  h !! l = None → no_nul k0 → key n = strncpy MAX_KEY_LENGTH k0 →
  t !! index_of k0 = Some (node_next n) → bs !! index_of k0 = Some ls →
  buckets_ok (<[l := n]> h) (<[index_of k0 := Some l]> t) (<[index_of k0 := l :: ls]> bs).
Proof.
  intros Hl H0 Hk Ht Hb. pose proof Hok as [Hlt Hlb Hc Hn].
  assert (∀ i ls', bs !! i = Some ls' → l ∉ ls') as Hfresh.
  { intros i ls' Hi Hin. destruct (Hn i ls' l Hi Hin) as (? & ? & ? & _). congruence. }
  split; [by rewrite length_insert..| |].
  - intros i p ls'. rewrite !list_lookup_insert, Hlb, Hlt.
    case_decide as Hi; [intros [= <-] [= <-]; destruct Hi as [<- _]|intros Hp Hls'].
    + split; [done|]. exists n. rewrite lookup_insert_eq. split; [done|].
      apply chain_insert_notin; [by eapply Hfresh|]. by eapply Hc.
    + apply chain_insert_notin; [by eapply Hfresh|]. by eapply Hc.
  - intros i ls' l'. rewrite list_lookup_insert. case_decide as Hi.
    + destruct Hi as [<- _]. intros [= <-] [->|Hin]%elem_of_cons.
      * exists n, k0. by rewrite lookup_insert_eq.
      * destruct (Hn _ _ _ Hb Hin) as (n' & k1 & Hn' & ?). exists n', k1.
        rewrite lookup_insert_ne by (intros ->; by apply (Hfresh _ _ Hb)). done.
    + intros Hi' Hin. destruct (Hn _ _ _ Hi' Hin) as (n' & k1 & Hn' & ?). exists n', k1.
      rewrite lookup_insert_ne by (intros ->; by apply (Hfresh _ _ Hi')). done.
Qed.

Lemma stacks_push m l n k0 ls :
  stacks h bs m → h !! l = None → no_nul k0 → key n = strncpy MAX_KEY_LENGTH k0 →
  bs !! index_of k0 = Some ls →
  stacks (<[l := n]> h) (<[index_of k0 := l :: ls]> bs) (push k0 (value n) m).
Proof.
  intros Hst Hl H0 Hk Hb k ls' Hnk. pose proof Hok as [_ _ _ Hn].
  assert (∀ i ls', bs !! i = Some ls' → nodes (<[l := n]> h) ls' = nodes h ls') as Hnodes.
  { intros i ls1 Hi. apply nodes_ext. intros l' Hl'. apply lookup_insert_ne.
    intros ->. destruct (Hn _ _ _ Hi Hl') as (? & ? & ? & _). congruence. }
  rewrite list_lookup_insert. unfold push, stack. case_decide as Hi.
  - destruct Hi as [Hi _]. intros [= <-]. rewrite nodes_cons, lookup_insert_eq.
    rewrite (Hnodes _ _ Hb). rewrite filter_cons. rewrite (decide_ext (matches k n) (same_key k k0)).
    2: { rewrite (matches_same k0) by done. unfold same_key. by split. }
    rewrite <-(Hst k ls) by (done || congruence). by case_decide.
  - intros Hi'. rewrite (Hnodes _ _ Hi'). rewrite decide_False; [by eapply Hst|].
    intros Hs. apply Hi. split; [symmetry; by apply index_of_same|].
    by eapply lookup_lt_Some.
Qed.
End buckets.

(** Taking the first match out of a bucket: [l1] holds no match, [x] does. *)
Section removal.
Context (h : gmap positive node_t) (t : list ptr) (bs : list (list positive)).
Context (k0 : list Z) (l1 l2 : list positive) (x : positive) (nx : node_t).
Hypothesis Hok : buckets_ok h t bs.
Hypothesis Hk0 : no_nul k0.
Hypothesis Hb : bs !! index_of k0 = Some (l1 ++ x :: l2).
Hypothesis Hx : h !! x = Some nx.
Hypothesis Hm : matches k0 nx.
Hypothesis Hl1 : ∀ l n, l ∈ l1 → h !! l = Some n → ¬ matches k0 n.
(** the node heap after the removal, its links being those of the shorter chain *)
Context (h' : gmap positive node_t) (t' : list ptr).
Hypothesis Hh' : ∀ l, l ≠ x → (λ n, (key n, value n)) <$> h' !! l = (λ n, (key n, value n)) <$> h !! l.
Hypothesis Ht' : length t' = TABLE_SIZE.
Hypothesis Hbucket : ∀ p, t' !! index_of k0 = Some p → chain node_next h' p (l1 ++ l2) NULL.
Hypothesis Hrest : ∀ i, i ≠ index_of k0 → t' !! i = t !! i.
Hypothesis Hothers : ∀ l, l ≠ x → l ∉ l1 → h' !! l = h !! l.

Let bs' := <[index_of k0 := l1 ++ l2]> bs.

Lemma removed_not_elsewhere i ls : i ≠ index_of k0 → bs !! i = Some ls →
  ∀ l, l ∈ ls → l ≠ x ∧ l ∉ l1.
Proof.
  intros Hi Hls l Hl. split; intros Hc.
  - subst. apply Hi. eapply bucket_unique; [done|exact Hls|exact Hb|done|set_solver].
  - apply Hi. eapply bucket_unique; [done|exact Hls|exact Hb|done|set_solver].
Qed.

Lemma removed_once : x ∉ l1 ++ l2.
Proof.
  destruct (the_bucket h t bs Hok k0) as (p & ls & _ & Hls & Hc). rewrite Hb in Hls. simplify_eq.
  apply chain_NoDup in Hc. rewrite <-Permutation_middle in Hc. by apply NoDup_cons in Hc as [? _].
Qed.

Lemma node_in_removed i l : l ≠ x → node_in h i l → node_in h' i l.
Proof.
  intros Hlx (n & k & Hn & ? & Hkey & ?). specialize (Hh' l Hlx) as Hl. rewrite Hn in Hl.
  destruct (h' !! l) as [n'|] eqn:Hn'; simplify_eq/=.
  exists n', k. rewrite Hn'. split; [done|]. split; [done|]. split; [congruence|done].
Qed.

Lemma buckets_remove : buckets_ok h' t' bs'.
Proof.
  pose proof Hok as [Hlt Hlb Hc Hn]. unfold bs'. split; [done|by rewrite length_insert|..].
  - intros i p ls Hp. rewrite list_lookup_insert. case_decide as Hi.
    + destruct Hi as [<- _]. intros [= <-]. by apply Hbucket.
    + intros Hls. assert (i ≠ index_of k0) as Hne.
      { intros ->. apply Hi. split; [done|]. by eapply lookup_lt_Some. }
      rewrite Hrest in Hp by done.
      eapply chain_ext; [|by eapply Hc].
      intros l Hl. destruct (removed_not_elsewhere i ls Hne Hls l Hl). by rewrite Hothers.
  - intros i ls l. rewrite list_lookup_insert. case_decide as Hi.
    + destruct Hi as [<- _]. intros [= <-] Hl. apply node_in_removed.
      { intros ->. by apply removed_once. }
      eapply Hn; [exact Hb|]. set_solver.
    + intros Hls Hl. assert (i ≠ index_of k0) as Hne.
      { intros ->. apply Hi. split; [done|]. by eapply lookup_lt_Some. }
      destruct (removed_not_elsewhere i ls Hne Hls l Hl). apply node_in_removed; [done|].
      by eapply Hn.
Qed.

Lemma stack_keyval k ls : x ∉ ls → stack h' k ls = stack h k ls.
Proof.
  intros Hls. unfold stack. induction ls as [|l ls IH]; [done|]. rewrite !nodes_cons.
  specialize (Hh' l ltac:(set_solver)) as Hl.
  destruct (h' !! l) as [n'|], (h !! l) as [n|]; simplify_eq/=; [|apply IH; set_solver].
  rewrite !filter_cons. rewrite (decide_ext (matches k n') (matches k n))
    by (unfold matches; split; congruence).
  case_decide; rewrite ?fmap_cons, IH by set_solver; congruence.
Qed.

Lemma stacks_remove m : stacks h bs m → stacks h' bs' (pop k0 m).
Proof.
  intros Hst k ls Hk. unfold bs'. rewrite list_lookup_insert. case_decide as Hi.
  - destruct Hi as [Hi _]. intros [= <-]. rewrite stack_keyval by apply removed_once.
    rewrite Hi in Hb. unfold pop. rewrite <-(Hst k _ Hk Hb).
    rewrite !stack_app, (stack_cons_some h k x l2 nx) by done.
    case_decide as Hs.
    + rewrite decide_True by (by apply (matches_key k0)).
      rewrite (stack_none h k l1); [done|]. intros l n Hl Hn. rewrite (matches_key k0) by done. eauto.
    + rewrite decide_False; [done|]. intros Hmk. apply Hs.
      destruct (bucket_nodes _ _ _ Hok _ _ x Hb) as (n & kx & Hn & Hkx & Hkey & _); [set_solver|].
      simplify_eq. apply (matches_same kx) in Hm, Hmk; [|done..]. unfold same_key in *. congruence.
  - intros Hls. assert (index_of k ≠ index_of k0) as Hne.
    { intros Heq. apply Hi. split; [done|]. by eapply lookup_lt_Some. }
    rewrite stack_keyval.
    + unfold pop. rewrite decide_False; [by eapply Hst|].
      intros Hs. apply Hne. by apply index_of_same.
    + intros Hin. by destruct (removed_not_elsewhere _ _ Hne Hls x Hin).
Qed.

Lemma removal_ok m : stacks h bs m → buckets_ok h' t' bs' ∧ stacks h' bs' (pop k0 m).
Proof. split; [apply buckets_remove|by apply stacks_remove]. Qed.
End removal.

(** The two shapes of a removal: at the head of its bucket, and behind [a]. *)
Lemma remove_first h t bs k x l2 nx m :
  buckets_ok h t bs → stacks h bs m → no_nul k → bs !! index_of k = Some (x :: l2) →
  h !! x = Some nx → matches k nx →
  let h' := base.delete x h in let bs' := <[index_of k := l2]> bs in
  buckets_ok h' (<[index_of k := node_next nx]> t) bs' ∧ stacks h' bs' (pop k m).
Proof.
  intros Hok Hst Hk Hb Hx Hm h' bs'.
  assert (∀ l, l ≠ x → (λ n, (key n, value n)) <$> h' !! l = (λ n, (key n, value n)) <$> h !! l) as Hh'.
  { intros l Hl. unfold h'. by rewrite lookup_delete_ne. }
  assert (∀ l n, l ∈ [] → h !! l = Some n → ¬ matches k n) as Hl1 by set_solver.
  eapply (removal_ok h t bs k [] l2 x nx); try done.
  - by rewrite length_insert, (table_length _ _ _ Hok).
  - intros p. rewrite list_lookup_insert. case_decide; [intros [= <-]|].
    + destruct (the_bucket _ _ _ Hok k) as (p' & ls & _ & Hls & Hc). rewrite Hb in Hls. simplify_eq.
      pose proof (chain_NoDup _ _ _ _ Hc) as [Hx' _]%NoDup_cons.
      destruct Hc as (_ & n & Hn & Hc). simplify_eq. by apply chain_delete_notin.
    + pose proof (index_of_lt k). rewrite (table_length _ _ _ Hok) in *. tauto.
  - intros i Hi. by rewrite list_lookup_insert_ne.
  - intros l Hl _. unfold h'. by rewrite lookup_delete_ne.
Qed.

Lemma remove_behind h t bs k l0 a x l2 na nx m :
  buckets_ok h t bs → stacks h bs m → no_nul k →
  bs !! index_of k = Some ((l0 ++ [a]) ++ x :: l2) →
  h !! a = Some na → h !! x = Some nx → matches k nx →
  (∀ l n, l ∈ l0 ++ [a] → h !! l = Some n → ¬ matches k n) →
  let h' := base.delete x (<[a := set_node_next (node_next nx) na]> h) in
  let bs' := <[index_of k := (l0 ++ [a]) ++ l2]> bs in
  buckets_ok h' t bs' ∧ stacks h' bs' (pop k m).
Proof.
  intros Hok Hst Hk Hb Ha Hx Hm Hl1 h' bs'.
  assert (∀ l, l ≠ x → (λ n, (key n, value n)) <$> h' !! l = (λ n, (key n, value n)) <$> h !! l) as Hh'.
  { intros l Hl. unfold h'. rewrite lookup_delete_ne, lookup_insert by done.
    case_decide; [|done]. subst. by rewrite Ha. }
  eapply (removal_ok h t bs k (l0 ++ [a]) l2 x nx); try done; [by eapply table_length|..].
  - intros p Hp. destruct (the_bucket _ _ _ Hok k) as (p' & ls & Hp' & Hls & Hc).
    rewrite Hb in Hls. simplify_eq. rewrite <-app_assoc in *. simpl in *.
    by eapply chain_unlink.
  - intros l Hl Hla. unfold h'. rewrite lookup_delete_ne, lookup_insert_ne by set_solver. done.
Qed.

(** * The operations refine the stacks *)

Lemma elem_of_concat {A} (bs : list (list A)) l :
  l ∈ concat bs ↔ ∃ i ls, bs !! i = Some ls ∧ l ∈ ls.
Proof.
  rewrite list_elem_of_In, in_concat. split.
  - intros (ls & Hls & Hl). apply list_elem_of_In, list_elem_of_lookup in Hls as [i Hi].
    exists i, ls. by rewrite list_elem_of_In.
  - intros (i & ls & Hi & Hl). exists ls. rewrite <-!list_elem_of_In. split; [|done].
    by eapply list_elem_of_lookup_2.
Qed.
Lemma elem_of_concat_lookup {A} (bs : list (list A)) i ls l :
  bs !! i = Some ls → l ∈ ls → l ∈ concat bs.
Proof. intros. apply elem_of_concat. eauto. Qed.

Lemma exists_last_or_nil {A} (l : list A) : l = [] ∨ ∃ l' a, l = l' ++ [a].
Proof. destruct l as [|a l] using rev_ind; [by left|]. right. eauto. Qed.

Section refinement.
Context {S : Type} `{HeapIndep S node_t hashmap_t, !HeapIndep S hashmap_t node_t}.
Context `{Oom S, !OomIndep S node_t, !OomIndep S hashmap_t}.
Implicit Types (s : S) (m : list Z → list ptr).

Lemma repr_run s ht t bs m :
  cells (heap hashmap_t s) !! ht = Some (Hashmap t) →
  buckets_ok (cells (heap node_t s)) t bs → stacks (cells (heap node_t s)) bs m →
  repr s ht m.
Proof. intros. by exists t, bs. Qed.

Lemma get_loop_run fuel p ls k t s :
  chain node_next (cells (heap node_t s)) p ls NULL → length ls < fuel →
  HashMap.get_loop fuel p k t s = Ok (default NULL (head (stack (cells (heap node_t s)) k ls))) s.
Proof.
  revert p ls. induction fuel as [|fuel IH]; intros p ls Hc Hf; [lia|]. simpl.
  destruct p as [l|]; [|by apply chain_null in Hc as [-> _]].
  apply chain_some in Hc as (n & ls' & -> & Hn & Hc). cstep.
  rewrite (stack_cons_some _ k l ls' n) by done. simpl in Hf.
  destruct (decide (strncmp MAX_KEY_LENGTH (key n) k = 0%Z)) as [Hm|Hm].
  - by rewrite decide_True by exact Hm.
  - rewrite decide_False by exact Hm. apply IH; [done|lia].
Qed.

Lemma delete_loop_run t bs k ht m tid s :
  cells (heap hashmap_t s) !! ht = Some (Hashmap t) →
  buckets_ok (cells (heap node_t s)) t bs → stacks (cells (heap node_t s)) bs m → no_nul k →
  ∀ ls l1 fuel, bs !! index_of k = Some (l1 ++ ls) →
  (∀ l n, l ∈ l1 → cells (heap node_t s) !! l = Some n → ¬ matches k n) → length ls < fuel →
  ∃ s', HashMap.delete_loop fuel (Some ht) (index_of k) (last l1) (head ls) k tid s = Ok tt s' ∧
    repr s' ht (pop k m) ∧ oom s' = oom s.
Proof.
  intros Hht Hok Hst Hk. induction ls as [|x ls IH]; intros l1 fuel Hb Hl1 Hf.
  { destruct fuel as [|fuel]; [simpl in Hf; lia|]. exists s. split; [done|]. split; [|done].
    apply (repr_run s ht t bs); [done..|]. intros k' ls' Hk' Hls'. unfold pop.
    case_decide as Hs; [|by apply Hst]. rewrite <-(Hst k' ls') by done.
    rewrite (index_of_same k' k) in Hls' by done. rewrite Hb, app_nil_r in Hls'.
    simplify_eq. rewrite stack_none; [done|]. intros l n Hl Hn.
    rewrite (matches_key k) by done. eauto. }
  destruct fuel as [|fuel]; simpl in Hf; [lia|]. simpl.
  destruct (the_bucket _ _ _ Hok k) as (p & ls0 & Hp & Hb0 & Hc). rewrite Hb in Hb0. simplify_eq.
  destruct (chain_lookup _ _ _ _ _ x Hc) as [nx Hx]; [set_solver|].
  cstep. destruct (decide (strncmp MAX_KEY_LENGTH (key nx) k = 0%Z)) as [Hm|Hm]; cycle 1.
  - replace (Some x) with (last (l1 ++ [x])) by apply last_snoc.
    replace (node_next nx) with (head ls).
    + apply IH; [by rewrite <-app_assoc|..|lia].
      intros l n [Hl| ->%list_elem_of_singleton]%elem_of_app Hn; [eauto|]. by simplify_eq.
    + apply chain_app in Hc as (r & _ & Hc). simpl in Hc.
      destruct Hc as (_ & n & Hn & Hc). simplify_eq. symmetry. by eapply chain_head.
  - pose proof (removed_once _ _ _ _ _ _ _ Hok Hb) as Hx'.
    assert (∀ l, l ∈ l1 → l ≠ x) as Hx1 by set_solver.
    assert (index_of k < length t) as Hi.
    { rewrite (table_length _ _ _ Hok). apply index_of_lt. }
    assert (head ls = node_next nx) as Hnx.
    { apply chain_app in Hc as (r & _ & Hc). simpl in Hc.
      destruct Hc as (_ & n & Hn & Hc). simplify_eq. symmetry. by eapply chain_head. }
    destruct (exists_last_or_nil l1) as [->|(l0 & a & ->)].
    + simpl. cstep. rewrite (free_ok x nx) by (by heap_simpl). eexists. split; [done|].
      destruct (remove_first _ _ _ k x ls nx m Hok Hst) as [Hok' Hst']; [done..|].
      split; [|by heap_simpl].
      eapply repr_run; heap_simpl; [by rewrite lookup_insert_eq|exact Hok'|exact Hst'].
    + rewrite last_snoc.
      destruct (chain_lookup _ _ _ _ _ a Hc) as [na Ha]; [set_solver|].
      assert (a ≠ x) by set_solver.
      cstep. rewrite (free_ok x nx) by (heap_simpl; by rewrite lookup_insert_ne).
      eexists. split; [done|].
      destruct (remove_behind _ _ _ k l0 a x ls na nx m Hok Hst) as [Hok' Hst']; [done..|].
      split; [|by heap_simpl].
      eapply repr_run; heap_simpl; [done|exact Hok'|exact Hst'].
Qed.

Lemma get_run ht k m t s : repr s ht m → no_nul k →
  HashMap.get (Some ht) k t s = Ok (top m k) s.
Proof.
  intros (tb & bs & Hht & Hok & Hst) Hk.
  destruct (the_bucket _ _ _ Hok k) as (p & ls & Hp & Hls & Hc).
  unfold HashMap.get, HashMap.nodes_fuel, array_get. cstep. simpl. rewrite Hp. cstep. cstep.
  erewrite get_loop_run; [|done|].
  - unfold top. by rewrite (Hst k ls).
  - pose proof (chain_length _ _ _ _ Hc). lia.
Qed.

Lemma delete_run ht k m t s : repr s ht m → no_nul k →
  ∃ s', HashMap.delete (Some ht) k t s = Ok tt s' ∧ repr s' ht (pop k m) ∧ oom s' = oom s.
Proof.
  intros (tb & bs & Hht & Hok & Hst) Hk.
  destruct (the_bucket _ _ _ Hok k) as (p & ls & Hp & Hls & Hc).
  unfold HashMap.delete, HashMap.nodes_fuel, array_get. cstep. simpl. rewrite Hp. cstep. cstep.
  rewrite (chain_head _ _ _ _ Hc).
  eapply (delete_loop_run tb bs k ht m t s) with (l1 := []); [done..| |].
  - set_solver.
  - pose proof (chain_length _ _ _ _ Hc). lia.
Qed.

Lemma insert_run ht k v m t s : repr s ht m → no_nul k →
  ∃ s', HashMap.insert (Some ht) k v t s = Ok tt s' ∧
    repr s' ht (if decide (malloc_fails s) then m else push k v m) ∧ oom s' = tl (oom s).
Proof.
  intros (tb & bs & Hht & Hok & Hst) Hk. unfold HashMap.insert, array_get.
  destruct (the_bucket _ _ _ Hok k) as (p & ls & Hp & Hls & Hc).
  destruct (decide (malloc_fails s)) as [Hf|Hf]; cstep.
  { eexists. split; [done|]. split; [|by heap_simpl]. exists tb, bs. by heap_simpl. }
  cstep_with ltac:(by heap_simpl). simpl. rewrite Hp. cstep.
  cstep_with ltac:(heap_simpl; by rewrite lookup_insert_eq).
  erewrite update_ok by (by heap_simpl). eexists. split; [done|].
  split; [|by heap_simpl].
  set (n := Node (strncpy MAX_KEY_LENGTH k) v p).
  pose proof (fresh_loc_none (heap node_t s)) as Hfresh.
  eapply (repr_run _ ht _ (<[index_of k := fresh_loc (heap node_t s) :: ls]> bs)).
  - heap_simpl. by rewrite lookup_insert_eq.
  - heap_simpl. cbn [mem_alloc cells]. rewrite insert_insert_eq.
    by eapply (buckets_push _ _ _ Hok _ n k).
  - heap_simpl. cbn [mem_alloc cells]. rewrite insert_insert_eq.
    by eapply (stacks_push _ _ _ Hok m _ n k).
Qed.

Lemma create_run t s : ¬ malloc_fails s →
  ∃ ht s', HashMap.create_table t s = Ok (Some ht) s' ∧ repr s' ht (λ _, []) ∧
    oom s' = tl (oom s).
Proof.
  intros Hf. unfold HashMap.create_table. erewrite malloc_ok by done.
  eexists _, _. split; [done|]. split; [|by heap_simpl].
  eapply (repr_run _ _ _ (replicate TABLE_SIZE [])); heap_simpl; [by rewrite lookup_insert_eq|..].
  - split; [by rewrite length_replicate..| |].
    + by intros i p ls [-> _]%lookup_replicate [-> _]%lookup_replicate.
    + intros i ls l [-> _]%lookup_replicate. set_solver.
  - by intros k ls _ [-> _]%lookup_replicate.
Qed.

(** [destroy_hashmap] frees the nodes of every bucket, each once. *)
Lemma free_bucket_run fuel p ls t s :
  chain node_next (cells (heap node_t s)) p ls NULL → length ls < fuel →
  ∃ s', HashMap.free_bucket fuel p t s = Ok tt s' ∧ s' = set_heap node_t (heap node_t s') s ∧
    ∀ l, cells (heap node_t s') !! l = if decide (l ∈ ls) then None else cells (heap node_t s) !! l.
Proof.
  revert p ls s. induction fuel as [|fuel IH]; intros p ls s Hc Hf; [lia|]. simpl.
  destruct p as [l|].
  - pose proof (chain_NoDup _ _ _ _ Hc) as Hnd.
    apply chain_some in Hc as (n & ls' & -> & Hn & Hc). apply NoDup_cons in Hnd as [Hl _].
    simpl in Hf. cstep. cstep.
    destruct (IH (node_next n) ls' (set_heap node_t (mem_del l (heap node_t s)) s))
      as (s' & -> & Hs & Hcells); [heap_simpl; by apply chain_delete_notin|lia|].
    exists s'. split; [done|]. heap_simpl. split; [by heap_simpl in Hs|]. intros l'. rewrite Hcells.
    heap_simpl. destruct (decide (l' = l)) as [->|Hne].
    + rewrite lookup_delete_eq. by repeat case_decide; [done..|set_solver].
    + rewrite lookup_delete_ne by done. by repeat case_decide; try set_solver.
  - apply chain_null in Hc as [-> _]. exists s. split; [done|]. by heap_simpl.
Qed.

Lemma free_buckets_run ps bss t s :
  Forall2 (λ p ls, chain node_next (cells (heap node_t s)) p ls NULL) ps bss →
  NoDup (concat bss) →
  ∃ s', HashMap.free_buckets ps t s = Ok tt s' ∧ s' = set_heap node_t (heap node_t s') s ∧
    ∀ l, cells (heap node_t s') !! l =
      if decide (l ∈ concat bss) then None else cells (heap node_t s) !! l.
Proof.
  intros Hall. revert s Hall. induction ps as [|p ps IH] in bss |- *; intros s Hall Hnd.
  { inversion Hall; subst. exists s. split; [done|]. by heap_simpl. }
  inversion Hall as [|? ls ? bss' Hc Hall']; subst. simpl in *.
  apply NoDup_app in Hnd as (_ & Hdisj & Hnd). unfold HashMap.nodes_fuel. cstep.
  destruct (free_bucket_run (Datatypes.S (size (cells (heap node_t s)))) p ls t s)
    as (s1 & Hs1 & Hset & Hcells); [done|pose proof (chain_length _ _ _ _ Hc); lia|].
  cstep. destruct (IH bss' s1) as (s2 & -> & Hset2 & Hcells2); [|done|].
  - apply Forall2_same_length_lookup in Hall' as [Hlen Hall'].
    apply Forall2_same_length_lookup. split; [done|]. intros i p' ls' Hp Hls.
    eapply chain_ext; [|by eapply Hall']. intros l Hl. rewrite Hcells, decide_False; [done|].
    intros Hin. apply (Hdisj l Hin). by eapply elem_of_concat_lookup.
  - exists s2. split; [done|]. split; [rewrite Hset2, Hset; by heap_simpl|].
    intros l. rewrite Hcells2, Hcells. repeat case_decide; set_solver.
Qed.

Lemma NoDup_concat_index (bs : list (list positive)) :
  (∀ i ls, bs !! i = Some ls → NoDup ls) →
  (∀ i j ls ls' l, bs !! i = Some ls → bs !! j = Some ls' → l ∈ ls → l ∈ ls' → i = j) →
  NoDup (concat bs).
Proof.
  induction bs as [|b bs IH]; intros Hnd Hu; simpl; [constructor|].
  apply NoDup_app. split; [by apply (Hnd 0)|]. split.
  - intros l Hl (j & ls & Hj & Hl')%elem_of_concat.
    by specialize (Hu 0 (Datatypes.S j) b ls l eq_refl Hj Hl Hl').
  - apply IH.
    + intros i ls Hi. by apply (Hnd (Datatypes.S i)).
    + intros i j ls ls' l Hi Hj Hl Hl'.
      by specialize (Hu (Datatypes.S i) (Datatypes.S j) ls ls' l Hi Hj Hl Hl') as [= ->].
Qed.

Lemma destroy_run ht m t s : repr s ht m →
  ∃ s' bs, HashMap.destroy_hashmap (Some ht) t s = Ok NULL s' ∧
    buckets_ok (cells (heap node_t s)) (default [] (table <$> cells (heap hashmap_t s) !! ht)) bs ∧
    cells (heap hashmap_t s') !! ht = None ∧
    ∀ l, cells (heap node_t s') !! l =
      if decide (l ∈ concat bs) then None else cells (heap node_t s) !! l.
Proof.
  intros (tb & bs & Hht & Hok & Hst). unfold HashMap.destroy_hashmap. cstep. simpl.
  destruct (free_buckets_run tb bs t s) as (s1 & Hs1 & Hset & Hcells).
  - apply Forall2_same_length_lookup. destruct Hok as [Hlt Hlb Hc _]. split; [congruence|eauto].
  - apply NoDup_concat_index; [|intros; by eapply bucket_unique].
    intros i ls Hi. destruct (lookup_lt_is_Some_2 tb i) as [p Hp].
    { rewrite (table_length _ _ _ Hok), <-(buckets_length _ _ _ Hok). by eapply lookup_lt_Some. }
    eapply chain_NoDup. by eapply bucket_chain.
  - cstep. cstep_with ltac:(rewrite Hset; by heap_simpl). eexists _, bs. split; [done|].
    rewrite Hht. split; [done|]. heap_simpl. by rewrite lookup_delete_eq.
Qed.
End refinement.

(** * Sequences of operations *)

Inductive table_op :=
  | Insert (k : list Z) (v : ptr)
  | Get (k : list Z)
  | Delete (k : list Z).
Definition op_key (o : table_op) : list Z :=
  match o with Insert k _ | Get k | Delete k => k end.

Section sequences.
Context {S : Type} `{HeapIndep S node_t hashmap_t, !HeapIndep S hashmap_t node_t}.
Context `{Oom S, !OomIndep S node_t, !OomIndep S hashmap_t}.

(** The answers of the [get]s in a sequence of calls *)
Fixpoint run_ops (ht : ptr) (ops : list table_op) : C S (list ptr) :=
  match ops with
  | [] => mret []
  | Insert k v :: ops' => HashMap.insert ht k v;; run_ops ht ops'
  | Get k :: ops' => r ← HashMap.get ht k; rs ← run_ops ht ops'; mret (r :: rs)
  | Delete k :: ops' => HashMap.delete ht k;; run_ops ht ops'
  end.

(** The specification: a stack per key, and one allocation per insertion *)
Fixpoint spec_ops (answers : list bool) (m : list Z → list ptr) (ops : list table_op) : list ptr :=
  match ops with
  | [] => []
  | Insert k v :: ops' =>
      spec_ops (tl answers)
        (if decide (head answers = Some false) then m else push k v m) ops'
  | Get k :: ops' => top m k :: spec_ops answers m ops'
  | Delete k :: ops' => spec_ops answers (pop k m) ops'
  end.

Lemma run_ops_spec ht ops m t (s : S) :
  Forall (λ o, no_nul (op_key o)) ops → repr s ht m →
  ∃ s', run_ops (Some ht) ops t s = Ok (spec_ops (oom s) m ops) s' ∧
    ∃ m', repr s' ht m'.
Proof.
  intros Hops. revert m s. induction Hops as [|o ops Hk Hops IH]; intros m s Hr; simpl.
  { eexists. split; [done|]. by exists m. }
  destruct o as [k v|k|k]; simpl in Hk |- *.
  - destruct (insert_run ht k v m t s Hr Hk) as (s1 & Hs1 & Hr1 & Ho1). cstep.
    rewrite <-Ho1. rewrite (decide_ext (head (oom s) = Some false) (malloc_fails s)) by done.
    by apply IH.
  - destruct (IH m s Hr) as (s1 & Hs1 & Hr1). rewrite (bind_ok _ _ _ _ _ _ (get_run ht k m t s Hr Hk)).
    cstep. by exists s1.
  - destruct (delete_run ht k m t s Hr Hk) as (s1 & Hs1 & Hr1 & Ho1). cstep.
    rewrite <-Ho1. by apply IH.
Qed.
End sequences.

(** The least state these functions run in, for evaluation *)
Record table_store := TableStore {
  ts_nodes : mem node_t; ts_tables : mem hashmap_t; ts_oom : list bool }.
#[export] Instance ts_nodes_heap : Heap table_store node_t.
Proof.
  refine {| heap := ts_nodes; set_heap m s := TableStore m (ts_tables s) (ts_oom s) |};
    by intros; destruct s.
Defined.
#[export] Instance ts_tables_heap : Heap table_store hashmap_t.
Proof.
  refine {| heap := ts_tables; set_heap m s := TableStore (ts_nodes s) m (ts_oom s) |};
    by intros; destruct s.
Defined.
#[export] Instance ts_oom_class : Oom table_store.
Proof.
  refine {| oom := ts_oom; set_oom o s := TableStore (ts_nodes s) (ts_tables s) o |};
    by intros; destruct s.
Defined.
#[export] Instance ts_indep1 : HeapIndep table_store node_t hashmap_t.
Proof. done. Qed.
#[export] Instance ts_indep2 : HeapIndep table_store hashmap_t node_t.
Proof. done. Qed.
#[export] Instance ts_oom_indep1 : OomIndep table_store node_t.
Proof. done. Qed.
#[export] Instance ts_oom_indep2 : OomIndep table_store hashmap_t.
Proof. done. Qed.
Definition ts_empty (answers : list bool) : table_store := TableStore mem_empty mem_empty answers.

(** * Correctness *)

Section correctness.
Context {S : Type} `{HeapIndep S node_t hashmap_t, !HeapIndep S hashmap_t node_t}.
Context `{Oom S, !OomIndep S node_t, !OomIndep S hashmap_t}.

(** C17: A fresh table refines a stack of values per key, for every sequence of
    insertions, lookups and deletions and every behaviour of the allocator: no
    call faults, and the lookups answer with the newest value not yet deleted,
    keys being the same when their first 512 characters are. *)
Theorem table_refines_stacks ops t (s : S) :
  ¬ malloc_fails s → Forall (λ o, no_nul (op_key o)) ops →
  ∃ ht s1 s2, HashMap.create_table t s = Ok (Some ht) s1 ∧
    run_ops (Some ht) ops t s1 = Ok (spec_ops (tl (oom s)) (λ _, []) ops) s2.
Proof.
  intros Hf Hops. destruct (create_run t s Hf) as (ht & s1 & Hc & Hr & Ho).
  destruct (run_ops_spec ht ops _ t s1 Hops Hr) as (s2 & Hrun & _).
  exists ht, s1, s2. by rewrite <-Ho.
Qed.

(** An insertion that cannot allocate leaves the table as it was; one that
    can pushes the value, which hides the older values of the key and no value
    of another key. *)
Theorem insert_pushes ht k v m t (s : S) : repr s ht m → no_nul k →
  ∃ s', HashMap.insert (Some ht) k v t s = Ok tt s' ∧
    repr s' ht (if decide (malloc_fails s) then m else push k v m) ∧
    (¬ malloc_fails s → HashMap.get (Some ht) k t s' = Ok v s') ∧
    (∀ k', no_nul k' → ¬ same_key k' k →
       HashMap.get (Some ht) k' t s' = Ok (top m k') s').
Proof.
  intros Hr Hk. destruct (insert_run ht k v m t s Hr Hk) as (s' & Hs & Hr' & _).
  exists s'. split; [done|]. split; [done|]. split.
  - intros Hf. rewrite (get_run _ _ _ _ _ Hr' Hk). rewrite decide_False by done.
    unfold top, push. by rewrite decide_True by done.
  - intros k' Hk' Hne. rewrite (get_run _ _ _ _ _ Hr' Hk').
    unfold top, push. case_decide; [done|]. by rewrite decide_False by done.
Qed.

(** [destroy_hashmap] returns NULL for the caller's pointer, frees every
    node of every bucket exactly once and the table itself, and nothing else. *)
Theorem destroy_frees_all ht m t (s : S) : repr s ht m →
  ∃ s' bs, HashMap.destroy_hashmap (Some ht) t s = Ok NULL s' ∧
    buckets_ok (cells (heap node_t s)) (default [] (table <$> cells (heap hashmap_t s) !! ht)) bs ∧
    cells (heap hashmap_t s') !! ht = None ∧
    ∀ l, cells (heap node_t s') !! l =
      if decide (l ∈ concat bs) then None else cells (heap node_t s) !! l.
Proof. apply destroy_run. Qed.
End correctness.

Example table_refines_stacks_witness :
  ∃ ht s1 s2, HashMap.create_table 0 (ts_empty []) = Ok (Some ht) s1 ∧
    run_ops (Some ht) [Insert (lit "http://a/") (Some 7%positive);
                       Insert (lit "http://b/") (Some 8%positive);
                       Insert (lit "http://a/") (Some 9%positive);
                       Get (lit "http://a/"); Delete (lit "http://a/"); Get (lit "http://a/");
                       Get (lit "http://b/"); Delete (lit "http://a/"); Get (lit "http://a/")] 0 s1
    = Ok [Some 9%positive; Some 7%positive; Some 8%positive; None] s2.
Proof.
  destruct (table_refines_stacks
    [Insert (lit "http://a/") (Some 7%positive); Insert (lit "http://b/") (Some 8%positive);
     Insert (lit "http://a/") (Some 9%positive);
     Get (lit "http://a/"); Delete (lit "http://a/"); Get (lit "http://a/");
     Get (lit "http://b/"); Delete (lit "http://a/"); Get (lit "http://a/")]
    0 (ts_empty [])) as (ht & s1 & s2 & Hc & Hr).
  - done.
  - repeat constructor; done.
  - exists ht, s1, s2. split; [exact Hc|]. rewrite Hr. vm_compute. reflexivity.
Defined.

Example insert_pushes_witness :
  ∃ ht s s', HashMap.create_table 0 (ts_empty []) = Ok (Some ht) s ∧
    HashMap.insert (Some ht) (lit "http://a/") (Some 7%positive) 0 s = Ok tt s' ∧
    HashMap.get (Some ht) (lit "http://a/") 0 s' = Ok (Some 7%positive) s'.
Proof.
  destruct (create_run 0 (ts_empty [])) as (ht & s & Hc & Hr & Ho); [done|].
  destruct (insert_pushes ht (lit "http://a/") (Some 7%positive) _ 0 s Hr)
    as (s' & Hi & _ & Hg & _); [repeat constructor; done|].
  exists ht, s, s'. split; [exact Hc|]. split; [exact Hi|]. apply Hg.
  unfold malloc_fails. by rewrite Ho.
Defined.

Example destroy_frees_all_witness :
  ∃ ht s s', HashMap.create_table 0 (ts_empty []) = Ok (Some ht) s ∧
    HashMap.destroy_hashmap (Some ht) 0 s = Ok NULL s' ∧
    cells (heap hashmap_t s') !! ht = None.
Proof.
  destruct (create_run 0 (ts_empty [])) as (ht & s & Hc & Hr & Ho); [done|].
  destruct (destroy_frees_all ht _ 0 s Hr) as (s' & bs & Hd & _ & Hn & _).
  exists ht, s, s'. split; [exact Hc|]. by split.
Defined.
