(* ===== verification/Chunk.v ===== *)
(** lab3/src/chunk/chunk.c: the container of downloaded chunks, a doubly linked
    list whose nodes are numbered from 0. Appending may fail to allocate and
    then leaves the container as it was; [get_chunk] walks from the nearer end. *)
From S2P Require Import Prelude Links.
#[local] Open Scope Z_scope.

(** [struct chunk] ([is_last] is never used) *)
Record chunk_t := Chunk {
  index : Z; element_size : Z; size : Z; chunk_next : ptr; chunk_prev : ptr; data : list Z }.
(** [struct chunk_container] *)
Record chunk_container_t := Container { first : ptr; last : ptr; count : Z }.

Definition set_chunk_next (p : ptr) (c : chunk_t) : chunk_t :=
  Chunk (index c) (element_size c) (size c) p (chunk_prev c) (data c).
Definition set_chunk_prev (p : ptr) (c : chunk_t) : chunk_t :=
  Chunk (index c) (element_size c) (size c) (chunk_next c) p (data c).
Definition set_chunk_data (d : list Z) (c : chunk_t) : chunk_t :=
  Chunk (index c) (element_size c) (size c) (chunk_next c) (chunk_prev c) d.
Definition set_first (p : ptr) (c : chunk_container_t) : chunk_container_t :=
  Container p (last c) (count c).

#[export] Instance chunk_linked : Linked chunk_t.
Proof.
  refine {| next := chunk_next; prev := chunk_prev;
            set_next := set_chunk_next; set_prev := set_chunk_prev |}; done.
Defined.

Module ChunkOps.
Section chunk.
Context {S : Type} `{HeapIndep S chunk_t chunk_container_t, !HeapIndep S chunk_container_t chunk_t}.
Context `{Oom S, !OomIndep S chunk_t, !OomIndep S chunk_container_t}.

Definition create_chunk_container : C S ptr :=
  malloc chunk_container_t (Container NULL NULL 0).

(** [memcpy] of [n] bytes out of the caller's buffer *)
Definition memcpy (src : list Z) (n : Z) : C S (list Z) :=
  if decide (n <= Z.of_nat (length src)) then mret (take (Z.to_nat n) src)
  else fail OutOfBounds.

(** The second half of [__add_chunk]: the data is allocated, the chunk linked. *)
Definition link_chunk (container new_chunk : ptr) : C S unit :=
  c ← load chunk_container_t container;
  match last c with
  | Some _ => update chunk_t (last c) (set_chunk_next new_chunk)
  | None => update chunk_container_t container (set_first new_chunk)
  end;;
  update chunk_t new_chunk (set_chunk_prev (last c));;
  update chunk_container_t container (λ c, Container (first c) new_chunk (u64 (count c + 1))).

Definition __add_chunk (container : ptr) (src : option (list Z)) (esize n : Z) : C S unit :=
  match container, src with
  | Some _, Some bytes =>
      if decide (n = 0) then mret tt else
      new_chunk ← malloc chunk_t (Chunk 0 0 0 NULL NULL []);
      match new_chunk with
      | None => mret tt
      | Some _ =>
          c ← load chunk_container_t container;
          idx ← match last c with
                | Some _ => l ← load chunk_t (last c); mret (u64 (index l + 1))
                | None => mret 0
                end;
          update chunk_t new_chunk (λ _, Chunk idx esize n NULL NULL []);;
          ok ← malloc_answer;
          if (ok : bool) then
            content ← memcpy bytes (u64 (esize * n));
            update chunk_t new_chunk (set_chunk_data content);;
            link_chunk container new_chunk
          else free chunk_t new_chunk
      end
  | _, _ => mret tt
  end.

Fixpoint get_chunk_loop (fuel : nat) (forward : bool) (current : ptr) (i : Z) : C S ptr :=
  match fuel with
  | O => fail OutOfFuel
  | Datatypes.S f =>
      c ← load chunk_t current;
      if decide (index c ≠ i)
      then get_chunk_loop f forward (if forward then chunk_next c else chunk_prev c) i
      else mret current
  end.
Definition get_chunk (container : ptr) (i : Z) : C S ptr :=
  match container with
  | None => mret NULL
  | Some _ =>
      c ← load chunk_container_t container;
      if decide (count c <= i) then mret NULL else
      let forward := bool_decide (i < count c / 2) in
      get_chunk_loop (Z.to_nat (count c)) forward (if forward then first c else last c) i
  end.

Fixpoint free_chunks (fuel : nat) (current : ptr) : C S unit :=
  match fuel with
  | O => fail OutOfFuel
  | Datatypes.S f =>
      match current with
      | None => mret tt
      | Some _ => c ← load chunk_t current; free chunk_t current;; free_chunks f (chunk_next c)
      end
  end.
(** [container] is the address of the caller's pointer, which becomes NULL. *)
Definition free_chunk_container (container : ptr) : C S ptr :=
  c ← load chunk_container_t container;
  fuel ← gets (λ s, Datatypes.S (base.size (cells (heap chunk_t s))));
  free_chunks fuel (first c);;
  free chunk_container_t container;;
  mret NULL.
End chunk.
End ChunkOps.

(** * Abstraction: the list of chunks, in order *)

Record payload := Payload { p_element_size : Z; p_size : Z; p_data : list Z }.
Definition payload_of (c : chunk_t) : payload := Payload (element_size c) (size c) (data c).

(** All bytes of the container, in order *)
Definition content (xs : list payload) : list Z := concat (p_data <$> xs).

(** The nodes [ls] are linked both ways, numbered from 0 and carry [xs]. *)
Record chunks_at (h : gmap positive chunk_t) (f l : ptr) (ls : list positive)
    (xs : list payload) : Prop := {
  chunks_dll : dll h f l ls;
  chunks_payload : payload_of <$> nodes h ls = xs;
  chunks_index i k c : ls !! i = Some k → h !! k = Some c → index c = Z.of_nat i;
}.

Definition container_repr {S} `{Heap S chunk_t, Heap S chunk_container_t}
    (s : S) (p : positive) (ls : list positive) (xs : list payload) : Prop :=
  ∃ c, cells (heap chunk_container_t s) !! p = Some c ∧
    chunks_at (cells (heap chunk_t s)) (first c) (last c) ls xs ∧
    count c = Z.of_nat (length ls) ∧ count c < 2 ^ 64.

Lemma u64_small z : 0 <= z < 2 ^ 64 → u64 z = z.
Proof. intros. unfold u_wrap. by apply Z.mod_small. Qed.

Section chunks.
Implicit Types (h : gmap positive chunk_t) (ls : list positive).

Lemma chunks_length h f l ls xs : chunks_at h f l ls xs → length xs = length ls.
Proof.
  intros [Hd <- _]. rewrite length_fmap. apply nodes_length. intros k. by eapply dll_lookup.
Qed.

Lemma chunks_lookup h f l ls xs i k : chunks_at h f l ls xs → ls !! i = Some k →
  ∃ c, h !! k = Some c ∧ index c = Z.of_nat i ∧ xs !! i = Some (payload_of c) ∧
    chunk_next c = ls !! (i + 1)%nat ∧ (i ≠ 0%nat → chunk_prev c = ls !! (i - 1)%nat).
Proof.
  intros Hc Hi. pose proof Hc as [Hd Hp Hx].
  destruct (dll_lookup _ _ _ _ k Hd) as [c Hk]; [by eapply list_elem_of_lookup_2|].
  exists c. split; [done|]. split; [eauto|]. split.
  - rewrite <-Hp, list_lookup_fmap. erewrite nodes_lookup; [done| |done..].
    intros k'. by eapply dll_lookup.
  - apply list_elem_of_split_length in Hi as (l1 & l2 & -> & ->).
    destruct (dll_links _ _ _ _ _ _ Hd) as (c' & Hk' & Hpr & Hnx). simplify_eq. split.
    + simpl in Hnx. rewrite Hnx, lookup_app_r by lia.
      replace (length l1 + 1 - length l1)%nat with 1%nat by lia. by destruct l2.
    + intros Hne. simpl in Hpr. rewrite Hpr, lookup_app_l by lia. rewrite last_lookup.
      f_equal. lia.
Qed.

Lemma chunks_first h f l ls xs : chunks_at h f l ls xs → f = ls !! 0%nat.
Proof. intros [Hd _ _]. rewrite (dll_first _ _ _ _ Hd). by destruct ls. Qed.
Lemma chunks_last h f l ls xs : chunks_at h f l ls xs → l = ls !! (length ls - 1)%nat.
Proof.
  intros [Hd _ _]. rewrite (dll_last _ _ _ _ Hd), last_lookup. f_equal. lia.
Qed.

(** The heap after a chunk was linked behind the last one. *)
Lemma chunks_append h f l ls xs k c :
  chunks_at h f l ls xs → h !! k = None → chunk_next c = NULL → chunk_prev c = l →
  index c = Z.of_nat (length ls) →
  chunks_at (match l with
             | Some a => <[k := c]> (alter (set_chunk_next (Some k)) a h)
             | None => <[k := c]> h
             end) (match l with Some _ => f | None => Some k end) (Some k)
    (ls ++ [k]) (xs ++ [payload_of c]).
Proof.
  intros Hc Hk Hn Hp Hx. pose proof Hc as [Hd Hxs Hi].
  assert (k ∉ ls) as Hkl by (intros Hin; destruct (dll_lookup _ _ _ _ _ Hd Hin); congruence).
  set (h' := match l with Some _ => _ | None => _ end).
  assert (h' !! k = Some c) as Hk'.
  { unfold h'. destruct l; by rewrite lookup_insert_eq. }
  assert (∀ k0, k0 ∈ ls → ∃ c0 c1, h !! k0 = Some c0 ∧ h' !! k0 = Some c1 ∧
    payload_of c1 = payload_of c0 ∧ index c1 = index c0) as Hother.
  { intros k0 Hin. destruct (dll_lookup _ _ _ _ _ Hd Hin) as [c0 Hc0].
    assert (k ≠ k0) by set_solver. unfold h'. destruct l as [a|].
    - rewrite lookup_insert_ne by done. destruct (decide (a = k0)) as [->|Hne].
      + rewrite lookup_alter_eq, Hc0. by eexists _, _.
      + rewrite lookup_alter_ne by done. by eexists _, _.
    - rewrite lookup_insert_ne by done. by eexists _, _. }
  split.
  - pose proof (dll_append h f l ls k c Hd Hk Hn Hp) as Hd'. unfold h'. by destruct l.
  - rewrite nodes_app, fmap_app. f_equal.
    + rewrite <-Hxs. apply nodes_map_ext. intros k0 Hin.
      destruct (Hother k0 Hin) as (c0 & c1 & -> & -> & Hpl & _). simpl. by rewrite Hpl.
    + rewrite nodes_cons, Hk'. done.
  - intros i k0 c0 Hi0 Hc0. apply lookup_app_Some in Hi0 as [Hi0|[Hge Hi0]].
    + destruct (Hother k0) as (c1 & c2 & Hc1 & Hc2 & _ & Hix); [by eapply list_elem_of_lookup_2|].
      simplify_eq. rewrite Hix. eauto.
    + apply list_lookup_singleton_Some in Hi0 as [Hz <-]. simplify_eq. rewrite Hx. f_equal. lia.
Qed.
End chunks.

(** * The operations *)

Section operations.
Context {S : Type} `{HeapIndep S chunk_t chunk_container_t, !HeapIndep S chunk_container_t chunk_t}.
Context `{Oom S, !OomIndep S chunk_t, !OomIndep S chunk_container_t}.
Implicit Types (s : S).

Lemma u64_succ n : (Z.of_nat n + 1 < 2 ^ 64)%Z → u64 (Z.of_nat n + 1) = Z.of_nat (Datatypes.S n).
Proof. intros. rewrite u64_small; lia. Qed.

(** Linking a chunk that was allocated and filled in. *)
Lemma link_chunk_run s p ls xs k c0 (cc : chunk_container_t) h t :
  cells (heap chunk_container_t s) !! p = Some cc →
  cells (heap chunk_t s) = <[k := c0]> h → h !! k = None →
  chunks_at h (first cc) (last cc) ls xs →
  count cc = Z.of_nat (length ls) → count cc + 1 < 2 ^ 64 →
  chunk_next c0 = NULL → index c0 = Z.of_nat (length ls) →
  ∃ s', ChunkOps.link_chunk (Some p) (Some k) t s = Ok tt s' ∧
    container_repr s' p (ls ++ [k]) (xs ++ [payload_of c0]) ∧ oom s' = oom s.
Proof.
  intros Hcc Hcells Hk Hat Hcount Hb Hn Hi.
  pose proof (chunks_append h (first cc) (last cc) ls xs k (set_chunk_prev (last cc) c0)
    Hat Hk Hn eq_refl Hi) as Hat'.
  unfold ChunkOps.link_chunk. cstep. destruct cc as [f l cnt]. simpl in *.
  destruct l as [a|].
  - destruct (dll_lookup _ _ _ _ a (chunks_dll _ _ _ _ _ Hat)) as [ca Ha].
    { eapply last_elem. symmetry. eapply dll_last. by eapply chunks_dll. }
    assert (a ≠ k) by congruence.
    cstep_with ltac:(rewrite Hcells; by rewrite lookup_insert_ne).
    cstep_with ltac:(heap_simpl; rewrite Hcells; by rewrite lookup_insert_ne, lookup_insert_eq).
    erewrite update_ok by (by heap_simpl). eexists. split; [done|].
    split; [|by heap_simpl].
    eexists. heap_simpl. rewrite lookup_insert_eq. split; [done|]. simpl.
    rewrite Hcount, u64_succ by lia. rewrite length_app. simpl.
    split; [|lia]. rewrite Hcells.
    rewrite (insert_insert_ne _ a k) by done. rewrite insert_insert_eq.
    rewrite (alter_insert_some _ _ _ _ Ha) in Hat'. exact Hat'.
  - cstep. cstep_with ltac:(heap_simpl; rewrite Hcells; by rewrite lookup_insert_eq).
    erewrite update_ok by (heap_simpl; by rewrite lookup_insert_eq). eexists. split; [done|].
    split; [|by heap_simpl].
    eexists. heap_simpl. rewrite lookup_insert_eq. split; [done|]. simpl.
    rewrite Hcount, u64_succ by lia. rewrite length_app. simpl.
    split; [|lia]. rewrite Hcells, insert_insert_eq. exact Hat'.
Qed.

(** Neither of the two allocations of [__add_chunk] fails. *)
Definition two_mallocs (answers : list bool) : Prop :=
  head answers ≠ Some false ∧ head (tl answers) ≠ Some false.
#[local] Instance two_mallocs_dec o : Decision (two_mallocs o).
Proof. unfold two_mallocs. apply _. Defined.

(** The index given to the new chunk *)
Lemma next_index_run s (cc : chunk_container_t) h ls xs k c0 t :
  cells (heap chunk_t s) = <[k := c0]> h → h !! k = None →
  chunks_at h (first cc) (last cc) ls xs → Z.of_nat (length ls) < 2 ^ 64 →
  match last cc with
  | Some _ => l ← load chunk_t (last cc); mret (u64 (index l + 1))
  | None => mret 0
  end t s = Ok (Z.of_nat (length ls)) s.
Proof.
  intros Hcells Hk Hat Hb. pose proof (chunks_last _ _ _ _ _ Hat) as Hl.
  destruct (last cc) as [a|].
  - destruct (chunks_lookup _ _ _ _ _ _ a Hat (eq_sym Hl)) as (ca & Ha & Hi & _).
    assert (a ≠ k) by congruence.
    cstep_with ltac:(rewrite Hcells; by rewrite lookup_insert_ne).
    assert (0 < length ls)%nat by (symmetry in Hl; apply lookup_lt_Some in Hl; lia).
    rewrite Hi. unfold mret, C_ret. f_equal. rewrite u64_small; lia.
  - symmetry in Hl. apply lookup_ge_None in Hl. unfold mret, C_ret. f_equal. lia.
Qed.

Lemma add_chunk_run s p ls xs bytes esize n t :
  container_repr s p ls xs → Z.of_nat (length ls) + 1 < 2 ^ 64 → n ≠ 0 →
  0 <= esize * n < 2 ^ 64 → esize * n <= Z.of_nat (length bytes) →
  ∃ s', ChunkOps.__add_chunk (Some p) (Some bytes) esize n t s = Ok tt s' ∧
    (if decide (two_mallocs (oom s))
     then ∃ k, (k ∉ ls) ∧ container_repr s' p (ls ++ [k])
                (xs ++ [Payload esize n (take (Z.to_nat (esize * n)) bytes)])
     else container_repr s' p ls xs).
Proof.
  intros (cc & Hcc & Hat & Hcount & Hb) Hlen Hn He Hbytes.
  unfold ChunkOps.__add_chunk. rewrite decide_False by done.
  destruct (decide (malloc_fails s)) as [Hf|Hf]; cstep.
  { eexists. split; [done|]. rewrite decide_False by (by intros [Hnf _]).
    exists cc. heap_simpl. done. }
  cstep_with ltac:(by heap_simpl).
  set (k := fresh_loc (heap chunk_t s)).
  assert (cells (heap chunk_t s) !! k = None) as Hk by apply fresh_loc_none.
  erewrite bind_ok; [|eapply (next_index_run _ cc (cells (heap chunk_t s)) ls xs k);
    [by heap_simpl|done..|lia]].
  cstep_with ltac:(heap_simpl; by rewrite lookup_insert_eq). cstep. heap_simpl.
  destruct (decide (head (tl (oom s)) = Some false)) as [Hf2|Hf2].
  - rewrite bool_decide_false by (unfold malloc_fails; heap_simpl; tauto).
    erewrite free_ok by (heap_simpl; by rewrite lookup_insert_eq). eexists. split; [done|].
    rewrite decide_False by (by intros [_ Hnf]).
    exists cc. heap_simpl. rewrite insert_insert_eq, delete_insert_id by done. done.
  - rewrite bool_decide_true by (unfold malloc_fails; by heap_simpl).
    unfold ChunkOps.memcpy. rewrite u64_small by done. rewrite decide_True by done.
    cstep. cstep_with ltac:(heap_simpl; by rewrite !lookup_insert_eq).
    match goal with |- ∃ _, ChunkOps.link_chunk _ _ _ ?st = _ ∧ _ =>
      destruct (link_chunk_run st p ls xs k
        (Chunk (Z.of_nat (length ls)) esize n NULL NULL (take (Z.to_nat (esize * n)) bytes)) cc
        (cells (heap chunk_t s)) t) as (s' & Hs' & Hr' & _)
    end; [by heap_simpl|heap_simpl; by rewrite !insert_insert_eq|done..| |done|done|].
    + rewrite Hcount. lia.
    + exists s'. split; [exact Hs'|]. rewrite decide_True by done.
      exists k. split; [|exact Hr'].
      intros Hin. destruct (dll_lookup _ _ _ _ _ (chunks_dll _ _ _ _ _ Hat) Hin). congruence.
Qed.

Section walk.
Context (s : S) (f l : ptr) (ls : list positive) (xs : list payload).
Hypothesis Hat : chunks_at (cells (heap chunk_t s)) f l ls xs.

Lemma get_loop_forward fuel i j k t :
  ls !! j = Some k → (j <= i < length ls)%nat → (i - j < fuel)%nat →
  ChunkOps.get_chunk_loop fuel true (Some k) (Z.of_nat i) t s = Ok (ls !! i) s.
Proof.
  revert j k. induction fuel as [|fuel IH]; intros j k Hj Hi Hf; [lia|]. simpl.
  destruct (chunks_lookup _ _ _ _ _ _ _ Hat Hj) as (c & Hc & Hx & _ & Hn & _). cstep.
  case_decide as Hne.
  - rewrite Hx in Hne. destruct (lookup_lt_is_Some_2 ls (j + 1)%nat) as [k' Hk']; [lia|].
    rewrite Hn, Hk'. eapply IH; [done|lia..].
  - unfold mret, C_ret. rewrite Hx in Hne. assert (i = j) as -> by lia. by rewrite Hj.
Qed.

Lemma get_loop_backward fuel i j k t :
  ls !! j = Some k → (i <= j)%nat → (j - i < fuel)%nat →
  ChunkOps.get_chunk_loop fuel false (Some k) (Z.of_nat i) t s = Ok (ls !! i) s.
Proof.
  revert j k. induction fuel as [|fuel IH]; intros j k Hj Hi Hf; [lia|]. simpl.
  destruct (chunks_lookup _ _ _ _ _ _ _ Hat Hj) as (c & Hc & Hx & _ & _ & Hp). cstep.
  case_decide as Hne.
  - rewrite Hx in Hne. pose proof (lookup_lt_Some _ _ _ Hj).
    destruct (lookup_lt_is_Some_2 ls (j - 1)%nat) as [k' Hk']; [lia|].
    rewrite Hp, Hk' by lia. eapply IH; [done|lia..].
  - unfold mret, C_ret. rewrite Hx in Hne. assert (i = j) as -> by lia. by rewrite Hj.
Qed.

(** Half the nodes, and one, are visited at most. *)
Lemma get_loop_half fuel i t (b := bool_decide (Z.of_nat i < Z.of_nat (length ls) / 2)) :
  (i < length ls)%nat → (length ls / 2 < fuel)%nat →
  ChunkOps.get_chunk_loop fuel b (if b then f else l) (Z.of_nat i) t s = Ok (ls !! i) s.
Proof.
  intros Hi Hf. subst b. pose proof (Nat2Z.inj_div (length ls) 2) as Hdiv. change (Z.of_nat 2) with 2 in Hdiv.
  pose proof (Z.div_mod (Z.of_nat (length ls)) 2 ltac:(lia)).
  pose proof (Z.mod_pos_bound (Z.of_nat (length ls)) 2 ltac:(lia)).
  case_bool_decide as Hh.
  - rewrite (chunks_first _ _ _ _ _ Hat).
    destruct (lookup_lt_is_Some_2 ls 0%nat) as [k Hk]; [lia|]. rewrite Hk.
    eapply get_loop_forward; [done|lia|lia].
  - rewrite (chunks_last _ _ _ _ _ Hat).
    destruct (lookup_lt_is_Some_2 ls (length ls - 1)%nat) as [k Hk]; [lia|]. rewrite Hk.
    eapply get_loop_backward; [done|lia|lia].
Qed.
End walk.

Lemma get_chunk_run s p ls xs i t : container_repr s p ls xs →
  ChunkOps.get_chunk (Some p) (Z.of_nat i) t s = Ok (ls !! i) s.
Proof.
  intros (cc & Hcc & Hat & Hcount & Hb). unfold ChunkOps.get_chunk. cstep.
  case_decide as Hge.
  - unfold mret, C_ret. rewrite lookup_ge_None_2 by lia. done.
  - rewrite Hcount, Nat2Z.id. eapply get_loop_half; [done|lia|].
    apply Nat.div_lt; lia.
Qed.

Lemma free_chunks_run fuel p ls t s :
  chain chunk_next (cells (heap chunk_t s)) p ls NULL → (length ls < fuel)%nat →
  ∃ s', ChunkOps.free_chunks fuel p t s = Ok tt s' ∧ s' = set_heap chunk_t (heap chunk_t s') s ∧
    ∀ l, cells (heap chunk_t s') !! l = if decide (l ∈ ls) then None else cells (heap chunk_t s) !! l.
Proof.
  revert p ls s. induction fuel as [|fuel IH]; intros p ls s Hc Hf; [lia|]. simpl.
  destruct p as [l|].
  - pose proof (chain_NoDup _ _ _ _ Hc) as Hnd.
    apply chain_some in Hc as (n & ls' & -> & Hn & Hc). apply NoDup_cons in Hnd as [Hl _].
    simpl in Hf. cstep. cstep.
    destruct (IH (chunk_next n) ls' (set_heap chunk_t (mem_del l (heap chunk_t s)) s))
      as (s' & -> & Hs & Hcells); [heap_simpl; by apply chain_delete_notin|lia|].
    exists s'. split; [done|]. heap_simpl. split; [by heap_simpl in Hs|]. intros l'. rewrite Hcells.
    heap_simpl. destruct (decide (l' = l)) as [->|Hne].
    + rewrite lookup_delete_eq. by repeat case_decide; [done..|set_solver].
    + rewrite lookup_delete_ne by done. by repeat case_decide; try set_solver.
  - apply chain_null in Hc as [-> _]. exists s. split; [done|]. by heap_simpl.
Qed.

Lemma free_container_run s p ls xs t : container_repr s p ls xs →
  ∃ s', ChunkOps.free_chunk_container (Some p) t s = Ok NULL s' ∧
    cells (heap chunk_container_t s') !! p = None ∧
    ∀ l, cells (heap chunk_t s') !! l = if decide (l ∈ ls) then None else cells (heap chunk_t s) !! l.
Proof.
  intros (cc & Hcc & Hat & Hcount & Hb). unfold ChunkOps.free_chunk_container. cstep. cstep.
  destruct (chunks_dll _ _ _ _ _ Hat) as [Hc _].
  destruct (free_chunks_run (Datatypes.S (base.size (cells (heap chunk_t s)))) (first cc) ls t s)
    as (s' & Hs' & Hset & Hcells); [done|pose proof (chain_length _ _ _ _ Hc); lia|].
  cstep. cstep_with ltac:(rewrite Hset; by heap_simpl). eexists. split; [done|].
  heap_simpl. by rewrite lookup_delete_eq.
Qed.
End operations.

(** The least state these functions run in, for evaluation *)
Record chunk_store := ChunkStore {
  cs_chunks : mem chunk_t; cs_containers : mem chunk_container_t; cs_oom : list bool }.
#[export] Instance cs_chunks_heap : Heap chunk_store chunk_t.
Proof.
  refine {| heap := cs_chunks; set_heap m s := ChunkStore m (cs_containers s) (cs_oom s) |};
    by intros; destruct s.
Defined.
#[export] Instance cs_containers_heap : Heap chunk_store chunk_container_t.
Proof.
  refine {| heap := cs_containers; set_heap m s := ChunkStore (cs_chunks s) m (cs_oom s) |};
    by intros; destruct s.
Defined.
#[export] Instance cs_oom_class : Oom chunk_store.
Proof.
  refine {| oom := cs_oom; set_oom o s := ChunkStore (cs_chunks s) (cs_containers s) o |};
    by intros; destruct s.
Defined.
#[export] Instance cs_indep1 : HeapIndep chunk_store chunk_t chunk_container_t.
Proof. done. Qed.
#[export] Instance cs_indep2 : HeapIndep chunk_store chunk_container_t chunk_t.
Proof. done. Qed.
#[export] Instance cs_oom_indep1 : OomIndep chunk_store chunk_t.
Proof. done. Qed.
#[export] Instance cs_oom_indep2 : OomIndep chunk_store chunk_container_t.
Proof. done. Qed.

(** A store with an empty container at address 1 *)
Definition cs_empty (answers : list bool) : chunk_store :=
  ChunkStore mem_empty (Mem {[1%positive := Container NULL NULL 0]} 2) answers.
Lemma cs_empty_repr answers : container_repr (cs_empty answers) 1%positive [] [].
Proof.
  exists (Container NULL NULL 0). split; [done|]. split; [|done].
  split; [apply dll_nil|done|done].
Qed.

(** * Correctness *)

Section correctness.
Context {S : Type} `{HeapIndep S chunk_t chunk_container_t, !HeapIndep S chunk_container_t chunk_t}.
Context `{Oom S, !OomIndep S chunk_t, !OomIndep S chunk_container_t}.

(** C18: [__add_chunk] appends the buffer as the last chunk, so that the bytes of
    the container grow by exactly the buffer; when one of its two allocations
    fails the container is unchanged and nothing is leaked into it. *)
Theorem add_chunk_appends (s : S) p ls xs bytes esize n t :
  container_repr s p ls xs → Z.of_nat (length ls) + 1 < 2 ^ 64 → n ≠ 0 →
  0 <= esize * n < 2 ^ 64 → esize * n = Z.of_nat (length bytes) →
  ∃ s' ls' xs', ChunkOps.__add_chunk (Some p) (Some bytes) esize n t s = Ok tt s' ∧
    container_repr s' p ls' xs' ∧
    if decide (two_mallocs (oom s))
    then xs' = xs ++ [Payload esize n bytes] ∧ content xs' = content xs ++ bytes
    else ls' = ls ∧ xs' = xs.
Proof.
  intros Hr Hlen Hn He Hbytes.
  destruct (add_chunk_run s p ls xs bytes esize n t) as (s' & Hs' & Hr'); [done..|lia|].
  destruct (decide (two_mallocs (oom s))) as [Hm|Hm].
  - destruct Hr' as (k & _ & Hr'). rewrite take_ge in Hr' by lia.
    exists s', (ls ++ [k]), (xs ++ [Payload esize n bytes]). split; [done|]. split; [done|].
    split; [done|]. unfold content. rewrite fmap_app, concat_app. simpl. by rewrite app_nil_r.
  - by exists s', ls, xs.
Qed.

(** [get_chunk] returns the node of the asked index and NULL out of range,
    without a fault; its walk from the nearer end visits at most half of the
    nodes and one. *)
Theorem get_chunk_finds (s : S) p ls xs i t : container_repr s p ls xs →
  ChunkOps.get_chunk (Some p) (Z.of_nat i) t s = Ok (ls !! i) s ∧
  (∀ k, ls !! i = Some k → ∃ c, cells (heap chunk_t s) !! k = Some c ∧
     index c = Z.of_nat i ∧ xs !! i = Some (payload_of c)) ∧
  (∀ c fuel, cells (heap chunk_container_t s) !! p = Some c → (i < length ls)%nat →
     (length ls / 2 < fuel)%nat →
     let b := bool_decide (Z.of_nat i < Z.of_nat (length ls) / 2) in
     ChunkOps.get_chunk_loop fuel b (if b then first c else last c) (Z.of_nat i) t s
       = Ok (ls !! i) s).
Proof.
  intros Hr. split; [by eapply get_chunk_run|].
  destruct Hr as (cc & Hcc & Hat & Hcount & Hb). split.
  - intros k Hk. destruct (chunks_lookup _ _ _ _ _ _ _ Hat Hk) as (c & ? & ? & ? & _). eauto.
  - intros c fuel Hc Hi Hf. rewrite Hcc in Hc. injection Hc as <-. by apply (get_loop_half s (first cc) (last cc) ls xs).
Qed.

(** [free_chunk_container] frees every chunk exactly once and the container,
    touches no other chunk, and leaves NULL in the caller's pointer. *)
Theorem free_chunk_container_frees (s : S) p ls xs t : container_repr s p ls xs →
  ∃ s', ChunkOps.free_chunk_container (Some p) t s = Ok NULL s' ∧
    cells (heap chunk_container_t s') !! p = None ∧
    ∀ l, cells (heap chunk_t s') !! l = if decide (l ∈ ls) then None else cells (heap chunk_t s) !! l.
Proof. apply free_container_run. Qed.
End correctness.

Example add_chunk_appends_witness :
  ∃ s' ls' xs', ChunkOps.__add_chunk (Some 1%positive) (Some [104; 105]) 2 1 0%nat (cs_empty [true; true])
    = Ok tt s' ∧ container_repr s' 1%positive ls' xs' ∧ content xs' = [104; 105].
Proof.
  destruct (add_chunk_appends (cs_empty [true; true]) 1%positive [] [] [104; 105] 2 1 0%nat)
    as (s' & ls' & xs' & Hs & Hr & Hm); [apply cs_empty_repr|done..|].
  exists s', ls', xs'. split; [exact Hs|]. split; [exact Hr|]. apply Hm.
Defined.

Example get_chunk_finds_witness :
  ChunkOps.get_chunk (Some 1%positive) 0 0%nat (cs_empty []) = Ok NULL (cs_empty []).
Proof. apply (get_chunk_finds (cs_empty []) 1%positive [] [] 0%nat 0%nat), cs_empty_repr. Defined.

Example free_chunk_container_frees_witness :
  ∃ s', ChunkOps.free_chunk_container (Some 1%positive) 0%nat (cs_empty []) = Ok NULL s'.
Proof.
  destruct (free_chunk_container_frees (cs_empty []) 1%positive [] [] 0%nat) as (s' & Hs & _);
    [apply cs_empty_repr|]. by exists s'.
Defined.
