(* ===== verification/Queue.v ===== *)
(** Queue: the bounded queue of lab 2 (lab2/src/1), a singly linked list of
    ints with the statistics its monitor thread prints, and the two programs
    that use it: a.c, alone, and b.c, whose reader and writer race. The parts
    of its operations that the synchronised queues of lab2/src/2 share
    ([enqueue], [dequeue], [free_nodes]) are the subprograms those files use. *)
From S2P Require Import Prelude Links Threads.

#[local] Open Scope Z_scope.

(** * Data *)

Record qnode_t := Qnode { val : Z; qnext : ptr }.

Record queue_t := Queue {
  first : ptr;
  last_ : ptr;            (* q->last *)
  qmonitor_tid : bool;    (* the monitor thread runs *)
  count : Z;
  max_count : Z;
  add_attempts : Z;
  get_attempts : Z;
  add_count : Z;
  get_count : Z;
}.

Definition set_qnext p n := Qnode (val n) p.
Definition set_first p q := Queue p (last_ q) (qmonitor_tid q) (count q) (max_count q)
  (add_attempts q) (get_attempts q) (add_count q) (get_count q).
Definition set_last p q := Queue (first q) p (qmonitor_tid q) (count q) (max_count q)
  (add_attempts q) (get_attempts q) (add_count q) (get_count q).
Definition set_monitor b q := Queue (first q) (last_ q) b (count q) (max_count q)
  (add_attempts q) (get_attempts q) (add_count q) (get_count q).
Definition set_count x q := Queue (first q) (last_ q) (qmonitor_tid q) x (max_count q)
  (add_attempts q) (get_attempts q) (add_count q) (get_count q).
Definition set_add_attempts x q := Queue (first q) (last_ q) (qmonitor_tid q) (count q) (max_count q)
  x (get_attempts q) (add_count q) (get_count q).
Definition set_get_attempts x q := Queue (first q) (last_ q) (qmonitor_tid q) (count q) (max_count q)
  (add_attempts q) x (add_count q) (get_count q).
Definition set_add_count x q := Queue (first q) (last_ q) (qmonitor_tid q) (count q) (max_count q)
  (add_attempts q) (get_attempts q) x (get_count q).
Definition set_get_count x q := Queue (first q) (last_ q) (qmonitor_tid q) (count q) (max_count q)
  (add_attempts q) (get_attempts q) (add_count q) x.

(** What the threads of one program share: the queue objects, their nodes, the
    answers of the system, and the ERROR lines printed so far, as the value
    got and the value expected. *)
Record qstate := QState {
  queues : mem queue_t;
  qnodes : mem qnode_t;
  answers : list bool;
  errors : list (Z * Z);
}.

#[export] Instance queue_heap : Heap qstate queue_t.
Proof.
  refine {| heap := queues; set_heap m s := QState m (qnodes s) (answers s) (errors s) |};
    by intros; repeat match goal with s : qstate |- _ => destruct s end.
Defined.
#[export] Instance qnode_heap : Heap qstate qnode_t.
Proof.
  refine {| heap := qnodes; set_heap m s := QState (queues s) m (answers s) (errors s) |};
    by intros; repeat match goal with s : qstate |- _ => destruct s end.
Defined.
#[export] Instance qstate_oom : Oom qstate.
Proof.
  refine {| oom := answers; set_oom o s := QState (queues s) (qnodes s) o (errors s) |};
    by intros; repeat match goal with s : qstate |- _ => destruct s end.
Defined.
#[export] Instance queue_oom_indep : OomIndep qstate queue_t.
Proof. by split. Qed.
#[export] Instance qnode_oom_indep : OomIndep qstate qnode_t.
Proof. by split. Qed.

(** * Operations

    One action per access to the queue, as other threads may come in between. *)

Module Queue.

(** [q->field] and [q->field = v] *)
Definition get {A} (q : ptr) (field : queue_t → A) : prog qstate A :=
  Act (load queue_t q) (λ x, Ret (field x)).
Definition set (q : ptr) (f : queue_t → queue_t) : prog qstate unit :=
  atomic (update queue_t q f).
Definition node_get {A} (p : ptr) (field : qnode_t → A) : prog qstate A :=
  Act (load qnode_t p) (λ x, Ret (field x)).

(** [q->field += d], two accesses *)
Definition bump (max d : Z) (q : ptr) (field : queue_t → Z) (set_field : Z → queue_t → queue_t) :
    prog qstate unit :=
  x ← get q field;
  y ← atomic (signed_add max x d);
  set q (set_field y).

(** [pthread_create], [pthread_cancel] and [pthread_join] of the monitor *)
Definition create_monitor (q : ptr) : prog qstate unit :=
  ok ← atomic malloc_answer;
  if (ok : bool) then set q (set_monitor true) else atomic (fail Aborted).
Definition stop_monitor (q : ptr) : prog qstate unit := set q (set_monitor false).

Definition queue_init (max_count : Z) : prog qstate ptr :=
  q ← atomic (malloc queue_t (Queue NULL NULL false 0 max_count 0 0 0 0));
  match q with
  | None => atomic (fail Aborted)
  | Some _ => create_monitor q;; mret q
  end.

(** The list of a queue, node by node *)
Definition free_node (q : ptr) : prog qstate (unit + unit) :=
  tmp ← get q first;
  match tmp with
  | None => mret (inr tt)
  | Some _ =>
      f ← get q first;
      n ← node_get f qnext;
      set q (set_first n);;
      atomic (free qnode_t tmp);;
      mret (inl tt)
  end.
Definition free_nodes (q : ptr) : prog qstate unit := Loop (λ _ : unit, free_node q) tt Ret.

Definition queue_destroy (q : ptr) : prog qstate unit :=
  match q with
  | None => mret tt
  | Some _ =>
      stop_monitor q;;
      free_nodes q;;
      atomic (free queue_t q)
  end.

(** A new node at the end, of the lines every variant has. *)
Definition new_node (v : Z) : prog qstate ptr :=
  new ← atomic (malloc qnode_t (Qnode v NULL));
  match new with
  | None => atomic (fail Aborted)
  | Some _ => mret new
  end.
Definition link_node (q new : ptr) : prog qstate unit :=
  f ← get q first;
  (match f with
   | None => set q (set_last new);; set q (set_first new)
   | Some _ =>
       l ← get q last_;
       atomic (update qnode_t l (set_qnext new));;
       l ← get q last_;
       n ← node_get l qnext;
       set q (set_last n)
   end);;
  bump INT_MAX 1 q count set_count;;
  bump LONG_MAX 1 q add_count set_add_count.
Definition enqueue (q : ptr) (v : Z) : prog qstate unit :=
  new ← new_node v;
  link_node q new.

(** The lines before it: the attempt is counted, and is the queue full? *)
Definition add_entry (q : ptr) : prog qstate bool :=
  bump LONG_MAX 1 q add_attempts set_add_attempts;;
  c ← get q count; m ← get q max_count;
  atomic (assert (bool_decide (c <= m)));;
  c ← get q count; m ← get q max_count;
  mret (bool_decide (c = m)).

Definition queue_add (q : ptr) (v : Z) : prog qstate Z :=
  full ← add_entry q;
  if (full : bool) then mret 0 else
  enqueue q v;;
  mret 1.

(** The first node out, of the lines every variant has: its value. *)
Definition take_first (q tmp : ptr) : prog qstate Z :=
  v ← node_get tmp val;
  f ← get q first;
  n ← node_get f qnext;
  set q (set_first n);;
  atomic (free qnode_t tmp);;
  bump INT_MAX (-1) q count set_count;;
  bump LONG_MAX 1 q get_count set_get_count;;
  mret v.
Definition dequeue (q : ptr) : prog qstate Z :=
  tmp ← get q first;
  take_first q tmp.

Definition get_entry (q : ptr) : prog qstate bool :=
  bump LONG_MAX 1 q get_attempts set_get_attempts;;
  c ← get q count;
  atomic (assert (bool_decide (0 <= c)));;
  c ← get q count;
  mret (bool_decide (c = 0)).

(** The value returned and what [*val] holds then: [old] is what it held *)
Definition queue_get (q : ptr) (old : Z) : prog qstate (Z * Z) :=
  empty ← get_entry q;
  if (empty : bool) then mret (0, old) else
  tmp ← get q first;
  (match tmp with
   | None => _ ← get q count; _ ← get q first; mret tt      (* printed *)
   | Some _ => mret tt
   end);;
  v ← take_first q tmp;
  mret (1, v).

(** What is printed: the size, the attempts and the counts, each with its
    difference. *)
Definition queue_print_stats (q : ptr) : prog qstate (list Z) :=
  c ← get q count;
  aa ← get q add_attempts; ga ← get q get_attempts;
  aa' ← get q add_attempts; ga' ← get q get_attempts;
  da ← atomic (signed_add LONG_MAX aa' (- ga'));
  ac ← get q add_count; gc ← get q get_count;
  ac' ← get q add_count; gc' ← get q get_count;
  dc ← atomic (signed_add LONG_MAX ac' (- gc'));
  mret [c; aa; ga; da; ac; gc; dc].

Definition qmonitor (q : ptr) : prog qstate unit :=
  forever (λ _ : unit, _ ← queue_print_stats q; mret tt) tt.

End Queue.

(** The reader and the writer of b.c and of queue_threads.c, over the queue
    they are linked with. *)
Section clients.
Context {S : Type} (part : S → qstate) (put : qstate → S → S).
Context (queue_add : ptr → Z → prog S Z) (queue_get : ptr → Z → prog S (Z * Z)).

Definition print_error (v expected : Z) : prog S unit :=
  atomic (modify (λ s, let c := part s in
    put (QState (queues c) (qnodes c) (answers c) (errors c ++ [(v, expected)])) s)).

(** What their loops do with the result of the call, and one round of each *)
Definition reader_next (expected : Z) (r : Z * Z) : prog S Z :=
  let '(ok, v) := r in
  if decide (ok = 0) then mret expected else
  (if decide (expected = v) then mret tt else print_error v expected);;
  atomic (signed_add INT_MAX v 1).
Definition reader_round (q : ptr) (expected : Z) : prog S Z :=
  r ← queue_get q (-1);
  reader_next expected r.
Definition reader (q : ptr) : prog S unit := forever (reader_round q) 0.

Definition writer_next (i ok : Z) : prog S Z :=
  if decide (ok = 0) then mret i else
  atomic (signed_add INT_MAX i 1).
Definition writer_round (q : ptr) (i : Z) : prog S Z :=
  ok ← queue_add q i;
  writer_next i ok.
Definition writer (q : ptr) : prog S unit := forever (writer_round q) 0.
End clients.

(** ** a.c *)

Module A.
Import Queue.

(** The lines printed: the result of an operation with its value, then the
    statistics. *)
Fixpoint add_all (q : ptr) (vs : list Z) : prog qstate (list (Z * Z * list Z)) :=
  match vs with
  | [] => mret []
  | i :: vs' =>
      ok ← queue_add q i;
      st ← queue_print_stats q;
      rest ← add_all q vs';
      mret ((ok, i, st) :: rest)
  end.

Fixpoint get_all (q : ptr) (n : nat) : prog qstate (list (Z * Z * list Z)) :=
  match n with
  | O => mret []
  | Datatypes.S n' =>
      r ← queue_get q (-1);
      st ← queue_print_stats q;
      rest ← get_all q n';
      mret ((fst r, snd r, st) :: rest)
  end.

Definition main : prog qstate (list (Z * Z * list Z)) :=
  q ← queue_init 1000;
  added ← add_all q (seqZ 0 10);
  got ← get_all q 12;
  queue_destroy q;;
  mret (added ++ got).
End A.

(** ** b.c *)

Module B.
Definition threads (q : ptr) : list (prog qstate unit) :=
  [reader id (λ c _, c) Queue.queue_get q; writer Queue.queue_add q].

(** The threads [main] starts after [queue_init (1000000)] *)
Definition main : prog qstate (list (prog qstate unit)) :=
  q ← Queue.queue_init 1000000;
  mret (threads q).
End B.

(** The state a program starts in: the allocator never fails. *)
Definition qstart : qstate := QState mem_empty mem_empty [] [].

(** Any sequence of operations on one queue *)
Inductive queue_op := Add (v : Z) | Get (old : Z).

Fixpoint run_ops (q : ptr) (ops : list queue_op) : prog qstate (list (Z * Z)) :=
  match ops with
  | [] => mret []
  | Add v :: ops' => ok ← Queue.queue_add q v; rs ← run_ops q ops'; mret ((ok, v) :: rs)
  | Get old :: ops' => r ← Queue.queue_get q old; rs ← run_ops q ops'; mret (r :: rs)
  end.

(** * Specification *)

(** What a queue promises: a FIFO list of at most [cap] values and its
    statistics. *)
Record fifo := Fifo { items : list Z; cap : Z; aa : Z; ga : Z; ac : Z; gc : Z }.

Definition fifo_init (max : Z) : fifo := Fifo [] max 0 0 0 0.
Definition fifo_push (v : Z) (f : fifo) : fifo :=
  Fifo (items f ++ [v]) (cap f) (aa f) (ga f) (ac f + 1) (gc f).
Definition fifo_pop (f : fifo) : fifo :=
  Fifo (tail (items f)) (cap f) (aa f) (ga f) (ac f) (gc f + 1).
Definition count_add (f : fifo) : fifo := Fifo (items f) (cap f) (aa f + 1) (ga f) (ac f) (gc f).
Definition count_get (f : fifo) : fifo := Fifo (items f) (cap f) (aa f) (ga f + 1) (ac f) (gc f).
Definition fifo_add (v : Z) (f : fifo) : Z * fifo :=
  if decide (Z.of_nat (length (items f)) = cap f) then (0, count_add f)
  else (1, fifo_push v (count_add f)).
Definition fifo_get (old : Z) (f : fifo) : (Z * Z) * fifo :=
  match items f with
  | [] => ((0, old), count_get f)
  | x :: _ => ((1, x), fifo_pop (count_get f))
  end.

Fixpoint fifo_ops (ops : list queue_op) (f : fifo) : list (Z * Z) * fifo :=
  match ops with
  | [] => ([], f)
  | Add v :: ops' =>
      let '(ok, f1) := fifo_add v f in
      let '(rs, f2) := fifo_ops ops' f1 in ((ok, v) :: rs, f2)
  | Get old :: ops' =>
      let '(r, f1) := fifo_get old f in
      let '(rs, f2) := fifo_ops ops' f1 in (r :: rs, f2)
  end.

(** The bounds of the fields *)
Record fifo_ok (f : fifo) : Prop := {
  ok_cap : Z.of_nat (length (items f)) <= cap f <= INT_MAX;
  ok_diff : ac f = gc f + Z.of_nat (length (items f));
  ok_counts : 0 <= gc f;
  ok_max : ac f <= LONG_MAX;
  ok_attempts : 0 <= aa f <= LONG_MAX;
  ok_gets : 0 <= ga f <= LONG_MAX;
}.

(** * Representation *)

(** The queue object [Q] holds [f] in the nodes [ls]: they carry the items in
    order, and [last] is the last of them whenever there is one. *)
Record holds (ls : list positive) (Q : queue_t) (c : qstate) (f : fifo) : Prop := {
  h_chain : chain qnext (cells (qnodes c)) (first Q) ls NULL;
  h_last : ls ≠ [] → last_ Q = last ls;
  h_items : val <$> nodes (cells (qnodes c)) ls = items f;
  h_count : count Q = Z.of_nat (length (items f));
  h_max : max_count Q = cap f;
  h_aa : add_attempts Q = aa f;
  h_ga : get_attempts Q = ga f;
  h_ac : add_count Q = ac f;
  h_gc : get_count Q = gc f;
}.

(** The queue at [l] is the only one and holds [f], and no other node is
    allocated. *)
Definition queue_repr (l : loc) (c : qstate) (f : fifo) : Prop :=
  ∃ Q ls, cells (queues c) = {[l := Q]} ∧ holds ls Q c f ∧
    dom (cells (qnodes c)) = list_to_set ls.

(** ** Running the operations *)

Definition put_queue (l : positive) (Q : queue_t) (c : qstate) : qstate :=
  QState (mem_set l Q (queues c)) (qnodes c) (answers c) (errors c).

Lemma put_queue_put l Q Q' c : put_queue l Q (put_queue l Q' c) = put_queue l Q c.
Proof. unfold put_queue. destruct c as [[]]; simpl. unfold mem_set; simpl. by rewrite insert_insert_eq. Qed.
Lemma put_queue_lookup l Q c : cells (queues (put_queue l Q c)) !! l = Some Q.
Proof. simpl. by rewrite lookup_insert_eq. Qed.
Lemma put_queue_nodes l Q c : qnodes (put_queue l Q c) = qnodes c.
Proof. done. Qed.
Lemma put_queue_same l Q c : cells (queues c) !! l = Some Q → put_queue l Q c = c.
Proof.
  intros Hl. unfold put_queue. destruct c as [[m b] ns o e]; simpl in *. unfold mem_set; simpl.
  by rewrite insert_id.
Qed.

Section run_lemmas.
Context (l : positive) (Q : queue_t) (c : qstate) (n : nat) (t : tid).
Context (Hl : cells (queues c) !! l = Some Q).

Lemma run_get {A} (f : queue_t → A) : run n (Queue.get (Some l) f) t c = Ok (f Q) c.
Proof. unfold Queue.get. cbn [run]. by rewrite (bind_ok _ _ _ _ _ _ (@load_ok _ _ queue_heap l Q t c Hl)). Qed.

Lemma run_set f : run n (Queue.set (Some l) f) t c = Ok tt (put_queue l (f Q) c).
Proof. unfold Queue.set. rewrite run_atomic. by rewrite (@update_ok _ _ queue_heap l Q f t c Hl). Qed.

Lemma run_bump max d field set_field :
  - max - 1 <= field Q + d <= max →
  run n (Queue.bump max d (Some l) field set_field) t c =
    Ok tt (put_queue l (set_field (field Q + d) Q) c).
Proof.
  intros Hd. unfold Queue.bump. rewrite (run_bind_ok _ _ _ _ _ _ _ (run_get field)).
  erewrite run_bind_ok; [apply run_set|]. rewrite run_atomic. unfold signed_add.
  rewrite decide_True by done. done.
Qed.

Lemma run_bump_overflow max d field set_field : max < field Q + d →
  run n (Queue.bump max d (Some l) field set_field) t c = Fault Overflow.
Proof.
  intros Hd. unfold Queue.bump. rewrite (run_bind_ok _ _ _ _ _ _ _ (run_get field)).
  etransitivity; [apply (run_bind n _ _ t c)|]. unfold mbind at 1, C_bind. rewrite run_atomic.
  unfold signed_add. by rewrite decide_False by lia.
Qed.
End run_lemmas.

Lemma run_node_get {A} l nd c n t (f : qnode_t → A) : cells (qnodes c) !! l = Some nd →
  run n (Queue.node_get (Some l) f) t c = Ok (f nd) c.
Proof. intros Hl. unfold Queue.node_get. cbn [run]. by rewrite (bind_ok _ _ _ _ _ _ (@load_ok _ _ qnode_heap l nd t c Hl)). Qed.

Definition put_node (l : positive) (nd : qnode_t) (c : qstate) : qstate :=
  QState (queues c) (mem_set l nd (qnodes c)) (answers c) (errors c).
Definition del_node (l : positive) (c : qstate) : qstate :=
  QState (queues c) (mem_del l (qnodes c)) (answers c) (errors c).

Lemma run_node_set l nd c n t f : cells (qnodes c) !! l = Some nd →
  run n (atomic (update qnode_t (Some l) f)) t c = Ok tt (put_node l (f nd) c).
Proof. intros Hl. rewrite run_atomic. by rewrite (@update_ok _ _ qnode_heap l nd f t c Hl). Qed.
Lemma run_node_free l nd c n t : cells (qnodes c) !! l = Some nd →
  run n (atomic (free qnode_t (Some l))) t c = Ok tt (del_node l c).
Proof. intros Hl. rewrite run_atomic. by rewrite (@free_ok _ _ qnode_heap l nd t c Hl). Qed.

Lemma put_queue_del k l Q c : del_node k (put_queue l Q c) = put_queue l Q (del_node k c).
Proof. done. Qed.
Lemma put_queue_node k nd l Q c : put_node k nd (put_queue l Q c) = put_queue l Q (put_node k nd c).
Proof. done. Qed.

Lemma put_queue_only l Q Q' c : cells (queues c) = {[l := Q']} →
  cells (queues (put_queue l Q c)) = {[l := Q]}.
Proof. intros Hc. simpl. by rewrite Hc, insert_singleton_eq. Qed.
Lemma only_lookup {A} (m : gmap positive A) l x : m = {[l := x]} → m !! l = Some x.
Proof. intros ->. apply lookup_singleton_eq. Qed.
#[local] Hint Resolve only_lookup put_queue_only : core.

(** [pstep] runs the first operation of a program. *)
Ltac prun :=
  lazymatch goal with
  | |- run _ (Queue.get _ _) _ _ = _ => eapply run_get
  | |- run _ (Queue.set _ _) _ _ = _ => eapply run_set
  | |- run _ (Queue.bump _ _ _ _ _) _ _ = _ => eapply run_bump
  | |- run _ (Queue.node_get _ _) _ _ = _ => eapply run_node_get
  | |- run _ (atomic (update qnode_t _ _)) _ _ = _ => eapply run_node_set
  | |- run _ (atomic (free qnode_t _)) _ _ = _ => eapply run_node_free
  | |- run _ (atomic _) _ _ = _ => rewrite run_atomic; try reflexivity
  | |- run _ (Ret _) _ _ = _ => reflexivity
  | |- run _ (mret _) _ _ = _ => reflexivity
  | |- _ => idtac
  end.
Ltac psimpl := rewrite ?put_queue_del, ?put_queue_node, ?put_queue_put, ?put_queue_nodes in *;
  cbn [first last_ qmonitor_tid count max_count add_attempts get_attempts add_count get_count
       set_first set_last set_monitor set_count set_add_attempts set_get_attempts set_add_count
       set_get_count val qnext set_qnext] in *.
Ltac pfind := first [eassumption | apply put_queue_lookup | psimpl; eassumption | idtac].
Tactic Notation "pstep" := erewrite run_bind_ok; [|prun; pfind]; cbv beta iota; psimpl.

(** ** The lines shared by the variants *)

Lemma holds_length ls Q c f : holds ls Q c f → length ls = length (items f).
Proof.
  intros H. rewrite <-(h_items _ _ _ _ H), length_fmap. symmetry. apply nodes_length.
  intros k Hk. by eapply chain_lookup; [apply H|].
Qed.

Lemma chain_snoc_last h p ls q k n n' :
  chain qnext h p (ls ++ [k]) NULL → h !! k = Some n → qnext n' = Some q → q ∉ ls ++ [k] →
  is_Some (h !! q) → (qnext <$> h !! q) = Some NULL →
  chain qnext (<[k := n']> h) p (ls ++ [k; q]) NULL.
Proof.
  intros Hc Hk Hn' Hq [nq Hnq] Hnx. pose proof (chain_NoDup _ _ _ _ Hc) as Hnd.
  apply NoDup_app in Hnd as (_ & Hd & _).
  apply chain_app in Hc as (r & H1 & H2). apply chain_app. exists r. split.
  { apply chain_insert_notin; [|done]. intros Hin. apply (Hd _ Hin). set_solver. }
  destruct H2 as [-> (nk & Hnk & H2)]. split; [done|]. exists n'. rewrite lookup_insert_eq.
  split; [done|]. rewrite Hn'. split; [done|]. exists nq.
  rewrite lookup_insert_ne by set_solver. rewrite Hnq in Hnx. by simplify_eq/=.
Qed.

Section shared.
Context (l : positive) (n : nat) (t : tid).
Implicit Types (Q : queue_t) (c : qstate) (f : fifo) (ls : list positive).

(** Both branches of [link_node] leave the chain one node longer. *)
Lemma link_node_run ls Q c f new v :
  cells (queues c) !! l = Some Q → holds ls Q c f →
  cells (qnodes c) !! new = Some (Qnode v NULL) → new ∉ ls →
  0 <= Z.of_nat (length (items f)) < INT_MAX → - LONG_MAX - 1 <= ac f + 1 <= LONG_MAX →
  ∃ ns Q' c', run n (Queue.link_node (Some l) (Some new)) t c = Ok tt c' ∧
    c' = put_queue l Q' (QState (queues c) ns (answers c) (errors c)) ∧
    dom (cells ns) = dom (cells (qnodes c)) ∧ holds (ls ++ [new]) Q' c' (fifo_push v f) ∧
    qmonitor_tid Q' = qmonitor_tid Q.
Proof.
  intros HQ Hf Hnew Hn Hlen Hac.
  pose proof (h_count _ _ _ _ Hf) as Hc. pose proof (h_ac _ _ _ _ Hf) as Ha.
  pose proof (h_chain _ _ _ _ Hf) as Hch. pose proof (h_items _ _ _ _ Hf) as Hit.
  destruct ls as [|k ls] using rev_ind.
  - assert (items f = []) as Hnil by (by rewrite <-Hit). rewrite Hnil in *.
    pose proof (chain_head _ _ _ _ Hch) as Hhd. simpl in Hhd.
    unfold Queue.link_node. pstep. rewrite Hhd.
    erewrite run_bind_ok; [|pstep; prun; pfind]. psimpl.
    pstep; [|rewrite Hc; unfold INT_MAX; simpl; lia].
    erewrite run_bump; [|apply put_queue_lookup|cbn; lia]. psimpl.
    eexists (qnodes c), _, _. split; [done|]. split; [done|]. split; [done|]. split; [|done].
    destruct Hf. split; psimpl; cbn [items cap aa ga ac gc fifo_push]; rewrite ?Hnil; simpl in *; try lia; try done.
    + split; [done|]. by eexists.
    + by rewrite Hnew.
  - clear IHls. destruct (chain_lookup _ _ _ _ _ k Hch) as [nk Hk]; [set_solver|].
    assert (first Q = head (ls ++ [k])) as Hhd by (by eapply chain_head).
    assert (last_ Q = Some k) as Hlast.
    { rewrite (h_last _ _ _ _ Hf), last_snoc; [done|by destruct ls]. }
    assert (∃ x, first Q = Some x) as [x Hx] by (rewrite Hhd; destruct ls; eauto).
    unfold Queue.link_node. pstep. rewrite Hx.
    erewrite run_bind_ok.
    2:{ pstep. rewrite Hlast. pstep. erewrite run_bind_ok; [|eapply run_get; done].
        cbv beta. rewrite Hlast. erewrite run_bind_ok; [|eapply run_node_get; simpl; apply lookup_insert_eq].
        simpl. eapply run_set; done. }
    pstep; [|rewrite Hc; unfold INT_MAX in *; simpl; lia].
    erewrite run_bump; [|apply put_queue_lookup|cbn; lia]. psimpl.
    eexists (mem_set k (set_qnext (Some new) nk) (qnodes c)), _, _.
    split; [done|]. split; [done|]. split; [|split; [|done]].
    { simpl. rewrite dom_insert_L. assert (k ∈ dom (cells (qnodes c))) by (by apply elem_of_dom). set_solver. }
    destruct Hf. split; psimpl; cbn [items cap aa ga ac gc fifo_push]; rewrite ?length_app; simpl; try lia; try done.
    + rewrite <-app_assoc. eapply chain_snoc_last; try done; by rewrite Hnew.
    + intros _. by rewrite last_snoc.
    + rewrite nodes_app, fmap_app. f_equal.
      * rewrite <-h_items0. apply nodes_map_ext. intros y Hy.
        destruct (decide (k = y)) as [<-|]; [by rewrite lookup_insert_eq, Hk|by rewrite lookup_insert_ne].
      * rewrite nodes_cons, lookup_insert_ne, Hnew by set_solver. done.
  Unshelve. all: exact 0%nat.
Qed.

Lemma take_first_run k ls Q c f x r :
  cells (queues c) !! l = Some Q → holds (k :: ls) Q c f → items f = x :: r →
  Z.of_nat (length (items f)) <= INT_MAX → - LONG_MAX - 1 <= gc f + 1 <= LONG_MAX →
  ∃ Q' c', run n (Queue.take_first (Some l) (Some k)) t c = Ok x c' ∧
    c' = put_queue l Q' (del_node k c) ∧
    holds ls Q' c' (fifo_pop f) ∧ qmonitor_tid Q' = qmonitor_tid Q.
Proof.
  intros HQ Hf Hit Hlen Hgc. pose proof (chain_NoDup _ _ _ _ (h_chain _ _ _ _ Hf)) as Hnd.
  apply NoDup_cons in Hnd as [Hk _]. destruct Hf.
  simpl in h_chain0. destruct h_chain0 as (Hfirst & nk & Hnk & Hch).
  rewrite nodes_cons, Hnk, Hit in h_items0. injection h_items0 as Hv Hr. subst x r.
  rewrite Hit in *. simpl in Hlen.
  unfold Queue.take_first. pstep. pstep. rewrite Hfirst. pstep. pstep. pstep.
  pstep; [|rewrite h_count0; simpl; unfold INT_MAX in *; lia].
  pstep; [|simpl; rewrite h_gc0; lia].
  eexists _, _. split; [reflexivity|]. split; [done|]. split; [|done].
  split; psimpl; cbn [items cap aa ga ac gc fifo_pop]; rewrite ?Hit; simpl in *; try lia; try done.
  - by apply chain_delete_notin.
  - intros Hls. rewrite h_last0 by done. by destruct ls.
  - apply nodes_map_ext. intros y Hy. by rewrite lookup_delete_ne by set_solver.
Qed.

Lemma add_entry_run ls Q c f :
  cells (queues c) !! l = Some Q → holds ls Q c f → fifo_ok f → aa f < LONG_MAX →
  let Q' := set_add_attempts (aa f + 1) Q in
  run n (Queue.add_entry (Some l)) t c =
    Ok (bool_decide (Z.of_nat (length (items f)) = cap f)) (put_queue l Q' c) ∧
  holds ls Q' (put_queue l Q' c) (count_add f).
Proof.
  intros HQ Hf [] Haa Q'. destruct Hf. split; [|by split].
  unfold Queue.add_entry. pstep; [|lia]. pstep. pstep.
  rewrite h_count0, h_max0, bool_decide_true by lia. pstep. pstep. pstep.
  subst Q'. by rewrite h_aa0, h_count0, h_max0.
Qed.

Lemma get_entry_run ls Q c f :
  cells (queues c) !! l = Some Q → holds ls Q c f → fifo_ok f → ga f < LONG_MAX →
  let Q' := set_get_attempts (ga f + 1) Q in
  run n (Queue.get_entry (Some l)) t c =
    Ok (bool_decide (Z.of_nat (length (items f)) = 0)) (put_queue l Q' c) ∧
  holds ls Q' (put_queue l Q' c) (count_get f).
Proof.
  intros HQ Hf [] Hga Q'. destruct Hf. split; [|by split].
  unfold Queue.get_entry. pstep; [|lia]. pstep.
  rewrite h_count0, bool_decide_true by lia. pstep. pstep.
  subst Q'. by rewrite h_ga0, h_count0.
Qed.

(** With the attempts at their maximum the next one overflows. *)
Lemma add_entry_overflow ls Q c f : cells (queues c) !! l = Some Q → holds ls Q c f →
  aa f = LONG_MAX → run n (Queue.add_entry (Some l)) t c = Fault Overflow.
Proof.
  intros HQ Hf Haa. unfold Queue.add_entry. etransitivity; [apply (run_bind n _ _ t c)|].
  unfold mbind at 1, C_bind. by rewrite (run_bump_overflow l Q) by (rewrite ?(h_aa _ _ _ _ Hf); first [done|lia]).
Qed.
Lemma get_entry_overflow ls Q c f : cells (queues c) !! l = Some Q → holds ls Q c f →
  ga f = LONG_MAX → run n (Queue.get_entry (Some l)) t c = Fault Overflow.
Proof.
  intros HQ Hf Hga. unfold Queue.get_entry. etransitivity; [apply (run_bind n _ _ t c)|].
  unfold mbind at 1, C_bind. by rewrite (run_bump_overflow l Q) by (rewrite ?(h_ga _ _ _ _ Hf); first [done|lia]).
Qed.

(** A new node is out of the chain. *)
Lemma new_node_run ls Q c f v : holds ls Q c f → ¬ malloc_fails c →
  ∃ new c', run n (Queue.new_node v) t c = Ok (Some new) c' ∧
    c' = QState (queues c) (mem_alloc (Qnode v NULL) (qnodes c)) (tl (answers c)) (errors c) ∧
    cells (qnodes c) !! new = None ∧ cells (qnodes c') = <[new := Qnode v NULL]> (cells (qnodes c)) ∧
    (new ∉ ls) ∧ holds ls Q c' f.
Proof.
  intros Hf Hm. unfold Queue.new_node.
  assert (cells (qnodes c) !! fresh_loc (qnodes c) = None) as Hfresh by apply fresh_loc_none.
  assert (fresh_loc (qnodes c) ∉ ls) as Hn.
  { intros Hin. destruct (chain_lookup _ _ _ _ _ _ (h_chain _ _ _ _ Hf) Hin). congruence. }
  exists (fresh_loc (qnodes c)). eexists.
  erewrite run_bind_ok; [|rewrite run_atomic; by apply (malloc_ok (S:=qstate) (N:=qnode_t))].
  split; [done|]. split; [done|]. split; [done|]. split; [done|]. split; [done|].
  destruct Hf. split; try done; simpl.
  - by apply chain_insert_notin.
  - rewrite <-h_items0. apply nodes_map_ext. intros y Hy. by rewrite lookup_insert_ne by set_solver.
Qed.
Lemma new_node_aborts c v : malloc_fails c → run n (Queue.new_node v) t c = Fault Aborted.
Proof.
  intros Hm. unfold Queue.new_node. etransitivity; [apply (run_bind n _ _ t c)|].
  unfold mbind at 1, C_bind. rewrite run_atomic.
  by rewrite (malloc_null (S:=qstate) (N:=qnode_t)).
Qed.
Lemma enqueue_aborts c q v : malloc_fails c → run n (Queue.enqueue q v) t c = Fault Aborted.
Proof.
  intros Hm. unfold Queue.enqueue. etransitivity; [apply (run_bind n _ _ t c)|].
  unfold mbind at 1, C_bind. by rewrite new_node_aborts.
Qed.

Lemma fifo_ok_push v f : fifo_ok f → Z.of_nat (length (items f)) < cap f → ac f < LONG_MAX →
  fifo_ok (fifo_push v f).
Proof. intros [] ? ?. split; simpl; rewrite ?length_app; simpl; lia. Qed.
Lemma fifo_ok_pop f : fifo_ok f → items f ≠ [] → fifo_ok (fifo_pop f).
Proof.
  intros [] Hne. destruct f as [[|x r]]; [done|]. simpl in *. split; simpl; lia.
Qed.

Lemma enqueue_run c f v : queue_repr l c f → fifo_ok f → Z.of_nat (length (items f)) < cap f →
  ac f < LONG_MAX → ¬ malloc_fails c →
  ∃ c', run n (Queue.enqueue (Some l) v) t c = Ok tt c' ∧ queue_repr l c' (fifo_push v f) ∧
    errors c' = errors c ∧ answers c' = tl (answers c).
Proof.
  intros (Q & ls & Hone & Hf & Hdom) Hok Hlen Hac Hm. pose proof (only_lookup _ _ _ Hone) as HQ. unfold Queue.enqueue.
  destruct (new_node_run ls Q c f v Hf Hm) as (new & c1 & Hr & Hc1 & Hnew & Hc1n & Hls & Hf1).
  rewrite (run_bind_ok _ _ _ _ _ _ _ Hr).
  destruct Hok as [Hcap Hdiff Hgc _ _ _].
  destruct (link_node_run ls Q c1 f new v) as (ns & Q' & c' & Hl & -> & Hd & Hh & _).
  - by subst c1.
  - done.
  - rewrite Hc1n. by rewrite lookup_insert_eq.
  - done.
  - lia.
  - lia.
  - eexists. split; [done|]. split; [|by subst c1].
    exists Q', (ls ++ [new]). split; [subst c1; eauto|]. split; [done|].
    cbn [qnodes put_queue]. rewrite Hd, Hc1n, dom_insert_L, Hdom. set_solver.
Qed.

Lemma dequeue_run c f x r : queue_repr l c f → fifo_ok f → items f = x :: r →
  ∃ c', run n (Queue.dequeue (Some l)) t c = Ok x c' ∧ queue_repr l c' (fifo_pop f) ∧
    errors c' = errors c ∧ answers c' = answers c.
Proof.
  intros (Q & ls & Hone & Hf & Hdom) Hok Hit. pose proof (only_lookup _ _ _ Hone) as HQ. unfold Queue.dequeue.
  pose proof (holds_length _ _ _ _ Hf) as Hlen. rewrite Hit in Hlen.
  destruct ls as [|k ls]; [done|]. simpl in Hlen.
  pose proof (chain_NoDup _ _ _ _ (h_chain _ _ _ _ Hf)) as [Hk _]%NoDup_cons.
  pstep. rewrite (chain_head _ _ _ _ (h_chain _ _ _ _ Hf)). cbn [head].
  destruct Hok as [Hcap Hdiff Hgc Hmax _ _]. rewrite Hit in Hdiff. simpl in Hdiff.
  destruct (take_first_run k ls Q c f x r HQ Hf Hit) as (Q' & c' & Hr & -> & Hh & _); [lia..|].
  eexists. split; [done|]. split; [|done]. exists Q', ls.
  split; [eauto|]. split; [done|]. simpl. rewrite dom_delete_L, Hdom. set_solver.
Qed.
End shared.

(** * Functional behaviour *)

Lemma fifo_ok_add v f : fifo_ok f → aa f < LONG_MAX → ac f < LONG_MAX → fifo_ok (snd (fifo_add v f)).
Proof.
  intros Hok Haa Hac. assert (fifo_ok (count_add f)) as Hc by (destruct Hok; split; simpl; lia).
  unfold fifo_add. case_decide; [done|]. apply fifo_ok_push; [done| |done].
  destruct Hok; simpl. lia.
Qed.
Lemma fifo_ok_get old f : fifo_ok f → ga f < LONG_MAX → fifo_ok (snd (fifo_get old f)).
Proof.
  intros Hok Hga. assert (fifo_ok (count_get f)) as Hc by (destruct Hok; split; simpl; lia).
  unfold fifo_get. destruct (items f) eqn:E; [done|]. apply fifo_ok_pop; [done|]. simpl. by rewrite E.
Qed.

Section operations.
Context (l : positive) (n : nat) (t : tid).

Lemma queue_add_run c f v : queue_repr l c f → fifo_ok f → aa f < LONG_MAX → ac f < LONG_MAX →
  ¬ malloc_fails c →
  ∃ c', run n (Queue.queue_add (Some l) v) t c = Ok (fst (fifo_add v f)) c' ∧
    queue_repr l c' (snd (fifo_add v f)) ∧ (∃ k, answers c' = drop k (answers c)) ∧ errors c' = errors c.
Proof.
  intros (Q & ls & Hone & Hf & Hdom) Hok Haa Hac Hm. pose proof (only_lookup _ _ _ Hone) as HQ. unfold Queue.queue_add, fifo_add.
  destruct (add_entry_run l n t ls Q c f HQ Hf Hok Haa) as [Hr Hh].
  rewrite (run_bind_ok _ _ _ _ _ _ _ Hr).
  assert (queue_repr l (put_queue l (set_add_attempts (aa f + 1) Q) c) (count_add f)) as Hrep.
  { eexists _, ls. split; [eauto|]. by split. }
  case_decide as Hfull; [rewrite bool_decide_true by done|rewrite bool_decide_false by done].
  - eexists. split; [done|]. split; [done|]. split; [by exists 0%nat|done].
  - destruct (enqueue_run l n t _ _ v Hrep) as (c' & He & Hrep' & Herr & Ho).
    + destruct Hok; split; simpl; lia.
    + destruct Hok; simpl; lia.
    + done.
    + done.
    + rewrite (run_bind_ok _ _ _ _ _ _ _ He). eexists. split; [done|]. split; [done|].
      split; [|done]. exists 1%nat. rewrite Ho. simpl. by destruct (answers c).
Qed.

Lemma queue_get_run c f old : queue_repr l c f → fifo_ok f → ga f < LONG_MAX →
  ∃ c', run n (Queue.queue_get (Some l) old) t c = Ok (fst (fifo_get old f)) c' ∧
    queue_repr l c' (snd (fifo_get old f)) ∧ answers c' = answers c ∧ errors c' = errors c.
Proof.
  intros (Q & ls & Hone & Hf & Hdom) Hok Hga. pose proof (only_lookup _ _ _ Hone) as HQ. unfold Queue.queue_get, fifo_get.
  destruct (get_entry_run l n t ls Q c f HQ Hf Hok Hga) as [Hr Hh].
  rewrite (run_bind_ok _ _ _ _ _ _ _ Hr).
  set (Q' := set_get_attempts (ga f + 1) Q) in *.
  assert (queue_repr l (put_queue l Q' c) (count_get f)) as Hrep.
  { eexists _, ls. split; [eauto|]. by split. }
  destruct (items f) as [|x r] eqn:Hit.
  - rewrite bool_decide_true by done. eexists. by split.
  - rewrite bool_decide_false by (simpl; lia).
    destruct (dequeue_run l n t _ _ x r Hrep) as (c' & He & Hrep' & Herr & Ho).
    { destruct Hok; split; simpl; lia. }
    { done. }
    pstep. unfold Queue.dequeue in He.
    rewrite (run_bind_ok _ _ _ _ _ _ _ (run_get l Q' _ n t (put_queue_lookup l Q' c) first)) in He.
    assert (is_Some (first Q')) as [k Hk].
    { pose proof (holds_length _ _ _ _ Hh) as Hlen. cbn [items count_get] in Hlen. rewrite Hit in Hlen.
      destruct ls as [|k ls]; [done|]. exists k. by apply (chain_head _ _ _ _ (h_chain _ _ _ _ Hh)). }
    rewrite Hk in He |- *.
    erewrite run_bind_ok by reflexivity.
    rewrite (run_bind_ok _ _ _ _ _ _ _ He). by eexists.
Qed.

(** A round of [free_nodes] frees the first node; [length ls] rounds and one
    more free them all. *)
Lemma free_nodes_rounds r ls Q c : cells (queues c) !! l = Some Q →
  chain qnext (cells (qnodes c)) (first Q) ls NULL →
  dom (cells (qnodes c)) = list_to_set ls → (length ls < r)%nat →
  ∃ Q' ns, rounds (λ _ : unit, run n (Queue.free_node (Some l))) r tt t c =
      Ok tt (put_queue l Q' (QState (queues c) ns (answers c) (errors c))) ∧ cells ns = ∅.
Proof.
  revert ls Q c. induction r as [|r IH]; intros ls Q c Hl Hch Hdom Hr; [lia|].
  cbn [rounds]. destruct ls as [|k ls].
  - simpl in Hch. exists Q, (qnodes c).
    assert (run n (Queue.free_node (Some l)) t c = Ok (inr tt) c) as Hrun.
    { unfold Queue.free_node. pstep. by rewrite Hch. }
    rewrite (bind_ok _ _ _ _ _ _ Hrun). split; [|by apply dom_empty_inv_L].
    by rewrite put_queue_same; destruct c.
  - pose proof (chain_NoDup _ _ _ _ Hch) as [Hk _]%NoDup_cons.
    destruct Hch as (Hf & nk & Hnk & Hch). simpl in Hr.
    destruct (IH ls (set_first (qnext nk) Q) (put_queue l (set_first (qnext nk) Q) (del_node k c)))
      as (Q' & ns & Hrun & Hns).
    + apply put_queue_lookup.
    + cbn. by apply chain_delete_notin.
    + cbn. rewrite dom_delete_L, Hdom. set_solver.
    + lia.
    + exists Q', ns. split; [|done].
      assert (run n (Queue.free_node (Some l)) t c =
        Ok (inl tt) (put_queue l (set_first (qnext nk) Q) (del_node k c))) as Hbody.
      { unfold Queue.free_node. pstep. rewrite Hf. pstep. rewrite Hf. pstep. pstep. by pstep. }
      rewrite (bind_ok _ _ _ _ _ _ Hbody), Hrun. f_equal. destruct c. unfold put_queue, mem_set; simpl.
      by rewrite insert_insert_eq.
Qed.

Lemma queue_init_run c max : cells (queues c) = ∅ → cells (qnodes c) = ∅ →
  head (answers c) ≠ Some false → head (tl (answers c)) ≠ Some false → 0 <= max <= INT_MAX →
  ∃ l c', run n (Queue.queue_init max) t c = Ok (Some l) c' ∧
    queue_repr l c' (fifo_init max) ∧ errors c' = errors c ∧ answers c' = tl (tl (answers c)).
Proof.
  intros Hqs Hns Ho1 Ho2 Hmax. unfold Queue.queue_init.
  erewrite run_bind_ok; [|rewrite run_atomic; by apply (malloc_ok (S:=qstate) (N:=queue_t))].
  cbn match. set (Q := Queue NULL NULL false 0 max 0 0 0 0).
  set (k := fresh_loc (heap queue_t c)).
  set (c1 := set_heap queue_t _ _).
  assert (cells (queues c1) !! k = Some Q) as Hk by apply lookup_insert_eq.
  assert (run n (Queue.create_monitor (Some k)) t c1 =
    Ok tt (put_queue k (set_monitor true Q) (set_oom (tl (tl (answers c))) c1))) as Hm.
  { unfold Queue.create_monitor. erewrite run_bind_ok by (rewrite run_atomic; apply malloc_answer_run).
    rewrite bool_decide_true by done. cbv iota. by erewrite run_set. }
  rewrite (run_bind_ok _ _ _ _ _ _ _ Hm). exists k. eexists. split; [done|]. split; [|done].
  exists (set_monitor true Q), []. split.
  { eapply put_queue_only. simpl. by rewrite Hqs, insert_empty. }
  split; [by split|].
  cbn. by rewrite Hns, dom_empty_L.
Qed.

Lemma queue_destroy_run c f : queue_repr l c f → (length (items f) < n)%nat →
  ∃ c', run n (Queue.queue_destroy (Some l)) t c = Ok tt c' ∧
    cells (queues c') = ∅ ∧ cells (qnodes c') = ∅ ∧ errors c' = errors c.
Proof.
  intros (Q & ls & Hone & Hf & Hdom) Hn. pose proof (only_lookup _ _ _ Hone) as HQ. rewrite <-(holds_length _ _ _ _ Hf) in Hn.
  unfold Queue.queue_destroy. erewrite run_bind_ok by (by eapply run_set).
  destruct (free_nodes_rounds n ls (set_monitor false Q) (put_queue l (set_monitor false Q) c))
    as (Q' & ns & Hr & Hns); [apply put_queue_lookup|apply Hf|done..|].
  erewrite run_bind_ok; [|unfold Queue.free_nodes; cbn [run]; by rewrite (bind_ok _ _ _ _ _ _ Hr)].
  rewrite run_atomic, (free_ok (S:=qstate) (N:=queue_t) l Q') by apply lookup_insert_eq.
  eexists. split; [done|]. split; [|done]. simpl.
  by rewrite Hone, !insert_singleton_eq, delete_singleton_eq.
Qed.

(** The attempts left before the statistics overflow are enough for [ops]. *)
Lemma run_ops_run ops c f : queue_repr l c f → fifo_ok f → answers c = [] →
  aa f + Z.of_nat (length ops) <= LONG_MAX → ga f + Z.of_nat (length ops) <= LONG_MAX →
  ac f + Z.of_nat (length ops) <= LONG_MAX →
  ∃ c', run n (run_ops (Some l) ops) t c = Ok (fst (fifo_ops ops f)) c' ∧
    queue_repr l c' (snd (fifo_ops ops f)) ∧ errors c' = errors c ∧
    (length (items (snd (fifo_ops ops f))) ≤ length (items f) + length ops)%nat.
Proof.
  revert c f. induction ops as [|[v|old] ops IH]; intros c f Hrep Hok Ho Haa Hga Hac; cbn [run_ops fifo_ops length] in *.
  { exists c. split; [done|]. split; [done|]. split; [done|]. simpl. lia. }
  - destruct (queue_add_run c f v Hrep Hok) as (c1 & Hr & Hrep1 & [k Hk] & He1); [lia..| |].
    { unfold malloc_fails. simpl. by rewrite Ho. }
    rewrite Ho, drop_nil in Hk. rewrite (run_bind_ok _ _ _ _ _ _ _ Hr).
    assert (fifo_ok (snd (fifo_add v f))) as Hok1 by (apply fifo_ok_add; [done|lia..]).
    unfold fifo_add in *. destruct (decide _) as [Hd|Hd]; cbn [fst snd] in *.
    + destruct (IH c1 _ Hrep1 Hok1) as (c' & Hr' & Hrep' & He' & Hl); [done|simpl in *; lia..|].
      rewrite (run_bind_ok _ _ _ _ _ _ _ Hr'). destruct (fifo_ops ops _) as [rs f2].
      eexists. split; [done|]. split; [done|]. split; [congruence|]. simpl in *. lia.
    + destruct (IH c1 _ Hrep1 Hok1) as (c' & Hr' & Hrep' & He' & Hl); [done|simpl in *; lia..|].
      rewrite (run_bind_ok _ _ _ _ _ _ _ Hr'). destruct (fifo_ops ops _) as [rs f2].
      eexists. split; [done|]. split; [done|]. split; [congruence|]. simpl in *. rewrite length_app in Hl. simpl in Hl. lia.
  - destruct (queue_get_run c f old Hrep Hok) as (c1 & Hr & Hrep1 & Hk & He1); [lia|].
    rewrite (run_bind_ok _ _ _ _ _ _ _ Hr).
    assert (fifo_ok (snd (fifo_get old f))) as Hok1 by (apply fifo_ok_get; [done|lia]).
    unfold fifo_get in *. destruct (items f) as [|x r] eqn:Hit; cbn [fst snd] in *.
    + destruct (IH c1 _ Hrep1 Hok1) as (c' & Hr' & Hrep' & He' & Hl); [by rewrite Hk|simpl in *; lia..|].
      rewrite (run_bind_ok _ _ _ _ _ _ _ Hr'). destruct (fifo_ops ops _) as [rs f2].
      eexists. split; [done|]. split; [done|]. split; [congruence|]. simpl in *. rewrite Hit in Hl. simpl in *. lia.
    + destruct (IH c1 _ Hrep1 Hok1) as (c' & Hr' & Hrep' & He' & Hl); [by rewrite Hk|simpl in *; lia..|].
      rewrite (run_bind_ok _ _ _ _ _ _ _ Hr'). destruct (fifo_ops ops _) as [rs f2].
      eexists. split; [done|]. split; [done|]. split; [congruence|]. simpl in *. rewrite Hit in Hl. simpl in *. lia.
Qed.
End operations.

(** C14: Run alone, the queue of lab2/src/1 is a bounded FIFO: after [queue_init (max)], any sequence
    of [queue_add] and [queue_get] calls that does not overflow the statistics returns what the FIFO
    list returns, 0 on a full queue and on an empty one with the caller's variable untouched, without
    running into any fault; [queue_destroy] then frees every node and the queue. *)
Theorem queue_refines_fifo max ops t : 0 <= max <= INT_MAX → Z.of_nat (length ops) <= LONG_MAX →
  ∃ c', run (Datatypes.S (length ops))
      (q ← Queue.queue_init max; rs ← run_ops q ops; Queue.queue_destroy q;; mret rs) t qstart =
    Ok (fst (fifo_ops ops (fifo_init max))) c' ∧
    cells (queues c') = ∅ ∧ cells (qnodes c') = ∅ ∧ errors c' = [].
Proof.
  intros Hmax Hops.
  destruct (queue_init_run (Datatypes.S (length ops)) t qstart max)
    as (l & c1 & Hi & Hrep & He & Ho); [done..|].
  rewrite (run_bind_ok _ _ _ _ _ _ _ Hi).
  destruct (run_ops_run l (Datatypes.S (length ops)) t ops c1 (fifo_init max) Hrep)
    as (c2 & Hr & Hrep2 & Her & Hl); [split; simpl; unfold LONG_MAX; lia|done|simpl; lia..|].
  rewrite (run_bind_ok _ _ _ _ _ _ _ Hr).
  destruct (queue_destroy_run l (Datatypes.S (length ops)) t c2 _ Hrep2)
    as (c3 & Hd & Hq & Hn & Hce); [simpl in Hl; lia|].
  rewrite (run_bind_ok _ _ _ _ _ _ _ Hd). eexists. split; [done|]. split; [done|]. split; [done|].
  by rewrite Hce, Her.
Qed.

Example queue_refines_fifo_witness :
  ∃ c', run 5%nat (q ← Queue.queue_init 2; rs ← run_ops q [Add 7; Add 8; Add 9; Get (-1)];
      Queue.queue_destroy q;; mret rs) 0%nat qstart = Ok [(1, 7); (1, 8); (0, 9); (1, 7)] c' ∧
    cells (queues c') = ∅ ∧ cells (qnodes c') = ∅ ∧ errors c' = [].
Proof.
  apply (queue_refines_fifo 2 [Add 7; Add 8; Add 9; Get (-1)] 0%nat).
  - unfold INT_MAX. lia.
  - unfold LONG_MAX. simpl. lia.
Defined.

(** The program lab2/src/1/a.c stores the values 0 to 9 and reads them back in order, after which the
    last two of its twelve reads fail and leave -1; every statistics line is the one expected, and
    nothing is left allocated. *)
Theorem main_a_output :
  ∃ c', run 1%nat A.main 0%nat qstart = Ok
    (((λ i, (1, i, [i + 1; i + 1; 0; i + 1; i + 1; 0; i + 1])) <$> seqZ 0 10) ++
     ((λ i, (1, i, [9 - i; 10; i + 1; 9 - i; 10; i + 1; 9 - i])) <$> seqZ 0 10) ++
     ((λ i, (0, -1, [0; 10; i; 10 - i; 10; 10; 0])) <$> [11; 12])) c' ∧
    cells (queues c') = ∅ ∧ cells (qnodes c') = ∅.
Proof. eexists. split; [vm_compute; reflexivity|]. split; vm_compute; reflexivity. Qed.

(** The state [main] of b.c starts its threads in *)
Definition b_start : qstate :=
  QState (Mem {[1%positive := Queue NULL NULL true 0 1000000 0 0 0 0]} 2) mem_empty [] [].

(** The writer adds 0 and stops in the middle of the second [count++], the
    reader gets 0, the writer goes on, the reader gets twice. *)
Definition crash_schedule : list nat :=
  replicate 38 1%nat ++ replicate 20 0%nat ++ [1%nat] ++ replicate 40 0%nat.
(** The reader stops before it stores [first->next], a NULL; the writer appends
    1 to the node the reader takes; then 2 goes in and out. *)
Definition loss_schedule : list nat :=
  replicate 20 1%nat ++ replicate 11 0%nat ++ replicate 23 1%nat ++ replicate 9 0%nat ++
  replicate 20 1%nat ++ replicate 21 0%nat.

(** C15: The reader and the writer of lab2/src/1/b.c race. From the state [main] starts them in, one
    interleaving makes the reader dereference a NULL [first] (the count is one too high after
    [count++] of the writer overlapped [count--] of the reader), and another loses the value 1, which
    the reader reports by printing ERROR. *)
Theorem unsynchronised_queue_races :
  ∃ ths c, run 1%nat B.main 0%nat qstart = Ok ths c ∧
    (∃ cf, steps (c, ths) cf ∧ faulty cf Segv) ∧
    (∃ cf, steps (c, ths) cf ∧ errors (fst cf) = [(2, 1)]).
Proof.
  exists (B.threads (Some 1%positive)), b_start. split; [|split].
  - assert (run 1%nat (Queue.queue_init 1000000) 0%nat qstart = Ok (Some 1%positive) b_start) as Hi
      by (vm_compute; reflexivity).
    unfold B.main. by rewrite (run_bind_ok _ _ _ _ _ _ _ Hi).
  - apply (run_schedule_faulty crash_schedule). vm_compute. reflexivity.
  - assert (match run_schedule loss_schedule (b_start, B.threads (Some 1%positive)) with
            | inl cf => Some (errors (fst cf)) | inr _ => None end = Some [(2, 1)]) as Hr
      by (vm_compute; reflexivity).
    destruct (run_schedule _ _) as [cf|] eqn:E; [|done]. injection Hr as Hr. exists cf.
    split; [by eapply run_schedule_steps|done].
Qed.
