(* ===== verification/QueueLock.v ===== *)
(** QueueLock: what a lock promises to the queues of lab2/src/2, and the proof,
    against that interface alone, that a queue whose operations run under such a
    lock serves one reader, one writer and the monitor thread correctly in every
    interleaving. *)
From S2P Require Import Prelude Links Threads Queue.

#[local] Open Scope Z_scope.

(** The queue and its nodes, and the objects the threads synchronise on *)
Record shared (X : Type) := Shared { core : qstate; sync : X }.
Arguments Shared {X} core sync.
Arguments core {X} s.
Arguments sync {X} s.

Definition on_core {X A} : prog qstate A → prog (shared X) A :=
  lift core (λ c s, Shared c (sync s)).
Definition on_sync {X A} : prog X A → prog (shared X) A :=
  lift sync (λ y s, Shared (core s) y).
Definition set_core {X} (c : qstate) (s : shared X) : shared X := Shared c (sync s).

(** * The interface *)

(** A lock of the queue at [l]: its two operations on the queue's pointer, the
    thread that holds it, and the two rules of a mutual exclusion lock.
    [acquire] returns from a state in which nobody held the lock, with the
    lock held, and waits only while it is held; [release], by the holder,
    returns with the lock free. Neither touches the queue, and of the lock
    nothing changes but the owner, up to [same]. *)
Class Lock (X : Type) (l : loc) := {
  acquire : ptr → prog (shared X) unit;
  release : ptr → prog (shared X) unit;
  owner : X → option tid;
  ready : X → Prop;
  same : X → X → Prop;
  acquire_safe `{RG (shared X)} n i s k :
    (∀ s1, I s1 → ready (sync s1)) →
    (∀ s1, I s1 → R i s s1 → owner (sync s1) ≠ None → wt i s1) →
    (∀ m s1 y, (m ≤ n)%nat → I s1 → R i s s1 → owner (sync s1) = None →
       owner y = Some i → ready y → same (sync s1) y →
       I (Shared (core s1) y) ∧ G i s1 (Shared (core s1) y) ∧ safe m i (k tt) (Shared (core s1) y)) →
    safe n i (acquire (Some l) ≫= k) s;
  release_safe `{RG (shared X)} n i s k :
    (∀ s1, I s1 → ready (sync s1)) →
    (∀ s1, R i s s1 → owner (sync s1) = Some i) →
    (∀ m s1 y, (m ≤ n)%nat → I s1 → R i s s1 → owner y = None → ready y → same (sync s1) y →
       I (Shared (core s1) y) ∧ G i s1 (Shared (core s1) y) ∧ safe m i (k tt) (Shared (core s1) y)) →
    safe n i (release (Some l) ≫= k) s;
}.

(** Sequencing to the right, up to the next access *)
Ltac pnorm := unfold mbind, prog_bind; rewrite ?pbind_assoc; cbn [pbind].

(** * The monitor

    It only reads, whoever holds the lock. *)
Section reads.
Context {X : Type} (l : loc) (i : nat) `{RG (shared X)}.
Implicit Types (s : shared X) (c : qstate).

Definition alive c : Prop := is_Some (cells (queues c) !! l).
(** The queue is there while the reading thread is in [J]. *)
Context (J : shared X → Prop) (J_stable : ∀ s s', J s → R i s s' → I s' → J s').
Context (J_alive : ∀ s, J s → I s → alive (core s)) (ok_overflow : okf Overflow).

Fixpoint only_reads {A} (P : A → Prop) (p : prog qstate A) : Prop :=
  match p with
  | Ret a => P a
  | Act m k => (∀ c, alive c → (∃ b, m i c = Ok b c) ∨ m i c = Fault Overflow) ∧
      ∀ b, only_reads P (k b)
  | Loop _ _ _ => False
  end.

Lemma only_reads_bind {A B} P (p : prog qstate A) (f : A → prog qstate B) :
  only_reads (λ _, True) p → (∀ a, only_reads P (f a)) → only_reads P (p ≫= f).
Proof.
  intros Hp Hf. induction p as [a|A B' m k IH|]; [apply Hf| |done].
  destruct Hp as [Hm Hk]. split; [done|]. intros b. by apply IH.
Qed.
Lemma only_reads_get {A} (f : queue_t → A) : only_reads (λ _, True) (Queue.get (Some l) f).
Proof.
  split; [|done]. intros c [Q HQ]. left. exists Q. unfold load. simpl. by rewrite HQ.
Qed.
Lemma only_reads_signed_add mx a b : only_reads (λ _, True) (atomic (signed_add mx a b)).
Proof.
  split; [|done]. intros c _. unfold signed_add. destruct (decide _); [left; eauto|by right].
Qed.

Lemma safe_reads {A} P (p : prog qstate A) n s (k : A → prog (shared X) unit) :
  only_reads P p → J s → (∀ m a s', (m ≤ n)%nat → P a → J s' → safe m i (k a) s') →
  safe n i (pbind (on_core p) k) s.
Proof.
  intros Hp HJ Hk. revert n s HJ Hk. induction p as [a|A B m f IH|]; intros n s HJ Hk; [by apply Hk| |done].
  destruct n as [|n]; [done|]. destruct Hp as [Hm Hf]. cbn [on_core lift pbind]. apply safe_act.
  intros s1 HI HR. pose proof (J_stable _ _ HJ HR HI) as HJ1. unfold lift_act.
  destruct (Hm (core s1)) as [[b ->]| ->]; [by apply J_alive| |done].
  replace (Shared (core s1) (sync s1)) with s1 by (by destruct s1).
  split; [done|]. split; [intros j _; apply R_refl|].
  eapply IH; [by apply Hf|done|]. intros m' a s' Hm'. apply Hk. lia.
Qed.

Lemma reads_stats : only_reads (λ _, True) (Queue.queue_print_stats (Some l)).
Proof.
  repeat lazymatch goal with
  | |- only_reads _ (Queue.get _ _) => apply only_reads_get
  | |- only_reads _ (atomic _) => apply only_reads_signed_add
  | |- only_reads _ (mret _) => exact Logic.I
  | |- _ => apply only_reads_bind; [|intros ?]
  end.
Qed.

Lemma reads_safe n s : J s → safe n i (on_core (Queue.qmonitor (Some l))) s.
Proof.
  unfold Queue.qmonitor, forever, on_core. cbn [lift].
  apply (safe_loop (λ _, J)); [intros _; apply J_stable|]. intros n' x s' _ HJ IH.
  apply (safe_reads (λ r, ∃ x, r = inl x)); [|done|].
  - apply only_reads_bind; [|intros ?; by eexists]. apply only_reads_bind; [apply reads_stats|done].
  - intros m r s'' Hm [x' ->] HJ'. by apply IH.
Qed.
End reads.

(** * A queue under a lock *)

Section locked.
Context {X : Type} (l : loc) `{Lock X l} (max : Z).
Implicit Types (s : shared X) (c : qstate) (y : X).

(** What the holder can rely on of the lock's state apart from its owner, what
    that state says of the queue while nobody holds the lock, which threads do
    not wait for a condition, where a thread may have to wait, and where it may
    return: for a plain lock only the last two say something. *)
Context (keep : X → X → Prop) (waits : X → qstate → Prop).
Context (running : nat → X → Prop) (blocked leaves : nat → X → Prop).
Context (keep_refl : ∀ y, keep y y) (keep_trans : ∀ y1 y2 y3, keep y1 y2 → keep y2 y3 → keep y1 y3).
Context (same_keep : ∀ y y', same y y' → keep y y').
Context (same_running : ∀ i y y', same y y' → running i y → running i y').
Context (waits_keep : ∀ y y' c, keep y y' → waits y c → waits y' c).
Context (blocked_held : ∀ i j y, owner y = Some j → j ≠ i → blocked i y).

(** ** Invariant, rely and guarantee *)

#[local] Abbreviation alive := (alive l).
Definition added c : option Z := add_count <$> cells (queues c) !! l.
Definition taken c : option Z := get_count <$> cells (queues c) !! l.

(** While the lock is free, the queue holds the values the writer added and the
    reader has not taken: a stretch of 0, 1, 2, ... *)
Record stretch (f : fifo) : Prop := {
  st_ok : fifo_ok f;
  st_cap : cap f = max;
  st_items : items f = seqZ (gc f) (ac f - gc f);
  st_attempts : ac f <= aa f;
}.
Definition consistent c : Prop := ∃ f, queue_repr l c f ∧ stretch f.

(** What thread [i] does to the queue: the writer alone adds, the reader alone
    takes. *)
Definition frame (i : nat) c c' : Prop :=
  (alive c → alive c') ∧ errors c' = errors c ∧
  (i ≠ 0%nat → taken c' = taken c) ∧ (i ≠ 1%nat → added c' = added c).

Definition inv s : Prop :=
  alive (core s) ∧ ready (sync s) ∧ errors (core s) = [] ∧
  (owner (sync s) = None → consistent (core s) ∧ waits (sync s) (core s)) ∧
  ∀ j, owner (sync s) = Some j → (j < 2)%nat ∧ running j (sync s).
Definition rely (i : nat) s s' : Prop :=
  (owner (sync s) = Some i →
     owner (sync s') = Some i ∧ core s' = core s ∧ keep (sync s) (sync s')) ∧
  (owner (sync s') = Some i → owner (sync s) = Some i) ∧
  (running i (sync s) → running i (sync s')) ∧
  (i = 0%nat → taken (core s') = taken (core s)) ∧
  (i = 1%nat → added (core s') = added (core s)).

#[local] Instance locked_rg : RG (shared X).
Proof.
  refine {| I := inv; R := rely; okf e := e = Overflow ∨ e = Aborted;
    wt i s := blocked i (sync s); fin i s := leaves i (sync s) |}.
  - intros i s. by split_and!.
  - intros i s1 s2 s3 (H1 & H2 & Hrun & H3 & H4) (H1' & H2' & Hrun' & H3' & H4'). split_and!.
    + intros Ho. destruct (H1 Ho) as (Ho' & Hc & Hk). destruct (H1' Ho') as (? & Hc' & Hk').
      split_and!; [done|congruence|by eapply keep_trans].
    + auto.
    + auto.
    + intros ->. by rewrite H3', H3.
    + intros ->. by rewrite H4', H4.
Defined.

(** The holder's accesses *)
Lemma holder_step i s c' y : owner (sync s) = Some i → owner y = Some i → ready y →
  (∀ j, running j (sync s) → running j y) →
  frame i (core s) c' → inv s → inv (Shared c' y) ∧ G i s (Shared c' y).
Proof.
  intros Ho Hy Hr Hrun (Ha & He & Ht & Hd) (Hal & _ & Her & _ & Hb). split.
  - split_and!; simpl; [by apply Ha|done|congruence|congruence|].
    intros j Hj. destruct (Hb j); [congruence|]. auto.
  - intros j Hj. unfold R; simpl. split_and!; simpl; try congruence.
    + apply Hrun.
    + intros ->. by apply Ht.
    + intros ->. by apply Hd.
Qed.

(** A stretch of a critical section runs as if alone. *)
Lemma safe_piece {A} (p : prog qstate A) n i s (k : A → prog (shared X) unit) :
  owner (sync s) = Some i → keeps (frame i) i p →
  match run 0 p i (core s) with
  | Ok a c' => ∀ m y, (m ≤ n)%nat → owner y = Some i → ready y → keep (sync s) y →
      (running i (sync s) → running i y) → safe m i (k a) (Shared c' y)
  | Blocked => False
  | Fault e => e = Overflow ∨ e = Aborted
  end →
  safe n i (on_core p ≫= k) s.
Proof.
  revert n s. induction p as [a|A B m f IH|A Y Z body IHb x f IHk]; intros n s Ho Hk Hrun.
  - simpl in *. unfold mret, C_ret in Hrun. cbn.
    destruct n as [|n]; [done|]. intros s1 HI HR.
    destruct HR as (HR & HR2 & HRr & HR3). destruct (HR Ho) as (Ho1 & Hc & Hkp).
    specialize (Hrun (Datatypes.S n) (sync s1) ltac:(done) Ho1 ltac:(apply HI) Hkp HRr).
    rewrite <-Hc in Hrun. destruct s1 as [c1 y1]. simpl in *. apply (Hrun _ HI). apply (R_refl (RG:=locked_rg)).
  - destruct n as [|n]; [done|]. destruct Hk as [Hm Hk].
    cbn [on_core lift pbind mbind prog_bind]. apply safe_act. intros s1 HI HR.
    destruct HR as (HR & _ & HRr & _). destruct (HR Ho) as (Ho1 & Hc & Hkp). unfold lift_act. rewrite Hc.
    cbn [run] in Hrun. unfold mbind, C_bind in Hrun. specialize (Hm (core s)).
    destruct (m i (core s)) as [b c2| |e]; [|done..]. specialize (Hm b c2 eq_refl).
    destruct (holder_step i s1 c2 (sync s1)) as [HI2 HG]; [done|done|apply HI|done|by rewrite Hc|done|].
    split; [done|]. split; [done|]. apply IH; [done|done|]. simpl.
    destruct (run 0 (f b) i c2); [|done..]. intros m' y ? ? ? Hk' Hr'. apply Hrun; [lia|done|done| |by auto].
    by eapply keep_trans.
  - simpl in Hrun. destruct Hrun; done.
Qed.

(** ** The pieces keep to their thread's frame *)

Lemma frame_refl i c : frame i c c.
Proof. by split_and!. Qed.

(** Only the fields of the queue that count what was added and taken matter. *)
Lemma frame_queue i c c' Q Q' :
  cells (queues c) !! l = Some Q → cells (queues c') = <[l := Q']> (cells (queues c)) →
  errors c' = errors c → (i ≠ 0%nat → get_count Q' = get_count Q) →
  (i ≠ 1%nat → add_count Q' = add_count Q) → frame i c c'.
Proof.
  intros HQ HQ' He Ht Hd. unfold frame, alive, taken, added. rewrite HQ', HQ, !lookup_insert_eq.
  split_and!; simpl; [eauto|done|intros; by rewrite Ht|intros; by rewrite Hd].
Qed.
Lemma frame_nodes i c c' : queues c' = queues c → errors c' = errors c → frame i c c'.
Proof. intros Hq He. unfold frame, alive, taken, added. by rewrite Hq. Qed.

Lemma keeps_get {A} i (f : queue_t → A) : keeps (frame i) i (Queue.get (Some l) f).
Proof.
  split; [|done]. intros c b c'. unfold load. destruct (_ !! _); [|done].
  intros [= -> ->]. apply frame_refl.
Qed.
Lemma keeps_node_get {A} i p (f : qnode_t → A) : keeps (frame i) i (Queue.node_get p f).
Proof.
  split; [|done]. intros c b c'. unfold load. destruct p; [|done]. destruct (_ !! _); [|done].
  intros [= -> ->]. apply frame_refl.
Qed.
Lemma keeps_set i f : (∀ Q, (i ≠ 0%nat → get_count (f Q) = get_count Q) ∧ (i ≠ 1%nat → add_count (f Q) = add_count Q)) →
  keeps (frame i) i (Queue.set (Some l) f).
Proof.
  intros Hf. split; [|done]. intros c b c'. unfold update. simpl.
  destruct (_ !! _) as [Q|] eqn:HQ; [|done]. intros [= _ <-].
  destruct (Hf Q). by eapply frame_queue.
Qed.
Lemma keeps_pure {A} i (m : C qstate A) : (∀ t c b c', m t c = Ok b c' → c' = c) →
  keeps (frame i) i (atomic m).
Proof. intros Hm. split; [|done]. intros c b c' Hr. apply Hm in Hr as ->. apply frame_refl. Qed.
Lemma signed_add_pure {S} mx a b t (s s' : S) x : signed_add mx a b t s = Ok x s' → s' = s.
Proof. unfold signed_add. destruct (decide _); [by intros [= _ ->]|done]. Qed.
Lemma keeps_bump i mx d fld setf :
  (∀ x Q, (i ≠ 0%nat → get_count (setf x Q) = get_count Q) ∧ (i ≠ 1%nat → add_count (setf x Q) = add_count Q)) →
  keeps (frame i) i (Queue.bump mx d (Some l) fld setf).
Proof.
  intros Hf. apply keeps_bind; [apply keeps_get|]. intros x.
  apply keeps_bind; [apply keeps_pure; eauto using signed_add_pure|]. intros y. by apply keeps_set.
Qed.
Lemma keeps_node i (m : C qstate unit) :
  (∀ t c b c', m t c = Ok b c' → queues c' = queues c ∧ errors c' = errors c) → keeps (frame i) i (atomic m).
Proof. intros Hm. split; [|done]. intros c b c' Hr. destruct (Hm _ _ _ _ Hr). by apply frame_nodes. Qed.
Lemma keeps_node_update i p f : keeps (frame i) i (atomic (update qnode_t p f)).
Proof.
  apply keeps_node. intros t c b c'. unfold update. destruct p; [|done].
  destruct (_ !! _); [|done]. by intros [= _ <-].
Qed.
Lemma keeps_node_free i p : keeps (frame i) i (atomic (free qnode_t p)).
Proof.
  apply keeps_node. intros t c b c'. unfold free. destruct p; [|by intros [= _ <-]].
  destruct (_ !! _); [|done]. by intros [= _ <-].
Qed.
Lemma keeps_assert i b : keeps (frame i) i (atomic (assert b)).
Proof. apply keeps_pure. intros t s x s'. destruct b; [by intros [= _ <-]|done]. Qed.
Lemma keeps_fail {A} i e : keeps (frame i) i (atomic (fail e : C qstate A)).
Proof. by apply keeps_pure. Qed.

Ltac keeps_solve := repeat (first
  [ exact Logic.I | apply keeps_get | apply keeps_node_get | apply keeps_node_update | apply keeps_node_free
  | apply keeps_assert | apply keeps_fail
  | apply keeps_set; done | apply keeps_bump; done
  | apply keeps_bind; [|intros ?] | case_match ]).

Lemma keeps_new_node i v : keeps (frame i) i (Queue.new_node v).
Proof.
  apply keeps_bind; [|intros []; keeps_solve].
  split; [|done]. intros c b c'. unfold malloc. intros (ok & c1 & Hm & Hr)%bind_ok_inv.
  rewrite malloc_answer_run in Hm. injection Hm as _ <-.
  destruct ok; injection Hr as _ <-; by apply frame_nodes.
Qed.
Lemma keeps_add_entry i : keeps (frame i) i (Queue.add_entry (Some l)).
Proof. unfold Queue.add_entry. keeps_solve. Qed.
Lemma keeps_get_entry i : keeps (frame i) i (Queue.get_entry (Some l)).
Proof. unfold Queue.get_entry. keeps_solve. Qed.
Lemma keeps_enqueue v : keeps (frame 1) 1 (Queue.enqueue (Some l) v).
Proof.
  unfold Queue.enqueue, Queue.link_node. apply keeps_bind; [apply keeps_new_node|]. intros new. keeps_solve.
Qed.
Lemma keeps_dequeue : keeps (frame 0) 0 (Queue.dequeue (Some l)).
Proof. unfold Queue.dequeue, Queue.take_first. keeps_solve. Qed.

(** ** The steps of a critical section *)

Lemma safe_acquire n i s k : (i < 2)%nat → owner (sync s) ≠ Some i → running i (sync s) →
  (∀ m c y, (m ≤ n)%nat → consistent c → waits y c → owner y = Some i → ready y → running i y →
     (i = 0%nat → taken c = taken (core s)) → (i = 1%nat → added c = added (core s)) →
     safe m i (k tt) (Shared c y)) →
  safe n i (acquire (Some l) ≫= k) s.
Proof.
  intros Hi Hno Hrun Hk. apply acquire_safe.
  - by intros s1 (_ & ? & _).
  - intros s1 HI (_ & HR2 & _) Ho. destruct (owner (sync s1)) as [j|] eqn:Hj; [|done].
    apply (blocked_held i j); [done|]. intros ->. by apply Hno, HR2.
  - intros m s1 y Hm (Hal & Hr & He & Hc & Hb) (_ & _ & HRr & HR3 & HR4) Hfree Hy Hry Hsame.
    destruct (Hc Hfree) as [Hcon Hw]. split; [|split].
    + split_and!; simpl; [done..|congruence|]. intros j Hj. assert (j = i) as -> by congruence. eauto.
    + intros j Hj. split_and!; simpl; try congruence. eauto.
    + apply Hk; [done|done|eauto|done|done|eauto|done..].
Qed.

Lemma safe_release n i s k : owner (sync s) = Some i → consistent (core s) →
  (∀ y, keep (sync s) y → waits y (core s)) →
  (∀ m y, (m ≤ n)%nat → owner y = None → (running i (sync s) → running i y) →
     safe m i (k tt) (Shared (core s) y)) →
  safe n i (release (Some l) ≫= k) s.
Proof.
  intros Ho Hc Hw Hk. apply release_safe.
  - by intros s1 (_ & ? & _).
  - intros s1 (HR & _). by destruct (HR Ho).
  - intros m s1 y Hm (Hal & Hr & He & _ & Hb) (HR & _ & HRr & _) Hy Hry Hsame.
    destruct (HR Ho) as (Ho1 & Hcore & Hkp). rewrite Hcore in *. split; [|split].
    + split_and!; simpl; [done..| |congruence]. intros _. split; [done|]. apply Hw. eauto.
    + intros j Hj. split_and!; simpl; rewrite ?Ho1, ?Hy, ?Hcore; try congruence. eauto.
    + apply Hk; eauto.
Qed.

Lemma added_repr c f : queue_repr l c f → added c = Some (ac f).
Proof. intros (Q & ls & HQ & Hf & _). unfold added. rewrite HQ, lookup_singleton_eq. simpl. by rewrite (h_ac _ _ _ _ Hf). Qed.
Lemma taken_repr c f : queue_repr l c f → taken c = Some (gc f).
Proof. intros (Q & ls & HQ & Hf & _). unfold taken. rewrite HQ, lookup_singleton_eq. simpl. by rewrite (h_gc _ _ _ _ Hf). Qed.

Lemma stretch_count_add f : stretch f → aa f < LONG_MAX → stretch (count_add f).
Proof. intros [[] ? ? ?] ?. split; [split|..]; simpl; try done; lia. Qed.
Lemma stretch_count_get f : stretch f → ga f < LONG_MAX → stretch (count_get f).
Proof. intros [[] ? ? ?] ?. split; [split|..]; simpl; try done; lia. Qed.
Lemma stretch_push f : stretch f → Z.of_nat (length (items f)) < cap f → ac f < aa f →
  stretch (fifo_push (ac f) f).
Proof.
  intros [Hok Hcap Hit Hle] Hlen Hlt. split; simpl; [|done| |lia].
  - apply fifo_ok_push; [done..|]. destruct Hok; lia.
  - assert (0 <= ac f - gc f) by (destruct Hok; lia).
    replace (ac f + 1 - gc f) with (ac f - gc f + 1) by lia.
    rewrite seqZ_app, <-Hit by lia. replace (gc f + (ac f - gc f)) with (ac f) by lia. done.
Qed.
Lemma stretch_pop f : stretch f → items f ≠ [] →
  items f = gc f :: tail (items f) ∧ stretch (fifo_pop f).
Proof.
  intros [Hok Hcap Hit Hle] Hne.
  assert (0 < ac f - gc f) as Hpos.
  { destruct (decide (0 < ac f - gc f)); [done|]. rewrite seqZ_nil in Hit by lia. done. }
  assert (items f = gc f :: seqZ (Z.succ (gc f)) (Z.pred (ac f - gc f))) as Heq
    by (by rewrite Hit, seqZ_cons).
  split; [by rewrite Heq|]. split; simpl; [by apply fifo_ok_pop|done| |lia].
  rewrite Heq. simpl. f_equal; lia.
Qed.

(** What the pieces do to a consistent queue: the entries only count the
    attempt, the writer's value is the next one, the reader's the first one. *)
Lemma add_entry_cases c f : queue_repr l c f → stretch f →
  match run 0 (Queue.add_entry (Some l)) 1%nat c with
  | Ok full c' => queue_repr l c' (count_add f) ∧ stretch (count_add f) ∧
      full = bool_decide (Z.of_nat (length (items f)) = cap f)
  | Blocked => False
  | Fault e => e = Overflow ∨ e = Aborted
  end.
Proof.
  intros (Q & ls & HQ & Hf & Hdom) Hst. pose proof (only_lookup _ _ _ HQ) as Hl.
  destruct (decide (aa f = LONG_MAX)) as [Haa|Haa].
  { rewrite (add_entry_overflow l 0 1%nat ls Q c f) by done. by left. }
  assert (aa f < LONG_MAX) as Hlt by (destruct Hst as [[] _ _ _]; lia).
  destruct (add_entry_run l 0 1%nat ls Q c f Hl Hf (st_ok _ Hst) Hlt) as [-> Hh].
  split; [|split; [by apply stretch_count_add|done]].
  eexists _, ls. split; [by eapply put_queue_only|]. by split.
Qed.
Lemma get_entry_cases c f : queue_repr l c f → stretch f →
  match run 0 (Queue.get_entry (Some l)) 0%nat c with
  | Ok empty c' => queue_repr l c' (count_get f) ∧ stretch (count_get f) ∧
      empty = bool_decide (Z.of_nat (length (items f)) = 0)
  | Blocked => False
  | Fault e => e = Overflow ∨ e = Aborted
  end.
Proof.
  intros (Q & ls & HQ & Hf & Hdom) Hst. pose proof (only_lookup _ _ _ HQ) as Hl.
  destruct (decide (ga f = LONG_MAX)) as [Haa|Haa].
  { rewrite (get_entry_overflow l 0 0%nat ls Q c f) by done. by left. }
  assert (ga f < LONG_MAX) as Hlt by (destruct Hst as [[] _ _ _]; lia).
  destruct (get_entry_run l 0 0%nat ls Q c f Hl Hf (st_ok _ Hst) Hlt) as [-> Hh].
  split; [|split; [by apply stretch_count_get|done]].
  eexists _, ls. split; [by eapply put_queue_only|]. by split.
Qed.

Lemma enqueue_cases c f : queue_repr l c f → stretch f → Z.of_nat (length (items f)) < cap f →
  ac f < aa f →
  match run 0 (Queue.enqueue (Some l) (ac f)) 1%nat c with
  | Ok _ c' => queue_repr l c' (fifo_push (ac f) f)
  | Blocked => False
  | Fault e => e = Overflow ∨ e = Aborted
  end.
Proof.
  intros Hrep Hst Hlen Hlt. destruct (decide (malloc_fails c)) as [Hm|Hm].
  { rewrite enqueue_aborts by done. by right. }
  destruct (enqueue_run l 0 1%nat c f (ac f) Hrep (st_ok _ Hst) Hlen) as (c' & -> & Hrep' & _); [|done..].
  destruct Hst as [[] _ _ _]. lia.
Qed.
Lemma dequeue_cases c f : queue_repr l c f → stretch f → items f ≠ [] →
  match run 0 (Queue.dequeue (Some l)) 0%nat c with
  | Ok v c' => queue_repr l c' (fifo_pop f) ∧ v = gc f
  | Blocked => False
  | Fault e => e = Overflow ∨ e = Aborted
  end.
Proof.
  intros Hrep Hst Hne. destruct (stretch_pop f Hst Hne) as [Hit Hst'].
  destruct (dequeue_run l 0 0%nat c f _ _ Hrep (st_ok _ Hst) Hit) as (c' & -> & Hrep' & _). done.
Qed.

(** ** The threads are safe *)

(** Between its critical sections, [i] values added, or taken *)
Definition writer_at (i : Z) s : Prop :=
  owner (sync s) ≠ Some 1%nat ∧ added (core s) = Some i ∧ running 1 (sync s).
Definition reader_at (i : Z) s : Prop :=
  owner (sync s) ≠ Some 0%nat ∧ taken (core s) = Some i ∧ running 0 (sync s).
Lemma writer_at_stable i s s' : writer_at i s → rely 1 s s' → writer_at i s'.
Proof. intros (Ho & Ha & Hr) (_ & H2 & H3 & _ & H4). split_and!; [by intros ?%H2|by rewrite H4|auto]. Qed.
Lemma reader_at_stable i s s' : reader_at i s → rely 0 s s' → reader_at i s'.
Proof. intros (Ho & Ha & Hr) (_ & H2 & H3 & H4 & _). split_and!; [by intros ?%H2|by rewrite H4|auto]. Qed.

Lemma monitor_safe n s : safe n 2 (on_core (Queue.qmonitor (Some l))) s.
Proof. by apply (reads_safe l 2 (λ _, True)); [|intros s' _ [? _]|left|]. Qed.

(** What safe threads never do *)
Lemma locked_sound ths s0 cf : (∀ i y, ¬ leaves i y) → inv s0 →
  (∀ n i p, ths !! i = Some p → safe n i p s0) → steps (s0, ths) cf →
  inv (fst cf) ∧ (∀ e, faulty cf e → e = Overflow ∨ e = Aborted) ∧
  ∀ i p, snd cf !! i = Some p → prog_step p i (fst cf) = Blocked → blocked i (sync (fst cf)).
Proof.
  intros Hl HI Hs Hsteps. destruct (rg_sound (H:=locked_rg) (s0, ths) cf) as (? & ? & Hb); [done|done|].
  split; [done|]. split; [done|]. intros i p Hp Hbl. specialize (Hb i p Hp Hbl). destruct p; [by destruct (Hl _ _ Hb)|done..].
Qed.

(** The state [queue_init] leaves *)
Lemma inv_init s0 : queue_repr l (core s0) (fifo_init max) → 0 <= max <= INT_MAX →
  ready (sync s0) → owner (sync s0) = None → errors (core s0) = [] → waits (sync s0) (core s0) →
  inv s0 ∧ added (core s0) = Some 0 ∧ taken (core s0) = Some 0.
Proof.
  intros Hrep Hmax Hr Ho He Hw. split; [|split].
  - split_and!; [|done|done| |].
    + destruct Hrep as (Q & ls & HQ & _). exists Q. by apply only_lookup.
    + intros _. split; [|done]. exists (fifo_init max). split; [done|].
      split; [split|..]; simpl; try done; unfold LONG_MAX; lia.
    + intros j. by rewrite Ho.
  - by rewrite (added_repr _ _ Hrep).
  - by rewrite (taken_repr _ _ Hrep).
Qed.
End locked.

(** * The queues under a plain lock *)

Section plain.
Context {X : Type} (l : loc) `{Lock X l} (max : Z).
Implicit Types (s : shared X) (c : qstate) (y : X).

(** Which threads run, and where one may return *)
Context (running leaves : nat → X → Prop).
Context (same_running : ∀ i y y', same y y' → running i y → running i y').

Definition held_by_other (i : nat) (y : X) : Prop := ∃ j, owner y = Some j ∧ j ≠ i.

#[local] Instance plain_rg : RG (shared X).
Proof.
  refine (locked_rg l max (λ _ _, True) (λ _ _, True) running held_by_other leaves _ _); done.
Defined.

Lemma plain_acquire n i s k : (i < 2)%nat → owner (sync s) ≠ Some i → running i (sync s) →
  (∀ m c y, (m ≤ n)%nat → consistent l max c → owner y = Some i → running i y →
     (i = 0%nat → taken l c = taken l (core s)) → (i = 1%nat → added l c = added l (core s)) →
     safe m i (k tt) (Shared c y)) →
  safe n i (acquire (Some l) ≫= k) s.
Proof.
  intros Hi Ho Hr Hk. eapply safe_acquire; try done; [|by auto].
  intros i' j y Hj Hne. by exists j.
Qed.
Lemma plain_release n i s k : owner (sync s) = Some i → running i (sync s) → consistent l max (core s) →
  (∀ m y, (m ≤ n)%nat → owner y = None → running i y → safe m i (k tt) (Shared (core s) y)) →
  safe n i (release (Some l) ≫= k) s.
Proof. intros Ho Hr Hc Hk. eapply safe_release; try done. auto. Qed.
Lemma plain_piece {A} (p : prog qstate A) n i s (k : A → prog (shared X) unit) :
  owner (sync s) = Some i → running i (sync s) → keeps (frame l i) i p →
  match run 0 p i (core s) with
  | Ok a c' => ∀ m y, (m ≤ n)%nat → owner y = Some i → running i y → safe m i (k a) (Shared c' y)
  | Blocked => False
  | Fault e => e = Overflow ∨ e = Aborted
  end →
  safe n i (on_core p ≫= k) s.
Proof.
  intros Ho Hrun Hk Hr. eapply safe_piece; [done..|]. destruct (run 0 p i (core s)); [|done..]. auto.
Qed.

Definition locked_add (q : ptr) (v : Z) : prog (shared X) Z :=
  acquire q;;
  full ← on_core (Queue.add_entry q);
  if (full : bool) then release q;; mret 0 else
  on_core (Queue.enqueue q v);;
  release q;;
  mret 1.

Definition locked_get (q : ptr) (old : Z) : prog (shared X) (Z * Z) :=
  acquire q;;
  empty ← on_core (Queue.get_entry q);
  if (empty : bool) then release q;; mret (0, old) else
  v ← on_core (Queue.dequeue q);
  release q;;
  mret (1, v).

(** The threads of queue_threads.c with the monitor, numbered 0, 1 and 2 *)
Definition locked_threads (q : ptr) : list (prog (shared X) unit) :=
  [reader core set_core locked_get q; writer locked_add q; on_core (Queue.qmonitor q)].

(** One round of the writer, and of the reader, whatever comes after *)
Lemma writer_round_safe n i s k : writer_at l running i s →
  (∀ m i' s', (m ≤ n)%nat → writer_at l running i' s' → safe m 1 (k i') s') →
  safe n 1 (pbind (writer_round locked_add (Some l) i) k) s.
Proof.
  intros (Ho & Ha & Hrun) IH. unfold writer_round, locked_add. pnorm.
  apply plain_acquire; [lia|done..|]. intros m1 c1 y1 Hm1 (f & Hrep & Hst) Hy1 Hrun1 _ Hadd1. cbv beta.
  rewrite (added_repr l _ _ Hrep) in Hadd1. simpl in Hadd1. rewrite Ha in Hadd1.
  injection (Hadd1 eq_refl) as <-. pnorm.
  apply plain_piece; [done..|apply keeps_add_entry|].
  pose proof (add_entry_cases l max c1 f Hrep Hst) as Hentry. cbn [core].
  destruct (run 0 (Queue.add_entry (Some l)) 1%nat c1) as [full c2| |e]; [|done..].
  destruct Hentry as (Hrep2 & Hst2 & ->). intros m2 y2 Hm2 Hy2 Hrun2. cbv beta.
  case_bool_decide as Hfull.
  - pnorm. apply plain_release; [done..|by eexists|]. intros m3 y3 Hm3 Hy3 Hrun3. cbn.
    apply IH; [lia|]. split_and!; simpl; [by rewrite Hy3| |done]. by rewrite (added_repr l _ _ Hrep2).
  - pnorm. apply plain_piece; [done..|apply keeps_enqueue|]. cbn [core].
    assert (Z.of_nat (length (items f)) < cap f) as Hlen by (destruct Hst as [[] _ _ _]; lia).
    assert (ac f < aa f + 1) as Hlt by (destruct Hst; lia).
    pose proof (enqueue_cases l max c2 (count_add f) Hrep2 Hst2 Hlen Hlt) as Henq. cbn [ac count_add] in Henq.
    destruct (run 0 (Queue.enqueue (Some l) (ac f)) 1%nat c2) as [[] c3| |e]; [|done..].
    pose proof (stretch_push max _ Hst2 Hlen Hlt) as Hst3.
    intros m3 y3 Hm3 Hy3 Hrun3. apply plain_release; [done..|by eexists|]. intros m4 y4 Hm4 Hy4 Hrun4. cbn.
    apply safe_signed_add; [by left|]. intros m5 s5 Hm5 _ HR. apply IH; [lia|].
    eapply writer_at_stable; [|exact HR]. split_and!; simpl; [by rewrite Hy4| |done].
    exact (added_repr l _ _ Henq).
Qed.

Lemma reader_round_safe n i s k : reader_at l running i s →
  (∀ m i' s', (m ≤ n)%nat → reader_at l running i' s' → safe m 0 (k i') s') →
  safe n 0 (pbind (reader_round core set_core locked_get (Some l) i) k) s.
Proof.
  intros (Ho & Ha & Hrun) IH. unfold reader_round, locked_get. pnorm.
  apply plain_acquire; [lia|done..|]. intros m1 c1 y1 Hm1 (f & Hrep & Hst) Hy1 Hrun1 Htk1 _. cbv beta.
  rewrite (taken_repr l _ _ Hrep) in Htk1. simpl in Htk1. rewrite Ha in Htk1.
  injection (Htk1 eq_refl) as <-. pnorm.
  apply plain_piece; [done..|apply keeps_get_entry|].
  pose proof (get_entry_cases l max c1 f Hrep Hst) as Hentry. cbn [core].
  destruct (run 0 (Queue.get_entry (Some l)) 0%nat c1) as [empty c2| |e]; [|done..].
  destruct Hentry as (Hrep2 & Hst2 & ->). intros m2 y2 Hm2 Hy2 Hrun2. cbv beta.
  case_bool_decide as Hempty.
  - pnorm. apply plain_release; [done..|by eexists|]. intros m3 y3 Hm3 Hy3 Hrun3. cbn.
    apply IH; [lia|]. split_and!; simpl; [by rewrite Hy3| |done]. by rewrite (taken_repr l _ _ Hrep2).
  - pnorm. apply plain_piece; [done..|apply keeps_dequeue|]. cbn [core].
    assert (items f ≠ []) as Hne by (by intros Heq; rewrite Heq in Hempty).
    pose proof (dequeue_cases l max c2 (count_get f) Hrep2 Hst2 Hne) as Hdeq.
    destruct (run 0 (Queue.dequeue (Some l)) 0%nat c2) as [v c3| |e]; [|done..].
    destruct Hdeq as [Hrep3 ->]. destruct (stretch_pop max _ Hst2 Hne) as [_ Hst3].
    intros m3 y3 Hm3 Hy3 Hrun3. cbv beta. pnorm.
    apply plain_release; [done..|by eexists|]. intros m4 y4 Hm4 Hy4 Hrun4. cbn -[decide].
    rewrite decide_False by done. rewrite decide_True by done. cbn.
    apply safe_signed_add; [by left|]. intros m5 s5 Hm5 _ HR. apply IH; [lia|].
    eapply reader_at_stable; [|exact HR]. split_and!; simpl; [by rewrite Hy4| |done].
    exact (taken_repr l _ _ Hrep3).
Qed.

Lemma writer_safe n i s : writer_at l running i s →
  safe n 1 (Loop (λ i, pbind (writer_round locked_add (Some l) i) (λ x', Ret (inl x' : Z + unit))) i Ret) s.
Proof.
  apply safe_loop; [intros ? ? ? Ha HR _; eapply writer_at_stable; [exact Ha|exact HR]|]. intros m x s' _ Hat IH. pnorm.
  apply writer_round_safe; [done|]. intros m' x' s'' Hm Hat'. by apply IH.
Qed.
Lemma reader_safe n i s : reader_at l running i s →
  safe n 0 (Loop (λ i, pbind (reader_round core set_core locked_get (Some l) i) (λ x', Ret (inl x' : Z + unit))) i Ret) s.
Proof.
  apply safe_loop; [intros ? ? ? Ha HR _; eapply reader_at_stable; [exact Ha|exact HR]|]. intros m x s' _ Hat IH. pnorm.
  apply reader_round_safe; [done|]. intros m' x' s'' Hm Hat'. by apply IH.
Qed.
End plain.

Section plain_correct.
Context {X : Type} (l : loc) `{Lock X l} (max : Z).

(** The reader, the writer and the monitor from the state [queue_init] leaves,
    in every interleaving: the ERROR line is never printed, whenever the lock is
    free the queue holds the values added and not yet taken, no access faults (a
    statistics counter or the counting of the values may overflow, and a failed
    allocation aborts), and one of the two can always move. *)
Lemma locked_correct s0 cf : queue_repr l (core s0) (fifo_init max) → 0 <= max <= INT_MAX →
  ready (sync s0) → owner (sync s0) = None → errors (core s0) = [] →
  steps (s0, locked_threads l (Some l)) cf →
  errors (core (fst cf)) = [] ∧ (owner (sync (fst cf)) = None → consistent l max (core (fst cf))) ∧
  (∀ e, faulty cf e → e = Overflow ∨ e = Aborted) ∧ can_move 2 cf.
Proof.
  intros Hrep Hmax Hr Ho He Hsteps.
  destruct (inv_init l max (λ _ _, True) (λ _ _, True) s0) as (HI & Ha & Ht); [done..|].
  destruct (locked_sound l max (λ _ _, True) (λ _ _, True) (λ _ _, True) (held_by_other l) (λ _ _, False)
      (λ _, Logic.I) (λ _ _ _ _ _, Logic.I) (locked_threads l (Some l)) s0 cf)
    as ((_ & _ & Herr & Hc & Hown) & Hf & Hb); [by intros ? ? []|done| |done|].
  { intros n i p Hp. unfold locked_threads in Hp. destruct i as [|[|[|i]]]; simplify_eq/=.
    - apply (reader_safe l max (λ _ _, True)); [done|]. split_and!; [by rewrite Ho|done..].
    - apply (writer_safe l max (λ _ _, True)); [done|]. split_and!; [by rewrite Ho|done..].
    - by apply monitor_safe. }
  split; [done|]. split; [intros Hn; by apply Hc|]. split; [done|].
  apply can_move_intro; [by rewrite (steps_length _ _ Hsteps); simpl; lia|].
  intros Hall. assert (∀ i, (i < 2)%nat → held_by_other l i (sync (fst cf))) as Hblk.
  { intros i Hi. destruct (lookup_lt_is_Some_2 (snd cf) i) as [p Hp].
    { rewrite (steps_length _ _ Hsteps); simpl; lia. }
    apply (Hb i p Hp). by apply (Hall i p). }
  destruct (Hblk 0%nat) as (j & Hj & Hne); [lia|]. destruct (Hblk 1%nat) as (j' & Hj' & Hne'); [lia|].
  specialize (Hown j Hj). assert (j' = j) as -> by congruence. lia.
Qed.
End plain_correct.

Lemma run_on_core {X A} n (p : prog qstate A) t (s : shared X) a c :
  run n p t (core s) = Ok a c → run n (on_core p) t s = Ok a (Shared c (sync s)).
Proof.
  intros Hp. unfold on_core. rewrite run_lift; [|by intros []|done..].
  unfold lift_act. by rewrite Hp.
Qed.
Lemma run_on_sync {X} n (m : C X unit) t (s : shared X) y :
  m t (sync s) = Ok tt y → run n (on_sync (atomic m)) t s = Ok tt (Shared (core s) y).
Proof. intros Hm. simpl. unfold mbind, C_bind, lift_act. by rewrite Hm. Qed.

(** Allocating the queue object *)
Lemma run_new_queue {X} n t (s : shared X) Q : ¬ malloc_fails (core s) →
  run n (on_core (atomic (malloc queue_t Q))) t s =
    Ok (Some (fresh_loc (queues (core s))))
       (Shared (QState (mem_alloc Q (queues (core s))) (qnodes (core s)) (tl (answers (core s)))
                  (errors (core s))) (sync s)).
Proof.
  intros Hm. apply run_on_core. rewrite run_atomic. by rewrite (malloc_ok (S:=qstate) (N:=queue_t)) by done.
Qed.

(** The core of a program's first state: nothing allocated, nothing printed *)
Lemma start_repr n t max : let c0 := QState (mem_alloc (Queue NULL NULL false 0 max 0 0 0 0) mem_empty) mem_empty [] [] in
  ∃ c, run n (Queue.create_monitor (Some 1%positive)) t c0 = Ok tt c ∧
    queue_repr 1 c (fifo_init max) ∧ errors c = [] ∧ answers c = [].
Proof.
  eexists. split; [reflexivity|]. split; [|done].
  eexists _, []. split; [reflexivity|]. by split.
Qed.
