(* ===== verification/QueueMutex.v ===== *)
(** QueueMutex: the queue of lab2/src/2/queue_mutex, its operations under the
    pthread mutex of the queue, and the program queue_threads.c built with it. *)
From S2P Require Import Prelude Links Threads Pthread Queue QueueLock.

#[local] Open Scope Z_scope.

(** The mutex of each queue object, at the queue's address *)
Abbreviation mutexes := (gmap positive mutex).
Abbreviation mstate := (shared mutexes).

Module QueueMutex.

Definition pthread_mutex_init (q : ptr) : prog mstate unit := on_sync (atomic (init_at q None)).
Definition pthread_mutex_lock (q : ptr) : prog mstate unit := on_sync (atomic (at_ptr q mutex_lock)).
Definition pthread_mutex_unlock (q : ptr) : prog mstate unit := on_sync (atomic (at_ptr q mutex_unlock)).

Definition queue_init (max_count : Z) : prog mstate ptr :=
  q ← on_core (atomic (malloc queue_t (Queue NULL NULL false 0 max_count 0 0 0 0)));
  match q with
  | None => on_core (atomic (fail Aborted))
  | Some _ =>
      pthread_mutex_init q;;
      on_core (Queue.create_monitor q);;
      mret q
  end.

Definition queue_destroy (q : ptr) : prog mstate unit :=
  match q with
  | None => mret tt
  | Some _ =>
      pthread_mutex_lock q;;
      on_core (Queue.stop_monitor q);;
      on_core (Queue.free_nodes q);;
      on_core (atomic (free queue_t q));;
      on_sync (atomic (free_at q))
  end.

Definition queue_add (q : ptr) (v : Z) : prog mstate Z :=
  pthread_mutex_lock q;;
  full ← on_core (Queue.add_entry q);
  if (full : bool) then pthread_mutex_unlock q;; mret 0 else
  on_core (Queue.enqueue q v);;
  pthread_mutex_unlock q;;
  mret 1.

Definition queue_get (q : ptr) (old : Z) : prog mstate (Z * Z) :=
  pthread_mutex_lock q;;
  empty ← on_core (Queue.get_entry q);
  if (empty : bool) then pthread_mutex_unlock q;; mret (0, old) else
  v ← on_core (Queue.dequeue q);
  pthread_mutex_unlock q;;
  mret (1, v).

(** These two touch no lock. *)
Definition queue_print_stats (q : ptr) : prog mstate (list Z) := on_core (Queue.queue_print_stats q).
Definition qmonitor (q : ptr) : prog mstate unit := on_core (Queue.qmonitor q).

(** The reader and the writer of queue_threads.c and the monitor *)
Definition threads (q : ptr) : list (prog mstate unit) :=
  [reader core set_core queue_get q; writer queue_add q; qmonitor q].
End QueueMutex.

(** The mutex is a lock. *)
#[export] Program Instance mutex_lock_of l : Lock mutexes l := {|
  acquire := QueueMutex.pthread_mutex_lock;
  release := QueueMutex.pthread_mutex_unlock;
  owner y := default None (y !! l);
  ready y := is_Some (y !! l);
  same _ _ := True;
|}.
Next Obligation.
  intros l HRG n i s k Hr Hw Hk. destruct n as [|n]; [done|]. apply safe_act. intros s1 HI HR.
  destruct (Hr s1 HI) as [m Hm]. specialize (Hw s1 HI HR). cbv beta in Hw.
  unfold lift_act, at_ptr. rewrite Hm in *.
  destruct m as [j|]; simpl; [by apply Hw|]. apply Hk; [lia|done|done|by rewrite Hm|..|done];
    by rewrite lookup_insert_eq.
Qed.
Next Obligation.
  intros l HRG n i s k Hr Ho Hk. destruct n as [|n]; [done|]. apply safe_act. intros s1 HI HR.
  destruct (Hr s1 HI) as [m Hm]. specialize (Ho s1 HR). cbv beta in Ho. rewrite Hm in Ho. simpl in Ho. subst m.
  unfold lift_act, at_ptr, mutex_unlock. rewrite Hm, decide_True by done.
  apply Hk; [lia|done|done|..|done]; by rewrite lookup_insert_eq.
Qed.

Definition mstart : mstate := Shared qstart ∅.

Lemma mutex_init_run n t max : ∃ s, run n (QueueMutex.queue_init max) t mstart = Ok (Some 1%positive) s ∧
  queue_repr 1 (core s) (fifo_init max) ∧ sync s = {[1%positive := None]} ∧ errors (core s) = [].
Proof.
  destruct (start_repr n t max) as (c & Hc & Hrep & He & _).
  unfold QueueMutex.queue_init. erewrite run_bind_ok; [|by apply run_new_queue].
  change (fresh_loc (queues (core mstart))) with 1%positive. cbv iota.
  erewrite run_bind_ok; [|by apply run_on_sync].
  erewrite run_bind_ok; [|apply run_on_core; exact Hc].
  by eexists.
Qed.

(** The queue of lab2/src/2/queue_mutex with one reader and one writer (queue_threads.c) and its monitor:
    from the state [queue_init (max)] leaves, in every interleaving, the reader gets 0, 1, 2, ... in
    order (the ERROR line is never printed); whenever the mutex is free the queue holds the values
    added and not yet taken, at most [max]; no thread runs into a fault other than the overflow of a
    counter or the [abort] of a failed allocation; and the two never block each other. *)
Theorem mutex_queue_correct max t : 0 <= max <= INT_MAX →
  ∃ l s0, run 0 (QueueMutex.queue_init max) t mstart = Ok (Some l) s0 ∧
    ∀ s ths, steps (s0, QueueMutex.threads (Some l)) (s, ths) →
      errors (core s) = [] ∧
      (sync s !! l = Some None → consistent l max (core s)) ∧
      (∀ e, faulty (s, ths) e → e = Overflow ∨ e = Aborted) ∧ can_move 2 (s, ths).
Proof.
  intros Hmax. destruct (mutex_init_run 0 t max) as (s0 & Hi & Hrep & Hsync & He).
  exists 1%positive, s0. split; [done|]. intros s ths Hsteps.
  destruct (locked_correct 1 max s0 (s, ths)) as (H1 & H2 & H3 & H4); [done|done| | |done|done|].
  - simpl. rewrite Hsync, lookup_singleton_eq. by eexists.
  - simpl. by rewrite Hsync, lookup_singleton_eq.
  - split; [done|]. split; [|done]. intros Hf. apply H2. simpl in *. by rewrite Hf.
Qed.

Example mutex_queue_correct_witness :
  ∃ l s0, run 0 (QueueMutex.queue_init 1000000) 3%nat mstart = Ok (Some l) s0 ∧
    ∀ s ths, steps (s0, QueueMutex.threads (Some l)) (s, ths) →
      errors (core s) = [] ∧
      (sync s !! l = Some None → consistent l 1000000 (core s)) ∧
      (∀ e, faulty (s, ths) e → e = Overflow ∨ e = Aborted) ∧ can_move 2 (s, ths).
Proof. apply (mutex_queue_correct 1000000 3). unfold INT_MAX. lia. Defined.
