(* ===== verification/QueueSpinlock.v ===== *)
(** QueueSpinlock: the queue of lab2/src/2/queue_spinlock, whose lock is a heap
    object with one flag set by an atomic test-and-set, and the program
    queue_threads.c built with it. *)
From S2P Require Import Prelude Links Threads Pthread Queue QueueLock.

#[local] Open Scope Z_scope.

(** [lock], and while it is set, the thread that set it *)
Record my_spinlock_t := Spinlock { lock : option tid }.

(** The [lock] field of each queue object and the lock objects *)
Record spins := Spins { lock_field : gmap positive ptr; locks : gmap positive my_spinlock_t }.
Abbreviation sstate := (shared spins).

Definition set_locks f y := Spins (lock_field y) (f (locks y)).

Module QueueSpinlock.

(** [__atomic_test_and_set]: the flag before; the flag is set after *)
Definition atomic_test_and_set (s : ptr) : C spins bool := λ t y,
  match s with
  | Some k =>
      match locks y !! k with
      | Some (Spinlock None) => Ok false (set_locks (<[k := Spinlock (Some t)]>) y)
      | Some (Spinlock (Some _)) => Ok true y
      | None => Fault Segv
      end
  | None => Fault Segv
  end.
Definition atomic_clear (s : ptr) : C spins unit := λ t y,
  match s with
  | Some k =>
      match locks y !! k with
      | Some _ => Ok tt (set_locks (<[k := Spinlock None]>) y)
      | None => Fault Segv
      end
  | None => Fault Segv
  end.

(** The allocation of a lock with its flag cleared *)
Definition new_lock : C spins ptr := λ t y,
  let k := top_of (locks y) in Ok (Some k) (set_locks (<[k := Spinlock None]>) y).

Definition spinlock_init : prog sstate ptr :=
  ok ← on_core (atomic malloc_answer);
  if (ok : bool) then on_sync (atomic new_lock) else on_core (atomic (fail Aborted)).

Definition spinlock_lock (s : ptr) : prog sstate unit :=
  Loop (λ _ : unit,
    busy ← on_sync (atomic (atomic_test_and_set s));
    mret (if (busy : bool) then inl tt else inr tt)) tt Ret.
Definition spinlock_unlock (s : ptr) : prog sstate unit := on_sync (atomic (atomic_clear s)).

(** [q->lock], and [q->lock = p] *)
Definition get_lock (q : ptr) : prog sstate ptr :=
  on_sync (atomic (λ _ y,
    match q with
    | Some l => match lock_field y !! l with Some p => Ok p y | None => Fault Segv end
    | None => Fault Segv
    end)).
Definition set_lock (q p : ptr) : prog sstate unit :=
  on_sync (atomic (λ _ y,
    match q with
    | Some l => Ok tt (Spins (<[l := p]> (lock_field y)) (locks y))
    | None => Fault Segv
    end)).
Definition free_lock (p : ptr) : prog sstate unit :=
  on_sync (atomic (λ _ y,
    match p with
    | Some k => match locks y !! k with Some _ => Ok tt (set_locks (delete k) y) | None => Fault Segv end
    | None => Ok tt y
    end)).

Definition queue_init (max_count : Z) : prog sstate ptr :=
  q ← on_core (atomic (malloc queue_t (Queue NULL NULL false 0 max_count 0 0 0 0)));
  match q with
  | None => on_core (atomic (fail Aborted))
  | Some _ =>
      s ← spinlock_init;
      set_lock q s;;
      on_core (Queue.create_monitor q);;
      mret q
  end.

(** The fields of a freed queue are gone, the lock's pointer with them. *)
Definition free_queue (q : ptr) : prog sstate unit :=
  on_core (atomic (free queue_t q));;
  on_sync (atomic (λ _ y,
    match q with
    | Some l => Ok tt (Spins (delete l (lock_field y)) (locks y))
    | None => Ok tt y
    end)).

Definition queue_destroy (q : ptr) : prog sstate unit :=
  match q with
  | None => mret tt
  | Some _ =>
      s ← get_lock q; spinlock_lock s;;
      on_core (Queue.stop_monitor q);;
      on_core (Queue.free_nodes q);;
      s ← get_lock q; free_lock s;;
      free_queue q
  end.

Definition lock_queue (q : ptr) : prog sstate unit := s ← get_lock q; spinlock_lock s.
Definition unlock_queue (q : ptr) : prog sstate unit := s ← get_lock q; spinlock_unlock s.

Definition queue_add (q : ptr) (v : Z) : prog sstate Z :=
  lock_queue q;;
  full ← on_core (Queue.add_entry q);
  if (full : bool) then unlock_queue q;; mret 0 else
  on_core (Queue.enqueue q v);;
  unlock_queue q;;
  mret 1.

Definition queue_get (q : ptr) (old : Z) : prog sstate (Z * Z) :=
  lock_queue q;;
  empty ← on_core (Queue.get_entry q);
  if (empty : bool) then unlock_queue q;; mret (0, old) else
  v ← on_core (Queue.dequeue q);
  unlock_queue q;;
  mret (1, v).

(** These two touch no lock. *)
Definition queue_print_stats (q : ptr) : prog sstate (list Z) := on_core (Queue.queue_print_stats q).
Definition qmonitor (q : ptr) : prog sstate unit := on_core (Queue.qmonitor q).

(** The reader and the writer of queue_threads.c and the monitor *)
Definition threads (q : ptr) : list (prog sstate unit) :=
  [reader core set_core queue_get q; writer queue_add q; qmonitor q].
End QueueSpinlock.

(** ** The spinlock is a lock *)

Section spinlock.
Context (l k : positive).

(** The flag at [k] is the lock of the queue at [l]. *)
Definition spin_ready (y : spins) : Prop :=
  lock_field y !! l = Some (Some k) ∧ is_Some (locks y !! k).
Definition spin_owner (y : spins) : option tid :=
  match locks y !! k with Some s => lock s | None => None end.

Lemma spin_set y o : spin_ready y →
  spin_ready (set_locks (<[k := Spinlock o]>) y) ∧ spin_owner (set_locks (<[k := Spinlock o]>) y) = o.
Proof.
  intros [Hl Hk]. unfold spin_ready, spin_owner. simpl. by rewrite lookup_insert_eq.
Qed.

Lemma spin_get_lock `{RG sstate} n i (s : sstate) (f : ptr → prog sstate unit) :
  (∀ s1, I s1 → spin_ready (sync s1)) →
  (∀ m s1, (m ≤ n)%nat → R i s s1 → safe m i (f (Some k)) s1) →
  safe n i (QueueSpinlock.get_lock (Some l) ≫= f) s.
Proof.
  intros Hr Hk. destruct n as [|n]; [done|]. apply safe_act. intros s1 HI HR.
  destruct (Hr s1 HI) as [Hl _]. unfold lift_act. rewrite Hl.
  replace (Shared (core s1) (sync s1)) with s1 by (by destruct s1).
  split; [done|]. split; [intros j _; apply R_refl|]. apply Hk; [lia|done].
Qed.

#[export] Program Instance spin_lock_of : Lock spins l := {|
  acquire := QueueSpinlock.lock_queue;
  release := QueueSpinlock.unlock_queue;
  owner := spin_owner;
  ready := spin_ready;
  same _ _ := True;
|}.
Next Obligation.
  intros HRG n i s f Hr _ Hk. unfold QueueSpinlock.lock_queue. rewrite bind_assoc_prog.
  apply spin_get_lock; [done|]. intros m0 s0 Hm0 HR0.
  (* every round starts from a state the others led to *)
  apply (safe_loop (λ _ s', R i s s')); [by intros _ s1 s2 ? ? _; eapply R_trans| |done].
  clear s0 HR0. intros n' x s0 Hn' HR0 IH. destruct n' as [|n']; [done|].
  apply safe_act. intros s1 HI HR1. destruct (Hr s1 HI) as [Hl [[o] Ho]].
  assert (R i s s1) as HR by (by eapply R_trans).
  unfold lift_act, QueueSpinlock.atomic_test_and_set. rewrite Ho. destruct o as [j|].
  - replace (Shared (core s1) (sync s1)) with s1 by (by destruct s1).
    split; [done|]. split; [intros j' _; apply R_refl|]. apply IH; [lia|done].
  - destruct (spin_set (sync s1) (Some i)) as [Hr' Ho']; [by apply Hr|].
    apply (Hk n' s1); [lia|done|done|unfold spin_owner; by rewrite Ho|done..].
Qed.
Next Obligation.
  intros HRG n i s f Hr Ho Hk. unfold QueueSpinlock.unlock_queue. rewrite bind_assoc_prog.
  apply spin_get_lock; [done|]. intros m0 s0 Hm0 HR0.
  destruct m0 as [|m0]; [done|]. apply safe_act. intros s1 HI HR1.
  destruct (Hr s1 HI) as [Hl [o Hf]]. assert (R i s s1) as HR by (by eapply R_trans).
  destruct (spin_set (sync s1) None) as [Hr' Ho']; [by apply Hr|].
  unfold lift_act, QueueSpinlock.atomic_clear. rewrite Hf.
  apply (Hk m0 s1); [lia|done..].
Qed.
End spinlock.

Definition sstart : sstate := Shared qstart (Spins ∅ ∅).

Lemma spinlock_init_run n t max : ∃ s, run n (QueueSpinlock.queue_init max) t sstart = Ok (Some 1%positive) s ∧
  queue_repr 1 (core s) (fifo_init max) ∧ errors (core s) = [] ∧
  sync s = Spins {[1%positive := Some 1%positive]} {[1%positive := Spinlock None]}.
Proof.
  destruct (start_repr n t max) as (c & Hc & Hrep & He & _).
  unfold QueueSpinlock.queue_init. erewrite run_bind_ok; [|by apply run_new_queue].
  change (fresh_loc (queues (core sstart))) with 1%positive. cbv iota.
  erewrite run_bind_ok; [|reflexivity]. erewrite run_bind_ok; [|by apply run_on_sync].
  erewrite run_bind_ok; [|apply run_on_core; exact Hc].
  by eexists.
Qed.

(** C11: The queue of lab2/src/2/queue_spinlock with one reader and one writer (queue_threads.c) and its
    monitor: from the state [queue_init (max)] leaves, in every interleaving, the reader gets 0, 1,
    2, ... in order; whenever the flag of the lock is clear the queue holds the values added and not
    yet taken, at most [max]; no access faults (a counter may overflow and a failed allocation
    abort); and one of the two can always take a step. *)
Theorem spinlock_queue_correct max t : 0 <= max <= INT_MAX →
  ∃ l k s0, run 0 (QueueSpinlock.queue_init max) t sstart = Ok (Some l) s0 ∧
    ∀ s ths, steps (s0, QueueSpinlock.threads (Some l)) (s, ths) →
      errors (core s) = [] ∧
      (locks (sync s) !! k = Some (Spinlock None) → consistent l max (core s)) ∧
      (∀ e, faulty (s, ths) e → e = Overflow ∨ e = Aborted) ∧ can_move 2 (s, ths).
Proof.
  intros Hmax. destruct (spinlock_init_run 0 t max) as (s0 & Hi & Hrep & He & Hsync).
  exists 1%positive, 1%positive, s0. split; [done|]. intros s ths Hsteps.
  destruct (locked_correct (H:=spin_lock_of 1 1) 1 max s0 (s, ths)) as (H1 & H2 & H3 & H4);
    [done|done| | |done|done|].
  - simpl. rewrite Hsync. split; [done|by eexists].
  - simpl. by rewrite Hsync.
  - split; [done|]. split; [|done]. intros Hf. apply H2. simpl in *. unfold spin_owner. by rewrite Hf.
Qed.

Example spinlock_queue_correct_witness :
  ∃ l k s0, run 0 (QueueSpinlock.queue_init 1000000) 3%nat sstart = Ok (Some l) s0 ∧
    ∀ s ths, steps (s0, QueueSpinlock.threads (Some l)) (s, ths) →
      errors (core s) = [] ∧
      (locks (sync s) !! k = Some (Spinlock None) → consistent l 1000000 (core s)) ∧
      (∀ e, faulty (s, ths) e → e = Overflow ∨ e = Aborted) ∧ can_move 2 (s, ths).
Proof. apply (spinlock_queue_correct 1000000 3). unfold INT_MAX. lia. Defined.
