(* ===== verification/QueueCondvar.v ===== *)
(** QueueCondvar: the queue of lab2/src/2/queue_condvar. Its operations wait,
    under the mutex, for the condition that the queue is not full and that it is
    not empty; the program queue_threads.c built with it; and that no wakeup is
    lost. *)
From S2P Require Import Prelude Links Threads Pthread Queue QueueLock.

#[local] Open Scope Z_scope.

(** The mutex and the two condition variables of each queue object *)
Abbreviation monitors := (gmap positive monitor).
Abbreviation cstate := (shared monitors).

Module QueueCondvar.

(** The condition variables of a queue *)
Definition condvar_reader : nat := 0.
Definition condvar_writer : nat := 1.

Definition sync_init (q : ptr) : prog cstate unit :=
  on_sync (atomic (init_at q (Monitor None [[]; []]))).
Definition pthread_mutex_lock (q : ptr) : prog cstate unit := on_sync (atomic (at_ptr q monitor_lock)).
Definition pthread_mutex_unlock (q : ptr) : prog cstate unit := on_sync (atomic (at_ptr q monitor_unlock)).
Definition pthread_cond_wait (cv : nat) (q : ptr) : prog cstate unit :=
  on_sync (atomic (at_ptr q (cond_enter cv)));;
  on_sync (atomic (at_ptr q (cond_block cv)));;
  pthread_mutex_lock q.
Definition pthread_cond_signal (cv : nat) (q : ptr) : prog cstate unit :=
  on_sync (atomic (at_ptr q (cond_signal cv))).

Definition queue_init (max_count : Z) : prog cstate ptr :=
  q ← on_core (atomic (malloc queue_t (Queue NULL NULL false 0 max_count 0 0 0 0)));
  match q with
  | None => on_core (atomic (fail Aborted))
  | Some _ =>
      sync_init q;;
      on_core (Queue.create_monitor q);;
      mret q
  end.

Definition queue_destroy (q : ptr) : prog cstate unit :=
  match q with
  | None => mret tt
  | Some _ =>
      pthread_mutex_lock q;;
      on_core (Queue.stop_monitor q);;
      on_core (Queue.free_nodes q);;
      on_core (atomic (free queue_t q));;
      on_sync (atomic (free_at q))
  end.

(** [while (cond) pthread_cond_wait (cv)] *)
Definition wait_while (cv : nat) (cond : prog qstate bool) (q : ptr) : prog cstate unit :=
  Loop (λ _ : unit,
    b ← on_core cond;
    if (b : bool) then pthread_cond_wait cv q;; mret (inl tt) else mret (inr tt)) tt Ret.

Definition is_full (q : ptr) : prog qstate bool :=
  c ← Queue.get q count; m ← Queue.get q max_count; mret (bool_decide (c = m)).
Definition is_empty (q : ptr) : prog qstate bool :=
  c ← Queue.get q count; mret (bool_decide (c = 0)).

(** What follows the wait *)
Definition add_one (q : ptr) (v : Z) : prog cstate Z :=
  full ← on_core (Queue.add_entry q);
  if (full : bool) then pthread_mutex_unlock q;; mret 0 else
  on_core (Queue.enqueue q v);;
  pthread_cond_signal condvar_reader q;;
  pthread_mutex_unlock q;;
  mret 1.
Definition get_one (q : ptr) (old : Z) : prog cstate (Z * Z) :=
  empty ← on_core (Queue.get_entry q);
  if (empty : bool) then pthread_mutex_unlock q;; mret (0, old) else
  v ← on_core (Queue.dequeue q);
  pthread_cond_signal condvar_writer q;;
  pthread_mutex_unlock q;;
  mret (1, v).

Definition queue_add (q : ptr) (v : Z) : prog cstate Z :=
  pthread_mutex_lock q;;
  wait_while condvar_writer (is_full q) q;;
  add_one q v.

Definition queue_get (q : ptr) (old : Z) : prog cstate (Z * Z) :=
  pthread_mutex_lock q;;
  wait_while condvar_reader (is_empty q) q;;
  get_one q old.

(** These two touch no lock. *)
Definition queue_print_stats (q : ptr) : prog cstate (list Z) := on_core (Queue.queue_print_stats q).
Definition qmonitor (q : ptr) : prog cstate unit := on_core (Queue.qmonitor q).

(** The system may wake a waiting thread for no reason, at any time. *)
Definition spurious_wakeups (cv : nat) (q : ptr) : prog cstate unit :=
  forever (λ _ : unit, pthread_cond_signal cv q) tt.

(** The reader and the writer of queue_threads.c, the monitor thread, and the
    system's wakeups *)
Definition threads (q : ptr) : list (prog cstate unit) :=
  [reader core set_core queue_get q; writer queue_add q; qmonitor q;
   spurious_wakeups condvar_reader q; spurious_wakeups condvar_writer q].
End QueueCondvar.

Section condvar.
Context (l : positive) (max : Z) (max_pos : 0 < max).
Implicit Types (y : monitors) (c : qstate) (s : cstate).

(** Thread [t] waits for the condition [cv]. *)
Definition waits_on y (cv : nat) (t : tid) : Prop :=
  ∃ m w, y !! l = Some m ∧ waiting m !! cv = Some w ∧ t ∈ w.

Definition cond_ready y : Prop :=
  ∃ h r w, y !! l = Some (Monitor h [r; w]) ∧ (r = [] ∨ r = [0%nat]) ∧ (w = [] ∨ w = [1%nat]).
Definition cond_owner y : option tid := match y !! l with Some m => held m | None => None end.
Definition cond_same y y' : Prop := waiting <$> y !! l = waiting <$> y' !! l.

(** Nobody starts to wait. *)
Definition cond_keep y y' : Prop := ∀ cv t, waits_on y' cv t → waits_on y cv t.
(** A reader waits only on an empty queue, a writer on a full one. *)
Definition cond_waits y c : Prop :=
  (waits_on y 0 0 → count <$> cells (queues c) !! l = Some 0) ∧
  (waits_on y 1 1 → count <$> cells (queues c) !! l = Some max).
Definition cond_running (i : nat) y : Prop := ¬ waits_on y i i.
Definition cond_blocked (i : nat) y : Prop :=
  (∃ j, cond_owner y = Some j ∧ j ≠ i) ∨ waits_on y i i.

Lemma same_waits_on y y' cv t : cond_same y y' → waits_on y cv t → waits_on y' cv t.
Proof.
  unfold cond_same. intros Hs (m & w & Hm & Hw & Ht). rewrite Hm in Hs. simpl in Hs.
  destruct (y' !! l) as [m'|] eqn:Hm'; simplify_eq/=. exists m', w. split; [done|]. by rewrite <-Hs.
Qed.
Lemma cond_same_sym y y' : cond_same y y' → cond_same y' y.
Proof. intros Hs. by symmetry. Qed.
Lemma cond_same_set y m m' : y !! l = Some m → waiting m' = waiting m → cond_same y (<[l := m']> y).
Proof. intros Hm Hw. unfold cond_same. rewrite Hm, lookup_insert_eq. simpl. by rewrite Hw. Qed.

#[export] Program Instance cond_lock_of : Lock monitors l := {|
  acquire := QueueCondvar.pthread_mutex_lock;
  release := QueueCondvar.pthread_mutex_unlock;
  owner := cond_owner;
  ready := cond_ready;
  same := cond_same;
|}.
Next Obligation.
  intros HRG n i s k Hr Hw Hk. destruct n as [|n]; [done|]. apply safe_act. intros s1 HI HR.
  destruct (Hr s1 HI) as (h & r & w & Hm & Hrw). specialize (Hw s1 HI HR).
  unfold lift_act, at_ptr, monitor_lock, mutex_lock. unfold cond_owner in *. rewrite Hm in *. simpl in *.
  destruct h as [j|]; simpl; [by apply Hw|].
  apply Hk; [lia|done|done|by rewrite Hm|..].
  - by rewrite lookup_insert_eq.
  - exists (Some i), r, w. by rewrite lookup_insert_eq.
  - by eapply cond_same_set.
Qed.
Next Obligation.
  intros HRG n i s k Hr Ho Hk. destruct n as [|n]; [done|]. apply safe_act. intros s1 HI HR.
  destruct (Hr s1 HI) as (h & r & w & Hm & Hrw). specialize (Ho s1 HR).
  unfold cond_owner in *. rewrite Hm in Ho. simpl in Ho. subst h.
  unfold lift_act, at_ptr, monitor_unlock, mutex_unlock. rewrite Hm. simpl. rewrite decide_True by done.
  apply Hk; [lia|done|done|..].
  - by rewrite lookup_insert_eq.
  - exists None, r, w. by rewrite lookup_insert_eq.
  - by eapply cond_same_set.
Qed.

Lemma cond_keep_refl y : cond_keep y y.
Proof. by intros cv t. Qed.
Lemma cond_keep_trans y1 y2 y3 : cond_keep y1 y2 → cond_keep y2 y3 → cond_keep y1 y3.
Proof. intros H1 H2 cv t Hw. by apply H1, H2. Qed.
Lemma cond_same_keep y y' : cond_same y y' → cond_keep y y'.
Proof. intros Hs cv t. apply same_waits_on. by symmetry. Qed.
Lemma cond_same_running i y y' : cond_same y y' → cond_running i y → cond_running i y'.
Proof. intros Hs Hr Hw. apply Hr. eapply same_waits_on; [by symmetry|done]. Qed.
Lemma cond_waits_keep y y' c : cond_keep y y' → cond_waits y c → cond_waits y' c.
Proof. intros Hk [H0 H1]. split; intros Hw; [apply H0|apply H1]; by apply Hk. Qed.
Lemma cond_blocked_held i j y : cond_owner y = Some j → j ≠ i → cond_blocked i y.
Proof. left. by exists j. Qed.

#[local] Instance cond_rg : RG cstate :=
  locked_rg l max cond_keep cond_waits cond_running cond_blocked (λ _ _, False) cond_keep_refl cond_keep_trans.

(** Thread [i] is in its critical section; [x] values were taken, or added, by
    it so far. *)
Record holding (i : nat) (x : Z) s : Prop := {
  hd_owner : cond_owner (sync s) = Some i;
  hd_ready : cond_ready (sync s);
  hd_running : cond_running i (sync s);
  hd_queue : consistent l max (core s);
  hd_waits : cond_waits (sync s) (core s);
  hd_taken : i = 0%nat → taken l (core s) = Some x;
  hd_added : i = 1%nat → added l (core s) = Some x;
}.

(** Between its critical sections *)
Definition outside (i : nat) (x : Z) s : Prop :=
  cond_owner (sync s) ≠ Some i ∧ cond_running i (sync s) ∧
  (i = 0%nat → taken l (core s) = Some x) ∧ (i = 1%nat → added l (core s) = Some x).

Lemma holding_stable i x s s' : holding i x s → R i s s' → I s' → holding i x s'.
Proof.
  intros [Ho Hr Hrun Hq Hw Ht Ha] (HR & _ & HRr & _) (_ & Hr' & _).
  destruct (HR Ho) as (Ho' & Hc & Hk). split; rewrite ?Hc; try done; [by apply HRr|].
  by eapply cond_waits_keep.
Qed.
Lemma outside_stable i x s s' : outside i x s → R i s s' → I s' → outside i x s'.
Proof.
  intros (Ho & Hr & Ht & Ha) (_ & HR2 & HRr & HR3 & HR4) _. split_and!; [by intros ?%HR2|auto|..].
  - intros Hi. by rewrite HR3, Ht.
  - intros Hi. by rewrite HR4, Ha.
Qed.

Lemma cond_acquire n i x s k : (i < 2)%nat → outside i x s →
  (∀ m s', (m ≤ n)%nat → holding i x s' → safe m i (k tt) s') →
  safe n i (acquire (Some l) ≫= k) s.
Proof.
  intros Hi (Ho & Hr & Ht & Ha) Hk. eapply safe_acquire; try done.
  - apply cond_same_keep.
  - apply cond_same_running.
  - apply cond_waits_keep.
  - apply cond_blocked_held.
  - intros m c y Hm Hc Hw Hy Hry Hrun Ht' Ha'. apply Hk; [done|]. split; try done; simpl.
    + intros Hi0. by rewrite Ht', Ht.
    + intros Hi1. by rewrite Ha', Ha.
Qed.

Lemma cond_release n i x s k : holding i x s →
  (∀ m s', (m ≤ n)%nat → outside i x s' → safe m i (k tt) s') →
  safe n i (release (Some l) ≫= k) s.
Proof.
  intros [Ho Hr Hrun Hq Hw Ht Ha] Hk. apply release_safe.
  - by intros s1 (_ & ? & _).
  - intros s1 (HR & _). by destruct (HR Ho).
  - intros m s1 y Hm (Hal & Hr1 & He & _ & Hb) (HR & _ & HRr & _) Hy Hry Hsame.
    destruct (HR Ho) as (Ho1 & Hcore & Hkp).
    assert (cond_keep (sync s) y) as Hky by (eapply cond_keep_trans; [done|by apply cond_same_keep]).
    split; [|split].
    + split_and!; simpl; try done; rewrite ?Hcore.
      * intros _. split; [done|by eapply cond_waits_keep].
      * intros j Hj. simpl in Hy. congruence.
    + intros j Hj. simpl in Hy, Ho1. split_and!; simpl; try congruence. by apply cond_same_running.
    + apply Hk; [done|]. rewrite Hcore. simpl in Hy. split_and!; simpl; [congruence| |done..].
      eapply cond_same_running; [done|]. by apply HRr.
Qed.

(** A stretch of the critical section *)
Lemma cond_piece {A} (p : prog qstate A) n i x s (k : A → prog cstate unit) :
  holding i x s → keeps (frame l i) i p →
  match run 0 p i (core s) with
  | Ok a c' => ∀ m y, (m ≤ n)%nat → cond_owner y = Some i → cond_ready y → cond_running i y →
      cond_keep (sync s) y → safe m i (k a) (Shared c' y)
  | Blocked => False
  | Fault e => e = Overflow ∨ e = Aborted
  end →
  safe n i (on_core p ≫= k) s.
Proof.
  intros Hh Hk Hr. eapply safe_piece; [by apply Hh|done|].
  destruct (run 0 p i (core s)); [|done..]. intros m y Hm Hy Hry Hkp Hrun. apply Hr; try done.
  apply Hrun, Hh.
Qed.

Lemma waits_on_insert y m cv t : waits_on (<[l := m]> y) cv t ↔
  ∃ w, waiting m !! cv = Some w ∧ t ∈ w.
Proof.
  unfold waits_on. rewrite lookup_insert_eq. split; [intros (? & w & [= <-] & ?); eauto|].
  intros (w & ?). by exists m, w.
Qed.

(** The count at which thread [i] has to wait: 0 for the reader, [max] for the
    writer *)
Definition bad (i : nat) : Z := if decide (i = 0%nat) then 0 else max.
Definition is_bad (i : nat) c : Prop := count <$> cells (queues c) !! l = Some (bad i).
#[local] Instance is_bad_dec i c : Decision (is_bad i c).
Proof. unfold is_bad. apply _. Defined.

(** Entering the wait: thread [i] is on the list of its condition, the lock is
    free. *)
Lemma enter_step i x s : (i < 2)%nat → holding i x s → I s → is_bad i (core s) →
  ∃ y, at_ptr (Some l) (cond_enter i) i (sync s) = Ok tt y ∧ cond_owner y = None ∧
    cond_ready y ∧ cond_waits y (core s) ∧ ∀ j, j ≠ i → cond_running j (sync s) → cond_running j y.
Proof.
  intros Hi [Ho (h & r & w & Hm & Hrr & Hww) Hrun Hq [Hw0 Hw1] _ _] _ Hbad.
  unfold cond_owner in Ho. rewrite Hm in Ho. simpl in Ho. subst h.
  unfold at_ptr, cond_enter. rewrite Hm. simpl. rewrite decide_True by done.
  eexists. split; [done|]. unfold cond_owner, cond_ready, cond_waits, cond_running.
  rewrite lookup_insert_eq. split; [done|]. setoid_rewrite waits_on_insert.
  assert (∀ cv t v, [r; w] !! cv = Some v → t ∈ v → waits_on (sync s) cv t) as Hon.
  { intros cv t v Hv Ht. by exists (Monitor (Some i) [r; w]), v. }
  destruct i as [|[|i]]; [| |lia]; simpl.
  - assert (r = []) as -> by (destruct Hrr as [->| ->]; [done|]; destruct Hrun; eapply (Hon 0%nat 0%nat); [done|set_solver]).
    split; [exists None, [0%nat], w; auto|]. split; [split|].
    + done.
    + intros (v & [= <-] & Hv). apply Hw1. by eapply (Hon 1%nat 1%nat).
    + intros j Hj Hrj (v & Hv & Hjv). apply Hrj. destruct j as [|[|j]]; simplify_eq/=.
      by eapply (Hon 1%nat 1%nat).
  - assert (w = []) as -> by (destruct Hww as [->| ->]; [done|]; destruct Hrun; eapply (Hon 1%nat 1%nat); [done|set_solver]).
    split; [exists None, r, [1%nat]; auto|]. split; [split|].
    + intros (v & [= <-] & Hv). apply Hw0. by eapply (Hon 0%nat 0%nat).
    + done.
    + intros j Hj Hrj (v & Hv & Hjv). apply Hrj. destruct j as [|[|j]]; simplify_eq/=.
      by eapply (Hon 0%nat 0%nat).
Qed.

Lemma safe_wait n i x s k : (i < 2)%nat → holding i x s → is_bad i (core s) →
  (∀ m s', (m ≤ n)%nat → holding i x s' → safe m i (k tt) s') →
  safe n i (QueueCondvar.pthread_cond_wait i (Some l) ≫= k) s.
Proof.
  intros Hi Hh Hbad Hk. unfold QueueCondvar.pthread_cond_wait. pnorm.
  destruct n as [|n]; [done|]. apply safe_act. intros s1 HI HR.
  pose proof (holding_stable _ _ _ _ Hh HR HI) as Hh1.
  assert (is_bad i (core s1)) as Hbad1.
  { destruct HR as (HR & _). by destruct (HR (hd_owner _ _ _ Hh)) as (_ & -> & _). }
  destruct (enter_step i x s1 Hi Hh1 HI Hbad1) as (y & Hy & Hyo & Hyr & Hyw & Hyrun).
  unfold lift_act at 1. rewrite Hy. pose proof (hd_owner _ _ _ Hh1) as Ho1.
  split; [|split].
  - destruct HI as (Hal & _ & He & _). split_and!; simpl; try done.
    + intros _. split; [apply Hh1|done].
    + intros j Hj. simpl in Hj. congruence.
  - intros j Hj. split_and!; simpl; try congruence. by apply Hyrun.
  - (* blocked until a wakeup *)
    destruct n as [|n]; [done|]. apply safe_act. intros s2 HI2 HR2.
    destruct HI2 as (Hal2 & (h & r & w & Hm & Hrr & Hww) & He2 & Hc2 & Hb2).
    assert (∃ v, [r; w] !! i = Some v) as [v Hv] by (destruct i as [|[|]]; eauto; lia).
    unfold lift_act, at_ptr, cond_block. rewrite Hm. simpl. rewrite Hv.
    destruct (decide (i ∈ v)) as [Hin|Hin].
    + right. by exists (Monitor h [r; w]), v.
    + rewrite insert_id by done. replace (Shared (core s2) (sync s2)) with s2 by (by destruct s2).
      split; [split_and!; try done; by exists h, r, w|].
      split; [intros j _; apply (R_refl (RG:=cond_rg))|].
      apply (cond_acquire _ _ x); [done| |intros m s' Hm'; apply Hk; lia].
      destruct HR2 as (_ & HR2 & _ & HR3 & HR4). split_and!.
      * intros Ho2%HR2. simpl in Ho2. congruence.
      * intros (m' & v' & Hm' & Hv' & Hin'). rewrite Hm in Hm'. simplify_eq/=. congruence.
      * intros Hi0. rewrite HR3 by done. simpl. by apply (hd_taken _ _ _ Hh1).
      * intros Hi1. rewrite HR4 by done. simpl. by apply (hd_added _ _ _ Hh1).
Qed.

(** A signal, by anyone, leaves nobody waiting for the condition. *)
Lemma signal_step y cv i : (cv < 2)%nat → cond_ready y →
  ∃ y', at_ptr (Some l) (cond_signal cv) i y = Ok tt y' ∧ cond_owner y' = cond_owner y ∧
    cond_ready y' ∧ cond_keep y y' ∧ ¬ waits_on y' cv cv.
Proof.
  intros Hcv (h & r & w & Hm & Hrr & Hww). unfold at_ptr, cond_signal. rewrite Hm. simpl.
  eexists. split; [done|]. unfold cond_owner, cond_ready, cond_keep.
  setoid_rewrite waits_on_insert. rewrite lookup_insert_eq, Hm. split; [done|].
  destruct cv as [|[|cv]]; [| |lia]; simpl.
  - assert (tail r = []) as -> by (by destruct Hrr as [->| ->]). split; [exists h, [], w; auto|].
    split; [|intros (v & [= <-] & Hv); set_solver].
    intros cv t (v & Hv & Ht). exists (Monitor h [r; w]).
    destruct cv as [|[|cv]]; simplify_eq/=; [set_solver|by exists v].
  - assert (tail w = []) as -> by (by destruct Hww as [->| ->]). split; [exists h, r, []; auto|].
    split; [|intros (v & [= <-] & Hv); set_solver].
    intros cv t (v & Hv & Ht). exists (Monitor h [r; w]).
    destruct cv as [|[|cv]]; simplify_eq/=; [by exists v|set_solver].
Qed.

Lemma keep_running i y y' : cond_keep y y' → cond_running i y → cond_running i y'.
Proof. intros Hk Hr Hw. by apply Hr, Hk. Qed.

(** It is a step everyone expects. *)
Lemma signal_safe n i cv s k : (cv < 2)%nat →
  (∀ m s1 y, (m ≤ n)%nat → I s1 → R i s s1 → cond_owner y = cond_owner (sync s1) → cond_ready y →
     cond_keep (sync s1) y → ¬ waits_on y cv cv → safe m i (k tt) (Shared (core s1) y)) →
  safe n i (QueueCondvar.pthread_cond_signal cv (Some l) ≫= k) s.
Proof.
  intros Hcv Hk. destruct n as [|n]; [done|]. apply safe_act. intros s1 HI HR.
  pose proof HI as (Hal & Hr & He & Hc & Hb).
  destruct (signal_step (sync s1) cv i Hcv Hr) as (y & Hy & Ho & Hr' & Hkp & Hnw).
  unfold lift_act. rewrite Hy. split; [|split].
  - split_and!; simpl; try done.
    + intros Hn. simpl in Hn, Hc. rewrite Ho in Hn. destruct (Hc Hn). split; [done|]. by eapply cond_waits_keep.
    + intros j Hj. simpl in Hj, Hb. rewrite Ho in Hj. destruct (Hb j Hj). split; [done|]. by eapply keep_running.
  - intros j Hj. split_and!; simpl; try congruence; [|by apply keep_running].
    intros Hoj. rewrite Ho. done.
  - apply Hk; [lia|done..].
Qed.

(** The wait loop ends in the critical section, with the condition false. *)
Lemma safe_wait_while n i x cond s k : (i < 2)%nat → holding i x s → keeps (frame l i) i cond →
  (∀ c, consistent l max c → run 0 cond i c = Ok (bool_decide (is_bad i c)) c) →
  (∀ m s', (m ≤ n)%nat → holding i x s' → ¬ is_bad i (core s') → safe m i (k tt) s') →
  safe n i (QueueCondvar.wait_while i cond (Some l) ≫= k) s.
Proof.
  intros Hi Hh Hkeep Hcond Hk.
  apply (safe_loop (λ _ s', holding i x s')); [by intros; eapply holding_stable| |done].
  clear s Hh. intros n' [] s Hn Hh IH. pnorm. eapply cond_piece; [done|done|].
  rewrite Hcond by apply Hh. intros m y Hm Ho Hr Hrun Hkp.
  assert (holding i x (Shared (core s) y)) as Hh'.
  { destruct Hh. split; try done. by eapply cond_waits_keep. }
  case_bool_decide as Hb.
  - pnorm. apply (safe_wait m i x); [done|done|done|]. intros m' s' Hm' Hs'. cbn. apply IH; [lia|done].
  - cbn. apply Hk; [lia|done|done].
Qed.

Lemma is_bad_repr i c f : queue_repr l c f → is_bad i c ↔ Z.of_nat (length (items f)) = bad i.
Proof.
  intros (Q & ls & HQ & Hf & _). unfold is_bad. rewrite HQ, lookup_singleton_eq. simpl.
  rewrite (h_count _ _ _ _ Hf). split; [by intros [= ->]|by intros ->].
Qed.

Lemma is_full_cond c : consistent l max c →
  run 0 (QueueCondvar.is_full (Some l)) 1%nat c = Ok (bool_decide (is_bad 1 c)) c.
Proof.
  intros (f & (Q & ls & HQ & Hf & _) & Hst). unfold QueueCondvar.is_full.
  pose proof (only_lookup _ _ _ HQ) as Hl.
  rewrite (run_bind_ok _ _ _ _ _ _ _ (run_get l Q c 0 1%nat Hl count)).
  rewrite (run_bind_ok _ _ _ _ _ _ _ (run_get l Q c 0 1%nat Hl max_count)).
  cbn. unfold mret, C_ret. f_equal. apply bool_decide_ext. unfold is_bad. rewrite Hl. simpl.
  rewrite (h_max _ _ _ _ Hf), (st_cap _ _ Hst). split; [by intros ->|by intros [= ->]].
Qed.
Lemma is_empty_cond c : consistent l max c →
  run 0 (QueueCondvar.is_empty (Some l)) 0%nat c = Ok (bool_decide (is_bad 0 c)) c.
Proof.
  intros (f & (Q & ls & HQ & Hf & _) & Hst). unfold QueueCondvar.is_empty.
  pose proof (only_lookup _ _ _ HQ) as Hl.
  rewrite (run_bind_ok _ _ _ _ _ _ _ (run_get l Q c 0 0%nat Hl count)).
  cbn. unfold mret, C_ret. f_equal. apply bool_decide_ext. unfold is_bad. rewrite Hl. simpl.
  split; [by intros ->|by intros [= ->]].
Qed.
Lemma keeps_is_full i : keeps (frame l i) i (QueueCondvar.is_full (Some l)).
Proof. apply keeps_bind; [apply keeps_get|intros; apply keeps_bind; [apply keeps_get|done]]. Qed.
Lemma keeps_is_empty i : keeps (frame l i) i (QueueCondvar.is_empty (Some l)).
Proof. apply keeps_bind; [apply keeps_get|done]. Qed.

(** After the signal the critical section may be left: the thread signalled does
    not wait, nor does the one that signals. *)
Lemma holding_intro i j x c y f : (i = 0 ∧ j = 1)%nat ∨ (i = 1 ∧ j = 0)%nat →
  cond_owner y = Some i → cond_ready y → cond_running i y → ¬ waits_on y j j →
  queue_repr l c f → stretch max f → (i = 0%nat → gc f = x) → (i = 1%nat → ac f = x) →
  holding i x (Shared c y).
Proof.
  intros Hij Ho Hr Hrun Hj Hrep Hst H0 H1. split; simpl; try done.
  - by exists f.
  - by destruct Hij as [[-> ->]|[-> ->]].
  - intros Hi. by rewrite (taken_repr _ _ _ Hrep), H0.
  - intros Hi. by rewrite (added_repr _ _ _ Hrep), H1.
Qed.

Lemma cond_writer_safe n i s : outside 1 i s → safe n 1 (Loop (λ i, pbind (ok ← QueueCondvar.queue_add (Some l) i;
    if decide (ok = 0) then mret i else atomic (signed_add INT_MAX i 1)) (λ x', Ret (inl x' : Z + unit))) i Ret) s.
Proof.
  apply safe_loop; [intros; by eapply outside_stable|].
  intros n' i' s' _. clear n i s. rename n' into n, i' into i, s' into s. intros Hout IH.
  unfold QueueCondvar.queue_add, QueueCondvar.add_one. pnorm.
  apply (cond_acquire _ _ i); [lia|done|]. intros m1 s1 Hm1 Hs1. cbv beta. pnorm.
  apply (safe_wait_while m1 1 i); [lia|done|apply keeps_is_full|apply is_full_cond|].
  intros m2 s2 Hm2 Hs2 Hnb. cbv beta. pnorm.
  destruct (hd_queue _ _ _ Hs2) as (f & Hrep & Hst). rewrite (is_bad_repr _ _ _ Hrep) in Hnb.
  pose proof (hd_added _ _ _ Hs2 eq_refl) as Hadd. rewrite (added_repr _ _ _ Hrep) in Hadd.
  injection Hadd as <-.
  eapply cond_piece; [done|apply keeps_add_entry|].
  pose proof (add_entry_cases l max (core s2) f Hrep Hst) as Hentry.
  destruct (run 0 (Queue.add_entry (Some l)) 1%nat (core s2)) as [full c3| |e]; [|done..].
  destruct Hentry as (Hrep3 & Hst3 & ->). intros m3 y3 Hm3 Ho3 Hr3 Hrun3 Hk3. cbv beta.
  unfold bad in Hnb. simpl in Hnb. rewrite <-(st_cap _ _ Hst) in Hnb.
  rewrite bool_decide_false by done. cbv iota. pnorm.
  assert (Z.of_nat (length (items f)) < cap f) as Hlen by (destruct Hst as [[] _ _ _]; lia).
  assert (ac f < aa f + 1) as Hlt by (destruct Hst; lia).
  assert (holding 1 (ac f) (Shared c3 y3)) as Hs3.
  { split; simpl; try done; [by eexists| |by intros; rewrite (added_repr _ _ _ Hrep3)].
    destruct (hd_waits _ _ _ Hs2) as [Hw0 Hw1]. split; simpl; [|done].
    intros Hw%Hk3%Hw0. pose proof (proj2 (is_bad_repr 0 _ _ Hrep3)) as Hb.
    apply (is_bad_repr 0 _ _ Hrep) in Hw. by apply Hb. }
  eapply cond_piece; [done|apply keeps_enqueue|]. cbn [core].
  pose proof (enqueue_cases l max c3 (count_add f) Hrep3 Hst3 Hlen Hlt) as Henq. cbn [ac count_add] in Henq.
  destruct (run 0 (Queue.enqueue (Some l) (ac f)) 1%nat c3) as [[] c4| |e]; [|done..].
  pose proof (stretch_push max _ Hst3 Hlen Hlt) as Hst4.
  intros m4 y4 Hm4 Ho4 Hr4 Hrun4 Hk4. cbv beta. pnorm.
  apply signal_safe; [unfold QueueCondvar.condvar_reader; lia|].
  intros m5 s5 y5 Hm5 HI5 HR5 Ho5 Hr5 Hk5 Hnw. cbv beta.
  destruct HR5 as (HR5 & _ & HRr5 & _). destruct (HR5 Ho4) as (Ho5' & Hc5 & Hky5).
  apply (cond_release _ _ (ac f + 1)).
  { apply (holding_intro 1 0 _ _ _ (fifo_push (ac f) (count_add f))); try done; [by right|..].
    - by rewrite Ho5.
    - eapply keep_running; [done|]. by apply HRr5.
    - by rewrite Hc5. }
  intros m6 s6 Hm6 Hs6. cbn. apply safe_signed_add; [by left|]. intros m7 s7 Hm7 HI7 HR7.
  apply IH; [lia|]. by eapply outside_stable.
Qed.

Lemma cond_reader_safe n i s : outside 0 i s → safe n 0 (Loop (λ expected, pbind (
    r ← QueueCondvar.queue_get (Some l) (-1);
    let '(ok, v) := r : Z * Z in
    if decide (ok = 0) then mret expected else
    (if decide (expected = v) then mret tt else print_error core set_core v expected);;
    atomic (signed_add INT_MAX v 1)) (λ x', Ret (inl x' : Z + unit))) i Ret) s.
Proof.
  apply safe_loop; [intros; by eapply outside_stable|].
  intros n' i' s' _. clear n i s. rename n' into n, i' into i, s' into s. intros Hout IH.
  unfold QueueCondvar.queue_get, QueueCondvar.get_one. pnorm.
  apply (cond_acquire _ _ i); [lia|done|]. intros m1 s1 Hm1 Hs1. cbv beta. pnorm.
  apply (safe_wait_while m1 0 i); [lia|done|apply keeps_is_empty|apply is_empty_cond|].
  intros m2 s2 Hm2 Hs2 Hnb. cbv beta. pnorm.
  destruct (hd_queue _ _ _ Hs2) as (f & Hrep & Hst). rewrite (is_bad_repr _ _ _ Hrep) in Hnb.
  pose proof (hd_taken _ _ _ Hs2 eq_refl) as Htk. rewrite (taken_repr _ _ _ Hrep) in Htk.
  assert (i = gc f) as -> by congruence.
  eapply cond_piece; [done|apply keeps_get_entry|].
  pose proof (get_entry_cases l max (core s2) f Hrep Hst) as Hentry.
  destruct (run 0 (Queue.get_entry (Some l)) 0%nat (core s2)) as [empty c3| |e]; [|done..].
  destruct Hentry as (Hrep3 & Hst3 & ->). intros m3 y3 Hm3 Ho3 Hr3 Hrun3 Hk3. cbv beta.
  unfold bad in Hnb. simpl in Hnb. rewrite bool_decide_false by done. cbv iota. pnorm.
  assert (holding 0 (gc f) (Shared c3 y3)) as Hs3.
  { split; simpl; try done; [by eexists| |by intros; rewrite (taken_repr _ _ _ Hrep3)].
    destruct (hd_waits _ _ _ Hs2) as [Hw0 Hw1]. split; simpl; [done|].
    intros Hw%Hk3%Hw1. apply (is_bad_repr 1 _ _ Hrep) in Hw. by apply (is_bad_repr 1 _ _ Hrep3). }
  eapply cond_piece; [done|apply keeps_dequeue|]. cbn [core].
  assert (items f ≠ []) as Hne by (by intros Heq; rewrite Heq in Hnb).
  pose proof (dequeue_cases l max c3 (count_get f) Hrep3 Hst3 Hne) as Hdeq.
  destruct (run 0 (Queue.dequeue (Some l)) 0%nat c3) as [v c4| |e]; [|done..].
  destruct Hdeq as [Hrep4 ->]. destruct (stretch_pop max _ Hst3 Hne) as [_ Hst4].
  intros m4 y4 Hm4 Ho4 Hr4 Hrun4 Hk4. cbv beta. pnorm.
  apply signal_safe; [unfold QueueCondvar.condvar_writer; lia|].
  intros m5 s5 y5 Hm5 HI5 HR5 Ho5 Hr5 Hk5 Hnw. cbv beta. pnorm.
  destruct HR5 as (HR5 & _ & HRr5 & _). destruct (HR5 Ho4) as (Ho5' & Hc5 & Hky5).
  apply (cond_release _ _ (gc f + 1)).
  { apply (holding_intro 0 1 _ _ _ (fifo_pop (count_get f))); try done; [by left|..].
    - by rewrite Ho5.
    - eapply keep_running; [done|]. by apply HRr5.
    - by rewrite Hc5. }
  intros m6 s6 Hm6 Hs6. cbn -[decide]. rewrite decide_False by done. rewrite decide_True by done. cbn.
  apply safe_signed_add; [by left|]. intros m7 s7 Hm7 HI7 HR7.
  apply IH; [lia|]. by eapply outside_stable.
Qed.

Lemma spurious_safe n i cv s : (cv < 2)%nat →
  safe n i (QueueCondvar.spurious_wakeups cv (Some l)) s.
Proof.
  intros Hcv. apply (safe_loop (λ _ _, True)); [done| |done]. intros n' [] s' _ _ IH.
  pnorm. apply signal_safe; [done|]. intros m s1 y Hm _ _ _ _ _ _. cbn. by apply IH.
Qed.

(** The reader waits on an empty queue only, the writer on a full one, so they
    never wait both, and who holds the mutex does not wait. *)
Lemma cond_not_both_blocked y c :
  (cond_owner y = None → consistent l max c ∧ cond_waits y c) →
  (∀ j, cond_owner y = Some j → (j < 2)%nat ∧ cond_running j y) →
  cond_blocked 0 y → cond_blocked 1 y → False.
Proof.
  intros Hc Hown H0 H1. destruct (cond_owner y) as [j|] eqn:Ho.
  - destruct (Hown j eq_refl) as [Hj Hrun]. unfold cond_blocked, cond_running in *. rewrite Ho in *.
    destruct j as [|[|j]]; [| |lia].
    + destruct H0 as [(j & [= <-] & ?)|?]; done.
    + destruct H1 as [(j & [= <-] & ?)|?]; done.
  - destruct (Hc eq_refl) as [_ [Hw0 Hw1]]. unfold cond_blocked in *. rewrite Ho in *.
    destruct H0 as [(j & ? & _)|H0]; [done|]. destruct H1 as [(j & ? & _)|H1]; [done|].
    specialize (Hw0 H0). specialize (Hw1 H1). assert (0 = max) by congruence. lia.
Qed.
End condvar.

Definition cstart : cstate := Shared qstart ∅.

Lemma cond_init_run n t max : ∃ s, run n (QueueCondvar.queue_init max) t cstart = Ok (Some 1%positive) s ∧
  queue_repr 1 (core s) (fifo_init max) ∧ sync s = {[1%positive := Monitor None [[]; []]]} ∧
  errors (core s) = [].
Proof.
  destruct (start_repr n t max) as (c & Hc & Hrep & He & _).
  unfold QueueCondvar.queue_init. erewrite run_bind_ok; [|by apply run_new_queue].
  change (fresh_loc (queues (core cstart))) with 1%positive. cbv iota.
  erewrite run_bind_ok; [|by apply run_on_sync].
  erewrite run_bind_ok; [|apply run_on_core; exact Hc].
  by eexists.
Qed.

(** C3: The queue of lab2/src/2/queue_condvar with one reader, one writer, its monitor and a system that
    may wake a waiting thread for no reason: from the state [queue_init (max)] leaves, max positive, in
    every interleaving, the reader gets 0, 1, 2, ... in order; whenever the mutex is free the queue
    holds the values added and not yet taken; no thread runs into a fault other than the overflow of
    a counter or the [abort] of a failed allocation; and no wakeup is lost: the reader or the writer
    can always move. *)
Theorem condvar_queue_correct max t : 0 < max <= INT_MAX →
  ∃ l s0, run 0 (QueueCondvar.queue_init max) t cstart = Ok (Some l) s0 ∧
    ∀ s ths, steps (s0, QueueCondvar.threads (Some l)) (s, ths) →
      errors (core s) = [] ∧
      (held <$> sync s !! l = Some None → consistent l max (core s)) ∧
      (∀ e, faulty (s, ths) e → e = Overflow ∨ e = Aborted) ∧ can_move 2 (s, ths).
Proof.
  intros Hmax. destruct (cond_init_run 0 t max) as (s0 & Hi & Hrep & Hsync & He).
  exists 1%positive, s0. split; [done|]. intros s ths Hsteps.
  assert (cond_owner 1 (sync s0) = None) as Ho
    by (unfold cond_owner; by rewrite Hsync, lookup_singleton_eq).
  assert (∀ cv t, ¬ waits_on 1 (sync s0) cv t) as Hnw.
  { intros cv t' (m & w & Hm & Hw & Ht). rewrite Hsync, lookup_singleton_eq in Hm.
    destruct cv as [|[|]]; simplify_eq/=; set_solver. }
  destruct (inv_init 1 max (cond_waits 1 max) (cond_running 1) s0) as (HI & Ha & Ht);
    [done|lia| |done|done| |].
  { exists None, [], []. rewrite Hsync, lookup_singleton_eq. auto. }
  { split; intros Hw; by destruct (Hnw _ _ Hw). }
  destruct (locked_sound 1 max (cond_keep 1) (cond_waits 1 max) (cond_running 1) (cond_blocked 1) (λ _ _, False)
    (cond_keep_refl 1) (cond_keep_trans 1) (QueueCondvar.threads (Some 1%positive)) s0 (s, ths))
    as ((_ & _ & Herr & Hc & Hown) & Hf & Hb); [by intros ? ? []|done| |done|].
  { intros n i p Hp. unfold QueueCondvar.threads in Hp.
    assert (∀ i, cond_running 1 i (sync s0)) as Hrun by (intros j; apply Hnw).
    destruct i as [|[|[|[|[|i]]]]]; simplify_eq/=.
    - apply cond_reader_safe; [lia|]. split_and!; by rewrite ?Ho.
    - apply cond_writer_safe; [lia|]. split_and!; by rewrite ?Ho.
    - by apply monitor_safe.
    - apply spurious_safe; unfold QueueCondvar.condvar_reader; lia.
    - apply spurious_safe; unfold QueueCondvar.condvar_writer; lia. }
  split; [done|]. split; [|split; [done|]].
  { intros Hfree. apply Hc. simpl in *. unfold cond_owner. destruct (sync s !! 1%positive); by simplify_eq/=. }
  apply can_move_intro; [by rewrite (steps_length _ _ Hsteps); simpl; lia|].
  intros Hall. apply (cond_not_both_blocked 1 max (proj1 Hmax) (sync s) (core s)); [exact Hc|exact Hown|..].
  - destruct (lookup_lt_is_Some_2 ths 0) as [p Hp]; [pose proof (steps_length _ _ Hsteps) as Hl; simpl in Hl; lia|].
    apply (Hb 0%nat p Hp). apply (Hall 0%nat p); [lia|done].
  - destruct (lookup_lt_is_Some_2 ths 1) as [p Hp]; [pose proof (steps_length _ _ Hsteps) as Hl; simpl in Hl; lia|].
    apply (Hb 1%nat p Hp). apply (Hall 1%nat p); [lia|done].
Qed.

Example condvar_queue_correct_witness :
  ∃ l s0, run 0 (QueueCondvar.queue_init 1000000) 5%nat cstart = Ok (Some l) s0 ∧
    ∀ s ths, steps (s0, QueueCondvar.threads (Some l)) (s, ths) →
      errors (core s) = [] ∧
      (held <$> sync s !! l = Some None → consistent l 1000000 (core s)) ∧
      (∀ e, faulty (s, ths) e → e = Overflow ∨ e = Aborted) ∧ can_move 2 (s, ths).
Proof. apply (condvar_queue_correct 1000000 5). unfold INT_MAX. lia. Defined.
