(* ===== verification/QueueSemaphore.v ===== *)
(** QueueSemaphore: the queue of lab2/src/2/queue_semaphore. Two semaphores count
    the free places and the values; the attempts, the assertions and the
    allocation of a node are outside of the mutex. *)
From S2P Require Import Prelude Links Threads Pthread Queue QueueLock.

#[local] Open Scope Z_scope.

(** [lock], [empty] and [full] of each queue object; auxiliary: how often [empty]
    and [full] were posted *)
Record sems := Sems { sem_lock : mutex; empty : Z; full : Z; empty_posts : Z; full_posts : Z }.
Abbreviation semaphores := (gmap positive sems).
Abbreviation zstate := (shared semaphores).

Definition in_lock (m : C mutex unit) : C sems unit := λ t y,
  match m t (sem_lock y) with
  | Ok _ h => Ok tt (Sems h (empty y) (full y) (empty_posts y) (full_posts y)) | Blocked => Blocked | Fault e => Fault e
  end.
Definition in_empty (m : C Z unit) : C sems unit := λ t y,
  match m t (empty y) with
  | Ok _ v => Ok tt (Sems (sem_lock y) v (full y) (empty_posts y) (full_posts y)) | Blocked => Blocked | Fault e => Fault e
  end.
Definition in_full (m : C Z unit) : C sems unit := λ t y,
  match m t (full y) with
  | Ok _ v => Ok tt (Sems (sem_lock y) (empty y) v (empty_posts y) (full_posts y))
  | Blocked => Blocked | Fault e => Fault e
  end.

Definition post_empty : C sems unit :=
  in_empty sem_post;;
  modify (λ y, Sems (sem_lock y) (empty y) (full y) (empty_posts y + 1) (full_posts y)).
Definition post_full : C sems unit :=
  in_full sem_post;;
  modify (λ y, Sems (sem_lock y) (empty y) (full y) (empty_posts y) (full_posts y + 1)).

Module QueueSemaphore.

Definition on_sems (q : ptr) (m : C sems unit) : prog zstate unit := on_sync (atomic (at_ptr q m)).
Definition lock (q : ptr) : prog zstate unit := on_sems q (in_lock mutex_lock).
Definition unlock (q : ptr) : prog zstate unit := on_sems q (in_lock mutex_unlock).

(** [sem_init (&q->empty, 0, max_count); sem_init (&q->full, 0, 0)] and the
    initialisation of the mutex, which may fail *)
Definition queue_init (max_count : Z) : prog zstate ptr :=
  q ← on_core (atomic (malloc queue_t (Queue NULL NULL false 0 max_count 0 0 0 0)));
  match q with
  | None => on_core (atomic (fail Aborted))
  | Some _ =>
      on_sync (atomic (init_at q (Sems None max_count 0 0 0)));;
      ok ← on_core (atomic malloc_answer);
      if (ok : bool) then on_core (Queue.create_monitor q);; mret q
      else on_core (atomic (fail Aborted))
  end.

(** [queue_destroy (&q)]: what [q] holds is freed and [q] is set to NULL, the
    result. The mutex is locked before [q] is compared with NULL. *)
Definition queue_destroy (q : ptr) : prog zstate ptr :=
  lock q;;
  match q with
  | None => mret q
  | Some _ =>
      on_core (Queue.stop_monitor q);;
      on_core (Queue.free_nodes q);;
      on_sync (atomic (free_at q));;
      on_core (atomic (free queue_t q));;
      mret NULL
  end.

Definition add_entry (q : ptr) : prog qstate unit :=
  Queue.bump LONG_MAX 1 q add_attempts set_add_attempts;;
  c ← Queue.get q count; m ← Queue.get q max_count;
  atomic (assert (bool_decide (c <= m))).
Definition get_entry (q : ptr) : prog qstate unit :=
  Queue.bump LONG_MAX 1 q get_attempts set_get_attempts;;
  c ← Queue.get q count;
  atomic (assert (bool_decide (0 <= c))).

Definition queue_add (q : ptr) (v : Z) : prog zstate Z :=
  on_core (add_entry q);;
  on_sems q (in_empty sem_wait);;
  new ← on_core (Queue.new_node v);
  lock q;;
  on_core (Queue.link_node q new);;
  on_sems q post_full;;
  unlock q;;
  mret 1.

Definition queue_get (q : ptr) (old : Z) : prog zstate (Z * Z) :=
  on_core (get_entry q);;
  on_sems q (in_full sem_wait);;
  lock q;;
  v ← on_core (Queue.dequeue q);
  on_sems q post_empty;;
  unlock q;;
  mret (1, v).

(** These two touch no lock. *)
Definition queue_print_stats (q : ptr) : prog zstate (list Z) := on_core (Queue.queue_print_stats q).
Definition qmonitor (q : ptr) : prog zstate unit := on_core (Queue.qmonitor q).

(** The reader and the writer of queue_threads.c and the monitor *)
Definition threads (q : ptr) : list (prog zstate unit) :=
  [reader core set_core queue_get q; writer queue_add q; qmonitor q].
End QueueSemaphore.

(** * Run alone *)

Section sequential.
Context (l : positive) (n : nat) (t : tid).
Implicit Types (s : zstate) (f : fifo).

(** The semaphores count the free places and the values. *)
Definition sem_repr s f : Prop :=
  queue_repr l (core s) f ∧ fifo_ok f ∧
  ∃ pe pf, sync s !! l = Some (Sems None (cap f - Z.of_nat (length (items f))) (Z.of_nat (length (items f))) pe pf).

Lemma run_on_sems s y y' m : sync s !! l = Some y → m t y = Ok tt y' →
  run n (QueueSemaphore.on_sems (Some l) m) t s = Ok tt (Shared (core s) (<[l := y']> (sync s))).
Proof. intros Hy Hm. apply run_on_sync. unfold at_ptr. by rewrite Hy, Hm. Qed.
Lemma run_on_sems_blocks {B} s y m (k : unit → prog zstate B) : sync s !! l = Some y → m t y = Blocked →
  run n (QueueSemaphore.on_sems (Some l) m ≫= k) t s = Blocked.
Proof.
  intros Hy Hm. simpl. unfold mbind, C_bind, lift_act, at_ptr. by rewrite Hy, Hm.
Qed.

Lemma sem_add_entry_run ls Q c f :
  cells (queues c) !! l = Some Q → holds ls Q c f → fifo_ok f → aa f < LONG_MAX →
  let Q' := set_add_attempts (aa f + 1) Q in
  run n (QueueSemaphore.add_entry (Some l)) t c = Ok tt (put_queue l Q' c) ∧
  holds ls Q' (put_queue l Q' c) (count_add f).
Proof.
  intros HQ Hf [] Haa Q'. pose proof Hf as [_ _ _ Hc Hm Ha _ _ _]. split; [|by destruct Hf; split].
  unfold QueueSemaphore.add_entry. pstep; [|lia]. pstep. pstep.
  rewrite Hc, Hm, bool_decide_true by lia. subst Q'. by rewrite Ha.
Qed.
Lemma sem_get_entry_run ls Q c f :
  cells (queues c) !! l = Some Q → holds ls Q c f → fifo_ok f → ga f < LONG_MAX →
  let Q' := set_get_attempts (ga f + 1) Q in
  run n (QueueSemaphore.get_entry (Some l)) t c = Ok tt (put_queue l Q' c) ∧
  holds ls Q' (put_queue l Q' c) (count_get f).
Proof.
  intros HQ Hf [] Hga Q'. pose proof Hf as [_ _ _ Hc _ _ Hg _ _]. split; [|by destruct Hf; split].
  unfold QueueSemaphore.get_entry. pstep; [|lia]. pstep.
  rewrite Hc, bool_decide_true by lia. subst Q'. by rewrite Hg.
Qed.

Lemma sem_repr_set s f Q ls Q' g : cells (queues (core s)) = {[l := Q]} → holds ls Q' (put_queue l Q' (core s)) g →
  dom (cells (qnodes (core s))) = list_to_set ls → queue_repr l (put_queue l Q' (core s)) g.
Proof. intros HQ Hh Hd. exists Q', ls. split; [by eapply put_queue_only|]. by split. Qed.

(** [queue_add] alone: the value goes in, or the call waits for a free place
    with its attempt counted. *)
Lemma sem_add_run s f v : sem_repr s f → aa f < LONG_MAX → ac f < LONG_MAX → ¬ malloc_fails (core s) →
  if decide (Z.of_nat (length (items f)) = cap f) then
    run n (QueueSemaphore.queue_add (Some l) v) t s = Blocked
  else ∃ s', run n (QueueSemaphore.queue_add (Some l) v) t s = Ok 1 s' ∧
    sem_repr s' (fifo_push v (count_add f)) ∧ answers (core s') = tl (answers (core s)).
Proof.
  intros ((Q & ls & HQ & Hf & Hdom) & Hok & pe & pf & Hs) Haa Hac Hm.
  pose proof (only_lookup _ _ _ HQ) as Hl.
  destruct (sem_add_entry_run ls Q (core s) f Hl Hf Hok Haa) as [Hr Hh].
  set (Q1 := set_add_attempts (aa f + 1) Q) in *.
  unfold QueueSemaphore.queue_add. rewrite (run_bind_ok _ _ _ _ _ _ _ (run_on_core n _ t s _ _ Hr)).
  destruct (decide _) as [Hfull|Hfull].
  { eapply run_on_sems_blocks; [done|]. unfold in_empty, sem_wait. simpl.
    rewrite decide_False; [done|lia]. }
  assert (Z.of_nat (length (items f)) < cap f) as Hlt by (destruct Hok; lia).
  erewrite run_bind_ok; [|eapply run_on_sems; [done|]; unfold in_empty, sem_wait; simpl;
    rewrite decide_True by lia; reflexivity].
  destruct (new_node_run n t ls Q1 (put_queue l Q1 (core s)) (count_add f) v Hh Hm)
    as (new & c1 & Hn & Hc1 & Hnew & Hns & Hnl & Hh1).
  erewrite run_bind_ok; [|by apply run_on_core]. cbn [sync core].
  erewrite run_bind_ok; [|eapply run_on_sems; [apply lookup_insert_eq|reflexivity]]. cbn [sync core].
  assert (cells (queues c1) !! l = Some Q1) as Hq1 by (rewrite Hc1; apply put_queue_lookup).
  destruct (link_node_run l n t ls Q1 c1 (count_add f) new v Hq1 Hh1) as (ns & Q' & c' & Hlk & Hc' & Hd & Hh2 & _).
  { rewrite Hns. apply lookup_insert_eq. }
  { done. }
  { destruct Hok. simpl. lia. }
  { destruct Hok. simpl. lia. }
  erewrite run_bind_ok; [|by apply run_on_core]. cbn [sync core].
  erewrite run_bind_ok; [|eapply run_on_sems; [apply lookup_insert_eq|reflexivity]]. cbn [sync core].
  erewrite run_bind_ok; [|eapply run_on_sems; [apply lookup_insert_eq|
    unfold in_lock, mutex_unlock; simpl; rewrite decide_True by done; reflexivity]]. cbn [sync core].
  eexists. split; [done|]. split; [|by rewrite Hc', Hc1]. split; [|split].
  - exists Q', (ls ++ [new]). split; [|split; [done|]].
    + rewrite Hc'. eapply put_queue_only. rewrite Hc1. by eapply put_queue_only.
    + rewrite Hc'. simpl. rewrite Hd, Hns, dom_insert_L. simpl. rewrite Hdom, list_to_set_app_L. set_solver.
  - apply fifo_ok_push; [destruct Hok; split; simpl; lia|done..].
  - eexists _, _. simpl. rewrite !insert_insert_eq, lookup_insert_eq, length_app. simpl. do 2 f_equal; lia.
Qed.

(** [queue_get] alone: the first value, or the call waits for one. *)
Lemma sem_get_run s f old : sem_repr s f → ga f < LONG_MAX →
  match items f with
  | [] => run n (QueueSemaphore.queue_get (Some l) old) t s = Blocked
  | x :: _ => ∃ s', run n (QueueSemaphore.queue_get (Some l) old) t s = Ok (1, x) s' ∧
      sem_repr s' (fifo_pop (count_get f)) ∧ answers (core s') = answers (core s)
  end.
Proof.
  intros ((Q & ls & HQ & Hf & Hdom) & Hok & pe & pf & Hs) Hga.
  pose proof (only_lookup _ _ _ HQ) as Hl.
  destruct (sem_get_entry_run ls Q (core s) f Hl Hf Hok Hga) as [Hr Hh].
  set (Q1 := set_get_attempts (ga f + 1) Q) in *.
  unfold QueueSemaphore.queue_get. rewrite (run_bind_ok _ _ _ _ _ _ _ (run_on_core n _ t s _ _ Hr)).
  destruct (items f) as [|x r] eqn:Hit.
  { eapply run_on_sems_blocks; [done|]. done. }
  erewrite run_bind_ok; [|eapply run_on_sems; [done|]; unfold in_full, sem_wait; cbn [full];
    rewrite decide_True by (simpl; lia); reflexivity]. cbn [sync core].
  erewrite run_bind_ok; [|eapply run_on_sems; [apply lookup_insert_eq|reflexivity]]. cbn [sync core].
  assert (queue_repr l (put_queue l Q1 (core s)) (count_get f)) as Hrep1 by (by eapply sem_repr_set).
  assert (fifo_ok (count_get f)) as Hok1 by (destruct Hok; split; simpl; lia).
  destruct (dequeue_run l n t _ _ x r Hrep1 Hok1 Hit) as (c' & Hd & Hrep2 & _ & Ha).
  erewrite run_bind_ok; [|by apply run_on_core]. cbn [sync core].
  erewrite run_bind_ok; [|eapply run_on_sems; [apply lookup_insert_eq|reflexivity]]. cbn [sync core].
  erewrite run_bind_ok; [|eapply run_on_sems; [apply lookup_insert_eq|
    unfold in_lock, mutex_unlock; simpl; rewrite decide_True by done; reflexivity]]. cbn [sync core].
  eexists. split; [done|]. split; [|done]. split; [done|]. split.
  - apply fifo_ok_pop; [done|]. simpl. by rewrite Hit.
  - eexists _, _. cbn [sync fifo_pop count_get items cap]. rewrite !insert_insert_eq, lookup_insert_eq, Hit.
    cbn [length tail]. do 2 f_equal; lia.
Qed.
End sequential.

(** * Any sequence of calls *)

Fixpoint run_sem_ops (q : ptr) (ops : list queue_op) : prog zstate (list (Z * Z)) :=
  match ops with
  | [] => mret []
  | Add v :: ops' => ok ← QueueSemaphore.queue_add q v; rs ← run_sem_ops q ops'; mret ((ok, v) :: rs)
  | Get old :: ops' => r ← QueueSemaphore.queue_get q old; rs ← run_sem_ops q ops'; mret (r :: rs)
  end.

(** What the calls return, or none if one of them has to wait: an addition to a
    full queue, a removal from an empty one. *)
Fixpoint waiting_ops (ops : list queue_op) (f : fifo) : option (list (Z * Z) * fifo) :=
  match ops with
  | [] => Some ([], f)
  | Add v :: ops' =>
      if decide (Z.of_nat (length (items f)) = cap f) then None else
      '(rs, f') ← waiting_ops ops' (fifo_push v (count_add f)); Some ((1, v) :: rs, f')
  | Get old :: ops' =>
      match items f with
      | [] => None
      | x :: _ => '(rs, f') ← waiting_ops ops' (fifo_pop (count_get f)); Some ((1, x) :: rs, f')
      end
  end.

Lemma run_blocked {S A B} n (p : prog S A) (f : A → prog S B) t s :
  run n p t s = Blocked → run n (p ≫= f) t s = Blocked.
Proof.
  intros Hp. etransitivity; [apply (run_bind n p f t s)|]. unfold mbind, C_bind. by rewrite Hp.
Qed.

Lemma run_sem_ops_run l n t ops s f : sem_repr l s f → answers (core s) = [] →
  aa f + Z.of_nat (length ops) <= LONG_MAX → ga f + Z.of_nat (length ops) <= LONG_MAX →
  ac f + Z.of_nat (length ops) <= LONG_MAX →
  match waiting_ops ops f with
  | Some (rs, f') => ∃ s', run n (run_sem_ops (Some l) ops) t s = Ok rs s' ∧ sem_repr l s' f'
  | None => run n (run_sem_ops (Some l) ops) t s = Blocked
  end.
Proof.
  revert s f. induction ops as [|[v|old] ops IH]; intros s f Hrep Ho Haa Hga Hac;
    cbn [run_sem_ops waiting_ops length] in *; [by exists s| |].
  - pose proof (sem_add_run l n t s f v Hrep ltac:(lia) ltac:(lia)) as Hadd.
    specialize (Hadd ltac:(unfold malloc_fails; simpl; by rewrite Ho)).
    destruct (decide _) as [Hfull|Hfull]; [by apply run_blocked|].
    destruct Hadd as (s1 & Hr & Hrep1 & Ho1). rewrite (run_bind_ok _ _ _ _ _ _ _ Hr).
    specialize (IH s1 _ Hrep1). rewrite Ho1, Ho in IH. simpl in IH.
    specialize (IH eq_refl ltac:(lia) ltac:(lia) ltac:(lia)).
    destruct (waiting_ops ops _) as [[rs f']|]; simpl.
    + destruct IH as (s' & Hr' & Hrep'). rewrite (run_bind_ok _ _ _ _ _ _ _ Hr'). by exists s'.
    + by apply run_blocked.
  - pose proof (sem_get_run l n t s f old Hrep ltac:(lia)) as Hget.
    destruct (items f) as [|x r] eqn:Hit; [by apply run_blocked|].
    destruct Hget as (s1 & Hr & Hrep1 & Ho1). rewrite (run_bind_ok _ _ _ _ _ _ _ Hr).
    specialize (IH s1 _ Hrep1). rewrite Ho1 in IH. simpl in IH.
    specialize (IH Ho ltac:(lia) ltac:(lia) ltac:(lia)).
    destruct (waiting_ops ops _) as [[rs f']|]; simpl.
    + destruct IH as (s' & Hr' & Hrep'). rewrite (run_bind_ok _ _ _ _ _ _ _ Hr'). by exists s'.
    + by apply run_blocked.
Qed.

Definition zstart : zstate := Shared qstart ∅.

Lemma sem_init_run n t max : ∃ s, run n (QueueSemaphore.queue_init max) t zstart = Ok (Some 1%positive) s ∧
  queue_repr 1 (core s) (fifo_init max) ∧ sync s = {[1%positive := Sems None max 0 0 0]} ∧
  answers (core s) = [] ∧ errors (core s) = [].
Proof.
  destruct (start_repr n t max) as (c & Hc & Hrep & He & Ho).
  unfold QueueSemaphore.queue_init. erewrite run_bind_ok; [|by apply run_new_queue].
  change (fresh_loc (queues (core zstart))) with 1%positive. cbv iota.
  erewrite run_bind_ok; [|by apply run_on_sync].
  erewrite run_bind_ok; [|reflexivity]. cbv iota.
  erewrite run_bind_ok; [|apply run_on_core; exact Hc].
  by eexists.
Qed.

(** Run alone, the queue of lab2/src/2/queue_semaphore is a bounded FIFO that waits instead of failing:
    after [queue_init (max)], a sequence of calls returns what the list returns, every value in order,
    or it waits for ever exactly when it reaches an addition to a full queue or a removal from an
    empty one; the semaphores count the free places and the values throughout. *)
Theorem semaphore_queue_waits max ops t : 0 <= max <= INT_MAX → Z.of_nat (length ops) <= LONG_MAX →
  ∃ l s0, run 0 (QueueSemaphore.queue_init max) t zstart = Ok (Some l) s0 ∧
  match waiting_ops ops (fifo_init max) with
  | Some (rs, f) => ∃ s, run 0 (run_sem_ops (Some l) ops) t s0 = Ok rs s ∧ queue_repr l (core s) f ∧
      ∃ pe pf, sync s !! l = Some (Sems None (max - Z.of_nat (length (items f))) (Z.of_nat (length (items f))) pe pf)
  | None => run 0 (run_sem_ops (Some l) ops) t s0 = Blocked
  end.
Proof.
  intros Hmax Hops. destruct (sem_init_run 0 t max) as (s0 & Hi & Hrep & Hsync & Ho & _).
  exists 1%positive, s0. split; [done|].
  assert (sem_repr 1 s0 (fifo_init max)) as Hs.
  { split; [done|]. split; [split; simpl; unfold LONG_MAX; lia|]. exists 0, 0. rewrite Hsync, lookup_singleton_eq.
    simpl. by rewrite Z.sub_0_r. }
  pose proof (run_sem_ops_run 1 0 t ops s0 _ Hs Ho) as Hr. simpl in Hr.
  specialize (Hr ltac:(lia) ltac:(lia) ltac:(lia)).
  assert (∀ rs f, waiting_ops ops (fifo_init max) = Some (rs, f) → cap f = max) as Hcap.
  { clear. generalize (fifo_init max), (eq_refl : cap (fifo_init max) = max). intros g Hg rs f.
    revert g Hg rs f. induction ops as [|[v|old] ops IH]; intros g Hg rs f; simpl.
    - by intros [= <- <-].
    - case_decide; [done|]. destruct (waiting_ops ops _) as [[]|] eqn:E; simpl; [|done].
      intros [= <- <-]. by eapply IH in E.
    - destruct (items g); [done|]. destruct (waiting_ops ops _) as [[]|] eqn:E; simpl; [|done].
      intros [= <- <-]. by eapply IH in E. }
  destruct (waiting_ops ops _) as [[rs f]|]; [|done].
  destruct Hr as (s & Hrun & Hq & Hok & pe & pf & Hsy). exists s. rewrite (Hcap rs f eq_refl) in Hsy. split_and!; [done..|by exists pe, pf].
Qed.

Example semaphore_queue_waits_witness :
  ∃ l s0, run 0 (QueueSemaphore.queue_init 2) 0%nat zstart = Ok (Some l) s0 ∧
  run 0 (run_sem_ops (Some l) [Add 7; Add 8; Get 0; Get 0; Get 0]) 0%nat s0 = Blocked.
Proof.
  apply (semaphore_queue_waits 2 [Add 7; Add 8; Get 0; Get 0; Get 0] 0%nat).
  - unfold INT_MAX. lia.
  - unfold LONG_MAX. simpl. lia.
Defined.

(** [queue_destroy] locks the mutex of the queue before it looks whether there
    is one. *)
Lemma semaphore_destroy_null n t s : run n (QueueSemaphore.queue_destroy NULL) t s = Fault Segv.
Proof. done. Qed.
