(* ===== verification/SemaphoreThreads.v ===== *)
(** SemaphoreThreads: the queue of lab2/src/2/queue_semaphore with one reader, one
    writer and the monitor, in every interleaving. Its operations touch the queue
    outside of the mutex, so that a thread in its critical section relies on the
    part of the queue it works on, not on all of it. *)
From S2P Require Import Prelude Links Threads Pthread Queue QueueLock QueueSemaphore.
From Stdlib Require Import FunctionalExtensionality.

#[local] Open Scope Z_scope.

Section semaphores.
Context (l : positive) (max : Z) (max_pos : 0 < max).
Implicit Types (s : zstate) (c : qstate) (Q : queue_t) (y : sems) (h : gmap positive qnode_t).

(** ** What the threads share *)

(** What the other thread may change of the queue while thread [i] is in its
    critical section: its own attempts *)
Definition other (i : nat) (a : Z) (Q : queue_t) : queue_t :=
  match i with O => set_add_attempts a Q | _ => set_get_attempts a Q end.
(** The queue is [Q], up to that, and has at least the nodes [h]. *)
Definition knows (i : nat) Q h c : Prop :=
  (∃ a, cells (queues c) !! l = Some (other i a Q)) ∧ h ⊆ cells (qnodes c).

Definition owner s : option tid := y ← sync s !! l; sem_lock y.
(** Of thread [i], the reader being 0: how often it has waited for a value, or a
    place; how often it has posted; how many values it took, or added. These only
    it changes. *)
Definition waited (i : nat) y : Z :=
  match i with O => full_posts y - full y | _ => max + empty_posts y - empty y end.
Definition posted (i : nat) y : Z := match i with O => empty_posts y | _ => full_posts y end.
Definition counted (i : nat) Q : Z := match i with O => get_count Q | _ => add_count Q end.
Definition view (i : nat) s : option (Z * Z * Z) :=
  y ← sync s !! l; Q ← cells (queues (core s)) !! l;
  if decide (i < 2)%nat then Some (waited i y, posted i y, counted i Q) else None.
Definition posts s : option (Z * Z) := (λ y, (empty_posts y, full_posts y)) <$> sync s !! l.

(** The values added and not yet taken are in the list, in order. *)
Record listed (ls : list positive) Q h : Prop := {
  ls_chain : chain qnext h (first Q) ls NULL;
  ls_last : ls ≠ [] → last_ Q = last ls;
  ls_values : val <$> nodes h ls = seqZ (get_count Q) (add_count Q - get_count Q);
  ls_count : count Q = Z.of_nat (length ls);
  ls_counts : 0 <= get_count Q <= add_count Q;
}.

Record inv s : Prop := mk_inv {
  inv_queue : ∃ Q y, cells (queues (core s)) !! l = Some Q ∧ sync s !! l = Some y ∧
    0 <= count Q <= max ∧ max_count Q = max ∧ 0 <= empty y ∧ 0 <= full y ∧
    (sem_lock y = None → ∃ ls, listed ls Q (cells (qnodes (core s))) ∧
       empty_posts y = get_count Q ∧ full_posts y = add_count Q);
  inv_errors : errors (core s) = [];
  inv_owner j : owner s = Some j → (j < 2)%nat;
}.

Definition rely (i : nat) s s' : Prop :=
  (owner s = Some i ↔ owner s' = Some i) ∧ view i s' = view i s ∧
  (owner s = Some i → posts s' = posts s ∧ ∀ Q h, knows i Q h (core s) → knows i Q h (core s')) ∧
  (i = 1%nat → ∀ p nd v, view 1 s = Some v → cells (qnodes (core s)) !! p = Some nd →
     v.2 <= val nd → cells (qnodes (core s')) !! p = Some nd).

(** Where a thread may have to wait *)
Definition waits (i : nat) s : Prop :=
  owner s ≠ Some i ∧ (owner s = Some (1 - i)%nat ∨
    ∃ y Q, sync s !! l = Some y ∧ cells (queues (core s)) !! l = Some Q ∧
      match i with O => full y | _ => empty y end = 0 ∧ waited i y = counted i Q).

Lemma rely_refl i s : rely i s s.
Proof. by split_and!. Qed.
Lemma rely_trans i s1 s2 s3 : rely i s1 s2 → rely i s2 s3 → rely i s1 s3.
Proof.
  intros (Ho & Hv & Hk & Hn) (Ho' & Hv' & Hk' & Hn'). split; [by rewrite Ho|]. split; [congruence|]. split.
  - intros Hi. destruct (Hk Hi) as [Hp Hq]. destruct (Hk' (proj1 Ho Hi)) as [Hp' Hq'].
    split; [congruence|auto].
  - intros -> p nd v Hvw Hp Hle. eapply Hn'; [done| |by eapply Hn|done]. congruence.
Qed.

#[local] Instance sem_rg : RG zstate := {|
  I := inv; R := rely; okf e := e = Overflow ∨ e = Aborted; wt := waits; fin _ _ := False;
  R_refl := rely_refl; R_trans := rely_trans |}.

(** ** Facts *)

Lemma on_core_bind {A B} (p : prog qstate A) (f : A → prog qstate B) :
  @on_core semaphores B (pbind p f) = pbind (on_core p) (λ a, on_core (f a)).
Proof.
  unfold on_core. revert f.
  induction p as [a|A B' m k IH|A X Y body _ x k IH]; intros f; simpl; [done|..];
    f_equal; apply functional_extensionality; intros b; apply IH.
Qed.
(** Sequencing to the right, also inside of the parts that touch the queue *)
Ltac cnorm := pnorm; rewrite ?on_core_bind, ?pbind_assoc; cbn [pbind].

Lemma listed_weaken ls Q h h' : h ⊆ h' → listed ls Q h → listed ls Q h'.
Proof.
  intros Hh []. assert (∀ k, k ∈ ls → h' !! k = h !! k) as Hk.
  { intros k Hk. destruct (chain_lookup _ _ _ _ _ k ls_chain0 Hk) as [n Hn].
    rewrite Hn. by eapply lookup_weaken. }
  split; try done.
  - eapply chain_ext; [|done]. intros k Hin. by rewrite Hk.
  - rewrite <-ls_values0. f_equal. by apply nodes_ext.
Qed.
Lemma listed_attempts ls Q h i a : listed ls (other i a Q) h ↔ listed ls Q h.
Proof. split; intros []; split; by destruct i. Qed.
Lemma counted_attempts i j a Q : counted i (other j a Q) = counted i Q.
Proof. by destruct i, j. Qed.
Lemma count_attempts j a Q : count (other j a Q) = count Q ∧ max_count (other j a Q) = max_count Q.
Proof. by destruct j. Qed.
Lemma other_other i j a b Q : i ≠ j → (i < 2)%nat → (j < 2)%nat → other i a (other j b Q) = other j b (other i a Q).
Proof. destruct i as [|[|]], j as [|[|]]; try done; lia. Qed.
Lemma other_same i a b Q : other i a (other i b Q) = other i a Q.
Proof. by destruct i. Qed.

(** A step on the queue [Q] outside of the critical section: attempts *)
Lemma attempts_step i s a Q : (i < 2)%nat → cells (queues (core s)) !! l = Some Q → inv s →
  let s' := set_core (put_queue l (other (1 - i) a Q) (core s)) s in inv s' ∧ G i s s'.
Proof.
  intros Hi HQ [(Q0 & y & HQ0 & Hy & Hc & Hm & He & Hf & Hfree) Herr Hown] s'.
  assert (Q0 = Q) as -> by congruence. destruct (count_attempts (1 - i) a Q) as [Hc' Hm'].
  split.
  - split; [|done|done]. exists (other (1 - i) a Q), y. cbn. rewrite lookup_insert_eq, Hc', Hm'.
    split_and!; try done; try lia. intros Hl. destruct (Hfree Hl) as (ls & Hls & Hpe & Hpf).
    exists ls. rewrite listed_attempts. split_and!; [done| |].
    + rewrite Hpe. symmetry. apply (counted_attempts 0).
    + rewrite Hpf. symmetry. apply (counted_attempts 1).
  - intros j Hj. split; [done|]. split; [|split; [|done]].
    + unfold view. cbn. rewrite Hy, HQ, lookup_insert_eq. cbn. by rewrite counted_attempts.
    + intros Ho. split; [done|]. intros Q1 h [[b Hb] Hh]. split; [|done]. exists a. cbn.
      rewrite lookup_insert_eq. specialize (Hown _ Ho). assert (j = 1 - i)%nat as -> by lia.
      f_equal. rewrite HQ in Hb. injection Hb as ->. apply other_same.
Qed.

Definition set_sems (y : sems) s : zstate := Shared (core s) (<[l := y]> (sync s)).

(** What thread [i] may do to the semaphores and the mutex *)
Record sems_step (i : nat) Q c (y y' : sems) : Prop := {
  ss_empty : 0 <= empty y';
  ss_full : 0 <= full y';
  ss_lock j : j ≠ i → sem_lock y = Some j ↔ sem_lock y' = Some j;
  ss_other j : (j < 2)%nat → j ≠ i → waited j y' = waited j y ∧ posted j y' = posted j y;
  ss_posts j : j ≠ i → sem_lock y = Some j → empty_posts y' = empty_posts y ∧ full_posts y' = full_posts y;
  ss_free : sem_lock y' = None → ∃ ls, listed ls Q (cells (qnodes c)) ∧
    empty_posts y' = get_count Q ∧ full_posts y' = add_count Q;
}.

Lemma sems_step_ok i s Q y y' : (i < 2)%nat → cells (queues (core s)) !! l = Some Q → sync s !! l = Some y →
  sems_step i Q (core s) y y' → inv s → inv (set_sems y' s) ∧ G i s (set_sems y' s).
Proof.
  intros Hi HQ Hy [He' Hf' Hlk Hot Hps Hfr] [(Q0 & y0 & HQ0 & Hy0 & Hc & Hm & He & Hf & Hfree) Herr Hown].
  assert (Q0 = Q) as -> by congruence. assert (y0 = y) as -> by congruence. split.
  - split; [|done|].
    + exists Q, y'. cbn. rewrite lookup_insert_eq. split_and!; try done; lia.
    + intros j. unfold owner. cbn. rewrite lookup_insert_eq. cbn. intros Hj.
      destruct (decide (j = i)) as [->|Hne]; [done|]. apply Hown. unfold owner. rewrite Hy. cbn.
      by apply Hlk.
  - intros j Hj. split; [|split; [|split; [|done]]].
    + unfold owner. cbn. rewrite lookup_insert_eq, Hy. cbn. by apply Hlk.
    + unfold view. cbn. rewrite lookup_insert_eq, Hy, HQ. cbn. destruct (decide _); [|done].
      destruct (Hot j) as [-> ->]; done.
    + unfold owner, posts. cbn. rewrite lookup_insert_eq, Hy. cbn. intros Ho. split; [|done].
      destruct (Hps j) as [-> ->]; done.
Qed.

(** ** The critical section *)

(** Thread [i] holds the mutex, knows the queue as [Q] and [h], has waited [w]
    times, and the posts are [P]. *)
Record holding (i : nat) Q h (w : Z) (P : Z * Z) s : Prop := {
  hd_owner : owner s = Some i;
  hd_knows : knows i Q h (core s);
  hd_waited : ∃ y, sync s !! l = Some y ∧ waited i y = w;
  hd_posts : posts s = Some P;
}.

Lemma sem_holding_stable i Q h w P s s' : (i < 2)%nat → holding i Q h w P s → rely i s s' → inv s' → holding i Q h w P s'.
Proof.
  intros Hi [Ho Hk (y & Hy & Hw) HP] (Hro & Hv & Hr & _) [(Q' & y' & HQ' & Hy' & _) _ _].
  destruct (Hr Ho) as [Hp Hkn]. split; [by apply Hro|by apply Hkn| |congruence].
  exists y'. split; [done|]. destruct Hk as [[a Ha] _]. unfold view in Hv. rewrite Hy, Hy', HQ', Ha in Hv. cbn in Hv.
  rewrite !decide_True in Hv by done. congruence.
Qed.

(** A step on the queue by the holder *)
Record core_step (i : nat) Q c c' : Prop := {
  cs_count : 0 <= count Q <= max ∧ max_count Q = max;
  cs_errors : errors c' = errors c;
  cs_lookup : ∃ Q0 a, cells (queues c) !! l = Some Q0 ∧ cells (queues c') !! l = Some (other i a Q) ∧
    counted (1 - i) Q = counted (1 - i) Q0;
  cs_nodes p nd : i = 0%nat → cells (qnodes c) !! p = Some nd → add_count Q <= val nd →
    cells (qnodes c') !! p = Some nd;
}.

Lemma core_step_ok i s Q c' : (i < 2)%nat → owner s = Some i → core_step i Q (core s) c' → inv s →
  inv (set_core c' s) ∧ G i s (set_core c' s).
Proof.
  intros Hi Ho [[Hc Hm] He (Q0 & a & HQ0 & HQ' & Hcnt) Hnodes] [(Q1 & y & HQ1 & Hy & _ & _ & Hem & Hfu & _) Herr Hown].
  assert (Q1 = Q0) as -> by congruence. unfold owner in Ho. rewrite Hy in Ho. cbn in Ho.
  destruct (count_attempts i a Q) as [Hca Hma]. split.
  - split; [|cbn; congruence|done]. exists (other i a Q), y. cbn. rewrite Hca, Hma.
    split_and!; try done; try lia. intros Hn. congruence.
  - intros j Hj. split; [done|]. split; [|split].
    + unfold view. cbn. rewrite Hy, HQ0, HQ'. cbn. destruct (decide _); [|done]. f_equal. f_equal.
      rewrite counted_attempts. assert (j = 1 - i)%nat as -> by lia. done.
    + unfold owner. rewrite Hy. cbn. intros Ho'. congruence.
    + intros -> p nd v Hv Hp Hle. cbn. assert (i = 0%nat) as -> by lia. apply Hnodes; [done..|].
      unfold view in Hv. rewrite Hy, HQ0 in Hv. cbn in Hv. injection Hv as <-. cbn in Hle, Hcnt. lia.
Qed.

(** What the holder knows of the counters *)
Lemma holder_count i s Q h w P : (i < 2)%nat → holding i Q h w P s → inv s → 0 <= count Q <= max ∧ max_count Q = max.
Proof.
  intros Hi [_ [[a Ha] _] _ _] [(Q0 & y & HQ0 & _ & Hc & Hm & _) _ _].
  assert (Q0 = other i a Q) as -> by congruence. by destruct (count_attempts i a Q) as [<- <-].
Qed.

(** One access of the holder: from what it knows, to [Q'] and [h'] *)
Lemma holder_act {B} n i Q h w P Q' h' (m : C qstate B) (R : B → Prop) k s : (i < 2)%nat → holding i Q h w P s →
  (∀ c, knows i Q h c → 0 <= count Q <= max → max_count Q = max →
     match m i c with
     | Ok b c' => core_step i Q' c c' ∧ knows i Q' h' c' ∧ R b
     | Blocked => False
     | Fault e => e = Overflow ∨ e = Aborted
     end) →
  (∀ m b s', (m ≤ n)%nat → R b → holding i Q' h' w P s' → safe m i (k b) s') →
  safe n i (Act (lift_act core set_core m) k) s.
Proof.
  intros Hi Hh Hm Hk. destruct n as [|n]; [done|]. apply safe_act. intros s1 HI HR.
  pose proof (sem_holding_stable _ _ _ _ _ _ _ Hi Hh HR HI) as Hh1.
  destruct (holder_count i s1 Q h w P Hi Hh1 HI) as [Hc Hmx].
  specialize (Hm (core s1) (hd_knows _ _ _ _ _ _ Hh1) Hc Hmx). unfold lift_act.
  destruct (m i (core s1)) as [b c'| |e]; [|done..]. destruct Hm as (Hcs & Hk' & HRb).
  destruct (core_step_ok i s1 Q' c' Hi (hd_owner _ _ _ _ _ _ Hh1) Hcs HI) as [HI' HG].
  split; [done|]. split; [done|]. apply Hk; [lia|done|]. by destruct Hh1; split.
Qed.

Lemma same_step i Q h c : (i < 2)%nat → knows i Q h c → 0 <= count Q <= max → max_count Q = max → core_step i Q c c.
Proof.
  intros Hi [[a Ha] _] Hc Hm. split; try done. exists (other i a Q), a. split_and!; [done..|].
  by rewrite counted_attempts.
Qed.

Section rules.
Context (n i : nat) (Q : queue_t) (h : gmap positive qnode_t) (w : Z) (P : Z * Z) (s : zstate).
Context (Hi : (i < 2)%nat) (Hh : holding i Q h w P s).

Lemma holder_get {A} (f : queue_t → A) k : (∀ a, f (other i a Q) = f Q) →
  (∀ m s', (m ≤ n)%nat → holding i Q h w P s' → safe m i (k (f Q)) s') →
  safe n i (on_core (Queue.get (Some l) f) ≫= k) s.
Proof.
  intros Hf Hk. apply (holder_act n i Q h w P Q h _ (λ x, f x = f Q)); [done..| |].
  - intros c Hkn Hc Hm. pose proof Hkn as [[a Ha] _]. unfold load. cbn. rewrite Ha.
    split; [by eapply same_step|]. split; [done|]. apply Hf.
  - intros m x s' Hm' Hx Hs'. cbn. rewrite Hx. by apply Hk.
Qed.

Lemma holder_add mx a b k : (∀ m s', (m ≤ n)%nat → holding i Q h w P s' → safe m i (k (a + b)) s') →
  safe n i (on_core (atomic (signed_add mx a b)) ≫= k) s.
Proof.
  intros Hk. apply (holder_act n i Q h w P Q h _ (λ x, x = a + b)); [done..| |].
  - intros c Hkn Hc Hm. unfold signed_add. destruct (decide _); [|by left].
    split; [by eapply same_step|]. by split.
  - intros m x s' Hm' -> Hs'. by apply Hk.
Qed.

Lemma holder_set f k : (∀ a, f (other i a Q) = other i a (f Q)) →
  0 <= count (f Q) <= max → max_count (f Q) = max_count Q → counted (1 - i) (f Q) = counted (1 - i) Q →
  (∀ m s', (m ≤ n)%nat → holding i (f Q) h w P s' → safe m i (k tt) s') →
  safe n i (on_core (Queue.set (Some l) f) ≫= k) s.
Proof.
  intros Hf Hc Hmx Hcnt Hk. apply (holder_act n i Q h w P (f Q) h _ (λ _, True)); [done..| |].
  - intros c [[a Ha] Hn] _ Hm. unfold update. cbn. rewrite Ha. rewrite Hf. split; [|split; [|done]].
    + split; [lia|done| |done]. exists (other i a Q), a. cbn. rewrite lookup_insert_eq, counted_attempts. done.
    + split; [|done]. exists a. cbn. by rewrite lookup_insert_eq.
  - intros m [] s' Hm' _ Hs'. by apply Hk.
Qed.

Lemma holder_node_get {A} p nd (f : qnode_t → A) k : h !! p = Some nd →
  (∀ m s', (m ≤ n)%nat → holding i Q h w P s' → safe m i (k (f nd)) s') →
  safe n i (on_core (Queue.node_get (Some p) f) ≫= k) s.
Proof.
  intros Hp Hk. apply (holder_act n i Q h w P Q h _ (λ x, x = nd)); [done..| |].
  - intros c Hkn Hc Hm. unfold load. cbn. rewrite (lookup_weaken _ _ _ _ Hp (proj2 Hkn)).
    split; [by eapply same_step|]. by split.
  - intros m x s' Hm' -> Hs'. by apply Hk.
Qed.

Lemma holder_node_set p nd f k : i = 1%nat → h !! p = Some nd →
  (∀ m s', (m ≤ n)%nat → holding i Q (<[p := f nd]> h) w P s' → safe m i (k tt) s') →
  safe n i (on_core (atomic (update qnode_t (Some p) f)) ≫= k) s.
Proof.
  intros Hi1 Hp Hk. apply (holder_act n i Q h w P Q (<[p := f nd]> h) _ (λ _, True)); [done..| |].
  - intros c Hkn Hc Hm. unfold update. cbn. rewrite (lookup_weaken _ _ _ _ Hp (proj2 Hkn)).
    destruct (same_step i Q h c Hi Hkn Hc Hm) as [? ? ? _]. destruct Hkn as [Hq Hn]. split; [|split; [|done]].
    + split; try done. intros ? ? ->. done.
    + split; [done|]. cbn. by apply insert_mono.
  - intros m [] s' Hm' _ Hs'. by apply Hk.
Qed.

Lemma holder_node_free p nd k : i = 0%nat → h !! p = Some nd → val nd < add_count Q →
  (∀ m s', (m ≤ n)%nat → holding i Q (delete p h) w P s' → safe m i (k tt) s') →
  safe n i (on_core (atomic (free qnode_t (Some p))) ≫= k) s.
Proof.
  intros Hi0 Hp Hv Hk. apply (holder_act n i Q h w P Q (delete p h) _ (λ _, True)); [done..| |].
  - intros c Hkn Hc Hm. unfold free. cbn. pose proof (lookup_weaken _ _ _ _ Hp (proj2 Hkn)) as Hpc. rewrite Hpc.
    destruct (same_step i Q h c Hi Hkn Hc Hm) as [? ? ? _]. destruct Hkn as [Hq Hn]. split; [|split; [|done]].
    + split; try done. intros p' nd' _ Hp' Hle. cbn. rewrite lookup_delete_ne; [done|]. intros <-.
      rewrite Hpc in Hp'. injection Hp' as <-. lia.
    + split; [done|]. cbn. by apply delete_mono.
  - intros m [] s' Hm' _ Hs'. by apply Hk.
Qed.
End rules.

Lemma holder_bump n i Q h w P s mx d fld setf k : (i < 2)%nat → holding i Q h w P s →
  (∀ a, fld (other i a Q) = fld Q) → (∀ x a, setf x (other i a Q) = other i a (setf x Q)) →
  (let Q' := setf (fld Q + d) Q in
   0 <= count Q' <= max ∧ max_count Q' = max_count Q ∧ counted (1 - i) Q' = counted (1 - i) Q) →
  (∀ m s', (m ≤ n)%nat → holding i (setf (fld Q + d) Q) h w P s' → safe m i (k tt) s') →
  safe n i (on_core (Queue.bump mx d (Some l) fld setf) ≫= k) s.
Proof.
  intros Hi Hh Hg Hs (Hc & Hmx & Hcnt) Hk. unfold Queue.bump. cnorm.
  eapply holder_get; [done..|]. intros m1 s1 Hm1 Hs1. cnorm.
  eapply holder_add; [done..|]. intros m2 s2 Hm2 Hs2. cnorm.
  eapply holder_set; [done| exact Hs2 |done..|]. intros m3 s3 Hm3 Hs3. apply Hk; [lia|done].
Qed.

(** A new node at the end *)
Lemma listed_append ls Q h new nd k nk :
  listed (ls ++ [k]) Q h → h !! k = Some nk → h !! new = Some nd → new ∉ ls ++ [k] →
  val nd = add_count Q → qnext nd = NULL →
  listed ((ls ++ [k]) ++ [new])
    (set_add_count (add_count Q + 1) (set_count (count Q + 1) (set_last (Some new) Q)))
    (<[k := set_qnext (Some new) nk]> h).
Proof.
  intros [] Hk Hnew Hn Hv Hq. split; cbn.
  - rewrite <-app_assoc. eapply chain_snoc_last; try done; by rewrite Hnew; simpl; rewrite ?Hq.
  - intros _. by rewrite last_snoc.
  - rewrite nodes_app, fmap_app. replace (add_count Q + 1 - get_count Q) with (add_count Q - get_count Q + 1) by lia.
    rewrite seqZ_app, <-ls_values0 by lia. f_equal.
    + apply nodes_map_ext. intros y Hy. destruct (decide (k = y)) as [<-|]; [by rewrite lookup_insert_eq, Hk|by rewrite lookup_insert_ne].
    + rewrite nodes_cons, lookup_insert_ne, Hnew by set_solver. cbn. rewrite Hv.
      by replace (get_count Q + (add_count Q - get_count Q)) with (add_count Q) by lia.
  - rewrite ls_count0, !length_app. simpl. lia.
  - lia.
Qed.
Lemma listed_one Q h new nd : listed [] Q h → h !! new = Some nd → val nd = add_count Q → qnext nd = NULL →
  listed [new] (set_add_count (add_count Q + 1) (set_count (count Q + 1)
    (set_first (Some new) (set_last (Some new) Q)))) h.
Proof.
  intros [] Hnew Hv Hq. simpl in *.
  assert (add_count Q = get_count Q) as Heq.
  { pose proof (f_equal length ls_values0) as Hl. rewrite length_seqZ in Hl. simpl in Hl. lia. }
  split; cbn; try lia; try done.
  - split; [done|]. by eexists.
  - rewrite Hnew. cbn. rewrite Hv, Heq. replace (get_count Q + 1 - get_count Q) with 1 by lia. done.
Qed.
(** The first one out *)
Lemma listed_remove k ls Q h nk : listed (k :: ls) Q h → h !! k = Some nk →
  val nk = get_count Q ∧ get_count Q < add_count Q ∧ first Q = Some k ∧ 0 < count Q ∧
  listed ls (set_get_count (get_count Q + 1) (set_count (count Q + -1) (set_first (qnext nk) Q))) (delete k h).
Proof.
  intros [] Hk. pose proof (chain_NoDup _ _ _ _ ls_chain0) as [Hnk _]%NoDup_cons.
  simpl in ls_chain0. destruct ls_chain0 as (Hf & nk' & Hk' & Hch). assert (nk' = nk) as -> by congruence.
  rewrite nodes_cons, Hk in ls_values0.
  assert (0 < add_count Q - get_count Q) as Hpos.
  { destruct (decide (0 < add_count Q - get_count Q)); [done|]. rewrite seqZ_nil in ls_values0 by lia. done. }
  rewrite seqZ_cons in ls_values0 by done. injection ls_values0 as Hv Hr.
  simpl in ls_count0. split_and!; [done|lia|done|lia|]. split; cbn; try lia.
  - by apply chain_delete_notin.
  - intros Hls. rewrite ls_last0 by done. by destruct ls.
  - etransitivity; [|etransitivity; [exact Hr|f_equal; lia]].
    apply nodes_map_ext. intros y Hy. by rewrite lookup_delete_ne by set_solver.
Qed.

(** ** The critical sections *)

Lemma link_safe n ls Q h new nd w P s k :
  holding 1 Q h w P s → listed ls Q h → h !! new = Some nd → new ∉ ls →
  val nd = add_count Q → qnext nd = NULL → count Q < max →
  (∀ m s' Q' h', (m ≤ n)%nat → holding 1 Q' h' w P s' → listed (ls ++ [new]) Q' h' →
     add_count Q' = add_count Q + 1 → get_count Q' = get_count Q → safe m 1 (k tt) s') →
  safe n 1 (on_core (Queue.link_node (Some l) (Some new)) ≫= k) s.
Proof.
  intros Hh Hls Hnew Hn Hv Hq Hc Hk. unfold Queue.link_node.
  assert (0 <= count Q) as Hc0 by (destruct Hls; lia).
  cnorm. eapply holder_get; [lia|done..|]. intros m1 s1 Hm1 Hs1.
  destruct ls as [|k' ls] using rev_ind.
  - destruct (listed_weaken [] Q h h ltac:(done) Hls) as [Hch _ _ _ _]. simpl in Hch. rewrite Hch. cnorm.
    eapply holder_set; [lia|done|done|cbn; lia|done|done|]. intros m2 s2 Hm2 Hs2. cnorm.
    eapply holder_set; [lia|done|done|cbn; lia|done|done|]. intros m3 s3 Hm3 Hs3. cnorm.
    eapply holder_bump; [lia|done|done|done|cbn; split_and!; lia|].  intros m4 s4 Hm4 Hs4. cnorm.
    eapply holder_bump; [lia|done|done|done|cbn; split_and!; try done; lia|]. intros m5 s5 Hm5 Hs5.
    eapply (Hk _ _ _ _); [lia|done| |done..]. exact (listed_one Q h new nd Hls Hnew Hv Hq).
  - clear IHls. destruct (chain_lookup _ _ _ _ _ k' (ls_chain _ _ _ Hls)) as [nk Hk']; [set_solver|].
    assert (∃ x, first Q = Some x) as [x Hx].
    { rewrite (chain_head _ _ _ _ (ls_chain _ _ _ Hls)). destruct ls; eauto. }
    assert (last_ Q = Some k') as Hla.
    { rewrite (ls_last _ _ _ Hls), last_snoc; [done|by destruct ls]. }
    rewrite Hx. cnorm. eapply holder_get; [lia|done..|]. intros m2 s2 Hm2 Hs2. rewrite Hla. cnorm.
    eapply holder_node_set; [lia|done..|]. intros m3 s3 Hm3 Hs3. cnorm.
    eapply holder_get; [lia|done..|]. intros m4 s4 Hm4 Hs4. rewrite Hla. cnorm.
    eapply holder_node_get; [lia|done|apply lookup_insert_eq|]. intros m5 s5 Hm5 Hs5. cnorm.
    eapply holder_set; [lia|done|done|cbn; lia|done|done|]. intros m6 s6 Hm6 Hs6. cnorm.
    eapply holder_bump; [lia|done|done|done|cbn; split_and!; lia|]. intros m7 s7 Hm7 Hs7. cnorm.
    eapply holder_bump; [lia|done|done|done|cbn; split_and!; try done; lia|]. intros m8 s8 Hm8 Hs8.
    eapply (Hk _ _ _ _); [lia|done| |done..].
    exact (listed_append ls Q h new nd k' nk Hls Hk' Hnew Hn Hv Hq).
Qed.

Lemma dequeue_safe n k' ls Q h w P s k :
  holding 0 Q h w P s → listed (k' :: ls) Q h → count Q <= max →
  (∀ m s' Q' h', (m ≤ n)%nat → holding 0 Q' h' w P s' → listed ls Q' h' →
     add_count Q' = add_count Q → get_count Q' = get_count Q + 1 → safe m 0 (k (get_count Q)) s') →
  safe n 0 (on_core (Queue.dequeue (Some l)) ≫= k) s.
Proof.
  intros Hh Hls Hc Hk. unfold Queue.dequeue, Queue.take_first.
  destruct (chain_lookup _ _ _ _ _ k' (ls_chain _ _ _ Hls)) as [nk Hk']; [set_solver|].
  destruct (listed_remove k' ls Q h nk Hls Hk') as (Hv & Hlt & Hf & Hpos & Hls').
  cnorm. eapply holder_get; [lia|done..|]. intros m1 s1 Hm1 Hs1. rewrite Hf. cnorm.
  eapply holder_node_get; [lia|done|done|]. intros m2 s2 Hm2 Hs2. rewrite Hv. cnorm.
  eapply holder_get; [lia|done..|]. intros m3 s3 Hm3 Hs3. rewrite Hf. cnorm.
  eapply holder_node_get; [lia|done|done|]. intros m4 s4 Hm4 Hs4. cnorm.
  eapply holder_set; [lia|done|done|cbn; lia|done|done|]. intros m5 s5 Hm5 Hs5. cnorm.
  eapply holder_node_free; [lia|done|done|done|cbn; lia|]. intros m6 s6 Hm6 Hs6. cnorm.
  eapply holder_bump; [lia|done|done|done|cbn; split_and!; try done; lia|]. intros m7 s7 Hm7 Hs7. cnorm.
  eapply holder_bump; [lia|done|done|done|cbn; split_and!; try done; lia|]. intros m8 s8 Hm8 Hs8. cnorm.
  eapply (Hk _ _ _ _); [lia|done|exact Hls'|done..].
Qed.

(** ** Between the critical sections *)

(** Thread [i] has waited, posted and counted as [v] says; the writer may have the
    node at [o] for the next value. *)
Definition outside (i : nat) (v : Z * Z * Z) (o : ptr) s : Prop :=
  owner s ≠ Some i ∧ view i s = Some v ∧
  ∀ p, o = Some p → i = 1%nat ∧ cells (qnodes (core s)) !! p = Some (Qnode v.2 NULL).

Lemma sem_outside_stable i v o s s' : outside i v o s → rely i s s' → outside i v o s'.
Proof.
  intros (Ho & Hv & Hn) (Hro & Hrv & _ & Hrn). split_and!.
  - by rewrite <-Hro.
  - by rewrite Hrv.
  - intros p Hp. destruct (Hn p Hp) as [-> Hnd]. split; [done|]. by eapply Hrn.
Qed.

Lemma outside_act {B} n i v o s (m : C zstate B) k : outside i v o s →
  (∀ s1, inv s1 → outside i v o s1 →
     match m i s1 with
     | Ok b s2 => inv s2 ∧ G i s1 s2 ∧ ∀ m', (m' ≤ n)%nat → safe m' i (k b) s2
     | Blocked => waits i s1
     | Fault e => e = Overflow ∨ e = Aborted
     end) →
  safe n i (Act m k) s.
Proof.
  intros Ho Hm. destruct n as [|n]; [done|]. apply safe_act. intros s1 HI HR.
  specialize (Hm s1 HI (sem_outside_stable _ _ _ _ _ Ho HR)).
  destruct (m i s1); [|done..]. destruct Hm as (HI' & HG & Hk). split_and!; [done..|]. apply Hk. lia.
Qed.

Lemma same_ok i s : inv s → inv s ∧ G i s s.
Proof. intros HI. split; [done|]. intros j _. apply rely_refl. Qed.
Lemma set_core_same s : Shared (core s) (sync s) = s.
Proof. by destruct s. Qed.

Section outside_rules.
Context (n i : nat) (v : Z * Z * Z) (o : ptr) (s : zstate).
Context (Hi : (i < 2)%nat) (Hout : outside i v o s).

Lemma outside_get {A} (f : queue_t → A) k :
  (∀ m Q s', (m ≤ n)%nat → 0 <= count Q <= max → max_count Q = max → outside i v o s' → safe m i (k (f Q)) s') →
  safe n i (on_core (Queue.get (Some l) f) ≫= k) s.
Proof.
  intros Hk. cbn [on_core lift Queue.get mbind prog_bind pbind]. eapply outside_act; [done|]. intros s1 HI Ho.
  pose proof HI as [(Q & y & HQ & _ & Hc & Hm & _) _ _]. unfold lift_act, load. cbn. rewrite HQ, set_core_same.
  destruct (same_ok i s1 HI). split_and!; [done..|]. intros m Hm'. by apply Hk.
Qed.

Lemma outside_add mx a b k : (∀ m s', (m ≤ n)%nat → outside i v o s' → safe m i (k (a + b)) s') →
  safe n i (on_core (atomic (signed_add mx a b)) ≫= k) s.
Proof.
  intros Hk. cbn [on_core lift atomic mbind prog_bind pbind]. eapply outside_act; [done|]. intros s1 HI Ho.
  unfold lift_act, signed_add. destruct (decide _); [|by left]. cbn. rewrite set_core_same.
  destruct (same_ok i s1 HI). split_and!; [done..|]. intros m Hm'. by apply Hk.
Qed.

Lemma outside_assert b k : b = true → (∀ m s', (m ≤ n)%nat → outside i v o s' → safe m i (k tt) s') →
  safe n i (on_core (atomic (assert b)) ≫= k) s.
Proof.
  intros -> Hk. cbn [on_core lift atomic mbind prog_bind pbind]. eapply outside_act; [done|]. intros s1 HI Ho.
  unfold lift_act, assert. cbn. rewrite set_core_same.
  destruct (same_ok i s1 HI). split_and!; [done..|]. intros m Hm'. by apply Hk.
Qed.

(** The thread's own attempts *)
Lemma outside_attempt a k : (∀ m s', (m ≤ n)%nat → outside i v o s' → safe m i (k tt) s') →
  safe n i (on_core (Queue.set (Some l) (other (1 - i) a)) ≫= k) s.
Proof.
  intros Hk. cbn [on_core lift Queue.set atomic mbind prog_bind pbind]. eapply outside_act; [done|].
  intros s1 HI (Ho & Hv & Hn). pose proof HI as [(Q & y & HQ & Hy & _) _ _]. unfold lift_act, update. cbn. rewrite HQ.
  destruct (attempts_step i s1 a Q Hi HQ HI) as [HI' HG]. split_and!; [done..|]. intros m Hm. apply Hk; [done|].
  split; [done|]. split; [|done]. rewrite <-Hv. unfold view. cbn. rewrite Hy, HQ, lookup_insert_eq. cbn.
  by rewrite counted_attempts.
Qed.
End outside_rules.

(** The bumps of [add_entry] and [get_entry] *)
Lemma outside_bump n i v o s mx d fld setf k : (i < 2)%nat → outside i v o s →
  (∀ a, setf a = other (1 - i) a) →
  (∀ m s', (m ≤ n)%nat → outside i v o s' → safe m i (k tt) s') →
  safe n i (on_core (Queue.bump mx d (Some l) fld setf) ≫= k) s.
Proof.
  intros Hi Ho Hs Hk. unfold Queue.bump. cnorm.
  eapply outside_get; [done..|]. intros m1 Q s1 Hm1 _ _ Hs1. cnorm.
  eapply outside_add; [done..|]. intros m2 s2 Hm2 Hs2. rewrite Hs.
  eapply outside_attempt; [done..|]. intros m3 s3 Hm3 Hs3. apply Hk; [lia|done].
Qed.
Lemma add_entry_safe n v o s k : outside 1 v o s →
  (∀ m s', (m ≤ n)%nat → outside 1 v o s' → safe m 1 (k tt) s') →
  safe n 1 (on_core (QueueSemaphore.add_entry (Some l)) ≫= k) s.
Proof.
  intros Ho Hk. unfold QueueSemaphore.add_entry. cnorm.
  eapply outside_bump; [lia|done..|]. intros m1 s1 Hm1 Hs1. cnorm.
  eapply outside_get; [done|]. intros m2 Q s2 Hm2 HQ _ Hs2. cnorm.
  eapply outside_get; [done|]. intros m3 Q' s3 Hm3 _ HQ' Hs3. cnorm.
  eapply outside_assert; [done|by apply bool_decide_eq_true; lia|].
  intros m4 s4 Hm4 Hs4. apply Hk; [lia|done].
Qed.
Lemma get_entry_safe n v o s k : outside 0 v o s →
  (∀ m s', (m ≤ n)%nat → outside 0 v o s' → safe m 0 (k tt) s') →
  safe n 0 (on_core (QueueSemaphore.get_entry (Some l)) ≫= k) s.
Proof.
  intros Ho Hk. unfold QueueSemaphore.get_entry. cnorm.
  eapply outside_bump; [lia|done..|]. intros m1 s1 Hm1 Hs1. cnorm.
  eapply outside_get; [done|]. intros m2 Q s2 Hm2 HQ _ Hs2. cnorm.
  eapply outside_assert; [done|by apply bool_decide_eq_true; lia|].
  intros m4 s4 Hm4 Hs4. apply Hk; [lia|done].
Qed.

(** ** The mutex and the semaphores *)

(** A step of thread [i] on them *)
Lemma sems_act n i m k s : (i < 2)%nat →
  (∀ s1 y Q, inv s1 → rely i s s1 → sync s1 !! l = Some y → cells (queues (core s1)) !! l = Some Q →
     match m i y with
     | Ok _ y' => sems_step i Q (core s1) y y' ∧ ∀ m', (m' ≤ n)%nat → safe m' i (k tt) (set_sems y' s1)
     | Blocked => waits i s1
     | Fault e => False
     end) →
  safe n i (QueueSemaphore.on_sems (Some l) m ≫= k) s.
Proof.
  intros Hi Hm. destruct n as [|n]; [done|]. cbn [QueueSemaphore.on_sems on_sync lift atomic mbind prog_bind pbind].
  apply safe_act. intros s1 HI HR. pose proof HI as [(Q & y & HQ & Hy & _) _ _].
  specialize (Hm s1 y Q HI HR Hy HQ). unfold lift_act, at_ptr. rewrite Hy.
  destruct (m i y) as [[] y'| |e]; [|done..]. destruct Hm as [Hst Hk].
  destruct (sems_step_ok i s1 Q y y' Hi HQ Hy Hst HI) as [HI' HG]. split_and!; [done..|]. apply Hk. lia.
Qed.

Lemma holding_set_sems i Q h w P y s : sem_lock y = Some i → knows i Q h (core s) → waited i y = w →
  P = (empty_posts y, full_posts y) → holding i Q h w P (set_sems y s).
Proof.
  intros Hl Hk Hw ->. split; unfold owner, posts; cbn; rewrite ?lookup_insert_eq; [done..| |done].
  by eexists.
Qed.
Lemma outside_set_sems i Q v o y s : (i < 2)%nat → sem_lock y ≠ Some i → cells (queues (core s)) !! l = Some Q →
  (waited i y, posted i y, counted i Q) = v →
  (∀ p, o = Some p → i = 1%nat ∧ cells (qnodes (core s)) !! p = Some (Qnode v.2 NULL)) →
  outside i v o (set_sems y s).
Proof.
  intros Hi Hl HQ <- Ho. split; [|split; [|done]].
  - unfold owner. cbn. by rewrite lookup_insert_eq.
  - unfold view. cbn. rewrite lookup_insert_eq, HQ. cbn. by rewrite decide_True.
Qed.

Definition wait_sem (i : nat) : C sems unit :=
  match i with O => in_full sem_wait | _ => in_empty sem_wait end.
Definition post_sem (i : nat) : C sems unit := match i with O => post_empty | _ => post_full end.

(** Thread [i] takes a value, or a place, or waits. *)
Lemma wait_safe n i x o s k : (i < 2)%nat → outside i (x, x, x) o s →
  (∀ m s', (m ≤ n)%nat → outside i (x + 1, x, x) o s' → safe m i (k tt) s') →
  safe n i (QueueSemaphore.on_sems (Some l) (wait_sem i) ≫= k) s.
Proof.
  intros Hi Ho Hk. apply sems_act; [done|]. intros s1 y Q HI HR Hy HQ.
  destruct (sem_outside_stable _ _ _ _ _ Ho HR) as (Ho1 & Hv1 & Hn1).
  pose proof Hv1 as Hv. unfold view in Hv. rewrite Hy, HQ in Hv. cbn in Hv. rewrite decide_True in Hv by done.
  destruct HI as [(Q0 & y0 & HQ0 & Hy0 & _ & _ & He & Hf & Hfree) _ _].
  assert (Q0 = Q) as -> by congruence. assert (y0 = y) as -> by congruence.
  destruct i as [|[|]]; [| |lia].
  all: unfold wait_sem, in_full, in_empty, sem_wait; cbv beta iota; destruct (decide _) as [Hp|Hp]; cbn [full empty];
    [|split; [done|]; right; exists y, Q; split_and!; [done..|cbn in *; lia|congruence]].
  all: injection Hv as Hw Hpo Hcn; (split;
    [split; cbn; try done; try lia; intros [|[|]]; cbn; lia|]).
  all: intros m' Hm'; apply Hk; [done|]; apply (outside_set_sems _ Q); [done| |done| |exact Hn1].
  all: try (unfold owner in Ho1; rewrite Hy in Ho1; exact Ho1).
  all: cbn in *; do 3 f_equal; lia.
Qed.

(** The writer allocates the node of the next value. *)
Lemma new_node_safe n w p x s k : outside 1 (w, p, x) None s →
  (∀ m s' new, (m ≤ n)%nat → outside 1 (w, p, x) (Some new) s' → safe m 1 (k (Some new)) s') →
  safe n 1 (on_core (Queue.new_node x) ≫= k) s.
Proof.
  intros Ho Hk. cbn [Queue.new_node on_core lift atomic mbind prog_bind pbind].
  eapply outside_act; [done|]. intros s1 HI (Ho1 & Hv1 & _). unfold lift_act.
  destruct (decide (malloc_fails (core s1))) as [Hm|Hm].
  - rewrite malloc_null by done. destruct HI as [(Q & y & HQ & Hy & HI) He Hown].
    split; [split; [by exists Q, y|done..]|]. split; [by intros j _|].
    intros [|m] Hm'; [done|]. apply safe_act. intros s2 HI2 _. by right.
  - rewrite malloc_ok by (try apply _; done). set (new := fresh_loc _). cbn.
    destruct HI as [(Q & y & HQ & Hy & Hc & Hmx & Hem & Hfu & Hfree) He Hown].
    assert (cells (qnodes (core s1)) ⊆ <[new := Qnode x NULL]> (cells (qnodes (core s1)))) as Hsub.
    { apply insert_subseteq. apply fresh_loc_none. }
    split; [|split].
    + split; [|done|done]. exists Q, y. split_and!; try done; try lia. intros Hl.
      destruct (Hfree Hl) as (ls & Hls & Hp). exists ls. split; [by eapply listed_weaken|done].
    + intros j Hj. split; [done|]. split; [done|]. split; [|done]. intros _. split; [done|].
      intros Q' h [Hq Hh]. split; [done|]. etransitivity; [done|exact Hsub].
    + intros m Hm'. cbv iota. apply Hk; [done|]. split; [done|]. split; [done|]. intros ? [= <-]. split; [done|].
      cbn. by rewrite lookup_insert_eq.
Qed.

(** What thread [i] may have waited in all *)
Definition budget (i : nat) Q : Z := match i with O => add_count Q | _ => max + get_count Q end.

Lemma lock_safe n i w p x o s k : (i < 2)%nat → outside i (w, p, x) o s →
  (∀ m s' ls Q h, (m ≤ n)%nat → holding i Q h w (get_count Q, add_count Q) s' → listed ls Q h →
     counted i Q = x → w <= budget i Q → count Q <= max →
     (∀ new, o = Some new → h !! new = Some (Qnode x NULL)) → safe m i (k tt) s') →
  safe n i (QueueSemaphore.lock (Some l) ≫= k) s.
Proof.
  intros Hi Ho Hk. apply sems_act; [done|]. intros s1 y Q HI HR Hy HQ.
  destruct (sem_outside_stable _ _ _ _ _ Ho HR) as (Ho1 & Hv1 & Hn1).
  pose proof Hv1 as Hv. unfold view in Hv. rewrite Hy, HQ in Hv. cbn in Hv. rewrite decide_True in Hv by done.
  injection Hv as Hw Hp Hx.
  destruct HI as [(Q0 & y0 & HQ0 & Hy0 & Hc & Hmx & He & Hf & Hfree) _ Hown].
  assert (Q0 = Q) as -> by congruence. assert (y0 = y) as -> by congruence.
  assert (owner s1 = sem_lock y) as Hos by (unfold owner; by rewrite Hy).
  unfold in_lock, mutex_lock. destruct (sem_lock y) as [j|] eqn:Hj.
  { split; [done|left]. rewrite Hos. specialize (Hown j Hos). rewrite Hos in Ho1. f_equal.
    assert (j ≠ i) by congruence. lia. }
  destruct (Hfree eq_refl) as (ls & Hls & Hpe & Hpf). split.
  { split; cbn; try done; try lia. intros j Hne. split; congruence. }
  intros m Hm. apply (Hk m _ ls Q (cells (qnodes (core s1)))); try done; try lia.
  - apply holding_set_sems; [done| |by destruct i|cbn; congruence].
    split; [|done]. rewrite HQ.
    destruct i; [exists (add_attempts Q)|exists (get_attempts Q)]; by destruct Q.
  - rewrite <-Hw. destruct i; cbn; lia.
  - intros new Hnew. by destruct (Hn1 new Hnew).
Qed.

(** The posts after one of thread [i] *)
Definition post_by (i : nat) (P : Z * Z) : Z * Z :=
  match i with O => (P.1 + 1, P.2) | _ => (P.1, P.2 + 1) end.

Lemma post_safe n i Q h w P s k : (i < 2)%nat → holding i Q h w P s →
  (∀ m s', (m ≤ n)%nat → holding i Q h w (post_by i P) s' → safe m i (k tt) s') →
  safe n i (QueueSemaphore.on_sems (Some l) (post_sem i) ≫= k) s.
Proof.
  intros Hi Hh Hk. apply sems_act; [done|]. intros s1 y Q1 HI HR Hy HQ.
  destruct (sem_holding_stable _ _ _ _ _ _ _ Hi Hh HR HI) as [Ho Hkn (y0 & Hy0 & Hw) HP].
  assert (y0 = y) as -> by congruence. unfold owner in Ho. rewrite Hy in Ho. cbn in Ho.
  unfold posts in HP. rewrite Hy in HP. injection HP as <-.
  destruct HI as [(Q2 & y2 & _ & Hy2 & _ & _ & He & Hf & _) _ _]. assert (y2 = y) as -> by congruence.
  destruct i as [|[|]]; [| |lia].
  all: unfold post_sem, post_empty, post_full, in_empty, in_full, sem_post, modify, mbind, C_bind;
    cbn [sem_lock empty full empty_posts full_posts]; split;
    [split; cbn; try done; try lia; try congruence; intros [|[|]]; cbn; try lia; try congruence|].
  all: intros m Hm; apply Hk; [done|]; apply holding_set_sems; [done|done|cbn in *; lia|done].
Qed.

Lemma unlock_safe n i ls Q h w P s k : (i < 2)%nat → holding i Q h w P s → listed ls Q h →
  P = (get_count Q, add_count Q) →
  (∀ m s', (m ≤ n)%nat → outside i (w, counted i Q, counted i Q) None s' → safe m i (k tt) s') →
  safe n i (QueueSemaphore.unlock (Some l) ≫= k) s.
Proof.
  intros Hi Hh Hls -> Hk. apply sems_act; [done|]. intros s1 y Q1 HI HR Hy HQ.
  destruct (sem_holding_stable _ _ _ _ _ _ _ Hi Hh HR HI) as [Ho [[a Ha] Hsub] (y0 & Hy0 & Hw) HP].
  assert (y0 = y) as -> by congruence. unfold owner in Ho. rewrite Hy in Ho. cbn in Ho.
  unfold posts in HP. rewrite Hy in HP. injection HP as Hpe Hpf.
  assert (Q1 = other i a Q) as -> by congruence.
  destruct HI as [(Q2 & y2 & _ & Hy2 & _ & _ & He & Hf & _) _ _]. assert (y2 = y) as -> by congruence.
  unfold in_lock, mutex_unlock. rewrite decide_True by done. split.
  - split; cbn; try done; try lia.
    + intros j Hj. split; congruence.
    + intros _. exists ls. split; [by apply listed_attempts, (listed_weaken _ _ h)|].
      rewrite Hpe, Hpf. by destruct i.
  - intros m Hm. apply Hk; [done|]. apply (outside_set_sems _ (other i a Q)); [done..| |done].
    rewrite counted_attempts. destruct i as [|[|]]; cbn in *; congruence.
Qed.

(** ** The threads *)

Lemma listed_length ls Q h : listed ls Q h → count Q = add_count Q - get_count Q.
Proof.
  intros []. rewrite ls_count0. pose proof (f_equal length ls_values0) as Hl.
  rewrite length_fmap, length_seqZ, nodes_length in Hl; [lia|].
  intros k Hk. by eapply chain_lookup.
Qed.
(** The node of the next value is not in the list yet. *)
Lemma listed_fresh ls Q h new nd : listed ls Q h → h !! new = Some nd → val nd = add_count Q → new ∉ ls.
Proof.
  intros [] Hn Hv (j & Hj)%list_elem_of_lookup.
  assert ((val <$> nodes h ls) !! j = Some (val nd)) as Hl.
  { rewrite list_lookup_fmap. erewrite nodes_lookup; [done| |done..].
    intros k Hk. by eapply chain_lookup. }
  rewrite ls_values0 in Hl. apply lookup_seqZ in Hl. lia.
Qed.

Lemma sem_writer_safe n x s : outside 1 (x, x, x) None s → safe n 1 (Loop (λ i, pbind (ok ← QueueSemaphore.queue_add (Some l) i;
    if decide (ok = 0) then mret i else atomic (signed_add INT_MAX i 1)) (λ x', Ret (inl x' : Z + unit))) x Ret) s.
Proof.
  apply (safe_loop (λ x, outside 1 (x, x, x) None)); [intros; by eapply sem_outside_stable|].
  intros n' x' s' _. clear n x s. rename n' into n, x' into x, s' into s. intros Hout IH. unfold QueueSemaphore.queue_add. cnorm.
  eapply add_entry_safe; [done|]. intros m1 s1 Hm1 Hs1. cnorm.
  eapply (wait_safe _ 1); [lia|done|]. intros m2 s2 Hm2 Hs2. cnorm.
  eapply new_node_safe; [done|]. intros m3 s3 new Hm3 Hs3. cnorm.
  eapply lock_safe; [lia|done|]. intros m4 s4 ls Q h Hm4 Hs4 Hls Hx Hw Hc Hnew. cnorm.
  specialize (Hnew new eq_refl). cbn in Hx, Hw. pose proof (listed_length _ _ _ Hls) as Hlen.
  eapply link_safe; [done..| |done|done|lia|]; [by eapply listed_fresh|].
  intros m5 s5 Q5 h5 Hm5 Hs5 Hls5 Ha5 Hg5. cnorm.
  eapply (post_safe _ 1); [lia|done|]. intros m6 s6 Hm6 Hs6. cnorm.
  eapply unlock_safe; [lia|done|done|cbn; congruence|]. intros m7 s7 Hm7 Hs7. cbn.
  apply safe_signed_add; [by left|]. intros m8 s8 Hm8 HI8 HR8.
  apply IH; [lia|]. cbn in Hs7. rewrite Ha5, Hx in Hs7. by eapply sem_outside_stable.
Qed.

Lemma sem_reader_safe n x s : outside 0 (x, x, x) None s → safe n 0 (Loop (λ expected, pbind (
    r ← QueueSemaphore.queue_get (Some l) (-1);
    let '(ok, v) := r : Z * Z in
    if decide (ok = 0) then mret expected else
    (if decide (expected = v) then mret tt else print_error core set_core v expected);;
    atomic (signed_add INT_MAX v 1)) (λ x', Ret (inl x' : Z + unit))) x Ret) s.
Proof.
  apply (safe_loop (λ x, outside 0 (x, x, x) None)); [intros; by eapply sem_outside_stable|].
  intros n' x' s' _. clear n x s. rename n' into n, x' into x, s' into s. intros Hout IH. unfold QueueSemaphore.queue_get. cnorm.
  eapply get_entry_safe; [done|]. intros m1 s1 Hm1 Hs1. cnorm.
  eapply (wait_safe _ 0); [lia|done|]. intros m2 s2 Hm2 Hs2. cnorm.
  eapply lock_safe; [lia|done|]. intros m4 s4 ls Q h Hm4 Hs4 Hls Hx Hw Hc _. cnorm.
  cbn in Hx, Hw. pose proof (listed_length _ _ _ Hls) as Hlen.
  destruct ls as [|k ls]; [destruct Hls; cbn in *; lia|].
  eapply dequeue_safe; [done..|]. intros m5 s5 Q5 h5 Hm5 Hs5 Hls5 Ha5 Hg5. cnorm.
  eapply (post_safe _ 0); [lia|done|]. intros m6 s6 Hm6 Hs6. cnorm.
  eapply unlock_safe; [lia|done|done|cbn; congruence|]. intros m7 s7 Hm7 Hs7. cbn -[decide].
  rewrite decide_False by done. rewrite Hx, decide_True by done. cbn.
  apply safe_signed_add; [by left|]. intros m8 s8 Hm8 HI8 HR8.
  apply IH; [lia|]. cbn in Hs7. rewrite Hg5, Hx in Hs7. by eapply sem_outside_stable.
Qed.

Lemma sem_monitor_safe n s : safe n 2 (QueueSemaphore.qmonitor (Some l)) s.
Proof. apply (reads_safe l 2 (λ _, True)); [done| |by left|done]. intros s' _ [(Q & y & HQ & _) _ _]. by exists Q. Qed.

(** A reader and a writer never wait both. *)
Lemma sem_not_both_waiting s : inv s → waits 0 s → waits 1 s → False.
Proof.
  intros [(Q & y & HQ & Hy & Hc & Hm & He & Hf & Hfree) _ Hown] [Ho0 H0] [Ho1 H1]. cbn in H0, H1.
  destruct H0 as [H0|(y0 & Q0 & Hy0 & HQ0 & Hf0 & Hw0)]; [done|].
  destruct H1 as [H1|(y1 & Q1 & Hy1 & HQ1 & Hf1 & Hw1)]; [done|].
  assert (y0 = y) as -> by congruence. assert (y1 = y) as -> by congruence.
  assert (Q0 = Q) as -> by congruence. assert (Q1 = Q) as -> by congruence. cbn in *.
  assert (sem_lock y = None) as Hl.
  { destruct (sem_lock y) as [j|] eqn:Hj; [|done]. assert (owner s = Some j) as Ho by (unfold owner; by rewrite Hy).
    specialize (Hown j Ho). rewrite Ho in *. destruct j as [|[|]]; [done..|lia]. }
  destruct (Hfree Hl) as (ls & Hls & Hpe & Hpf). lia.
Qed.
End semaphores.


(** C4: The queue of lab2/src/2/queue_semaphore with one reader, one writer and its monitor, which work on
    it outside of the mutex too: from the state [queue_init (max)] leaves, max positive, in every
    interleaving, the reader gets 0, 1, 2, ... in order; the assertions hold: the count stays between 0 and
    max; whenever the mutex is free the list holds the values added and not yet taken, in order; no thread
    runs into a fault other than the overflow of a counter or the [abort] of a failed allocation; and there
    is no deadlock: the reader or the writer can always move. *)
Theorem semaphore_queue_correct max t : 0 < max <= INT_MAX →
  ∃ l s0, run 0 (QueueSemaphore.queue_init max) t zstart = Ok (Some l) s0 ∧
    ∀ s ths, steps (s0, QueueSemaphore.threads (Some l)) (s, ths) →
      errors (core s) = [] ∧
      (∃ Q, cells (queues (core s)) !! l = Some Q ∧ 0 <= count Q <= max ∧
         (sem_lock <$> sync s !! l = Some None → ∃ ls, listed ls Q (cells (qnodes (core s))))) ∧
      (∀ e, faulty (s, ths) e → e = Overflow ∨ e = Aborted) ∧ can_move 2 (s, ths).
Proof.
  intros Hmax. destruct (sem_init_run 0 t max) as (s0 & Hi & (Q & ls & HQ & Hh & _) & Hsync & _ & He).
  exists 1%positive, s0. split; [done|]. intros s ths Hsteps.
  pose proof (only_lookup _ _ _ HQ) as Hl.
  assert (sync s0 !! 1%positive = Some (Sems None max 0 0 0)) as Hy by (by rewrite Hsync, lookup_singleton_eq).
  destruct Hh as [Hch Hla Hit Hc Hm _ _ Ha Hg]. simpl in *.
  assert (owner 1 s0 = None) as Ho by (unfold owner; by rewrite Hy).
  assert (inv 1 max s0) as HI.
  { split; [|done|by rewrite Ho]. exists Q, (Sems None max 0 0 0). split_and!; try done; simpl; try lia.
    intros _. exists ls. rewrite Ha, Hg. split; [|done]. split; try done; try lia.
    - by rewrite Hit, Ha, Hg.
    - rewrite Hc. destruct ls as [|k ls]; [done|]. destruct Hch as (_ & nd & Hnd & _).
      rewrite nodes_cons, Hnd in Hit. done. }
  assert (∀ i, (i < 2)%nat → outside 1 max i (0, 0, 0) None s0) as Hout.
  { intros i Hi2. split; [by rewrite Ho|]. split; [|done]. unfold view. rewrite Hy, Hl. simpl.
    destruct (decide _) as [_|]; [|lia]. f_equal. destruct i; cbn; [rewrite Hg|rewrite Ha]; do 2 f_equal; lia. }
  destruct (rg_sound (H:=sem_rg 1 max) (s0, QueueSemaphore.threads (Some 1%positive)) (s, ths))
    as (HI' & Hf & Hb); [|done|].
  { split; [done|]. intros n i p Hp. simpl. destruct i as [|[|[|i]]]; simplify_eq/=.
    - apply sem_reader_safe; [lia|]. apply Hout. lia.
    - apply sem_writer_safe; [lia|]. apply Hout. lia.
    - by apply sem_monitor_safe. }
  pose proof HI' as [(Q' & y & HQ' & Hy' & Hc' & _ & _ & _ & Hfree) Herr _].
  split; [done|]. split; [|split; [done|]].
  { exists Q'. split; [done|]. split; [done|]. simpl in Hy'. rewrite Hy'. simpl. intros [= Hlk].
    destruct (Hfree Hlk) as (ls' & Hls' & _). by exists ls'. }
  apply can_move_intro; [by rewrite (steps_length _ _ Hsteps); simpl; lia|].
  intros Hall. pose proof (steps_length _ _ Hsteps) as Hlen. simpl in Hlen.
  assert (∀ i, (i < 2)%nat → waits 1 max i s) as Hw.
  { intros i Hi2. destruct (lookup_lt_is_Some_2 ths i) as [p Hp]; [lia|].
    specialize (Hb i p Hp (Hall i p Hi2 Hp)). by destruct p. }
  apply (sem_not_both_waiting 1 max (proj1 Hmax) s HI'); apply Hw; lia.
Qed.

Example semaphore_queue_correct_witness :
  ∃ l s0, run 0 (QueueSemaphore.queue_init 1000000) 5%nat zstart = Ok (Some l) s0 ∧
    ∀ s ths, steps (s0, QueueSemaphore.threads (Some l)) (s, ths) →
      errors (core s) = [] ∧
      (∃ Q, cells (queues (core s)) !! l = Some Q ∧ 0 <= count Q <= 1000000 ∧
         (sem_lock <$> sync s !! l = Some None → ∃ ls, listed ls Q (cells (qnodes (core s))))) ∧
      (∀ e, faulty (s, ths) e → e = Overflow ∨ e = Aborted) ∧ can_move 2 (s, ths).
Proof. apply (semaphore_queue_correct 1000000 5). unfold INT_MAX. lia. Defined.
