(* ===== verification/QueueThreads.v ===== *)
(** QueueThreads: the program of lab2/src/2/queue_threads.c as a whole: [main]
    creates the reader and the writer, cancels and joins them, and destroys the
    queue; over the queue with a mutex and the queue with condition variables. *)
From S2P Require Import Prelude Links Threads Pthread Queue QueueLock QueueMutex QueueCondvar.
From Stdlib Require Import FunctionalExtensionality.

#[local] Open Scope Z_scope.

(** * Threads that are created, cancelled and joined *)

(** The objects the queues synchronise on; the threads that were created, that
    were asked to terminate and that have; what [main] returned. Auxiliary:
    [main] has begun to destroy the queue. *)
Record procs (X : Type) := Procs {
  locks : X;
  created : gset nat;
  cancelled : gset nat;
  exited : gset nat;
  result : option Z;
  destroying : bool;
}.
Arguments Procs {X}.
Arguments locks {X}.
Arguments created {X}.
Arguments cancelled {X}.
Arguments exited {X}.
Arguments result {X}.
Arguments destroying {X}.

(** The threads *)
Definition READER : nat := 0.
Definition WRITER : nat := 1.
Definition MONITOR : nat := 2.
Definition MAIN : nat := 3.

Section process.
Context {X : Type}.
Implicit Types (y : procs X).

Definition set_locks (m : X) y := Procs m (created y) (cancelled y) (exited y) (result y) (destroying y).

(** A program on the queue and its lock *)
Definition on_queue {A} : prog (shared X) A → prog (shared (procs X)) A :=
  lift (λ s, Shared (core s) (locks (sync s))) (λ c s, Shared (core c) (set_locks (sync c) (sync s))).

Definition on_procs {A} (m : C (procs X) A) : prog (shared (procs X)) A := on_sync (atomic m).

Definition pthread_create (i : nat) : C (procs X) unit := λ _ y,
  Ok tt (Procs (locks y) (created y ∪ {[i]}) (cancelled y) (exited y) (result y) (destroying y)).
(** A request; it is acted upon at a cancellation point. *)
Definition pthread_cancel (i : nat) : C (procs X) unit := λ _ y,
  Ok tt (Procs (locks y) (created y) (cancelled y ∪ {[i]}) (exited y) (result y) (destroying y)).
Definition pthread_join (i : nat) : C (procs X) unit := λ _ y,
  if decide (i ∈ exited y) then Ok tt y else Blocked.
(** Has the running thread been asked to terminate? *)
Definition pthread_testcancel : C (procs X) bool := λ t y, Ok (bool_decide (t ∈ cancelled y)) y.

(** A thread runs once it was created, and ends. *)
Definition started : C (procs X) unit := λ t y, if decide (t ∈ created y) then Ok tt y else Blocked.
Definition thread_exit : C (procs X) unit := λ t y,
  Ok tt (Procs (locks y) (created y) (cancelled y) (exited y ∪ {[t]}) (result y) (destroying y)).
Definition set_result (r : Z) : C (procs X) unit := λ _ y,
  Ok tt (Procs (locks y) (created y) (cancelled y) (exited y) (Some r) (destroying y)).
Definition set_destroying : C (procs X) unit := λ _ y,
  Ok tt (Procs (locks y) (created y) (cancelled y) (exited y) (result y) true).

(** [while (1) { pthread_testcancel (); round }]; a round may itself end at a
    cancellation point, and then has no result. *)
Definition until_cancelled {Y} (round : Y → prog (shared (procs X)) (option Y)) (x : Y) :
    prog (shared (procs X)) unit :=
  Loop (λ x,
    c ← on_procs pthread_testcancel;
    if (c : bool) then mret (inr tt) else
    r ← round x;
    mret (match r with Some x' => inl x' | None => inr tt end)) x Ret.
Definition thread_of (body : prog (shared (procs X)) unit) : prog (shared (procs X)) unit :=
  on_procs started;;
  body;;
  on_procs thread_exit.

(** The queue's operations, [None] when the thread was cancelled in a call *)
Context (queue_get : ptr → Z → prog (shared (procs X)) (option (Z * Z))).
Context (queue_add : ptr → Z → prog (shared (procs X)) (option Z)).
Context (lock_queue : ptr → prog (shared X) unit) (free_lock : ptr → prog (shared X) unit).

Definition reader_step (q : ptr) (expected : Z) : prog (shared (procs X)) (option Z) :=
  r ← queue_get q (-1);
  match r with
  | None => mret None
  | Some r => x ← reader_next core set_core expected r; mret (Some x)
  end.
Definition reader_body (q : ptr) : prog (shared (procs X)) unit := until_cancelled (reader_step q) 0.
Definition reader (q : ptr) : prog (shared (procs X)) unit := thread_of (reader_body q).

Definition writer_step (q : ptr) (i : Z) : prog (shared (procs X)) (option Z) :=
  ok ← queue_add q i;
  match ok with
  | None => mret None
  | Some ok => x ← writer_next i ok; mret (Some x)
  end.
Definition writer_body (q : ptr) : prog (shared (procs X)) unit := until_cancelled (writer_step q) 0.
Definition writer (q : ptr) : prog (shared (procs X)) unit := thread_of (writer_body q).

(** The monitor's [sleep] is a cancellation point. *)
Definition qmonitor (q : ptr) : prog (shared (procs X)) unit :=
  thread_of (Loop (λ _ : unit,
    _ ← on_core (Queue.queue_print_stats q);
    c ← on_procs pthread_testcancel;
    mret (if (c : bool) then inr tt else inl tt)) tt Ret).

Definition queue_destroy (q : ptr) : prog (shared (procs X)) unit :=
  match q with
  | None => mret tt
  | Some _ =>
      on_procs set_destroying;;
      on_queue (lock_queue q);;
      on_procs (pthread_cancel MONITOR);;
      on_procs (pthread_join MONITOR);;
      on_core (Queue.stop_monitor q);;
      on_core (Queue.free_nodes q);;
      on_core (atomic (free queue_t q));;
      on_queue (free_lock q)
  end.

(** [main] after [queue_init], with the answers of its two [pthread_create] *)
Definition main (ok1 ok2 : bool) (q : ptr) : prog (shared (procs X)) unit :=
  r ←
    (if ok1 then
       on_procs (pthread_create READER);;
       if ok2 then
         on_procs (pthread_create WRITER);;
         on_procs (pthread_cancel READER);;
         on_procs (pthread_cancel WRITER);;
         on_procs (pthread_join READER);;
         on_procs (pthread_join WRITER);;
         queue_destroy q;;
         mret 0
       else queue_destroy q;; mret 1
     else queue_destroy q;; mret 1);
  on_procs (set_result r).

Definition program (ok1 ok2 : bool) (q : ptr) : list (prog (shared (procs X)) unit) :=
  [reader q; writer q; qmonitor q; main ok1 ok2 q].

(** The state [queue_init] leaves: the monitor runs. *)
Definition process_of (s : shared X) : shared (procs X) :=
  Shared (core s) (Procs (sync s) {[MONITOR]} ∅ ∅ None false).
End process.

(** ** The queue with a mutex *)

Module MutexProgram.
Definition queue_get (q : ptr) (old : Z) : prog (shared (procs mutexes)) (option (Z * Z)) :=
  r ← on_queue (QueueMutex.queue_get q old); mret (Some r).
Definition queue_add (q : ptr) (v : Z) : prog (shared (procs mutexes)) (option Z) :=
  ok ← on_queue (QueueMutex.queue_add q v); mret (Some ok).
Definition free_lock (q : ptr) : prog mstate unit := on_sync (atomic (free_at q)).
Definition program : bool → bool → ptr → list (prog (shared (procs mutexes)) unit) :=
  program queue_get queue_add QueueMutex.pthread_mutex_lock free_lock.
End MutexProgram.

(** ** The queue with condition variables *)

Module CondvarProgram.
(** A thread that waits is woken by a signal or by a request to terminate, which
    it acts upon: the answer. *)
Definition cond_block (cv : nat) (q : ptr) : C (procs monitors) bool := λ t y,
  if decide (t ∈ cancelled y) then
    match at_ptr q (λ _ m, Ok tt (Monitor (held m) (alter (filter (λ j, j ≠ t)) cv (waiting m)))) t (locks y) with
    | Ok _ m => Ok true (set_locks m y) | Blocked => Blocked | Fault e => Fault e
    end
  else
    match at_ptr q (Pthread.cond_block cv) t (locks y) with
    | Ok _ m => Ok false (set_locks m y) | Blocked => Blocked | Fault e => Fault e
    end.
(** Either way it first locks the mutex; no cleanup handler unlocks it. *)
Definition pthread_cond_wait (cv : nat) (q : ptr) : prog (shared (procs monitors)) (option unit) :=
  on_queue (on_sync (atomic (at_ptr q (cond_enter cv))));;
  c ← on_procs (cond_block cv q);
  on_queue (QueueCondvar.pthread_mutex_lock q);;
  mret (if (c : bool) then None else Some tt).

(** [while (cond) pthread_cond_wait (cv)]: has the condition come? *)
Definition wait_while (cv : nat) (cond : prog qstate bool) (q : ptr) : prog (shared (procs monitors)) bool :=
  Loop (λ _ : unit,
    b ← on_core cond;
    if (b : bool) then
      r ← pthread_cond_wait cv q;
      mret (match r with Some _ => inl tt | None => inr false end)
    else mret (inr true)) tt Ret.

Definition queue_get (q : ptr) (old : Z) : prog (shared (procs monitors)) (option (Z * Z)) :=
  on_queue (QueueCondvar.pthread_mutex_lock q);;
  w ← wait_while QueueCondvar.condvar_reader (QueueCondvar.is_empty q) q;
  if (w : bool) then r ← on_queue (QueueCondvar.get_one q old); mret (Some r) else mret None.
Definition queue_add (q : ptr) (v : Z) : prog (shared (procs monitors)) (option Z) :=
  on_queue (QueueCondvar.pthread_mutex_lock q);;
  w ← wait_while QueueCondvar.condvar_writer (QueueCondvar.is_full q) q;
  if (w : bool) then ok ← on_queue (QueueCondvar.add_one q v); mret (Some ok) else mret None.
Definition free_lock (q : ptr) : prog cstate unit := on_sync (atomic (free_at q)).
Definition program : bool → bool → ptr → list (prog (shared (procs monitors)) unit) :=
  program queue_get queue_add QueueCondvar.pthread_mutex_lock free_lock.
End CondvarProgram.

(** What the queue's operations do not touch *)
Definition others {X} (y : procs X) := (created y, cancelled y, exited y, result y, destroying y).

Section lifting.
Context {X : Type}.
Implicit Types (s : shared (procs X)).

Lemma on_queue_bind {A B} (p : prog (shared X) A) (f : A → prog (shared X) B) :
  on_queue (p ≫= f) = on_queue p ≫= λ a, on_queue (f a).
Proof. apply lift_bind. Qed.
Lemma on_queue_core {A} (p : prog qstate A) : on_queue (X:=X) (on_core p) = on_core p.
Proof.
  unfold on_queue, on_core. rewrite lift_lift. f_equal. apply functional_extensionality. intros c.
  apply functional_extensionality. by intros [? []].
Qed.
Lemma keeps_on_queue {A} (P : shared (procs X) → shared (procs X) → Prop) i (p : prog (shared X) A) :
  (∀ s s', others (sync s') = others (sync s) → P s s') → keeps P i (on_queue p).
Proof. intros HP. eapply keeps_lift; [|apply keeps_any]. intros c s _. by apply HP. Qed.
End lifting.

#[export] Program Instance procs_mutex_lock l : Lock (procs mutexes) l := {|
  acquire q := on_queue (QueueMutex.pthread_mutex_lock q);
  release q := on_queue (QueueMutex.pthread_mutex_unlock q);
  owner y := default None (locks y !! l);
  ready y := ∃ h, locks y = {[l := h]};
  same y y' := others y = others y';
|}.
Next Obligation.
  intros l HRG n i s k Hr Hw Hk. destruct n as [|n]; [done|]. apply safe_act. intros s1 HI HR.
  destruct (Hr s1 HI) as [m Hm]. specialize (Hw s1 HI HR). cbv beta in Hw.
  unfold lift_act, at_ptr. simpl. rewrite Hm, lookup_singleton_eq in *.
  destruct m as [j|]; simpl; [by apply Hw|].
  apply Hk; [lia|done|done|by rewrite Hm, lookup_singleton_eq|..|done]; simpl; rewrite insert_singleton_eq.
  - by rewrite lookup_singleton_eq.
  - by eexists.
Qed.
Next Obligation.
  intros l HRG n i s k Hr Ho Hk. destruct n as [|n]; [done|]. apply safe_act. intros s1 HI HR.
  destruct (Hr s1 HI) as [m Hm]. specialize (Ho s1 HR). cbv beta in Ho.
  unfold lift_act, at_ptr, mutex_unlock. simpl. rewrite Hm, lookup_singleton_eq in *. simpl in Ho. subst m.
  rewrite decide_True by done.
  apply Hk; [lia|done|done|..|done]; simpl; rewrite insert_singleton_eq.
  - by rewrite lookup_singleton_eq.
  - by eexists.
Qed.

Lemma mutex_add_locked l q v : on_queue (QueueMutex.queue_add q v) = locked_add (H:=procs_mutex_lock l) l q v.
Proof.
  unfold QueueMutex.queue_add, locked_add. rewrite on_queue_bind. f_equal.
  apply functional_extensionality. intros _. rewrite on_queue_bind, on_queue_core. f_equal.
  apply functional_extensionality. intros [|]; rewrite !on_queue_bind; [done|].
  by rewrite on_queue_core.
Qed.
Lemma mutex_get_locked l q v : on_queue (QueueMutex.queue_get q v) = locked_get (H:=procs_mutex_lock l) l q v.
Proof.
  unfold QueueMutex.queue_get, locked_get. rewrite on_queue_bind. f_equal.
  apply functional_extensionality. intros _. rewrite on_queue_bind, on_queue_core. f_equal.
  apply functional_extensionality. intros [|]; rewrite !on_queue_bind; [done|].
  by rewrite on_queue_core.
Qed.

(** * The program with the mutex is correct *)

Section mutex_program.
Context (l : positive) (max : Z).
Implicit Types (s : shared (procs mutexes)) (y : procs mutexes) (c : qstate).

(** A thread is alive between its creation and its end, and ends without the
    mutex. *)
Definition living (i : nat) y : Prop := i ∈ created y ∧ i ∉ exited y.
Definition released (i : nat) y : Prop := owner (Lock:=procs_mutex_lock l) y ≠ Some i.
Lemma same_living i y y' : others y = others y' → living i y → living i y'.
Proof. unfold others, living. by intros [= -> _ -> _ _]. Qed.

(** While the queue lives, its threads are those of a queue under a lock. *)
Definition queue_rg : RG (shared (procs mutexes)) :=
  plain_rg (H:=procs_mutex_lock l) l max living released.
Abbreviation queue_inv := (I (RG:=queue_rg)).
Abbreviation queue_rely := (R (RG:=queue_rg)).

Definition freed s : Prop :=
  cells (queues (core s)) = ∅ ∧ cells (qnodes (core s)) = ∅ ∧ locks (sync s) = ∅.

Record process_inv s : Prop := {
  pi_live : destroying (sync s) = false → queue_inv s;
  pi_dead i : destroying (sync s) = true → (i < 2)%nat → i ∈ created (sync s) → i ∈ exited (sync s);
  pi_monitor : MONITOR ∉ exited (sync s) → alive l (core s);
  pi_errors : errors (core s) = [];
  pi_result : result (sync s) ≠ None → destroying (sync s) = true ∧ freed s;
}.

Definition process_rely (i : nat) s s' : Prop :=
  (i ∈ exited (sync s) ↔ i ∈ exited (sync s')) ∧
  created (sync s) ⊆ created (sync s') ∧ exited (sync s) ⊆ exited (sync s') ∧
  (destroying (sync s) = true → destroying (sync s') = true) ∧
  ((i < 2)%nat → destroying (sync s') = false → queue_rely i s s') ∧
  (i = MAIN → created (sync s') = created (sync s) ∧ cancelled (sync s') = cancelled (sync s) ∧
     result (sync s') = result (sync s) ∧ destroying (sync s') = destroying (sync s) ∧
     (destroying (sync s) = true → core s' = core s ∧ locks (sync s') = locks (sync s) ∧
        (MONITOR ∈ exited (sync s) → exited (sync s') = exited (sync s)))).

(** The threads [main] may wait for: the monitor only once it destroys the queue *)
Definition awaited s (i : nat) : Prop := i ≠ MONITOR ∨ destroying (sync s) = true.
#[local] Instance awaited_dec s i : Decision (awaited s i).
Proof. unfold awaited. apply _. Defined.

(** Where a thread may have to wait: until it is created, for the mutex, to join *)
Definition process_waits (i : nat) s : Prop :=
  match i with
  | 0 | 1 => i ∉ created (sync s) ∨ wt (RG:=queue_rg) i s
  | 2 => False
  | _ => ∃ j, (j < 3)%nat ∧ (j ∈ created (sync s)) ∧ (j ∉ exited (sync s)) ∧ awaited s j
  end%nat.
Definition process_done (i : nat) s : Prop :=
  if decide (i < 3)%nat then i ∈ exited (sync s) else result (sync s) ≠ None.

Lemma process_rely_refl i s : process_rely i s s.
Proof. by split_and!. Qed.
Lemma process_rely_trans i s1 s2 s3 : process_rely i s1 s2 → process_rely i s2 s3 → process_rely i s1 s3.
Proof.
  intros (He & Hc & Hx & Hd & Hq & Hm) (He' & Hc' & Hx' & Hd' & Hq' & Hm'). split_and!.
  - by rewrite He.
  - set_solver.
  - set_solver.
  - auto.
  - intros Hi Hf. assert (destroying (sync s2) = false) as Hf2.
    { destruct (destroying (sync s2)) eqn:E; [|done]. rewrite Hd' in Hf by done. done. }
    eapply (R_trans (RG:=queue_rg)); [by apply Hq|by apply Hq'].
  - intros Hi. destruct (Hm Hi) as (H1 & H2 & H3 & H4 & H5), (Hm' Hi) as (H1' & H2' & H3' & H4' & H5').
    split_and!; [congruence..|]. intros Hdes. destruct (H5 Hdes) as (Hc1 & Hl1 & He1).
    rewrite H4 in H5'. destruct (H5' Hdes) as (Hc2 & Hl2 & He2). split_and!; [congruence..|].
    intros Hmo. rewrite He2; [by apply He1|]. by rewrite He1.
Qed.

#[local] Instance process_rg : RG (shared (procs mutexes)) := {|
  I := process_inv; R := process_rely; okf e := e = Overflow ∨ e = Aborted;
  wt := process_waits; fin := process_done;
  R_refl := process_rely_refl; R_trans := process_rely_trans |}.

(** ** The threads of the queue *)

Lemma testcancel_safe `{HR : RG (shared (procs mutexes))} n i s k :
  (∀ m b s', (m ≤ n)%nat → I s' → R i s s' → safe m i (k b) s') →
  safe n i (on_procs pthread_testcancel ≫= k) s.
Proof.
  intros Hk. destruct n as [|n]; [done|]. apply safe_act. intros s1 HI HR1. unfold lift_act. simpl.
  replace (Shared (core s1) (sync s1)) with s1 by (by destruct s1).
  split; [done|]. split; [intros j _; apply R_refl|]. apply Hk; [lia|done..].
Qed.

(** A round over the queue with the mutex is the round of QueueLock. *)
Lemma mutex_reader_step x (k : option Z → prog (shared (procs mutexes)) unit) :
  pbind (reader_step MutexProgram.queue_get (Some l) x) k =
  pbind (reader_round core set_core (locked_get (H:=procs_mutex_lock l) l) (Some l) x) (λ x', k (Some x')).
Proof.
  unfold reader_step, reader_round, MutexProgram.queue_get. rewrite (mutex_get_locked l). pnorm.
  f_equal. apply functional_extensionality. intros r. cbn. by rewrite pbind_assoc.
Qed.
Lemma mutex_writer_step x (k : option Z → prog (shared (procs mutexes)) unit) :
  pbind (writer_step MutexProgram.queue_add (Some l) x) k =
  pbind (writer_round (locked_add (H:=procs_mutex_lock l) l) (Some l) x) (λ x', k (Some x')).
Proof.
  unfold writer_step, writer_round, MutexProgram.queue_add. rewrite (mutex_add_locked l). pnorm.
  f_equal. apply functional_extensionality. intros r. cbn. by rewrite pbind_assoc.
Qed.

(** A loop that ends on a request is safe if one round is. *)
Lemma until_cancelled_safe {Y} (at_ : Y → shared (procs mutexes) → Prop) n i round x s :
  (∀ x s s', at_ x s → queue_rely i s s' → at_ x s') →
  (∀ x s, at_ x s → released i (sync s)) →
  (∀ n x s k, at_ x s → (∀ m x' s', (m ≤ n)%nat → at_ x' s' → safe (H:=queue_rg) m i (k (Some x')) s') →
     safe (H:=queue_rg) n i (pbind (round x) k) s) →
  at_ x s → safe (H:=queue_rg) n i (until_cancelled round x) s.
Proof.
  intros Hst Hrel Hround. unfold until_cancelled. apply (safe_loop (H:=queue_rg) at_); [intros ? ? ? Ha HR _; by eapply Hst|].
  intros n' x' s' _ Hat IH. pnorm. apply (testcancel_safe (HR:=queue_rg)). intros m b s1 Hm _ HR1.
  pose proof (Hst _ _ _ Hat HR1) as Hat1. destruct b; cbn.
  - apply (safe_ret (H:=queue_rg)). intros s2 _ HR2. by eapply Hrel, Hst.
  - rewrite ?pbind_assoc. apply Hround; [done|]. intros m' x2 s2 Hm' Hat2. cbn. apply IH; [lia|done].
Qed.

Lemma reader_body_safe n s : reader_at l living 0 s →
  safe (H:=queue_rg) n 0 (reader_body MutexProgram.queue_get (Some l)) s.
Proof.
  apply (until_cancelled_safe (reader_at l living)).
  - intros x s1 s2 Ha HR. eapply reader_at_stable; [exact Ha|exact HR].
  - by intros x s1 (Ho & _).
  - intros n' x s' k Hat Hk. rewrite mutex_reader_step. by apply (reader_round_safe (H:=procs_mutex_lock l) l max living released same_living).
Qed.
Lemma writer_body_safe n s : writer_at l living 0 s →
  safe (H:=queue_rg) n 1 (writer_body MutexProgram.queue_add (Some l)) s.
Proof.
  apply (until_cancelled_safe (writer_at l living)).
  - intros x s1 s2 Ha HR. eapply writer_at_stable; [exact Ha|exact HR].
  - by intros x s1 (Ho & _).
  - intros n' x s' k Hat Hk. rewrite mutex_writer_step. by apply (writer_round_safe (H:=procs_mutex_lock l) l max living released same_living).
Qed.

(** Their rounds leave the other fields of the process alone. *)
Definition same_others s s' : Prop := others (sync s') = others (sync s).
Lemma keeps_reader_body i : keeps same_others i (reader_body MutexProgram.queue_get (Some l)).
Proof.
  split; [|done]. intros x. apply keeps_bind; [by split; [intros s b s' [= _ <-]|]|]. intros [|]; [done|].
  apply keeps_bind; [|by intros []]. apply keeps_bind.
  - apply keeps_bind; [|done]. by apply keeps_on_queue.
  - intros [[ok v]|]; [|done]. apply keeps_bind; [|done]. unfold reader_next.
    destruct (decide _); [done|]. apply keeps_bind.
    + destruct (decide _); [done|]. split; [|done]. by intros s b s' [= _ <-].
    + intros _. split; [|done]. intros s b s'. by intros ->%signed_add_pure.
Qed.
Lemma keeps_writer_body i : keeps same_others i (writer_body MutexProgram.queue_add (Some l)).
Proof.
  split; [|done]. intros x. apply keeps_bind; [by split; [intros s b s' [= _ <-]|]|]. intros [|]; [done|].
  apply keeps_bind; [|by intros []]. apply keeps_bind.
  - apply keeps_bind; [|done]. by apply keeps_on_queue.
  - intros [ok|]; [|done]. apply keeps_bind; [|done]. unfold writer_next.
    destruct (decide _); [done|]. split; [|done]. intros s b s'. by intros ->%signed_add_pure.
Qed.

(** ** The threads of the process *)

(** A living thread relies on the queue. *)
Lemma living_live i s : (i < 2)%nat → living i (sync s) → process_inv s →
  destroying (sync s) = false ∧ queue_inv s.
Proof.
  intros Hi [Hc He] HI. destruct (destroying (sync s)) eqn:E.
  - destruct He. by eapply pi_dead.
  - split; [done|]. by apply pi_live.
Qed.
Lemma living_rely i s s' : (i < 2)%nat → living i (sync s) → process_rely i s s' → process_inv s' →
  living i (sync s') ∧ queue_rely i s s' ∧ queue_inv s'.
Proof.
  intros Hi [Hc He] (Hx & Hcr & _ & _ & Hq & _) HI.
  assert (living i (sync s')) as Hl by (split; [set_solver|by rewrite <-Hx]).
  destruct (living_live i s' Hi Hl HI) as [Hd Hqi]. split_and!; [done| |done]. by apply Hq.
Qed.
Lemma living_step i s s' : (i < 2)%nat → living i (sync s) → process_inv s → queue_inv s' →
  G (H:=queue_rg) i s s' → same_others s s' → living i (sync s') ∧ process_inv s' ∧ G i s s'.
Proof.
  intros Hi Hl HI HI' HG Ho. destruct (living_live i s Hi Hl HI) as [Hd Hq].
  unfold same_others, others in Ho. injection Ho as Hc Hca Hx Hr Hde.
  split; [by destruct Hl; split; congruence|]. split.
  - split.
    + done.
    + congruence.
    + intros _. apply HI'.
    + apply HI'.
    + rewrite Hr. intros Hn. destruct (pi_result _ HI Hn). congruence.
  - intros j Hj. unfold R; simpl. unfold process_rely. rewrite Hc, Hca, Hx, Hr, Hde. split_and!; try done.
    + intros _ _. by apply HG.
    + intros _. split_and!; try done. congruence.
Qed.

(** The end of a thread that does not hold the mutex *)
Lemma exit_safe n i s : (i < 2)%nat → living i (sync s) → released i (sync s) →
  safe n i (on_procs thread_exit) s.
Proof.
  intros Hi Hl Hrel. destruct n as [|n]; [done|]. apply safe_act. intros s1 HI HR.
  destruct (living_rely i s s1 Hi Hl HR HI) as (Hl1 & Hq & (Hal & Hrd & He & Hf & Hown)).
  assert (released i (sync s1)) as Hrel1 by (intros Ho; by apply Hrel, Hq).
  destruct (living_live i s1 Hi Hl1 HI) as [Hd _].
  unfold lift_act. simpl. set (s2 := Shared _ _).
  assert (∀ j, j ≠ i → living j (sync s1) ↔ living j (sync s2)) as Hlv.
  { intros j Hj. unfold living. simpl. set_solver. }
  split; [|split].
  - split; simpl; try done; try congruence.
    + intros _. split_and!; simpl; try done. intros j Hj. destruct (Hown j Hj). split; [done|].
      apply Hlv; [|done]. intros ->. by apply Hrel1.
    + intros Hn. destruct (pi_result _ HI Hn). congruence.
  - intros j Hj. unfold R; simpl. unfold process_rely. simpl.
    split; [set_solver|]. split; [done|]. split; [set_solver|]. split; [done|]. split.
    + intros _ _. split_and!; try done. intros Hj'. by apply Hlv.
    + intros _. split_and!; try done. congruence.
  - apply safe_ret. intros s3 HI3 (Hx & _). unfold fin; simpl. unfold process_done. rewrite decide_True by lia.
    apply Hx. simpl. set_solver.
Qed.

Lemma started_safe n i s k : (i < 3)%nat → i ∉ exited (sync s) → (i = MONITOR → i ∈ created (sync s)) →
  (∀ m s', (m ≤ n)%nat → process_inv s' → process_rely i s s' → living i (sync s') → safe m i (k tt) s') →
  safe n i (on_procs started ≫= k) s.
Proof.
  intros Hi Hx Hm Hk. destruct n as [|n]; [done|]. apply safe_act. intros s1 HI HR.
  pose proof HR as (Hxx & Hcr & _). unfold lift_act, started.
  destruct (decide (i ∈ created (sync s1))) as [Hc|Hc].
  - replace (Shared (core s1) (sync s1)) with s1 by (by destruct s1).
    split; [done|]. split; [intros j _; apply process_rely_refl|]. apply Hk; [lia|done|done|].
    split; [done|]. by rewrite <-Hxx.
  - unfold wt; simpl. destruct i as [|[|[|]]]; [by left..| |lia]. apply Hc, Hcr. by apply Hm.
Qed.

(** The reader, or the writer: before it starts, and while it runs, [fresh] says
    how far it is. *)
Lemma thread_safe n i body (fresh : shared (procs mutexes) → Prop) s : (i < 2)%nat →
  (∀ s s', fresh s → queue_rely i s s' → fresh s') →
  (∀ n s, fresh s → living i (sync s) → safe (H:=queue_rg) n i body s) →
  keeps same_others i body → fresh s → i ∉ exited (sync s) → safe n i (thread_of body) s.
Proof.
  intros Hi Hst Hbody Hk Hf Hx. unfold thread_of. apply started_safe; [lia|done|unfold MONITOR; lia|].
  intros m s1 Hm HI HR Hl. assert (fresh s1) as Hf1.
  { destruct (living_live i s1 Hi Hl HI) as [Hd _]. eapply Hst; [done|]. by apply HR. }
  apply (safe_transfer queue_rg process_rg (λ s, living i (sync s)) same_others); try done.
  - intros s2 s3 Hl2 HR2 HI2. by apply living_rely.
  - intros s2 s3 Hl2 HI2 HI3 HG Ho. by apply living_step.
  - intros s2 _ Hw. destruct i as [|[|]]; [by right..|lia].
  - by apply Hbody.
  - intros m' s2 _ Hl2 Hrel. by apply exit_safe.
Qed.

Lemma reader_thread_safe n s : owner (Lock:=procs_mutex_lock l) (sync s) ≠ Some 0%nat →
  taken l (core s) = Some 0 → 0%nat ∉ exited (sync s) →
  safe n 0 (reader MutexProgram.queue_get (Some l)) s.
Proof.
  intros Ho Ht Hx. apply (thread_safe n 0 _ (λ s, owner (Lock:=procs_mutex_lock l) (sync s) ≠ Some 0%nat ∧
    taken l (core s) = Some 0)); [lia| | |apply keeps_reader_body|done|done].
  - intros s1 s2 [Ho1 Ht1] (_ & H2 & _ & H3 & _). split; [by intros ?%H2|by rewrite H3].
  - intros m s1 [Ho1 Ht1] Hl. by apply reader_body_safe.
Qed.
Lemma writer_thread_safe n s : owner (Lock:=procs_mutex_lock l) (sync s) ≠ Some 1%nat →
  added l (core s) = Some 0 → 1%nat ∉ exited (sync s) →
  safe n 1 (writer MutexProgram.queue_add (Some l)) s.
Proof.
  intros Ho Ht Hx. apply (thread_safe n 1 _ (λ s, owner (Lock:=procs_mutex_lock l) (sync s) ≠ Some 1%nat ∧
    added l (core s) = Some 0)); [lia| | |apply keeps_writer_body|done|done].
  - intros s1 s2 [Ho1 Ht1] (_ & H2 & _ & _ & H3). split; [by intros ?%H2|by rewrite H3].
  - intros m s1 [Ho1 Ht1] Hl. by apply writer_body_safe.
Qed.

Lemma monitor_thread_safe n s : living MONITOR (sync s) → safe n MONITOR (qmonitor (Some l)) s.
Proof.
  intros Hl. unfold qmonitor, thread_of. apply started_safe; [unfold MONITOR; lia|apply Hl|intros _; apply Hl|].
  intros m1 s1 _ _ _ Hl1. clear Hl s n.
  assert (∀ s s', living MONITOR (sync s) → process_rely MONITOR s s' → process_inv s' → living MONITOR (sync s')) as Hst.
  { intros s s' [Hc He] (Hx & Hcr & _) _. split; [set_solver|]. by rewrite <-Hx. }
  pnorm. apply (safe_loop (λ _ s, living MONITOR (sync s))); [intros _; apply Hst| |done].
  intros n' [] s _ Hl IH. pnorm.
  apply (safe_reads (H:=process_rg) l MONITOR (λ s, living MONITOR (sync s)) Hst) with (P := λ _, True); [|by left|apply reads_stats|done|].
  { intros s' [_ Hx] HI. by apply pi_monitor. }
  intros m stats s2 Hm _ Hl2. pnorm. apply testcancel_safe. intros m3 b s3 Hm3 HI3 HR3.
  pose proof (Hst _ _ Hl2 HR3 HI3) as Hl3. destruct b; cbn; [|apply IH; [lia|done]].
  (* the end *)
  destruct m3 as [|m3]; [done|]. apply safe_act. intros s4 HI HR. pose proof (Hst _ _ Hl3 HR HI) as [Hc4 Hx4].
  unfold lift_act. simpl.
  split; [|split].
  - split; simpl; [| | |exact (pi_errors _ HI)|exact (pi_result _ HI)].
    + intros Hd. destruct (pi_live _ HI Hd) as (Hal & Hrd & He & Hf & Hown). split_and!; simpl; try done.
      intros j Hj. destruct (Hown j Hj) as [Hj2 [Hlc Hle]]. split; [done|]. split; [done|]. simpl.
      unfold MONITOR in *. set_solver by lia.
    + intros j Hd Hj Hcj. apply elem_of_union_l. by eapply pi_dead.
    + intros Hn. destruct Hn. set_solver.
  - intros j Hj. unfold R; simpl. unfold process_rely. simpl.
    split; [set_solver|]. split; [done|]. split; [set_solver|]. split; [done|]. split.
    + intros Hj2 _. split_and!; try done. intros [Hlc Hle]. split; [done|]. simpl. unfold MONITOR in *. set_solver by lia.
    + intros _. split_and!; done.
  - apply safe_ret. intros s5 HI5 (Hx & _). unfold fin; simpl. unfold process_done. rewrite decide_True by (unfold MONITOR; lia).
    apply Hx. simpl. set_solver.
Qed.

(** ** main *)

(** What [main] knows between its steps: the threads it created, those that have
    ended, and once it destroys the queue, all of the queue *)
Record at_main (cr ex : gset nat) (d : option (qstate * mutexes)) s : Prop := {
  am_created : created (sync s) = cr;
  am_exited : ex ⊆ exited (sync s);
  am_result : result (sync s) = None;
  am_queue : match d with
    | None => destroying (sync s) = false
    | Some (c, m) => destroying (sync s) = true ∧ core s = c ∧ locks (sync s) = m
    end;
}.

Lemma at_main_stable cr ex d s s' : at_main cr ex d s → process_rely MAIN s s' → at_main cr ex d s'.
Proof.
  intros [Hc He Hr Hq] (_ & _ & Hx & _ & _ & Hm). destruct (Hm eq_refl) as (Hc' & _ & Hr' & Hd' & Hq').
  split; [congruence|set_solver|congruence|]. rewrite Hd'. destruct d as [[c m]|]; [|done].
  destruct Hq as (Hd & Hcore & Hl). destruct (Hq' Hd) as (-> & -> & _). done.
Qed.

(** Creating threads and asking for their end *)
Lemma main_procs_ok s y' : locks y' = locks (sync s) → created (sync s) ⊆ created y' →
  exited y' = exited (sync s) → result y' = result (sync s) → destroying y' = destroying (sync s) →
  (destroying (sync s) = true → created y' = created (sync s)) → process_inv s →
  process_inv (Shared (core s) y') ∧ G MAIN s (Shared (core s) y').
Proof.
  intros Hl Hc Hx Hr Hd Hcd HI. assert (∀ j, living j (sync s) → living j y') as Hlv.
  { intros j [Hcj Hej]. split; [set_solver|by rewrite Hx]. }
  split.
  - split; simpl; rewrite ?Hx, ?Hr, ?Hd.
    + intros Hdes. destruct (pi_live _ HI Hdes) as (Hal & Hrd & He & Hf & Hown).
      split_and!; simpl; rewrite ?Hl; try done. intros j Hj. destruct (Hown j Hj). eauto.
    + intros j Hdes. rewrite Hcd by done. by apply (pi_dead _ HI).
    + apply (pi_monitor _ HI).
    + apply (pi_errors _ HI).
    + unfold freed. simpl. rewrite Hl. apply (pi_result _ HI).
  - intros j Hj. unfold R; simpl. unfold process_rely. simpl. rewrite Hx, Hr, Hd.
    split; [done|]. split; [done|]. split; [done|]. split; [done|]. split; [|done].
    intros Hj2 _. split_and!; simpl; rewrite ?Hl; try done. apply Hlv.
Qed.

Section main_steps.
Context (n : nat) (cr ex : gset nat) (d : option (qstate * mutexes)) (s : shared (procs mutexes)).
Context (Hat : at_main cr ex d s).

Lemma thread_create_safe i k : d = None →
  (∀ m s', (m ≤ n)%nat → at_main (cr ∪ {[i]}) ex d s' → safe m MAIN (k tt) s') →
  safe n MAIN (on_procs (pthread_create i) ≫= k) s.
Proof.
  intros Hd Hk. destruct n as [|n']; [done|]. apply safe_act. intros s1 HI HR.
  destruct (at_main_stable _ _ _ _ _ Hat HR) as [Hc He Hr Hq]. unfold lift_act. simpl.
  destruct (main_procs_ok s1 (Procs (locks (sync s1)) (created (sync s1) ∪ {[i]}) (cancelled (sync s1))
    (exited (sync s1)) (result (sync s1)) (destroying (sync s1)))) as [HI' HG]; try done; simpl.
  { set_solver. }
  { subst d. congruence. }
  split; [done|]. split; [done|]. apply Hk; [lia|]. split; simpl; [congruence|done..|]. by subst d.
Qed.

Lemma cancel_safe i k : (∀ m s', (m ≤ n)%nat → at_main cr ex d s' → safe m MAIN (k tt) s') →
  safe n MAIN (on_procs (pthread_cancel i) ≫= k) s.
Proof.
  intros Hk. destruct n as [|n']; [done|]. apply safe_act. intros s1 HI HR.
  destruct (at_main_stable _ _ _ _ _ Hat HR) as [Hc He Hr Hq]. unfold lift_act. simpl.
  destruct (main_procs_ok s1 (Procs (locks (sync s1)) (created (sync s1)) (cancelled (sync s1) ∪ {[i]})
    (exited (sync s1)) (result (sync s1)) (destroying (sync s1)))) as [HI' HG]; try done.
  split; [done|]. split; [done|]. apply Hk; [lia|]. by split.
Qed.

Lemma join_safe i k : (i < 3)%nat → i ∈ cr → (i = MONITOR → d ≠ None) →
  (∀ m s', (m ≤ n)%nat → at_main cr (ex ∪ {[i]}) d s' → safe m MAIN (k tt) s') →
  safe n MAIN (on_procs (pthread_join i) ≫= k) s.
Proof.
  intros Hi Hic Hmon Hk. destruct n as [|n']; [done|]. apply safe_act. intros s1 HI HR.
  destruct (at_main_stable _ _ _ _ _ Hat HR) as [Hc He Hr Hq]. unfold lift_act, pthread_join.
  destruct (decide _) as [Hx|Hx].
  - replace (Shared (core s1) (sync s1)) with s1 by (by destruct s1).
    split; [done|]. split; [intros j _; apply process_rely_refl|]. apply Hk; [lia|]. split; try done. set_solver.
  - unfold wt; simpl. exists i. rewrite Hc. split_and!; try done. unfold awaited.
    destruct (decide (i = MONITOR)) as [->|]; [right|by left]. destruct d as [[]|]; [apply Hq|by destruct Hmon].
Qed.
End main_steps.

(** While [main] destroys the queue, a step of it on the queue *)
Lemma destroying_step s s' : process_inv s → destroying (sync s) = true → result (sync s) = None →
  others (sync s') = others (sync s) → errors (core s') = [] →
  (MONITOR ∉ exited (sync s) → alive l (core s')) → process_inv s' ∧ G MAIN s s'.
Proof.
  intros HI Hd Hr Ho He Ha. unfold others in Ho. injection Ho as Hc Hca Hx Hr' Hd'. split.
  - split; rewrite ?Hx, ?Hr', ?Hd', ?Hc; try done; [congruence|by apply (pi_dead _ HI)].
  - intros j Hj. unfold R; simpl. unfold process_rely. rewrite Hc, Hca, Hx, Hr', Hd'.
    split_and!; try done. intros _ Hf. congruence.
Qed.

Lemma set_destroying_safe n cr ex s k : at_main cr ex None s → (∀ i, (i < 2)%nat → i ∈ cr → i ∈ ex) →
  (∀ m s' c, (m ≤ n)%nat → at_main cr ex (Some (c, {[l := None]})) s' → consistent l max c → safe m MAIN (k tt) s') →
  safe n MAIN (on_procs set_destroying ≫= k) s.
Proof.
  intros Hat Hdead Hk. destruct n as [|n]; [done|]. apply safe_act. intros s1 HI HR.
  destruct (at_main_stable _ _ _ _ _ Hat HR) as [Hc He Hr Hq]. unfold lift_act. simpl.
  pose proof (pi_live _ HI Hq) as (Hal & [h Hrd] & Her & Hf & Hown). simpl in *.
  assert (h = None) as ->.
  { destruct h as [j|]; [|done]. destruct (Hown j) as [Hj [Hjc Hje]].
    - by rewrite Hrd, lookup_singleton_eq.
    - destruct Hje. rewrite Hc in Hjc. set_solver. }
  destruct Hf as [Hcon _]; [by rewrite Hrd, lookup_singleton_eq|].
  split; [|split].
  - split; simpl; [done| |done|done|congruence]. intros i _ Hi. rewrite Hc. intros Hic. apply He. by apply Hdead.
  - intros j Hj. unfold R; simpl. unfold process_rely. simpl. split_and!; try done.
  - apply (Hk _ _ (core s1)); [lia| |done]. by split.
Qed.

Lemma destroy_lock_safe n cr ex c s k : at_main cr ex (Some (c, {[l := None]})) s →
  (∀ m s', (m ≤ n)%nat → at_main cr ex (Some (c, {[l := Some MAIN]})) s' → safe m MAIN (k tt) s') →
  safe n MAIN (on_queue (QueueMutex.pthread_mutex_lock (Some l)) ≫= k) s.
Proof.
  intros Hat Hk. destruct n as [|n]; [done|]. apply safe_act. intros s1 HI HR.
  destruct (at_main_stable _ _ _ _ _ Hat HR) as [Hc He Hr (Hd & Hcore & Hl)].
  unfold lift_act, at_ptr. simpl. rewrite Hl, lookup_singleton_eq. simpl. rewrite insert_singleton_eq.
  destruct (destroying_step s1 (Shared (core s1) (set_locks {[l := Some MAIN]} (sync s1)))) as [HI' HG]; try done.
  { exact (pi_errors _ HI). }
  { exact (pi_monitor _ HI). }
  split; [done|]. split; [done|]. apply Hk; [lia|]. by split.
Qed.

Lemma on_core_destroy {Y B} (k : unit → prog (shared Y) B) :
  on_core (Queue.stop_monitor (Some l)) ≫= (λ _, on_core (Queue.free_nodes (Some l)) ≫= λ _,
    on_core (atomic (free queue_t (Some l))) ≫= k) = on_core (Queue.queue_destroy (Some l)) ≫= k.
Proof.
  unfold Queue.queue_destroy, on_core, mbind, prog_bind. by rewrite !lift_bind, !pbind_assoc.
Qed.

Lemma keeps_destroy i : keeps (λ c c', errors c' = errors c) i (Queue.queue_destroy (Some l)).
Proof.
  assert (∀ A (f : queue_t → A), keeps (λ c c' : qstate, errors c' = errors c) i (Queue.get (Some l) f)) as Hget.
  { intros A f. split; [|done]. intros c b c'. unfold load. simpl. destruct (_ !! _); [by intros [= _ ->]|done]. }
  assert (∀ f, keeps (λ c c' : qstate, errors c' = errors c) i (Queue.set (Some l) f)) as Hset.
  { intros f. split; [|done]. intros c b c'. unfold update. simpl. destruct (_ !! _); [by intros [= _ <-]|done]. }
  apply keeps_bind; [apply Hset|]. intros _. apply keeps_bind.
  - split; [|done]. intros _. apply keeps_bind; [apply Hget|]. intros [p|]; [|done].
    apply keeps_bind; [apply Hget|]. intros fp. apply keeps_bind.
    { split; [|done]. intros c b c'. unfold load. destruct fp; [|done]. destruct (_ !! _); [by intros [= _ ->]|done]. }
    intros nx. apply keeps_bind; [apply Hset|]. intros _. apply keeps_bind; [|done].
    split; [|done]. intros c b c'. unfold free. simpl. destruct (_ !! _); [by intros [= _ <-]|done].
  - intros _. split; [|done]. intros c b c'. unfold free. simpl. destruct (_ !! _); [by intros [= _ <-]|done].
Qed.

(** With the monitor joined, [main] is alone. *)
Lemma free_queue_safe n cr ex c s k : at_main cr ex (Some (c, {[l := Some MAIN]})) s → MONITOR ∈ ex →
  consistent l max c →
  (∀ m s' c', (m ≤ n)%nat → at_main cr ex (Some (c', ∅)) s' → cells (queues c') = ∅ → cells (qnodes c') = ∅ →
     safe m MAIN (k tt) s') →
  safe n MAIN (on_core (Queue.queue_destroy (Some l)) ≫= λ _,
    on_queue (MutexProgram.free_lock (Some l)) ≫= k) s.
Proof.
  intros Hat Hmon (f & Hrep & Hst) Hk. apply safe_here. intros s0 HI0 HR0.
  pose proof (at_main_stable _ _ _ _ _ Hat HR0) as [Hc He Hr (Hd & Hcore & Hl)]. clear Hat HR0 s.
  destruct (queue_destroy_run l (Datatypes.S (length (items f))) MAIN c f Hrep) as (c' & Hrun & Hqs & Hns & Her); [lia|].
  set (p := on_core (Queue.queue_destroy (Some l)) ≫= λ _, on_queue (MutexProgram.free_lock (Some l))).
  assert (run (Datatypes.S (length (items f))) p MAIN s0 = Ok tt (Shared c' (set_locks ∅ (sync s0)))) as Hp.
  { unfold p. erewrite run_bind_ok by (apply run_on_core; rewrite Hcore; exact Hrun).
    cbn. unfold mbind, C_bind, lift_act. simpl. by rewrite Hl, delete_singleton_eq. }
  replace (on_core _ ≫= _) with (pbind p k) by (unfold p; pnorm; done).
  eapply (safe_alone (λ s, destroying (sync s) = true ∧ MONITOR ∈ exited (sync s) ∧ result (sync s) = None)
    (λ s s', same_others s s' ∧ errors (core s') = errors (core s))); [| | | |exact Hp|].
  - intros s1 s2 (Hd1 & Hm1 & Hr1) (_ & _ & _ & _ & _ & HR) _. destruct (HR eq_refl) as (E1 & E2 & E3 & E4 & HR').
    destruct (HR' Hd1) as (E5 & E6 & E7). specialize (E7 Hm1). destruct s1 as [c1 []], s2 as [c2 []]. simpl in *. congruence.
  - intros s1 s2 (Hd1 & Hm1 & Hr1) HI1 [Ho1 He1]. destruct (destroying_step s1 s2) as [HI2 HG]; try done.
    { rewrite He1. exact (pi_errors _ HI1). }
    split; [|done]. unfold same_others, others in Ho1. injection Ho1 as Hc1 Hca1 Hx1 Hr1' Hd1'.
    by rewrite Hx1, Hr1', Hd1'.
  - split_and!; [done|set_solver|done].
  - apply keeps_bind.
    + eapply keeps_lift; [|apply keeps_destroy]. by intros c1 s1 He1.
    + intros _. apply (keeps_lift _ _ (λ s s' : mstate, core s' = core s)).
      { intros s1 s2 Hs. split; [done|]. simpl. by rewrite Hs. }
      split; [|done]. intros s1 b s2. unfold lift_act. simpl. by intros [= _ <-].
  - intros m Hm _. apply (Hk _ _ c'); [done| |done|done]. by split.
Qed.

Lemma queue_destroy_safe n cr ex s k : at_main cr ex None s → (∀ i, (i < 2)%nat → i ∈ cr → i ∈ ex) → MONITOR ∈ cr →
  (∀ m s' ex' c', (m ≤ n)%nat → at_main cr ex' (Some (c', ∅)) s' → cells (queues c') = ∅ → cells (qnodes c') = ∅ →
     safe m MAIN (k tt) s') →
  safe n MAIN (queue_destroy QueueMutex.pthread_mutex_lock MutexProgram.free_lock (Some l) ≫= k) s.
Proof.
  intros Hat Hdead Hmon Hk. unfold queue_destroy. assoc.
  eapply set_destroying_safe; [done..|]. intros m1 s1 c Hm1 Hat1 Hcon. assoc.
  eapply destroy_lock_safe; [done|]. intros m2 s2 Hm2 Hat2. assoc.
  eapply cancel_safe; [done|]. intros m3 s3 Hm3 Hat3. assoc.
  eapply join_safe; [done|unfold MONITOR; lia|done|done|]. intros m4 s4 Hm4 Hat4. assoc.
  rewrite on_core_destroy. eapply free_queue_safe; [done|set_solver|done|].
  intros m5 s5 c' Hm5 Hat5. eapply Hk; [lia|done].
Qed.

Lemma set_result_safe n cr ex c r s : at_main cr ex (Some (c, ∅)) s → cells (queues c) = ∅ → cells (qnodes c) = ∅ →
  safe n MAIN (on_procs (set_result r)) s.
Proof.
  intros Hat Hqs Hns. destruct n as [|n]; [done|]. apply safe_act. intros s1 HI HR.
  destruct (at_main_stable _ _ _ _ _ Hat HR) as [Hc He Hr (Hd & Hcore & Hl)]. unfold lift_act. simpl.
  split; [|split].
  - split; simpl; [congruence|exact (λ i, pi_dead _ HI i)|exact (pi_monitor _ HI)|exact (pi_errors _ HI)|].
    intros _. split; [done|]. unfold freed. simpl. by rewrite Hcore, Hl.
  - intros j Hj. unfold R; simpl. unfold process_rely. simpl. by split_and!.
  - apply safe_ret. intros s2 HI2 (_ & _ & _ & _ & _ & HR2). destruct (HR2 eq_refl) as (_ & _ & Hres & _).
    unfold fin; simpl. unfold process_done. rewrite decide_False by (unfold MAIN; lia). by rewrite Hres.
Qed.

Lemma program_main_safe n ok1 ok2 s : (ok1 = true → ok2 = true) → at_main {[MONITOR]} ∅ None s →
  safe n MAIN (main QueueMutex.pthread_mutex_lock MutexProgram.free_lock ok1 ok2 (Some l)) s.
Proof.
  intros Hok Hat. assert (∀ m s' cr ex r, at_main cr ex None s' → (∀ i, (i < 2)%nat → i ∈ cr → i ∈ ex) → MONITOR ∈ cr →
    safe m MAIN (queue_destroy QueueMutex.pthread_mutex_lock MutexProgram.free_lock (Some l) ≫=
      λ _, on_procs (set_result r)) s') as Hend.
  { intros m s' cr ex r Hat' Hdead Hmon. eapply queue_destroy_safe; [done..|].
    intros m1 s1 ex' c' _ Hat1 Hqs Hns. by eapply set_result_safe. }
  unfold main. destruct ok1; [rewrite Hok by done|]; assoc.
  - eapply thread_create_safe; [done..|]. intros m1 s1 _ Hat1. assoc.
    eapply thread_create_safe; [done..|]. intros m2 s2 _ Hat2. assoc.
    eapply cancel_safe; [done|]. intros m3 s3 _ Hat3. assoc.
    eapply cancel_safe; [done|]. intros m4 s4 _ Hat4. assoc.
    eapply join_safe; [done|unfold READER; lia|set_solver|done|]. intros m5 s5 _ Hat5. assoc.
    eapply join_safe; [done|unfold WRITER; lia|set_solver|done|]. intros m6 s6 _ Hat6. assoc.
    eapply Hend; [done| |set_solver]. unfold READER, WRITER. intros i Hi Hic.
    destruct i as [|[|]]; [set_solver..|lia].
  - eapply Hend; [done| |set_solver]. unfold MONITOR. intros i Hi Hic%elem_of_singleton. lia.
Qed.

(** ** Progress *)

(** Whoever waits waits, in the end, for a thread that can run. *)
Lemma not_all_waiting s (done_ : nat → Prop) : process_inv s →
  (∀ i, (i < 3)%nat → done_ i → i ∈ exited (sync s)) →
  (∀ i, (i < 3)%nat → awaited s i → done_ i ∨ process_waits i s) → process_waits MAIN s → False.
Proof.
  intros HI Hdone Hall (j & Hj & Hjc & Hjx & Hja).
  assert (∀ i, (i < 3)%nat → awaited s i → i ∈ created (sync s) → i ∉ exited (sync s) →
    (i < 2)%nat ∧ held_by_other (H:=procs_mutex_lock l) l i (sync s)) as Hwait.
  { intros i Hi Hia Hic Hix. destruct (Hall i Hi Hia) as [Hd|Hw]; [by destruct Hix; apply Hdone|].
    destruct i as [|[|[|]]]; simpl in Hw; [| |done|lia].
    - destruct Hw; [done|]. split; [lia|done].
    - destruct Hw; [done|]. split; [lia|done]. }
  destruct (Hwait j Hj Hja Hjc Hjx) as [Hj2 (k & Hk & Hkj)].
  destruct (living_live j s Hj2 ltac:(done) HI) as [_ (_ & _ & _ & _ & Hown)].
  destruct (Hown k Hk) as [Hk2 [Hkc Hkx]].
  destruct (Hwait k ltac:(lia) ltac:(left; unfold MONITOR; lia) Hkc Hkx) as [_ (k' & Hk' & Hne)]. congruence.
Qed.
End mutex_program.

(** C10: lab2/src/2/queue_threads.c with the mutex, whole: from the state [queue_init (max)] leaves, [main] (the
    second [pthread_create] does not fail after the first succeeded) with the reader, the writer and the
    monitor it creates, cancels and joins, in every interleaving: the reader gets 0, 1, 2, ... in order;
    until [main] destroys the queue, whenever the mutex is free the queue holds the values added and not yet
    taken; no thread runs into a fault other than the overflow of a counter or the [abort] of a failed allocation,
    so that nothing is used after [queue_destroy] freed it; until [main] has returned, [main], the reader or
    the writer can move, or [main] destroys the queue and the monitor can move; and when it has, the queue, its nodes and its mutex are all given back. *)
Theorem mutex_program_correct max ok1 ok2 t : 0 <= max <= INT_MAX → (ok1 = true → ok2 = true) →
  ∃ l s0, run 0 (QueueMutex.queue_init max) t mstart = Ok (Some l) s0 ∧
    ∀ s ths, steps (process_of s0, MutexProgram.program ok1 ok2 (Some l)) (s, ths) →
      errors (core s) = [] ∧
      (destroying (sync s) = false → locks (sync s) !! l = Some None → consistent l max (core s)) ∧
      (∀ e, faulty (s, ths) e → e = Overflow ∨ e = Aborted) ∧
      match result (sync s) with
      | Some _ => freed s
      | None => ∃ i p, awaited s i ∧ ths !! i = Some p ∧ prog_step p i s ≠ Blocked
      end.
Proof.
  intros Hmax Hok. destruct (mutex_init_run 0 t max) as (s0 & Hi & Hrep & Hsync & He).
  exists 1%positive, s0. split; [done|]. intros s ths Hsteps.
  destruct (inv_init (H:=procs_mutex_lock 1) 1 max (λ _ _, True) living (process_of s0)) as (Hq & Ha & Ht);
    [done..| | |done|done|].
  { exists None. by simpl. }
  { simpl. by rewrite Hsync, lookup_singleton_eq. }
  assert (process_inv 1 max (process_of s0)) as HI.
  { split; simpl; try done. intros _. destruct Hrep as (Q & ls & HQ & _). exists Q. by apply only_lookup. }
  assert (at_main {[MONITOR]} ∅ None (process_of s0)) as Hmain by (split; simpl; done || set_solver).
  destruct (rg_sound (H:=process_rg 1 max) (process_of s0, MutexProgram.program ok1 ok2 (Some 1%positive)) (s, ths))
    as (HI' & Hf & Hb); [|done|].
  { split; [done|]. intros n i p Hp. simpl. destruct i as [|[|[|[|i]]]]; simplify_eq/=.
    - apply reader_thread_safe; simpl; [by rewrite Hsync, lookup_singleton_eq|done|set_solver].
    - apply writer_thread_safe; simpl; [by rewrite Hsync, lookup_singleton_eq|done|set_solver].
    - apply monitor_thread_safe. split; simpl; set_solver.
    - by apply program_main_safe. }
  simpl in HI', Hf, Hb. split; [exact (pi_errors _ _ _ HI')|]. split; [|split; [done|]].
  { intros Hd Hl. destruct (pi_live _ _ _ HI' Hd) as (_ & _ & _ & Hc & _). apply Hc. simpl. by rewrite Hl. }
  destruct (result (sync s)) as [r|] eqn:Hres.
  { by apply (pi_result _ _ _ HI'); rewrite Hres. }
  pose proof (steps_length _ _ Hsteps) as Hlen. simpl in Hlen.
  destruct (one_moves_or_blocked (awaited s) 4 (s, ths)) as [Hm|Hall]; [simpl; lia|exact Hm|exfalso].
  assert (∀ i, (i < 4)%nat → awaited s i → process_done i s ∨ process_waits 1 max i s) as Hw.
  { intros i Hi4 Hia. destruct (lookup_lt_is_Some_2 ths i) as [p Hp]; [lia|].
    specialize (Hb i p Hp (Hall i p Hi4 Hia Hp)). destruct p; [by left|by right..]. }
  apply (not_all_waiting 1 max s (λ i, process_done i s)); [done| | |].
  - intros i Hi3 Hd. unfold process_done in Hd. by rewrite decide_True in Hd.
  - intros i Hi3. apply Hw. lia.
  - destruct (Hw MAIN) as [Hd|]; [unfold MAIN; lia|left; by unfold MAIN, MONITOR| |done]. unfold process_done in Hd.
    rewrite decide_False in Hd by (unfold MAIN; lia). done.
Qed.

Example mutex_program_correct_witness :
  ∃ l s0, run 0 (QueueMutex.queue_init 1000000) 3%nat mstart = Ok (Some l) s0 ∧
    ∀ s ths, steps (process_of s0, MutexProgram.program true true (Some l)) (s, ths) →
      errors (core s) = [] ∧
      (destroying (sync s) = false → locks (sync s) !! l = Some None → consistent l 1000000 (core s)) ∧
      (∀ e, faulty (s, ths) e → e = Overflow ∨ e = Aborted) ∧
      match result (sync s) with
      | Some _ => freed s
      | None => ∃ i p, awaited s i ∧ ths !! i = Some p ∧ prog_step p i s ≠ Blocked
      end.
Proof.
  apply (mutex_program_correct 1000000 true true 3).
  - unfold INT_MAX. lia.
  - reflexivity.
Defined.

(** * Where the program goes wrong *)

(** The program from [queue_init (1000000)] on *)
Definition program_start {X} (queue_init : Z → prog (shared X) ptr) (s0 : shared X)
    (program : ptr → list (prog (shared (procs X)) unit)) : config (shared (procs X)) :=
  match run 0 (queue_init 1000000) MAIN s0 with
  | Ok q s => (process_of s, program q)
  | _ => (process_of s0, [])
  end.

(** The reader is between its test for a request and the mutex when [main], whose
    second [pthread_create] failed, destroys the queue and frees it. *)
Definition destroyed_schedule : list nat :=
  [3%nat] ++ replicate 3 0%nat ++ replicate 4 3%nat ++ replicate 20 2%nat ++ replicate 20 3%nat ++ [0%nat].

(** The reader waits on the empty queue; the writer is between its test and the
    mutex; [main] cancels both; the reader locks the mutex and ends. *)
Definition hanging_schedule : list nat :=
  [3%nat] ++ replicate 12 0%nat ++ [3%nat] ++ replicate 3 1%nat ++ [3%nat; 3%nat] ++
  replicate 12 0%nat ++ replicate 12 1%nat ++ replicate 12 3%nat.

(** The mutex is held by the reader, which has ended; the monitor may have. *)
Definition abandoned (s : shared (procs monitors)) : Prop :=
  locks (sync s) = {[1%positive := Monitor (Some READER) [[]; []]]} ∧ result (sync s) = None ∧
  (exited (sync s) = {[READER]} ∨ exited (sync s) = {[READER]} ∪ {[MONITOR]}).
Definition keep_abandoned (s s' : shared (procs monitors)) : Prop := abandoned s → abandoned s'.

(** Thread [i] is blocked in [s], and in every such state. *)
Definition blocked_in (i : nat) (p : option (prog (shared (procs monitors)) unit)) s : Prop :=
  match p with Some (Act m _) => m i s = Blocked | _ => False end.
Definition blocked_there (i : nat) (p : option (prog (shared (procs monitors)) unit)) : Prop :=
  ∀ s, abandoned s → blocked_in i p s.

Lemma keeps_monitor : keeps keep_abandoned MONITOR (qmonitor (X:=monitors) (Some 1%positive)).
Proof.
  assert (∀ s s' : shared (procs monitors), sync s' = sync s → keep_abandoned s s') as Hsame.
  { unfold keep_abandoned, abandoned. by intros s s' ->. }
  apply keeps_bind; [|intros _; apply keeps_bind].
  - split; [|done]. intros s b s'. unfold lift_act, started. simpl. destruct (decide _); [|done].
    intros [= _ <-]. by apply Hsame.
  - split; [|done]. intros _. apply keeps_bind; [|intros _; apply keeps_bind; [|done]].
    + eapply keeps_lift; [|apply keeps_any]. intros c s _. by apply Hsame.
    + split; [|done]. intros s b s' [= _ <-]. by apply Hsame.
  - intros _. split; [|done]. intros s b s' [= _ <-] (Hl & Hr & He). split_and!; [done..|]. simpl.
    right. destruct He as [-> | ->]; [done|]. by rewrite <-assoc_L, union_idemp_L by apply _.
Qed.

Lemma keeps_step {S A} (P : S → S → Prop) i (p p' : prog S A) s s' : (∀ s, P s s) → keeps P i p →
  prog_step p i s = Ok p' s' → P s s' ∧ keeps P i p'.
Proof.
  intros HP. destruct p as [a|B m k|X Y body x k]; simpl; [done|..]; intros [H1 H2].
  - specialize (H1 s). destruct (m i s) as [b s2| |]; [|done..]. intros [= <- <-]. by split; [eapply H1|].
  - intros [= <- <-]. split; [done|]. apply keeps_bind; [done|]. intros []; [by split|done].
Qed.

(** Only the monitor can run, and changes nothing. *)
Definition hangs (cf : config (shared (procs monitors))) : Prop :=
  abandoned (fst cf) ∧ snd cf !! READER = Some (Ret tt) ∧ blocked_there WRITER (snd cf !! WRITER) ∧
  blocked_there MAIN (snd cf !! MAIN) ∧ length (snd cf) = 4%nat ∧
  ∃ p, snd cf !! MONITOR = Some p ∧ keeps keep_abandoned MONITOR p.
Lemma hangs_step cf cf' : hangs cf → step cf cf' → hangs cf'.
Proof.
  intros (Ha & Hr & Hw & Hm & Hl & p & Hp & Hk) Hs. destruct Hs as [s ths i q q' s' Hq Hstep].
  cbn [fst snd] in *. assert (i < 4)%nat as Hi by (rewrite <-Hl; by eapply lookup_lt_Some).
  assert (∀ j, blocked_there j (ths !! j) → i ≠ j) as Hne.
  { intros j Hb <-. specialize (Hb s Ha). rewrite Hq in Hb. destruct q as [|B m k|]; [done| |done].
    simpl in *. by rewrite Hb in Hstep. }
  pose proof (Hne _ Hw) as Hiw. pose proof (Hne _ Hm) as Him.
  assert (i = MONITOR) as ->.
  { destruct i as [|[|[|[|]]]]; try done; [|lia]. unfold READER in Hr. rewrite Hq in Hr. by simplify_eq. }
  rewrite Hp in Hq. simplify_eq. destruct (keeps_step keep_abandoned MONITOR q q' s s') as [Hab Hk']; [by intros s1 Hs1|done..|].
  split; [by apply Hab|]. cbn [fst snd]. rewrite !list_lookup_insert_ne by done. split_and!; try done.
  - by rewrite length_insert.
  - exists q'. rewrite list_lookup_insert_eq by (rewrite Hl; unfold MONITOR; lia). done.
Qed.

Lemma run_schedule_other {S} sched (c c' : config S) i : i ∉ sched → run_schedule sched c = inl c' →
  snd c' !! i = snd c !! i.
Proof.
  revert c. induction sched as [|j sched IH]; intros [s ths] Hi; simpl; [by intros [= <-]|].
  assert (i ≠ j ∧ i ∉ sched) as [Hij Hi'] by set_solver.
  destruct (ths !! j) as [p|]; [|intros Hr; exact (IH _ Hi' Hr)].
  destruct (prog_step p j s) as [p' s'| |e]; [|intros Hr; exact (IH _ Hi' Hr)|done].
  intros Hr. etransitivity; [exact (IH _ Hi' Hr)|]. simpl. by rewrite list_lookup_insert_ne.
Qed.
Lemma run_schedule_outcome {S} (Q : config S → Prop) sched c cf : run_schedule sched c = inl cf →
  match run_schedule sched c with inl cf => Q cf | inr _ => False end → Q cf.
Proof. by intros ->. Qed.
Lemma abandoned_cases (P : shared (procs monitors) → Prop) :
  (∀ c cr ca d, P (Shared c (Procs {[1%positive := Monitor (Some READER) [[]; []]]} cr ca {[READER]} None d)) ∧
     P (Shared c (Procs {[1%positive := Monitor (Some READER) [[]; []]]} cr ca ({[READER]} ∪ {[MONITOR]}) None d))) →
  ∀ s, abandoned s → P s.
Proof.
  intros HP [c [m cr ca ex r d]] (Hl & Hr & He). simpl in *. subst. destruct (HP c cr ca d). by destruct He as [-> | ->].
Qed.

(** C40: Two ways in which lab2/src/2/queue_threads.c fails. If the second [pthread_create] of [main] fails,
    [main] destroys and frees the queue while the reader runs, which then follows a pointer to it (here
    with the mutex). With condition variables, [main] may never return: a reader that is cancelled while
    it waits in [pthread_cond_wait] locks the mutex before it ends, and nobody unlocks it; the writer,
    cancelled too, waits for the mutex in a call that is no cancellation point, and [main] waits for ever
    to join the writer. *)
Theorem program_hazards :
  (∃ cf, steps (program_start QueueMutex.queue_init mstart (MutexProgram.program true false)) cf ∧ faulty cf Segv) ∧
  (∃ cf, steps (program_start QueueCondvar.queue_init cstart (CondvarProgram.program true true)) cf ∧
     ∀ cf', steps cf cf' → result (sync (fst cf')) = None ∧
       ∀ i p, (i = READER ∨ i = WRITER ∨ i = MAIN) → snd cf' !! i = Some p → prog_step p i (fst cf') = Blocked).
Proof.
  split; [apply (run_schedule_faulty destroyed_schedule); by vm_compute|].
  set (c0 := program_start _ _ _). destruct (run_schedule hanging_schedule c0) as [cf|e] eqn:E.
  2:{ exfalso. assert (match run_schedule hanging_schedule c0 with inl _ => true | inr _ => false end = true) as Hn
        by (by vm_compute). by rewrite E in Hn. }
  exists cf. split; [by eapply run_schedule_steps|].
  assert (hangs cf) as Hh.
  { assert (∀ i, i = WRITER ∨ i = MAIN → blocked_there i (snd cf !! i)) as Hb.
    { intros i Hi. refine (abandoned_cases (λ s, blocked_in i (snd cf !! i) s) _). intros c cr ca d.
      destruct Hi as [-> | ->]; split.
      all: by apply (run_schedule_outcome (λ cf, blocked_in _ (snd cf !! _) _) _ _ _ E); vm_compute. }
    split; [apply (run_schedule_outcome (λ cf, abandoned (fst cf)) _ _ _ E); vm_compute; auto|].
    split; [by apply (run_schedule_outcome (λ cf, snd cf !! READER = Some (Ret tt)) _ _ _ E); vm_compute|].
    split; [by auto|]. split; [by auto|].
    split; [by apply (run_schedule_outcome (λ cf, length (snd cf) = 4%nat) _ _ _ E); vm_compute|].
    exists (qmonitor (Some 1%positive)). split; [|apply keeps_monitor].
    rewrite (run_schedule_other hanging_schedule c0 cf MONITOR); [| |exact E].
    - unfold c0, program_start. destruct (cond_init_run 0 MAIN 1000000) as (s & -> & _). done.
    - apply (bool_decide_unpack _). by vm_compute. }
  clear E. clearbody c0. intros cf' Hsteps. assert (hangs cf') as (Hab & Hr & Hw & Hm & _).
  { induction Hsteps as [|c1 c2 c3 Hs _ IH]; [done|]. apply IH. by eapply hangs_step. }
  split; [apply Hab|]. intros i p [->|Hi] Hp; [rewrite Hr in Hp; by simplify_eq|].
  assert (blocked_in i (Some p) (fst cf')) as Hb by (rewrite <-Hp; by destruct Hi as [-> | ->]; auto).
  destruct p as [|B m k|]; [done| |done]. simpl in *. by rewrite Hb.
Qed.
