(* ===== verification/OldQueue.v ===== *)
(** OldQueue: lab2/src/old, the programs that lab2/src/1 started from, against what
    they need of a queue; the queue itself is not in that directory, and the one
    of lab2/src/1, whose header its Makefile names, is an instance. *)
From S2P Require Import Prelude Links Threads Queue.
#[local] Open Scope Z_scope.

(** * What the programs need of a queue *)

Definition fifo_stats (f : fifo) : list Z :=
  [Z.of_nat (length (items f)); aa f; ga f; aa f - ga f; ac f; gc f; ac f - gc f].

(** The operations of queue.h, and that run alone they are those of the list
    [fifo], from a state that is [ready], and end in one that is [clean]. *)
Class FifoQueue (S : Type) := {
  queue_init : Z → prog S ptr;
  queue_destroy : ptr → prog S unit;
  queue_add : ptr → Z → prog S Z;
  queue_get : ptr → Z → prog S (Z * Z);
  queue_print_stats : ptr → prog S (list Z);
  ready : S → Prop;
  clean : S → Prop;
  holds : S → ptr → fifo → Prop;
  init_law n t s max : ready s → 0 <= max <= INT_MAX →
    ∃ q s', run n (queue_init max) t s = Ok q s' ∧ holds s' q (fifo_init max);
  add_law n t s q f v : holds s q f → fifo_ok f → aa f < LONG_MAX → ac f < LONG_MAX →
    ∃ s', run n (queue_add q v) t s = Ok (fst (fifo_add v f)) s' ∧ holds s' q (snd (fifo_add v f));
  get_law n t s q f old : holds s q f → fifo_ok f → ga f < LONG_MAX →
    ∃ s', run n (queue_get q old) t s = Ok (fst (fifo_get old f)) s' ∧ holds s' q (snd (fifo_get old f));
  stats_law n t s q f : holds s q f → fifo_ok f → run n (queue_print_stats q) t s = Ok (fifo_stats f) s;
  destroy_law n t s q f : holds s q f → (length (items f) < n)%nat →
    ∃ s', run n (queue_destroy q) t s = Ok tt s' ∧ clean s';
}.

(** * queue-example.c *)

Section example.
Context {S : Type} `{FifoQueue S}.

(** The lines a loop prints: the result of an operation with its value, then the
    statistics *)
Fixpoint add_all (q : ptr) (vs : list Z) : prog S (list (Z * Z * list Z)) :=
  match vs with
  | [] => mret []
  | i :: vs' =>
      ok ← queue_add q i;
      st ← queue_print_stats q;
      rest ← add_all q vs';
      mret ((ok, i, st) :: rest)
  end.
Fixpoint get_all (q : ptr) (n : nat) : prog S (list (Z * Z * list Z)) :=
  match n with
  | O => mret []
  | Datatypes.S n' =>
      r ← queue_get q (-1);
      st ← queue_print_stats q;
      rest ← get_all q n';
      mret ((fst r, snd r, st) :: rest)
  end.

Definition main : prog S (list (Z * Z * list Z)) :=
  q ← queue_init 1000;
  added ← add_all q (seqZ 0 10);
  got ← get_all q 12;
  queue_destroy q;;
  mret (added ++ got).

(** What they print over the list *)
Fixpoint fifo_adds (vs : list Z) (f : fifo) : list (Z * Z * list Z) * fifo :=
  match vs with
  | [] => ([], f)
  | v :: vs' =>
      let '(ok, f1) := fifo_add v f in
      let '(rest, f2) := fifo_adds vs' f1 in ((ok, v, fifo_stats f1) :: rest, f2)
  end.
Fixpoint fifo_gets (n : nat) (f : fifo) : list (Z * Z * list Z) * fifo :=
  match n with
  | O => ([], f)
  | Datatypes.S n' =>
      let '(r, f1) := fifo_get (-1) f in
      let '(rest, f2) := fifo_gets n' f1 in ((fst r, snd r, fifo_stats f1) :: rest, f2)
  end.

Lemma add_all_run n t vs s q f : holds s q f → fifo_ok f →
  aa f + Z.of_nat (length vs) <= LONG_MAX → ac f + Z.of_nat (length vs) <= LONG_MAX →
  ∃ s', run n (add_all q vs) t s = Ok (fst (fifo_adds vs f)) s' ∧ holds s' q (snd (fifo_adds vs f)) ∧
    fifo_ok (snd (fifo_adds vs f)).
Proof.
  revert s f. induction vs as [|v vs IH]; intros s f Hh Hok Haa Hac; cbn [add_all fifo_adds length] in *; [by eexists|].
  destruct (add_law n t s q f v Hh Hok) as (s1 & Hr & Hh1); [lia..|].
  rewrite (run_bind_ok _ _ _ _ _ _ _ Hr).
  assert (fifo_ok (snd (fifo_add v f))) as Hok1 by (apply fifo_ok_add; [done|lia..]).
  assert (aa (snd (fifo_add v f)) = aa f + 1 ∧ ac (snd (fifo_add v f)) <= ac f + 1) as [Ha Hc].
  { unfold fifo_add. destruct (decide _); simpl; lia. }
  destruct (fifo_add v f) as [ok f1]. cbn [fst snd] in *.
  rewrite (run_bind_ok _ _ _ _ _ _ _ (stats_law n t s1 q f1 Hh1 Hok1)).
  destruct (IH s1 f1 Hh1 Hok1) as (s2 & Hr2 & Hh2 & Hok2); [lia..|].
  rewrite (run_bind_ok _ _ _ _ _ _ _ Hr2). destruct (fifo_adds vs f1) as [rest f2]. by eexists.
Qed.
Lemma get_all_run n t k s q f : holds s q f → fifo_ok f → ga f + Z.of_nat k <= LONG_MAX →
  ∃ s', run n (get_all q k) t s = Ok (fst (fifo_gets k f)) s' ∧ holds s' q (snd (fifo_gets k f)).
Proof.
  revert s f. induction k as [|k IH]; intros s f Hh Hok Hga; cbn [get_all fifo_gets] in *; [by eexists|].
  destruct (get_law n t s q f (-1) Hh Hok) as (s1 & Hr & Hh1); [lia..|].
  rewrite (run_bind_ok _ _ _ _ _ _ _ Hr).
  assert (fifo_ok (snd (fifo_get (-1) f))) as Hok1 by (apply fifo_ok_get; [done|lia]).
  assert (ga (snd (fifo_get (-1) f)) = ga f + 1) as Hg by (unfold fifo_get; by destruct (items f)).
  destruct (fifo_get (-1) f) as [r f1]. cbn [fst snd] in *.
  rewrite (run_bind_ok _ _ _ _ _ _ _ (stats_law n t s1 q f1 Hh1 Hok1)).
  destruct (IH s1 f1 Hh1 Hok1) as (s2 & Hr2 & Hh2); [lia|].
  rewrite (run_bind_ok _ _ _ _ _ _ _ Hr2). destruct (fifo_gets k f1) as [rest f2]. by eexists.
Qed.
End example.

(** * queue-threads.c *)

Section threads.
Context {S : Type} `{FifoQueue S} (part : S → qstate) (put : qstate → S → S).

Definition reader : ptr → prog S unit := Queue.reader part put queue_get.
Definition writer : ptr → prog S unit := Queue.writer queue_add.
(** The threads [main] starts after [queue_init (1000000)] *)
Definition start_threads : prog S (list (prog S unit)) :=
  q ← queue_init 1000000;
  mret [reader q; writer q].
End threads.

(** * The queue of lab2/src/1 *)

Lemma print_stats_run l n t c f : queue_repr l c f → fifo_ok f →
  run n (Queue.queue_print_stats (Some l)) t c = Ok (fifo_stats f) c.
Proof.
  intros (Q & ls & Hone & Hf & _) Hok.
  assert (cells (queues c) !! l = Some Q) as HQ by (rewrite Hone; apply lookup_singleton_eq).
  destruct Hf, Hok. unfold Queue.queue_print_stats, LONG_MAX in *.
  repeat (erewrite run_bind_ok by (by apply (run_get l Q c n t HQ)); cbv beta).
  erewrite run_bind_ok by (rewrite run_atomic; unfold signed_add; rewrite decide_True by lia; reflexivity); cbv beta.
  repeat (erewrite run_bind_ok by (by apply (run_get l Q c n t HQ)); cbv beta).
  erewrite run_bind_ok by (rewrite run_atomic; unfold signed_add; rewrite decide_True by lia; reflexivity); cbv beta.
  unfold fifo_stats. by rewrite <-h_count, <-h_aa, <-h_ga, <-h_ac, <-h_gc.
Qed.

#[export] Program Instance lab2_queue : FifoQueue qstate := {|
  queue_init := Queue.queue_init;
  queue_destroy := Queue.queue_destroy;
  queue_add := Queue.queue_add;
  queue_get := Queue.queue_get;
  queue_print_stats := Queue.queue_print_stats;
  ready c := cells (queues c) = ∅ ∧ cells (qnodes c) = ∅ ∧ answers c = [];
  clean c := cells (queues c) = ∅ ∧ cells (qnodes c) = ∅;
  holds c q f := ∃ l, q = Some l ∧ queue_repr l c f ∧ answers c = [];
|}.
Next Obligation.
  intros n t c max (Hq & Hn & Ho) Hmax. destruct (queue_init_run n t c max) as (l & c' & Hr & Hrep & _ & Ho');
    [done|done|by rewrite Ho..|done|]. exists (Some l), c'. split; [done|]. exists l. split; [done|]. split; [done|]. by rewrite Ho', Ho.
Qed.
Next Obligation.
  intros n t c q f v (l & -> & Hrep & Ho) Hok Haa Hac. destruct (queue_add_run l n t c f v Hrep Hok Haa Hac) as (c' & Hr & Hrep' & [k Hk] & _).
  { unfold malloc_fails. simpl. by rewrite Ho. }
  exists c'. split; [done|]. exists l. split; [done|]. split; [done|]. by rewrite Hk, Ho, drop_nil.
Qed.
Next Obligation.
  intros n t c q f old (l & -> & Hrep & Ho) Hok Hga. destruct (queue_get_run l n t c f old Hrep Hok Hga) as (c' & Hr & Hrep' & Hk & _).
  exists c'. split; [done|]. exists l. split; [done|]. split; [done|]. by rewrite Hk.
Qed.
Next Obligation. intros n t c q f (l & -> & Hrep & _) Hok. by apply print_stats_run. Qed.
Next Obligation.
  intros n t c q f (l & -> & Hrep & _) Hn. destruct (queue_destroy_run l n t c f Hrep Hn) as (c' & Hr & Hq & Hns & _).
  by exists c'.
Qed.

(** With it the second program is b.c of lab2/src/1. *)
Lemma start_threads_lab2 : start_threads id (λ c _, c) = Queue.B.main.
Proof. reflexivity. Qed.

(** The first version of the queue example, lab2/src/old, over any queue that
    keeps what queue.h promises: it stores 0 to 9, reads them back in order, after
    which the last two of its twelve reads fail and leave -1, with the statistics
    of each line as expected; and it leaves nothing allocated. *)
Theorem old_example_output {S : Type} `{FifoQueue S} n t s : ready s → (0 < n)%nat →
  ∃ s', run n main t s = Ok
    (((λ i, (1, i, [i + 1; i + 1; 0; i + 1; i + 1; 0; i + 1])) <$> seqZ 0 10) ++
     ((λ i, (1, i, [9 - i; 10; i + 1; 9 - i; 10; i + 1; 9 - i])) <$> seqZ 0 10) ++
     ((λ i, (0, -1, [0; 10; i; 10 - i; 10; 10; 0])) <$> [11; 12])) s' ∧ clean s'.
Proof.
  intros Hs Hn. unfold main. destruct (init_law n t s 1000 Hs) as (q & s1 & Hr1 & Hh1); [unfold INT_MAX; lia|].
  rewrite (run_bind_ok _ _ _ _ _ _ _ Hr1).
  destruct (add_all_run n t (seqZ 0 10) s1 q (fifo_init 1000) Hh1) as (s2 & Hr2 & Hh2 & Hok2);
    [split; simpl; unfold INT_MAX, LONG_MAX; lia|simpl; unfold LONG_MAX; lia..|].
  rewrite (run_bind_ok _ _ _ _ _ _ _ Hr2). set (f2 := snd _) in *.
  destruct (get_all_run n t 12 s2 q f2 Hh2 Hok2) as (s3 & Hr3 & Hh3); [vm_compute; congruence|].
  rewrite (run_bind_ok _ _ _ _ _ _ _ Hr3).
  destruct (destroy_law n t s3 q _ Hh3) as (s4 & Hr4 & Hc); [by vm_compute|].
  rewrite (run_bind_ok _ _ _ _ _ _ _ Hr4). exists s4. split; [|done]. vm_compute. reflexivity.
Qed.
Example old_example_output_witness : ∃ c', run 1%nat main 0%nat qstart = Ok
    (((λ i, (1, i, [i + 1; i + 1; 0; i + 1; i + 1; 0; i + 1])) <$> seqZ 0 10) ++
     ((λ i, (1, i, [9 - i; 10; i + 1; 9 - i; 10; i + 1; 9 - i])) <$> seqZ 0 10) ++
     ((λ i, (0, -1, [0; 10; i; 10 - i; 10; 10; 0])) <$> [11; 12])) c' ∧ clean c'.
Proof. apply (old_example_output 1 0%nat qstart); [by split_and!|lia]. Defined.
