(* ===== verification/Counter.v ===== *)
(** Counter: the spinlock and the futex mutex of lab2/src/4 and the program
    test.c, whose threads increment one counter under each of them. *)
From S2P Require Import Prelude Threads.

#[local] Open Scope Z_scope.

(** * Data *)

Definition STATUS_LOCK : Z := 0.
Definition STATUS_UNLOCK : Z := 1.
Definition NO_TID : Z := -1.

(** [int my_spinlock_t], with the thread that won it, an auxiliary variable *)
Record my_spinlock_t := Spinlock { status : Z; winner : option tid }.

(** [my_mutex_t], the threads the kernel has asleep on it, and auxiliary: the
    thread that won it, the threads between their first try to lock and the end
    of their unlock *)
Record my_mutex_t := Mutex {
  m_lock : Z;
  m_tid : Z;
  sleepers : list tid;
  m_owner : option tid;
  busy : gset tid;
}.

(** The globals of test.c; auxiliary: how often each thread stored [counter] *)
Record test_state (L : Type) := Test { counter : Z; stores : list nat; the_lock : L }.
Arguments Test {L}.
Arguments counter {L}.
Arguments stores {L}.
Arguments the_lock {L}.

(** [gettid()] of the thread with number [t] *)
Definition gettid (t : tid) : Z := Z.of_nat t.

Definition on_lock {L A} (m : C L A) : prog (test_state L) A :=
  atomic (lift_act the_lock (λ y s, Test (counter s) (stores s) y) m).

(** * Operations *)

Module SpinLock.

Definition spinlock_init : C my_spinlock_t unit := λ _ _, Ok tt (Spinlock STATUS_UNLOCK None).

(** [atomic_compare_exchange_strong (s, &expected, desired)] *)
Definition cas (expected desired : Z) (won : tid → option tid) : C my_spinlock_t bool := λ t y,
  if decide (status y = expected) then Ok true (Spinlock desired (won t)) else Ok false y.

Definition spinlock_lock : prog (test_state my_spinlock_t) unit :=
  Loop (λ _ : unit,
    ok ← on_lock (cas STATUS_UNLOCK STATUS_LOCK Some);
    mret (if (ok : bool) then inr tt else inl tt)) tt Ret.

Definition spinlock_unlock : prog (test_state my_spinlock_t) unit :=
  _ ← on_lock (cas STATUS_LOCK STATUS_UNLOCK (λ _, None)); mret tt.
End SpinLock.

Module FutexMutex.

Definition mutex_init : C my_mutex_t unit := λ _ _, Ok tt (Mutex STATUS_UNLOCK NO_TID [] None ∅).

(** The compare-and-exchange of [mutex_lock], and that of [mutex_unlock] *)
Definition cas_lock : C my_mutex_t bool := λ t m,
  if decide (m_lock m = STATUS_UNLOCK) then
    Ok true (Mutex STATUS_LOCK (m_tid m) (sleepers m) (Some t) ({[t]} ∪ busy m))
  else Ok false (Mutex (m_lock m) (m_tid m) (sleepers m) (m_owner m) ({[t]} ∪ busy m)).
Definition cas_unlock : C my_mutex_t bool := λ t m,
  if decide (m_lock m = STATUS_LOCK) then
    Ok true (Mutex STATUS_UNLOCK (m_tid m) (sleepers m) None (busy m))
  else Ok false m.

(** [FUTEX_WAIT] with the value 0: the kernel compares the word and puts the
    thread to sleep in one step, or returns [EAGAIN] *)
Definition FUTEX_WAIT : C my_mutex_t unit := λ t m,
  if decide (m_lock m = 0) then
    Ok tt (Mutex (m_lock m) (m_tid m) (sleepers m ++ [t]) (m_owner m) (busy m))
  else Ok tt m.
Definition asleep : C my_mutex_t unit := λ t m,
  if decide (t ∈ sleepers m) then Blocked else Ok tt m.
(** [FUTEX_WAKE] of one thread *)
Definition FUTEX_WAKE : C my_mutex_t unit := λ _ m,
  Ok tt (Mutex (m_lock m) (m_tid m) (tail (sleepers m)) (m_owner m) (busy m)).
(** The same, where it ends the unlock of the running thread *)
Definition wake_and_leave : C my_mutex_t unit := λ t m,
  Ok tt (Mutex (m_lock m) (m_tid m) (tail (sleepers m)) (m_owner m) (busy m ∖ {[t]})).

Definition futex_wait : prog (test_state my_mutex_t) unit :=
  on_lock FUTEX_WAIT;; on_lock asleep.

Definition mutex_lock : prog (test_state my_mutex_t) unit :=
  Loop (λ _ : unit,
    ok ← on_lock cas_lock;
    if (ok : bool) then mret (inr tt) else futex_wait;; mret (inl tt)) tt
  (λ _, on_lock (λ t m, Ok tt (Mutex (m_lock m) (gettid t) (sleepers m) (m_owner m) (busy m)))).

Definition mutex_unlock : prog (test_state my_mutex_t) unit :=
  mine ← on_lock (λ t m, Ok (bool_decide (m_tid m = gettid t)) m);
  if (mine : bool) then
    ok ← on_lock cas_unlock;
    if (ok : bool) then on_lock wake_and_leave else mret tt
  else mret tt.

(** A signal may wake a sleeper early, at any time. *)
Definition interrupts : prog (test_state my_mutex_t) unit :=
  forever (λ _ : unit, on_lock FUTEX_WAKE) tt.
End FutexMutex.

Section test.
Context {L : Type} (lock unlock : prog (test_state L) unit) (INCREMENTS : nat).

(** [counter++]: a load and a store *)
Definition load_counter : prog (test_state L) Z := atomic (gets counter).
Definition store_counter (x : Z) : prog (test_state L) unit :=
  atomic (λ t s, Ok tt (Test x (alter Datatypes.S t (stores s)) (the_lock s))).

(** [increment_with_spinlock], [increment_with_mutex] *)
Definition increment : prog (test_state L) unit :=
  Loop (λ i : nat,
    if decide (i < INCREMENTS)%nat then
      lock;;
      x ← load_counter;
      y ← atomic (signed_add INT_MAX x 1);
      store_counter y;;
      unlock;;
      mret (inl (i + 1)%nat)
    else mret (inr tt)) 0%nat Ret.
End test.

(** * The counting argument, against what a lock promises *)

(** A lock guards the counter: a thread that stored [x] times is [outside] or
    [holding] the lock; locking and unlocking go from one to the other, and
    counting under the lock is a step everyone expects. *)
Class Guard (L : Type) `{RG (test_state L)} (n N : nat) (lock unlock : prog (test_state L) unit) := {
  outside : nat → nat → test_state L → Prop;
  holding : nat → nat → test_state L → Prop;
  outside_stable i x s s' : outside i x s → R i s s' → I s' → outside i x s';
  holding_stable i x s s' : holding i x s → R i s s' → I s' → holding i x s' ∧ counter s' = counter s;
  lock_safe m i x s k : (i < n)%nat → outside i x s →
    (∀ m' s', (m' ≤ m)%nat → holding i x s' → safe m' i (k tt) s') → safe m i (lock ≫= k) s;
  unlock_safe m i x s k : (i < n)%nat → holding i x s →
    (∀ m' s', (m' ≤ m)%nat → outside i x s' → safe m' i (k tt) s') → safe m i (unlock ≫= k) s;
  counter_bound i x s : (i < n)%nat → I s → holding i x s → (x < N)%nat →
    - INT_MAX - 1 <= counter s + 1 <= INT_MAX;
  store_safe i x s : (i < n)%nat → I s → holding i x s → (x < N)%nat →
    let s' := Test (counter s + 1) (alter Datatypes.S i (stores s)) (the_lock s) in
    I s' ∧ G i s s' ∧ holding i (Datatypes.S x) s';
  outside_fin i s : (i < n)%nat → I s → outside i N s → fin i s;
}.

Section increment.
Context {L : Type} `{RG (test_state L)} {n N : nat} {lock unlock : prog (test_state L) unit}.
Context `{!Guard L n N lock unlock}.

Lemma increment_safe m i s : (i < n)%nat → outside i 0 s → safe m i (increment lock unlock N) s.
Proof.
  intros Hi Hout. apply (safe_loop (λ x s', outside i x s' ∧ (x ≤ N)%nat)); [| |split; [done|lia]].
  { intros x s1 s2 [Ho Hx] HR HI. split; [by eapply outside_stable|done]. }
  intros m1 x s1 Hm1 [Ho Hx] IH. destruct (decide (x < N)%nat) as [Hlt|Hge].
  - unfold mbind, prog_bind. rewrite ?pbind_assoc. apply (lock_safe _ _ x); [done|done|].
    intros m2 s2 Hm2 Hs2. cbv beta. rewrite ?pbind_assoc.
    destruct m2 as [|m2]; [done|]. apply safe_act. intros s3 HI3 HR3.
    destruct (holding_stable _ _ _ _ Hs2 HR3 HI3) as [Hs3 _].
    split; [done|]. split; [intros j _; apply R_refl|]. cbn [pbind]. rewrite ?pbind_assoc.
    destruct m2 as [|m2]; [done|]. apply safe_act. intros s4 HI4 HR4.
    destruct (holding_stable _ _ _ _ Hs3 HR4 HI4) as [Hs4 Hc4]. rewrite <-Hc4.
    unfold signed_add. rewrite decide_True by (by eapply counter_bound).
    split; [done|]. split; [intros j _; apply R_refl|]. cbn [pbind]. rewrite ?pbind_assoc.
    destruct m2 as [|m2]; [done|]. apply safe_act. intros s5 HI5 HR5.
    destruct (holding_stable _ _ _ _ Hs4 HR5 HI5) as [Hs5 Hc5]. rewrite <-Hc5.
    destruct (store_safe i x s5) as (HI6 & HG & Hs6); [done..|].
    split; [done|]. split; [done|]. cbn [pbind]. rewrite ?pbind_assoc.
    apply (unlock_safe _ _ (Datatypes.S x)); [done|done|]. intros m6 s6 Hm6 Hs6'. cbn.
    apply IH; [lia|]. rewrite Nat.add_1_r. split; [done|lia].
  - cbn. assert (x = N) as -> by lia. apply safe_ret. intros s2 HI HR.
    apply outside_fin; [done|done|]. by eapply outside_stable.
Qed.
End increment.

(** ** What holds of the counter *)

Section counting.
Context (n N : nat) (fits : Z.of_nat (n * N) <= INT_MAX).

(** The counter is the number of stores, at most [N] by each of [n] threads. *)
Definition counted (c : Z) (st : list nat) : Prop :=
  c = Z.of_nat (sum_list st) ∧ length st = n ∧ ∀ i k, st !! i = Some k → (k ≤ N)%nat.

Lemma sum_list_alter st i k : st !! i = Some k →
  sum_list (alter Datatypes.S i st) = Datatypes.S (sum_list st).
Proof.
  revert i. induction st as [|x st IH]; intros [|i] Hi; simplify_eq/=; [done|].
  rewrite IH by done. lia.
Qed.
Lemma sum_list_bound st : (∀ i k, st !! i = Some k → (k ≤ N)%nat) → (sum_list st ≤ length st * N)%nat.
Proof.
  induction st as [|x st IH]; intros Hall; simpl; [done|].
  pose proof (Hall 0%nat x eq_refl). assert (sum_list st ≤ length st * N)%nat; [|lia].
  apply IH. intros i k Hi. by apply (Hall (Datatypes.S i)).
Qed.
Lemma sum_list_bound_lt st i k : (∀ i k, st !! i = Some k → (k ≤ N)%nat) →
  st !! i = Some k → (k < N)%nat → (sum_list st < length st * N)%nat.
Proof.
  revert i. induction st as [|x st IH]; intros i Hall Hi Hk; [done|].
  destruct i as [|i]; simplify_eq/=.
  - assert (sum_list st ≤ length st * N)%nat; [|lia].
    apply sum_list_bound. intros j k' Hj. by apply (Hall (Datatypes.S j)).
  - pose proof (Hall 0%nat x eq_refl). assert (sum_list st < length st * N)%nat; [|lia].
    apply (IH i); [|done|done]. intros j k' Hj. by apply (Hall (Datatypes.S j)).
Qed.

Lemma counted_bound c st i k : counted c st → st !! i = Some k → (k < N)%nat → 0 <= c < INT_MAX.
Proof.
  intros (-> & Hlen & Hall) Hi Hk. pose proof (sum_list_bound_lt st i k Hall Hi Hk) as Hs.
  rewrite Hlen in Hs. lia.
Qed.
Lemma counted_store c st i k : counted c st → st !! i = Some k → (k < N)%nat →
  counted (c + 1) (alter Datatypes.S i st).
Proof.
  intros (-> & Hlen & Hall) Hi Hk. split_and!.
  - rewrite (sum_list_alter st i k) by done. lia.
  - by rewrite length_alter.
  - intros j k' Hj. destruct (decide (i = j)) as [<-|Hne].
    + rewrite list_lookup_alter_eq, Hi in Hj. simplify_eq/=. lia.
    + rewrite list_lookup_alter_ne in Hj by done. by apply (Hall j).
Qed.
Lemma counted_done c st : counted c st → (∀ i, (i < n)%nat → st !! i = Some N) → c = Z.of_nat (n * N).
Proof.
  intros (-> & Hlen & _) Hall. f_equal. clear fits. revert n Hlen Hall.
  induction st as [|x st IH]; intros n Hlen Hall; simpl in *; [by subst|]. subst n.
  pose proof (Hall 0%nat ltac:(lia)) as H0. simplify_eq/=. rewrite (IH (length st)); [done|done|].
  intros i Hi. apply (Hall (Datatypes.S i)). lia.
Qed.
Lemma counted_start : counted 0 (replicate n 0%nat).
Proof.
  clear fits. split_and!; [|by rewrite length_replicate|].
  - induction n as [|m IH]; [done|]. by simpl.
  - intros i k [-> _]%lookup_replicate. lia.
Qed.

(** ** The spinlock *)

Section spin.
Abbreviation sp_state := (test_state my_spinlock_t).
Implicit Types (s : sp_state) (y : my_spinlock_t).

Definition spin_status y : Prop := status y = match winner y with None => STATUS_UNLOCK | Some _ => STATUS_LOCK end.
Definition spin_inv s : Prop := spin_status (the_lock s) ∧ counted (counter s) (stores s).
Definition spin_rely (i : nat) s s' : Prop :=
  (winner (the_lock s) = Some i → winner (the_lock s') = Some i ∧ counter s' = counter s) ∧
  (winner (the_lock s') = Some i → winner (the_lock s) = Some i) ∧
  stores s' !! i = stores s !! i.

#[local] Instance spin_rg : RG sp_state.
Proof.
  refine {| I := spin_inv; R := spin_rely; okf _ := False; wt _ _ := False;
    fin i s := stores s !! i = Some N |}.
  - intros i s. by split_and!.
  - intros i s1 s2 s3 (H1 & H2 & H3) (H1' & H2' & H3'). split_and!; [|auto|congruence].
    intros Ho. destruct (H1 Ho) as [Ho' Hc]. destruct (H1' Ho') as [? Hc']. split; [done|congruence].
Defined.

Definition spin_outside (i x : nat) s : Prop := winner (the_lock s) ≠ Some i ∧ stores s !! i = Some x.
Definition spin_holding (i x : nat) s : Prop := winner (the_lock s) = Some i ∧ stores s !! i = Some x.

Lemma spin_lock_safe m i x s k : spin_outside i x s →
  (∀ m' s', (m' ≤ m)%nat → spin_holding i x s' → safe m' i (k tt) s') →
  safe m i (SpinLock.spinlock_lock ≫= k) s.
Proof.
  intros Hout Hk. apply (safe_loop (λ _ s', spin_outside i x s')); [| |done].
  { intros _ s1 s2 [Ho Hx] (_ & HR2 & HR3) _. split; [by intros ?%HR2|congruence]. }
  clear s Hout. intros m1 [] s Hm1 [Ho Hx] IH. destruct m1 as [|m1]; [done|].
  apply safe_act. intros s1 [Hst Hc] (_ & HR2 & HR3). unfold lift_act, SpinLock.cas, spin_status in *.
  destruct (winner (the_lock s1)) as [j|] eqn:Hw; rewrite Hst; cbn -[decide].
  - rewrite decide_False by done. replace (Test _ _ _) with s1 by (by destruct s1).
    split; [split; [unfold spin_status; by rewrite Hw|done]|]. split; [intros ? _; apply (R_refl (RG:=spin_rg))|]. apply IH; [lia|].
    split; [|congruence]. intros Hj. apply Ho, HR2. congruence.
  - rewrite decide_True by done. split; [by split|]. split.
    + intros j Hj. split_and!; simpl; congruence.
    + apply Hk; [lia|]. split; [done|]. simpl. congruence.
Qed.
Lemma spin_unlock_safe m i x s k : spin_holding i x s →
  (∀ m' s', (m' ≤ m)%nat → spin_outside i x s' → safe m' i (k tt) s') →
  safe m i (SpinLock.spinlock_unlock ≫= k) s.
Proof.
  intros [Ho Hx] Hk. destruct m as [|m]; [done|]. apply safe_act.
  intros s1 [Hst Hc] (HR & _ & HR3). destruct (HR Ho) as [Ho1 _].
  unfold lift_act, SpinLock.cas, spin_status in *. rewrite Ho1 in Hst. rewrite Hst.
  rewrite decide_True by done. split; [by split|]. split.
  - intros j Hj. split_and!; simpl; congruence.
  - apply Hk; [lia|]. split; [done|]. simpl. congruence.
Qed.

#[local] Program Instance spin_guard :
  Guard my_spinlock_t n N SpinLock.spinlock_lock SpinLock.spinlock_unlock :=
  {| outside := spin_outside; holding := spin_holding |}.
Next Obligation. intros i x s s' [Ho Hx] (_ & HR2 & HR3) _. split; [by intros ?%HR2|congruence]. Qed.
Next Obligation.
  intros i x s s' [Ho Hx] (HR & _ & HR3) _. destruct (HR Ho). split; [|done]. split; [done|congruence].
Qed.
Next Obligation. intros m i x s k _. apply spin_lock_safe. Qed.
Next Obligation. intros m i x s k _. apply spin_unlock_safe. Qed.
Next Obligation.
  intros i x s _ [_ Hc] [_ Hx] Hlt. pose proof (counted_bound _ _ _ _ Hc Hx Hlt). unfold INT_MAX in *. lia.
Qed.
Next Obligation.
  intros i x s _ [Hst Hc] [Ho Hx] Hlt s'. split; [|split].
  - split; [done|]. by eapply counted_store.
  - intros j Hj. split_and!; simpl; [congruence|congruence|]. by rewrite list_lookup_alter_ne.
  - split; [done|]. simpl. by rewrite list_lookup_alter_eq, Hx.
Qed.
Next Obligation. by intros i s _ _ [_ Hx]. Qed.
End spin.

(** ** The futex mutex *)

Section futex.
Abbreviation mx_state := (test_state my_mutex_t).
Implicit Types (s : mx_state) (y : my_mutex_t).

(** Who sleeps is in the middle of locking, the owner is awake, and as long as
    anyone sleeps somebody who is awake has yet to try the lock or to wake. *)
Record mutex_ok y : Prop := {
  mx_lock : m_lock y = match m_owner y with None => STATUS_UNLOCK | Some _ => STATUS_LOCK end;
  mx_sleepers : ∀ t, t ∈ sleepers y → t ∈ busy y;
  mx_nodup : NoDup (sleepers y);
  mx_owner : ∀ o, m_owner y = Some o → o ∈ busy y ∧ (o ∉ sleepers y);
  mx_awake : sleepers y ≠ [] → ∃ t, t ∈ busy y ∧ (t ∉ sleepers y);
  mx_busy : ∀ t, t ∈ busy y → (t < n)%nat;
}.
Definition mutex_inv s : Prop := mutex_ok (the_lock s) ∧ counted (counter s) (stores s).

Definition lock_rely (i : nat) y y' : Prop :=
  (m_owner y = Some i → m_owner y' = Some i ∧ m_tid y' = m_tid y) ∧
  (m_owner y' = Some i → m_owner y = Some i) ∧
  (i ∈ busy y' ↔ i ∈ busy y) ∧ (i ∈ sleepers y' → i ∈ sleepers y).
Definition mutex_rely (i : nat) s s' : Prop :=
  lock_rely i (the_lock s) (the_lock s') ∧
  (m_owner (the_lock s) = Some i → counter s' = counter s) ∧
  stores s' !! i = stores s !! i.

#[local] Instance mutex_rg : RG mx_state.
Proof.
  refine {| I := mutex_inv; R := mutex_rely; okf _ := False;
    wt i s := i ∈ sleepers (the_lock s);
    fin i s := stores s !! i = Some N ∧ i ∉ busy (the_lock s) |}.
  - intros i s. by split_and!.
  - intros i s1 s2 s3 ((H1 & H2 & H3 & H4) & H5 & H6) ((H1' & H2' & H3' & H4') & H5' & H6').
    split; [split; [|split; [auto|split; [by rewrite H3'|auto]]]|split; [|congruence]].
    + intros Ho. destruct (H1 Ho) as [Ho' Hc]. destruct (H1' Ho') as [? Hc']. split; [done|congruence].
    + intros Ho. destruct (H1 Ho) as [Ho' _]. rewrite H5', H5 by done. done.
Defined.

(** A step on the mutex alone *)
Lemma lock_step i s y : mutex_inv s → mutex_ok y → (∀ j, j ≠ i → lock_rely j (the_lock s) y) →
  I (Test (counter s) (stores s) y) ∧ G i s (Test (counter s) (stores s) y).
Proof. intros [_ Hc] Hy Hj. split; [by split|]. intros j Hne. split; [by apply Hj|done]. Qed.

Lemma cas_lock_ok y i : mutex_ok y → (i < n)%nat → i ∉ sleepers y →
  ∃ b y', FutexMutex.cas_lock i y = Ok b y' ∧ mutex_ok y' ∧ (∀ j, j ≠ i → lock_rely j y y') ∧
    sleepers y' = sleepers y ∧ i ∈ busy y' ∧
    (b = true → m_owner y' = Some i) ∧ (b = false → m_owner y' = m_owner y).
Proof.
  intros [Hl Hs Hnd Ho Ha Hb] Hi Hni. unfold FutexMutex.cas_lock. rewrite Hl.
  assert (∀ j, j ≠ i → j ∈ {[i]} ∪ busy y ↔ j ∈ busy y) as Hbj by set_solver.
  destruct (m_owner y) as [o|] eqn:Hown; [rewrite decide_False by done|rewrite decide_True by done].
  - eexists _, _. split; [done|]. split; [|split; [|simpl; set_solver]].
    + split; simpl; [done|set_solver|done| | |set_solver].
      * intros o' [= <-]. destruct (Ho o eq_refl). set_solver.
      * intros Hne. destruct (Ha Hne) as (t & ? & ?). exists t. set_solver.
    + intros j Hj. split; [simpl; by rewrite Hown|]. split; [simpl; by rewrite Hown|]. split; [by apply Hbj|done].
  - eexists _, _. split; [done|]. split; [|split; [|simpl; set_solver]].
    + split; simpl; [done|set_solver|done| | |set_solver].
      * intros o' [= <-]. set_solver.
      * intros _. exists i. set_solver.
    + intros j Hj. split; [simpl; by rewrite Hown|]. split; [simpl; congruence|]. split; [by apply Hbj|done].
Qed.

Lemma futex_wait_ok y i : mutex_ok y → i ∈ busy y → i ∉ sleepers y → m_owner y ≠ Some i →
  ∃ y', FutexMutex.FUTEX_WAIT i y = Ok tt y' ∧ mutex_ok y' ∧ (∀ j, j ≠ i → lock_rely j y y') ∧
    m_owner y' = m_owner y ∧ busy y' = busy y.
Proof.
  intros Hok Hb Hni Hno. pose proof Hok as [Hl Hs Hnd Ho Ha Hbn].
  unfold FutexMutex.FUTEX_WAIT. destruct (decide (m_lock y = 0)) as [H0|H0].
  - destruct (m_owner y) as [o|] eqn:Hown; [|by rewrite H0 in Hl].
    destruct (Ho o eq_refl) as [Hob Hos]. assert (o ≠ i) by congruence.
    eexists. split; [done|]. split; [|split; [|done]].
    + split; simpl; [done|set_solver| | | |done].
      * apply NoDup_app. split; [done|]. split; [set_solver|apply NoDup_singleton].
      * intros o' [= <-]. set_solver.
      * intros _. exists o. set_solver.
    + intros j Hj. split; [simpl; by rewrite Hown|]. split; [simpl; by rewrite Hown|]. split; [done|set_solver].
  - exists y. split; [done|]. split; [done|]. split; [|done]. intros j _. by repeat split.
Qed.

Lemma mutex_lock_safe m i x s k : (i < n)%nat →
  m_owner (the_lock s) ≠ Some i → stores s !! i = Some x → i ∉ sleepers (the_lock s) →
  (∀ m' s', (m' ≤ m)%nat → m_owner (the_lock s') = Some i → m_tid (the_lock s') = gettid i →
     stores s' !! i = Some x → i ∈ busy (the_lock s') → safe m' i (k tt) s') →
  safe m i (FutexMutex.mutex_lock ≫= k) s.
Proof.
  intros Hi Ho0 Hx0 Hs0 Hk.
  apply (safe_loop (λ _ s', m_owner (the_lock s') ≠ Some i ∧ stores s' !! i = Some x ∧
    (i ∉ sleepers (the_lock s')))); [| |done].
  { intros _ s1 s2 (Ho & Hx & Hs) ((_ & HR2 & _ & HR4) & _ & HR6) _.
    split_and!; [by intros ?%HR2|congruence|by intros ?%HR4]. }
  clear s Ho0 Hx0 Hs0. intros m1 [] s Hm1 (Ho & Hx & Hs) IH. unfold mbind, prog_bind. rewrite ?pbind_assoc.
  destruct m1 as [|m1]; [done|]. apply safe_act.
  intros s1 HI1 ((_ & HR2 & _ & HR4) & _ & HR6).
  assert (i ∉ sleepers (the_lock s1)) as Hs1 by (by intros ?%HR4).
  assert (m_owner (the_lock s1) ≠ Some i) as Ho1 by (by intros ?%HR2).
  destruct (cas_lock_ok (the_lock s1) i (proj1 HI1) Hi Hs1) as (b & y & Hcas & Hy & Hrely & Hsl & Hby & Ht & Hf).
  unfold lift_act at 1. rewrite Hcas.
  destruct (lock_step i s1 y HI1 Hy Hrely) as [HI2 HG2]. split; [done|]. split; [done|].
  assert (stores s1 !! i = Some x) as Hx1 by congruence.
  set (s2 := Test (counter s1) (stores s1) y) in *. cbn [pbind]. destruct b; cbn [pbind].
  - (* taken: the thread id is written *)
    destruct m1 as [|m1]; [done|]. apply safe_act. intros s3 HI3 ((HR1 & _ & HR3 & _) & _ & HR6').
    destruct (HR1 (Ht eq_refl)) as [Ho3 _]. unfold lift_act.
    destruct (lock_step i s3 (Mutex (m_lock (the_lock s3)) (gettid i) (sleepers (the_lock s3))
      (m_owner (the_lock s3)) (busy (the_lock s3))) HI3) as [HI4 HG4].
    { destruct HI3 as [[] _]. by split. }
    { intros j Hj. split_and!; simpl; congruence || done. }
    split; [done|]. split; [done|]. apply Hk; simpl; [lia|done|done|by rewrite HR6'|]. by apply HR3.
  - (* not taken: wait *)
    specialize (Hf eq_refl). rewrite ?pbind_assoc.
    destruct m1 as [|m1]; [done|]. apply safe_act. intros s3 HI3 ((_ & HR2' & HR3' & HR4') & _ & HR6').
    assert (i ∉ sleepers (the_lock s3)) as Hs3 by (intros Hin%HR4'; simpl in Hin; by rewrite Hsl in Hin).
    assert (m_owner (the_lock s3) ≠ Some i) as Ho3 by (intros Hin%HR2'; simpl in Hin; congruence).
    destruct (futex_wait_ok (the_lock s3) i (proj1 HI3) ltac:(by apply HR3') Hs3 Ho3)
      as (y3 & Hw & Hy3 & Hrely3 & Ho4 & Hb4).
    unfold lift_act at 1. rewrite Hw. destruct (lock_step i s3 y3 HI3 Hy3 Hrely3) as [HI4 HG4].
    split; [done|]. split; [done|]. cbn [pbind].
    destruct m1 as [|m1]; [done|]. apply safe_act. intros s5 HI5 ((_ & HR2'' & _) & _ & HR6'').
    unfold lift_act, FutexMutex.asleep. destruct (decide (i ∈ sleepers (the_lock s5))) as [Hin|Hin]; [done|].
    replace (Test _ _ _) with s5 by (by destruct s5). split; [done|].
    split; [intros j _; apply (R_refl (RG:=mutex_rg))|]. cbn [pbind]. apply IH; [lia|].
    split_and!; [|simpl in *; congruence|done]. intros Hin'%HR2''. simpl in Hin'. congruence.
Qed.

Lemma cas_unlock_ok y i : mutex_ok y → m_owner y = Some i →
  ∃ y', FutexMutex.cas_unlock i y = Ok true y' ∧ mutex_ok y' ∧ (∀ j, j ≠ i → lock_rely j y y') ∧
    m_owner y' = None ∧ busy y' = busy y ∧ sleepers y' = sleepers y.
Proof.
  intros [Hl Hs Hnd Ho Ha Hb] Hown. unfold FutexMutex.cas_unlock. rewrite Hl, Hown.
  rewrite decide_True by done. eexists. split; [done|]. split; [|split; [|done]].
  - split; simpl; try done.
  - intros j Hj. split; [simpl; congruence|]. split; [simpl; congruence|]. done.
Qed.

Lemma wake_and_leave_ok y i : mutex_ok y → m_owner y ≠ Some i → i ∉ sleepers y →
  ∃ y', FutexMutex.wake_and_leave i y = Ok tt y' ∧ mutex_ok y' ∧ (∀ j, j ≠ i → lock_rely j y y') ∧
    m_owner y' = m_owner y ∧ i ∉ busy y'.
Proof.
  intros [Hl Hs Hnd Ho Ha Hb] Hno Hni. eexists. split; [done|].
  assert (∀ t, t ∈ tail (sleepers y) → t ∈ sleepers y) as Htl by (destruct (sleepers y); set_solver).
  split; [|split; [|split; [done|simpl; set_solver]]].
  - split; simpl; [done| | | | |set_solver].
    + intros t Ht. pose proof (Hs t (Htl t Ht)). assert (t ≠ i) by (intros ->; auto). set_solver.
    + destruct (sleepers y); [done|]. by apply NoDup_cons in Hnd as [_ ?].
    + intros o Hown. destruct (Ho o Hown). assert (o ≠ i) by congruence. set_solver.
    + intros Hne. destruct (sleepers y) as [|w r] eqn:E; [done|]. simpl in *.
      apply NoDup_cons in Hnd as [Hw _]. exists w. set_solver.
  - intros j Hj. split; [done|]. split; [done|]. simpl. set_solver.
Qed.

Lemma wake_ok y i : mutex_ok y →
  ∃ y', FutexMutex.FUTEX_WAKE i y = Ok tt y' ∧ mutex_ok y' ∧ ∀ j, lock_rely j y y'.
Proof.
  intros [Hl Hs Hnd Ho Ha Hb]. eexists. split; [done|].
  assert (∀ t, t ∈ tail (sleepers y) → t ∈ sleepers y) as Htl by (destruct (sleepers y); set_solver).
  split; [|intros j; by split_and!; simpl; auto].
  split; simpl; [done|by auto| | | |done].
  - destruct (sleepers y); [done|]. by apply NoDup_cons in Hnd as [_ ?].
  - intros o Hown. destruct (Ho o Hown). auto.
  - intros Hne. destruct (Ha) as (t & ? & ?); [by intros E; rewrite E in Hne|]. exists t. auto.
Qed.

Definition mutex_outside (i x : nat) s : Prop :=
  m_owner (the_lock s) ≠ Some i ∧ stores s !! i = Some x ∧ (i ∉ busy (the_lock s)) ∧
  (i ∉ sleepers (the_lock s)).
Definition mutex_holding (i x : nat) s : Prop :=
  m_owner (the_lock s) = Some i ∧ m_tid (the_lock s) = gettid i ∧ stores s !! i = Some x.

Lemma mutex_unlock_safe m i x s k : mutex_holding i x s →
  (∀ m' s', (m' ≤ m)%nat → mutex_outside i x s' → safe m' i (k tt) s') →
  safe m i (FutexMutex.mutex_unlock ≫= k) s.
Proof.
  intros (Ho & Ht & Hx) Hk. unfold FutexMutex.mutex_unlock. unfold mbind, prog_bind. rewrite ?pbind_assoc.
  destruct m as [|m]; [done|]. apply safe_act. intros s1 HI1 ((HR1 & _) & _ & HR6).
  destruct (HR1 Ho) as [Ho1 Ht1]. unfold lift_act at 1. rewrite bool_decide_true by congruence.
  replace (Test _ _ _) with s1 by (by destruct s1). split; [done|].
  split; [intros j _; apply (R_refl (RG:=mutex_rg))|]. cbn [pbind]. rewrite ?pbind_assoc.
  destruct m as [|m]; [done|]. apply safe_act. intros s2 HI2 ((HR1' & _) & _ & HR6').
  destruct (HR1' Ho1) as [Ho2 _].
  destruct (cas_unlock_ok (the_lock s2) i (proj1 HI2) Ho2) as (y & Hcas & Hy & Hrely & Hoy & Hby & Hsy).
  unfold lift_act at 1. rewrite Hcas. destruct (lock_step i s2 y HI2 Hy Hrely) as [HI3 HG3].
  split; [done|]. split; [done|]. cbn [pbind].
  destruct m as [|m]; [done|]. apply safe_act. intros s4 HI4 ((_ & HR2 & _ & HR4) & _ & HR6'').
  destruct (wake_and_leave_ok (the_lock s4) i (proj1 HI4)) as (y4 & Hw & Hy4 & Hrely4 & Ho4 & Hb4).
  { intros Hin%HR2. simpl in Hin. congruence. }
  { intros Hin%HR4. simpl in Hin. rewrite Hsy in Hin.
    destruct HI2 as [[_ _ _ Hown _ _] _]. by destruct (Hown i Ho2). }
  unfold lift_act. rewrite Hw. destruct (lock_step i s4 y4 HI4 Hy4 Hrely4) as [HI5 HG5].
  split; [done|]. split; [done|]. apply Hk; [lia|]. split_and!; simpl; [|simpl in *; congruence|done|].
  - rewrite Ho4. intros Hin%HR2. simpl in Hin. congruence.
  - intros Hin. by apply Hb4, (mx_sleepers _ Hy4).
Qed.

#[local] Program Instance mutex_guard :
  Guard my_mutex_t n N FutexMutex.mutex_lock FutexMutex.mutex_unlock :=
  {| outside := mutex_outside; holding := mutex_holding |}.
Next Obligation.
  intros i x s s' (Ho & Hx & Hb & Hs) ((_ & HR2 & [HR3 _] & HR4) & _ & HR6) _.
  split_and!; [by intros ?%HR2|congruence|by intros ?%HR3|by intros ?%HR4].
Qed.
Next Obligation.
  intros i x s s' (Ho & Ht & Hx) ((HR1 & _) & HR5 & HR6) _. destruct (HR1 Ho).
  split; [split_and!; congruence|by apply HR5].
Qed.
Next Obligation.
  intros m i x s k Hi (Ho & Hx & Hb & Hs) Hk. apply (mutex_lock_safe _ _ x); [done..|].
  intros m' s' Hm Ho' Ht' Hx' _. by apply Hk.
Qed.
Next Obligation. intros m i x s k _. apply mutex_unlock_safe. Qed.
Next Obligation.
  intros i x s _ [_ Hc] (_ & _ & Hx) Hlt. pose proof (counted_bound _ _ _ _ Hc Hx Hlt). unfold INT_MAX in *. lia.
Qed.
Next Obligation.
  intros i x s _ [Hst Hc] (Ho & Ht & Hx) Hlt s'. split; [|split].
  - split; [done|]. by eapply counted_store.
  - intros j Hj. split; [by split_and!|]. simpl. split; [congruence|]. by rewrite list_lookup_alter_ne.
  - split; [done|]. split; [done|]. simpl. by rewrite list_lookup_alter_eq, Hx.
Qed.
Next Obligation. by intros i s _ _ (_ & Hx & Hb & _). Qed.

Lemma interrupts_safe m i s : safe m i FutexMutex.interrupts s.
Proof.
  apply (safe_loop (λ _ _, True)); [done| |done]. intros m1 [] s1 _ _ IH.
  destruct m1 as [|m1]; [done|]. apply safe_act. intros s2 HI2 _.
  destruct (wake_ok (the_lock s2) i (proj1 HI2)) as (y & Hw & Hy & Hrely). unfold lift_act. rewrite Hw.
  destruct (lock_step i s2 y HI2 Hy) as [HI3 HG3]; [by intros j _|].
  split; [done|]. split; [done|]. cbn. apply IH; [lia|done].
Qed.

(** If nobody can move, nobody sleeps: a sleeper implies somebody who is awake
    and in the middle of locking or unlocking. *)
Lemma nobody_sleeps s : mutex_inv s →
  (∀ i, (i < n)%nat → i ∉ busy (the_lock s) ∨ i ∈ sleepers (the_lock s)) → sleepers (the_lock s) = [].
Proof.
  intros [[_ Hs _ _ Ha Hb] _] Hall. destruct (sleepers (the_lock s)) as [|w r] eqn:E; [done|].
  destruct Ha as (t & Ht & Hts); [done|]. destruct (Hall t (Hb t Ht)); done.
Qed.
End futex.
End counting.

(** * The program *)

Definition NUM_THREADS : nat := 20.
Definition INCREMENTS : nat := Z.to_nat 1000000.

Definition spinlock_threads (n N : nat) : list (prog (test_state my_spinlock_t) unit) :=
  replicate n (increment SpinLock.spinlock_lock SpinLock.spinlock_unlock N).
(** The system's signals are the thread behind the last. *)
Definition mutex_threads (n N : nat) : list (prog (test_state my_mutex_t) unit) :=
  replicate n (increment FutexMutex.mutex_lock FutexMutex.mutex_unlock N) ++ [FutexMutex.interrupts].

(** What [main] has when it starts the threads *)
Definition spinlock_start (n : nat) : test_state my_spinlock_t :=
  Test 0 (replicate n 0%nat) (Spinlock STATUS_UNLOCK None).
Definition mutex_start (n : nat) : test_state my_mutex_t :=
  Test 0 (replicate n 0%nat) (Mutex STATUS_UNLOCK NO_TID [] None ∅).

(** C12: The spinlock of lab2/src/4 under test.c: with [n] threads that increment the counter [N] times each
    under the lock, n * N within an int, in every interleaving no thread faults (no increment
    overflows), some thread can always move until all have returned, and then the counter that is
    printed is exactly n * N. *)
Theorem spinlock_counts n N : Z.of_nat (n * N) <= INT_MAX →
  ∀ s ths, steps (spinlock_start n, spinlock_threads n N) (s, ths) →
    (∀ e, ¬ faulty (s, ths) e) ∧ (can_move n (s, ths) ∨ finished n ths) ∧
    (finished n ths → counter s = Z.of_nat (n * N)).
Proof.
  intros Hfit s ths Hsteps.
  destruct (rg_sound (H:=spin_rg n N) (spinlock_start n, spinlock_threads n N) (s, ths))
    as ([Hst Hc] & Hf & Hb); [|done|].
  { split; [split; [done|apply counted_start]|]. intros m i p [-> Hi]%lookup_replicate.
    apply (@increment_safe _ (spin_rg n N) n N _ _ (spin_guard n N Hfit)); [done|]. split; [done|].
    by apply lookup_replicate. }
  assert (length ths = n) as Hlen.
  { pose proof (steps_length _ _ Hsteps) as Hl. simpl in Hl. unfold spinlock_threads in Hl.
    by rewrite Hl, length_replicate. }
  split; [by intros e ?%Hf|]. split.
  - destruct (can_move_or_blocked n (s, ths)) as [?|Hall]; [simpl; lia|by left|]. right. intros i Hi.
    destruct (lookup_lt_is_Some_2 ths i) as [p Hp]; [lia|].
    pose proof (Hb i p Hp (Hall i p Hi Hp)) as Hw. by destruct p as [[]| |].
  - intros Hall. eapply counted_done; [done|]. intros i Hi. exact (Hb i (Ret tt) (Hall i Hi) eq_refl).
Qed.

(** The program: 20 threads, a million times each *)
Example spinlock_counts_witness :
  Z.of_nat (NUM_THREADS * INCREMENTS) <= INT_MAX ∧
  ∀ s ths, steps (spinlock_start NUM_THREADS, spinlock_threads NUM_THREADS INCREMENTS) (s, ths) →
    (∀ e, ¬ faulty (s, ths) e) ∧ (can_move NUM_THREADS (s, ths) ∨ finished NUM_THREADS ths) ∧
    (finished NUM_THREADS ths → counter s = Z.of_nat (NUM_THREADS * INCREMENTS)).
Proof.
  assert (Z.of_nat (NUM_THREADS * INCREMENTS) <= INT_MAX) as Hmax.
  { unfold INCREMENTS, NUM_THREADS. rewrite Nat2Z.inj_mul, Z2Nat.id by lia. unfold INT_MAX. lia. }
  split; [exact Hmax|]. exact (spinlock_counts NUM_THREADS INCREMENTS Hmax).
Defined.

(** C5: The futex mutex of lab2/src/4 under test.c: with [n] threads that increment the counter [N] times
    each under the mutex, n * N within an int, and signals that may wake a sleeper at any time, in every
    interleaving no thread faults, no wakeup is lost (some thread can always move until all have
    returned), and then the counter that is printed is exactly n * N. *)
Theorem mutex_counts n N : Z.of_nat (n * N) <= INT_MAX →
  ∀ s ths, steps (mutex_start n, mutex_threads n N) (s, ths) →
    (∀ e, ¬ faulty (s, ths) e) ∧ (can_move n (s, ths) ∨ finished n ths) ∧
    (finished n ths → counter s = Z.of_nat (n * N)).
Proof.
  intros Hfit s ths Hsteps.
  destruct (rg_sound (H:=mutex_rg n N) (mutex_start n, mutex_threads n N) (s, ths))
    as ([Hst Hc] & Hf & Hb); [|done|].
  { split.
    - split; [|apply counted_start]. split; simpl; first [done|set_solver|apply NoDup_nil_2].
    - intros m i p [[-> Hi]%lookup_replicate|[_ Hp]]%lookup_app_Some.
      + apply (@increment_safe _ (mutex_rg n N) n N _ _ (mutex_guard n N Hfit)); [done|].
        split_and!; simpl; [done|by apply lookup_replicate|set_solver|set_solver].
      + apply list_lookup_singleton_Some in Hp as [_ <-]. by apply interrupts_safe. }
  assert (length ths = Datatypes.S n) as Hlen.
  { pose proof (steps_length _ _ Hsteps) as Hl. simpl in Hl. unfold mutex_threads in Hl.
    rewrite Hl, length_app, length_replicate. simpl. lia. }
  split; [by intros e ?%Hf|]. split.
  - destruct (can_move_or_blocked n (s, ths)) as [?|Hall]; [simpl; lia|by left|]. right.
    assert (∀ i, (i < n)%nat → ∃ p, ths !! i = Some p ∧
      match p with Ret _ => stores s !! i = Some N ∧ (i ∉ busy (the_lock s)) | _ => i ∈ sleepers (the_lock s) end) as Hp.
    { intros i Hi. destruct (lookup_lt_is_Some_2 ths i) as [p Hp]; [lia|]. exists p. split; [done|].
      exact (Hb i p Hp (Hall i p Hi Hp)). }
    assert (sleepers (the_lock s) = []) as Hsl.
    { apply (nobody_sleeps n N); [done|]. intros i Hi. destruct (Hp i Hi) as (p & _ & Hpi). destruct p; naive_solver. }
    intros i Hi. destruct (Hp i Hi) as (p & Hpi & Hcase). rewrite Hsl in Hcase.
    destruct p as [[]| |]; [done|set_solver..].
  - intros Hall. eapply counted_done; [done|]. intros i Hi. by destruct (Hb i (Ret tt) (Hall i Hi) eq_refl).
Qed.

Example mutex_counts_witness :
  Z.of_nat (NUM_THREADS * INCREMENTS) <= INT_MAX ∧
  ∀ s ths, steps (mutex_start NUM_THREADS, mutex_threads NUM_THREADS INCREMENTS) (s, ths) →
    (∀ e, ¬ faulty (s, ths) e) ∧ (can_move NUM_THREADS (s, ths) ∨ finished NUM_THREADS ths) ∧
    (finished NUM_THREADS ths → counter s = Z.of_nat (NUM_THREADS * INCREMENTS)).
Proof.
  assert (Z.of_nat (NUM_THREADS * INCREMENTS) <= INT_MAX) as Hmax.
  { unfold INCREMENTS, NUM_THREADS. rewrite Nat2Z.inj_mul, Z2Nat.id by lia. unfold INT_MAX. lia. }
  split; [exact Hmax|]. exact (mutex_counts NUM_THREADS INCREMENTS Hmax).
Defined.
