(* ===== verification/Uthread.v ===== *)
(** Uthread: the user-level threads of lab1/src/7 on ucontext, scheduled from a
    list (uthreadpool.c) and from a ring (uthreadpool2.c), and the program
    main.c that is linked with either. *)
From S2P Require Import Prelude Links.

#[local] Open Scope Z_scope.

(** * Contexts *)

(** A thread's function: prints, each with [cnt++], and calls of [usched_yield] *)
Inductive call := Out (z : Z) | Yield.

(** What a context has left to do: calls of the function, between the start of
    [__func_wrapper] and what the wrapper does after it. *)
Inductive op :=
  | Call (c : call)
  | Start (func : list call)   (* __func_wrapper entered *)
  | Terminate (uthread : ptr). (* uthread->status = TERMINATED *)
Abbreviation code := (list op).

(** * Data *)

Inductive uthread_status_t := IDLE | READY | RUNNING | TERMINATED.
#[export] Instance uthread_status_eq_dec : EqDecision uthread_status_t.
Proof. solve_decision. Defined.

(** [func] and [arg] are the function's operations. *)
Record uthread_t := Uthread {
  status : uthread_status_t;
  id : Z;
  func : list call;
  stack : ptr;
  context : code;
}.
Record uthread_node_t := Unode { unext : ptr; uprev : ptr; uthread : ptr }.

(** [head_uthread] is [None] as long as nothing was written to it. *)
Record uthread_scheduler_t := Scheduler {
  is_finished : bool;
  id_generator : Z;
  ssize : Z;
  head_uthread : option ptr;
  active_uthread : ptr;
}.

(** A mapped stack *)
Inductive stack_t := Stack.

Definition set_status st u := Uthread st (id u) (func u) (stack u) (context u).
Definition set_context c u := Uthread (status u) (id u) (func u) (stack u) c.
Definition set_func f u := Uthread (status u) (id u) f (stack u) (context u).
Definition set_stack p u := Uthread (status u) (id u) (func u) p (context u).
Definition set_unext p n := Unode p (uprev n) (uthread n).
Definition set_uprev p n := Unode (unext n) p (uthread n).
Definition set_finished b s := Scheduler b (id_generator s) (ssize s) (head_uthread s) (active_uthread s).
Definition set_generator x s := Scheduler (is_finished s) x (ssize s) (head_uthread s) (active_uthread s).
Definition set_ssize x s := Scheduler (is_finished s) (id_generator s) x (head_uthread s) (active_uthread s).
Definition set_head p s := Scheduler (is_finished s) (id_generator s) (ssize s) (Some p) (active_uthread s).
Definition set_active p s := Scheduler (is_finished s) (id_generator s) (ssize s) (head_uthread s) p.

(** The process: its heap, what it printed, and the answers of the allocator,
    [mmap] and [getcontext] *)
Record ustate := UState {
  schedulers : mem uthread_scheduler_t;
  unodes : mem uthread_node_t;
  uthreads : mem uthread_t;
  stacks : mem stack_t;
  uanswers : list bool;
  printed : list Z;
}.

Ltac ustate_instance :=
  intros; repeat match goal with s : ustate |- _ => destruct s end; reflexivity.
#[export] Instance scheduler_heap : Heap ustate uthread_scheduler_t.
Proof.
  refine {| heap := schedulers;
    set_heap m s := UState m (unodes s) (uthreads s) (stacks s) (uanswers s) (printed s) |}; ustate_instance.
Defined.
#[export] Instance unode_heap : Heap ustate uthread_node_t.
Proof.
  refine {| heap := unodes;
    set_heap m s := UState (schedulers s) m (uthreads s) (stacks s) (uanswers s) (printed s) |}; ustate_instance.
Defined.
#[export] Instance uthread_heap : Heap ustate uthread_t.
Proof.
  refine {| heap := uthreads;
    set_heap m s := UState (schedulers s) (unodes s) m (stacks s) (uanswers s) (printed s) |}; ustate_instance.
Defined.
#[export] Instance stack_heap : Heap ustate stack_t.
Proof.
  refine {| heap := stacks;
    set_heap m s := UState (schedulers s) (unodes s) (uthreads s) m (uanswers s) (printed s) |}; ustate_instance.
Defined.
#[export] Instance ustate_oom : Oom ustate.
Proof.
  refine {| oom := uanswers;
    set_oom o s := UState (schedulers s) (unodes s) (uthreads s) (stacks s) o (printed s) |}; ustate_instance.
Defined.

(** * Operations both versions have *)

(** [scheduler->head_uthread] *)
Definition get_head (sch : ptr) : C ustate ptr :=
  s ← load uthread_scheduler_t sch;
  match head_uthread s with Some p => mret p | None => fail Uninit end.
(** [node->uthread->status] *)
Definition node_status (node : ptr) : C ustate uthread_status_t :=
  nd ← load uthread_node_t node;
  u ← load uthread_t (uthread nd);
  mret (status u).
Definition active_thread (sch : ptr) : C ustate ptr :=
  s ← load uthread_scheduler_t sch;
  nd ← load uthread_node_t (active_uthread s);
  mret (uthread nd).

(** What [malloc] left in [head_uthread], which is not assigned, is [garbage]. *)
Definition init_scheduler (garbage : option ptr) : C ustate ptr :=
  malloc uthread_scheduler_t (Scheduler false 0 0 garbage NULL).

Definition reset_scheduler (sch : ptr) : C ustate unit :=
  update uthread_scheduler_t sch (set_finished false).

Definition __init_ucontext (u : ptr) : C ustate bool :=
  st ← malloc stack_t Stack;
  match st with
  | None => mret false
  | Some _ => update uthread_t u (set_stack st);; mret true
  end.

(** The thread and its stack, before the node *)
Definition new_uthread (sch : ptr) : C ustate ptr :=
  u ← malloc uthread_t (Uthread IDLE 0 [] NULL []);
  match u with
  | None => mret NULL
  | Some _ =>
      s ← load uthread_scheduler_t sch;
      g ← signed_add LONG_MAX (id_generator s) 1;
      update uthread_scheduler_t sch (set_generator g);;
      update uthread_t u (λ x, Uthread IDLE (id_generator s) (func x) (stack x) (context x));;
      ok ← __init_ucontext u;
      if (ok : bool) then mret u else free uthread_t u;; mret NULL
  end.
(** Giving both back when there is no memory for the node *)
Definition drop_uthread (u : ptr) : C ustate unit :=
  x ← load uthread_t u; free stack_t (stack x);; free uthread_t u.

(** The thread takes a task: [getcontext] and [makecontext] of the wrapper. The C
    wrapper reads [func] when it starts; the context here holds the operations
    from [makecontext] on. The two differ only where [func] is set again before the
    thread runs, which happens only when getcontext has failed. *)
Definition set_task (u : ptr) (f : list call) : C ustate bool :=
  update uthread_t u (set_func f);;
  update uthread_t u (set_status READY);;
  ok ← malloc_answer;
  if (ok : bool) then update uthread_t u (set_context [Start f]);; mret true else mret false.

(** A print, counted in the global [cnt] *)
Definition print (z : Z) : C ustate unit :=
  out ← gets printed;
  _ ← signed_add INT_MAX (Z.of_nat (length out)) 1;
  modify (λ s, UState (schedulers s) (unodes s) (uthreads s) (stacks s) (uanswers s) (printed s ++ [z])).

(** From [current] to the node's thread: the statuses, and [swapcontext], which
    saves what [current] has left to do, [rest], and resumes the other *)
Definition switch_to (sch node : ptr) (rest : code) : C ustate code :=
  cur ← active_thread sch;
  u ← load uthread_t cur;
  update uthread_t cur (set_status (if decide (status u = TERMINATED) then IDLE else READY));;
  update uthread_scheduler_t sch (set_active node);;
  nu ← active_thread sch;
  update uthread_t nu (set_status RUNNING);;
  nd ← load uthread_node_t node;
  update uthread_t cur (set_context rest);;
  u' ← load uthread_t (uthread nd);
  mret (context u').

(** The running thread, up to the jump back to [initial_context]. A wrapper that
    returned would end the process, as [uc_link] is 0. *)
Fixpoint exec (yield : code → C ustate (option code)) (sch : ptr) (fuel : nat) (k : code) : C ustate unit :=
  match fuel with
  | O => fail OutOfFuel
  | Datatypes.S fuel' =>
      match k with
      | [] => fail Aborted
      | Call (Out z) :: k' => print z;; exec yield sch fuel' k'
      | Start f :: k' =>
          u ← active_thread sch;
          exec yield sch fuel' ((Call <$> f) ++ Terminate u :: Call Yield :: k')
      | Terminate u :: k' =>
          update uthread_t u (set_status TERMINATED);;
          exec yield sch fuel' k'
      | Call Yield :: k' =>
          next ← yield k';
          match next with
          | Some k'' => exec yield sch fuel' k''
          | None => mret tt
          end
      end
  end.

(** * Version 1: a list *)

Module UthreadPool.

(** [while (node != NULL && node->uthread->status != wanted) node = node->next] *)
Fixpoint find (wanted : uthread_status_t) (fuel : nat) (node : ptr) : C ustate ptr :=
  match fuel with
  | O => fail OutOfFuel
  | Datatypes.S fuel' =>
      match node with
      | None => mret NULL
      | Some _ =>
          st ← node_status node;
          if decide (st = wanted) then mret node else
          nd ← load uthread_node_t node;
          find wanted fuel' (unext nd)
      end
  end.
Definition find_from_head (wanted : uthread_status_t) (sch : ptr) : C ustate ptr :=
  node ← get_head sch;
  fuel ← gets (λ s, Datatypes.S (size (cells (unodes s))));
  find wanted fuel node.

Definition __create_uthread (sch : ptr) : C ustate bool :=
  u ← new_uthread sch;
  match u with
  | None => mret false
  | Some _ =>
      node ← malloc uthread_node_t (Unode NULL NULL u);
      match node with
      | None => drop_uthread u;; mret false
      | Some _ =>
          h ← get_head sch;
          update uthread_node_t node (set_unext h);;
          (match h with
           | Some _ => update uthread_node_t h (set_uprev node)
           | None => mret tt
           end);;
          update uthread_scheduler_t sch (set_head node);;
          s ← load uthread_scheduler_t sch;
          n ← signed_add LONG_MAX (ssize s) 1;
          update uthread_scheduler_t sch (set_ssize n);;
          mret true
      end
  end.

(** 0 or -1, as success *)
Definition add_to_scheduler (sch : ptr) (f : list call) : C ustate bool :=
  node ← find_from_head IDLE sch;
  match node with
  | None =>
      ok ← __create_uthread sch;
      if (ok : bool) then
        h ← get_head sch; nd ← load uthread_node_t h;
        set_task (uthread nd) f
      else mret false
  | Some _ => nd ← load uthread_node_t node; set_task (uthread nd) f
  end.

(** The context to go on with, none for [initial_context] *)
Definition usched_yield (sch : ptr) (rest : code) : C ustate (option code) :=
  node ← find_from_head READY sch;
  match node with
  | None =>
      update uthread_scheduler_t sch (set_finished true);;
      mret None
  | Some _ => k ← switch_to sch node rest; mret (Some k)
  end.

(** One round for every return to [initial_context] *)
Fixpoint run_scheduler (fuel : nat) (sch : ptr) : C ustate unit :=
  match fuel with
  | O => fail OutOfFuel
  | Datatypes.S fuel' =>
      s ← load uthread_scheduler_t sch;
      if is_finished s then mret tt else
      node ← find_from_head READY sch;
      match node with
      | None => mret tt
      | Some _ =>
          update uthread_scheduler_t sch (set_active node);;
          u ← active_thread sch;
          update uthread_t u (set_status RUNNING);;
          x ← load uthread_t u;
          exec (usched_yield sch) sch fuel' (context x);;
          run_scheduler fuel' sch
      end
  end.

Fixpoint destroy_nodes (fuel : nat) (node : ptr) : C ustate unit :=
  match fuel with
  | O => fail OutOfFuel
  | Datatypes.S fuel' =>
      match node with
      | None => mret tt
      | Some _ =>
          nd ← load uthread_node_t node;
          x ← load uthread_t (uthread nd);
          free stack_t (stack x);;
          free uthread_t (uthread nd);;
          tmp ← (nd' ← load uthread_node_t node; mret (unext nd'));
          free uthread_node_t node;;
          destroy_nodes fuel' tmp
      end
  end.
Definition destroy_scheduler (sch : ptr) : C ustate unit :=
  node ← get_head sch;
  fuel ← gets (λ s, Datatypes.S (size (cells (unodes s))));
  destroy_nodes fuel node;;
  free uthread_scheduler_t sch.
End UthreadPool.

(** * Version 2: a ring *)

Module UthreadPool2.

(** [while (cnt < size && node->uthread->status != wanted)]: the node where the
    walk stops and the count *)
Fixpoint find (wanted : uthread_status_t) (sch : ptr) (fuel : nat) (node : ptr) (cnt : Z) : C ustate (ptr * Z) :=
  match fuel with
  | O => fail OutOfFuel
  | Datatypes.S fuel' =>
      s ← load uthread_scheduler_t sch;
      if decide (cnt < ssize s) then
        st ← node_status node;
        if decide (st = wanted) then mret (node, cnt) else
        nd ← load uthread_node_t node;
        find wanted sch fuel' (unext nd) (cnt + 1)
      else mret (node, cnt)
  end.
(** [while (node->uthread->status != READY && cnt < size - 1)] *)
Fixpoint find_ready (sch : ptr) (fuel : nat) (node : ptr) (cnt : Z) : C ustate (ptr * Z) :=
  match fuel with
  | O => fail OutOfFuel
  | Datatypes.S fuel' =>
      st ← node_status node;
      s ← load uthread_scheduler_t sch;
      if decide (st ≠ READY ∧ cnt < ssize s - 1) then
        nd ← load uthread_node_t node;
        find_ready sch fuel' (unext nd) (cnt + 1)
      else mret (node, cnt)
  end.
(** The walks end after [size] steps. *)
Definition ring_fuel (sch : ptr) : C ustate nat :=
  s ← load uthread_scheduler_t sch; mret (Datatypes.S (Z.to_nat (ssize s))).

Definition __create_uthread (sch : ptr) : C ustate bool :=
  u ← new_uthread sch;
  match u with
  | None => mret false
  | Some _ =>
      node ← malloc uthread_node_t (Unode NULL NULL u);
      match node with
      | None => drop_uthread u;; mret false
      | Some _ =>
          h ← get_head sch;
          (match h with
           | None =>
               update uthread_node_t node (set_uprev node);;
               update uthread_node_t node (set_unext node)
           | Some _ =>
               hd ← load uthread_node_t h;
               update uthread_node_t node (set_unext (unext hd));;
               update uthread_node_t node (set_uprev h);;
               hd ← load uthread_node_t h;
               update uthread_node_t (unext hd) (set_uprev node);;
               update uthread_node_t h (set_unext node)
           end);;
          update uthread_scheduler_t sch (set_head node);;
          s ← load uthread_scheduler_t sch;
          n ← signed_add LONG_MAX (ssize s) 1;
          update uthread_scheduler_t sch (set_ssize n);;
          mret true
      end
  end.

Definition add_to_scheduler (sch : ptr) (f : list call) : C ustate bool :=
  h ← get_head sch;
  fuel ← ring_fuel sch;
  r ← find IDLE sch fuel h 0;
  let '(node, cnt) := r : ptr * Z in
  s ← load uthread_scheduler_t sch;
  if decide (ssize s <= cnt) then
    ok ← __create_uthread sch;
    if (ok : bool) then
      h ← get_head sch; nd ← load uthread_node_t h;
      set_task (uthread nd) f
    else mret false
  else nd ← load uthread_node_t node; set_task (uthread nd) f.

Definition usched_yield (sch : ptr) (rest : code) : C ustate (option code) :=
  s ← load uthread_scheduler_t sch;
  node ← match active_uthread s with None => get_head sch | Some _ => mret (active_uthread s) end;
  fuel ← ring_fuel sch;
  r ← find_ready sch fuel node 0;
  let '(node, cnt) := r : ptr * Z in
  s ← load uthread_scheduler_t sch;
  if decide (ssize s - 1 <= cnt) then
    update uthread_scheduler_t sch (set_finished true);;
    mret None
  else k ← switch_to sch node rest; mret (Some k).

Fixpoint run_scheduler (fuel : nat) (sch : ptr) : C ustate unit :=
  match fuel with
  | O => fail OutOfFuel
  | Datatypes.S fuel' =>
      s ← load uthread_scheduler_t sch;
      if is_finished s then mret tt else
      h ← get_head sch;
      rf ← ring_fuel sch;
      r ← find READY sch rf h 0;
      let '(node, cnt) := r : ptr * Z in
      if decide (ssize s <= cnt) then mret tt else
      update uthread_scheduler_t sch (set_active node);;
      u ← active_thread sch;
      update uthread_t u (set_status RUNNING);;
      x ← load uthread_t u;
      exec (usched_yield sch) sch fuel' (context x);;
      run_scheduler fuel' sch
  end.

(** [while (cnt < size)] *)
Fixpoint destroy_nodes (fuel : nat) (sch node : ptr) (cnt : Z) : C ustate unit :=
  match fuel with
  | O => fail OutOfFuel
  | Datatypes.S fuel' =>
      s ← load uthread_scheduler_t sch;
      if decide (cnt < ssize s) then
        nd ← load uthread_node_t node;
        x ← load uthread_t (uthread nd);
        free stack_t (stack x);;
        free uthread_t (uthread nd);;
        tmp ← (nd' ← load uthread_node_t node; mret (unext nd'));
        free uthread_node_t node;;
        destroy_nodes fuel' sch tmp (cnt + 1)
      else mret tt
  end.
Definition destroy_scheduler (sch : ptr) : C ustate unit :=
  node ← get_head sch;
  fuel ← ring_fuel sch;
  destroy_nodes fuel sch node 0;;
  free uthread_scheduler_t sch.
End UthreadPool2.

(** * main.c *)

(** [foo_with_scheduling]: every print is counted in [cnt]. *)
Definition foo_with_scheduling (i : Z) : list call := [Out i; Yield; Out i].

Definition TASKS : nat := 10.

Section main.
Context (add_to_scheduler : ptr → list call → C ustate bool).
Context (run_scheduler : nat → ptr → C ustate unit) (destroy_scheduler : ptr → C ustate unit).

(** The loop of [main], whose body ignores what [add_to_scheduler] returns *)
Fixpoint add_tasks (sch : ptr) (tasks : list (list call)) : C ustate unit :=
  match tasks with
  | [] => mret tt
  | f :: tasks' => _ ← add_to_scheduler sch f; add_tasks sch tasks'
  end.

(** [cnt] at the end; [garbage] is what the scheduler's memory held. *)
Definition main (garbage : option ptr) (tasks : list (list call)) (fuel : nat) : C ustate Z :=
  sch ← init_scheduler garbage;
  add_tasks sch tasks;;
  run_scheduler fuel sch;;
  out ← gets printed;
  destroy_scheduler sch;;
  mret (Z.of_nat (length out)).
End main.

(** The tasks of [main], [n] of them *)
Definition foo_tasks (n : nat) : list (list call) := (λ i, foo_with_scheduling (Z.of_nat i)) <$> seq 0 n.

Definition main1 := main UthreadPool.add_to_scheduler UthreadPool.run_scheduler UthreadPool.destroy_scheduler.
Definition main2 := main UthreadPool2.add_to_scheduler UthreadPool2.run_scheduler UthreadPool2.destroy_scheduler.
Definition ustart : ustate := UState mem_empty mem_empty mem_empty mem_empty [] [].

(** * Representation of version 1 *)

(** A node and its thread, by address *)
Abbreviation block := (positive * positive)%type.

Definition thread_at (s : ustate) (b : block) (t : uthread_t) : Prop :=
  ∃ nd, cells (unodes s) !! b.1 = Some nd ∧ uthread nd = Some b.2 ∧ cells (uthreads s) !! b.2 = Some t.

(** A context ends in its own thread only. *)
Definition own (u : positive) (k : code) : Prop := ∀ p, Terminate p ∈ k → p = Some u.

(** The scheduler [S0] at [sch] has the threads [ts], in the blocks [bs]. *)
Record urepr (sch : positive) (s : ustate) (S0 : uthread_scheduler_t) (bs : list block) (ts : list uthread_t) : Prop := {
  u_sch : cells (schedulers s) !! sch = Some S0;
  u_head : head_uthread S0 = Some (head bs.*1);
  u_chain : chain unext (cells (unodes s)) (head bs.*1) bs.*1 NULL;
  u_threads : Forall2 (thread_at s) bs ts;
  u_nodup : NoDup bs.*2;
  u_own : Forall2 (λ b t, own b.2 (context t)) bs ts;
  (* nothing else is allocated *)
  u_only : dom (cells (schedulers s)) = {[sch]};
  u_nodes : dom (cells (unodes s)) = list_to_set bs.*1;
  u_uthreads : dom (cells (uthreads s)) = list_to_set bs.*2;
  u_stacks : ∃ ps, stack <$> ts = Some <$> ps ∧ NoDup ps ∧ dom (cells (stacks s)) = list_to_set ps;
}.

Definition put_thread (u : positive) (x : uthread_t) (s : ustate) : ustate :=
  UState (schedulers s) (unodes s) (mem_set u x (uthreads s)) (stacks s) (uanswers s) (printed s).
Definition put_sched (p : positive) (x : uthread_scheduler_t) (s : ustate) : ustate :=
  UState (mem_set p x (schedulers s)) (unodes s) (uthreads s) (stacks s) (uanswers s) (printed s).

Section repr.
Context (sch : positive) (t : tid).
Implicit Types (s : ustate) (bs : list block) (ts : list uthread_t).

Lemma run_load_sched s S0 : cells (schedulers s) !! sch = Some S0 →
  load uthread_scheduler_t (Some sch) t s = Ok S0 s.
Proof. intros Hs. by apply (@load_ok _ _ scheduler_heap). Qed.
Lemma run_load_node s l nd : cells (unodes s) !! l = Some nd →
  load uthread_node_t (Some l) t s = Ok nd s.
Proof. intros Hs. by apply (@load_ok _ _ unode_heap). Qed.
Lemma run_load_thread s u x : cells (uthreads s) !! u = Some x →
  load uthread_t (Some u) t s = Ok x s.
Proof. intros Hs. by apply (@load_ok _ _ uthread_heap). Qed.
Lemma run_update_thread s u x f : cells (uthreads s) !! u = Some x →
  update uthread_t (Some u) f t s = Ok tt (put_thread u (f x) s).
Proof. intros Hs. by rewrite (@update_ok _ _ uthread_heap u x). Qed.
Lemma run_update_sched s S0 f : cells (schedulers s) !! sch = Some S0 →
  update uthread_scheduler_t (Some sch) f t s = Ok tt (put_sched sch (f S0) s).
Proof. intros Hs. by rewrite (@update_ok _ _ scheduler_heap sch S0). Qed.

Lemma run_get_head s S0 bs ts : urepr sch s S0 bs ts → get_head (Some sch) t s = Ok (head bs.*1) s.
Proof.
  intros H. unfold get_head. rewrite (bind_ok _ _ _ _ _ _ (run_load_sched _ _ (u_sch _ _ _ _ _ H))).
  by rewrite (u_head _ _ _ _ _ H).
Qed.

(** Writing a thread, and writing the scheduler *)
Lemma urepr_thread s S0 bs ts i b x x' : urepr sch s S0 bs ts → bs !! i = Some b → ts !! i = Some x →
  own b.2 (context x') → stack x' = stack x → urepr sch (put_thread b.2 x' s) S0 bs (<[i := x']> ts).
Proof.
  intros [Hsch Hhead Hch Hth Hnd Hown Honly Hns Hus Hss] Hb Hx Hx' Hstk.
  assert (b.2 ∈ bs.*2) as Hbin by (apply list_elem_of_lookup; exists i; by rewrite list_lookup_fmap, Hb).
  split; try done; simpl; [| |rewrite dom_insert_L; set_solver|].
  - apply Forall2_same_length_lookup. split; [rewrite length_insert; by eapply Forall2_length|].
    intros j b' y Hbj Hyj. destruct (decide (i = j)) as [<-|Hne].
    + rewrite list_lookup_insert_eq in Hyj by (by eapply lookup_lt_Some). simplify_eq.
      destruct (Forall2_lookup_lr _ _ _ _ _ _ Hth Hb Hx) as (nd & Hn & Hu & _). exists nd. simpl.
      by rewrite lookup_insert_eq.
    + rewrite list_lookup_insert_ne in Hyj by done.
      destruct (Forall2_lookup_lr _ _ _ _ _ _ Hth Hbj Hyj) as (nd & Hn & Hu & Ht). exists nd. simpl.
      rewrite lookup_insert_ne; [done|]. intros Heq. apply Hne.
      eapply (NoDup_lookup bs.*2); [done|by rewrite list_lookup_fmap, Hb|rewrite list_lookup_fmap, Hbj; simpl; by f_equal].
  - apply Forall2_same_length_lookup. split; [rewrite length_insert; by eapply Forall2_length|].
    intros j b' y Hbj Hyj. destruct (decide (i = j)) as [<-|Hne].
    + rewrite list_lookup_insert_eq in Hyj by (by eapply lookup_lt_Some). by simplify_eq.
    + rewrite list_lookup_insert_ne in Hyj by done. by apply (Forall2_lookup_lr _ _ _ _ _ _ Hown Hbj Hyj).
  - destruct Hss as (ps & Hps & Hndp & Hd). exists ps. split; [|done]. rewrite <-Hps.
    rewrite list_fmap_insert, Hstk. apply list_insert_id. by rewrite list_lookup_fmap, Hx.
Qed.
Lemma urepr_sched s S0 S1 bs ts : urepr sch s S0 bs ts → head_uthread S1 = head_uthread S0 →
  urepr sch (put_sched sch S1 s) S1 bs ts.
Proof.
  intros [Hsch Hhead Hch Hth Hnd Hown Honly Hns Hus Hss] HS.
  split; try done; simpl; [apply lookup_insert_eq|congruence|].
  rewrite dom_insert_L. set_solver.
Qed.

Lemma run_node_status s b x : thread_at s b x → node_status (Some b.1) t s = Ok (status x) s.
Proof.
  intros (nd & Hn & Hu & Ht). unfold node_status.
  rewrite (bind_ok _ _ _ _ _ _ (run_load_node _ _ _ Hn)), Hu.
  by rewrite (bind_ok _ _ _ _ _ _ (run_load_thread _ _ _ Ht)).
Qed.

(** The walk finds the first thread of the status wanted. *)
Lemma find_run w s bs ts fuel : chain unext (cells (unodes s)) (head bs.*1) bs.*1 NULL →
  Forall2 (thread_at s) bs ts → (length bs < fuel)%nat →
  UthreadPool.find w fuel (head bs.*1) t s =
    Ok (match list_find (λ x, status x = w) ts with Some (j, _) => bs.*1 !! j | None => NULL end) s.
Proof.
  intros Hch Hth. revert fuel Hch. induction Hth as [|[l u] x bs ts Hb Hth IH]; intros fuel Hch Hlen.
  - destruct fuel; [simpl in Hlen; lia|done].
  - destruct fuel as [|fuel]; [simpl in Hlen; lia|]. simpl in Hch. destruct Hch as [_ (nd & Hn & Hch)].
    cbn [UthreadPool.find head fmap list_fmap fst list_find].
    rewrite (bind_ok _ _ _ _ _ _ (run_node_status _ _ _ Hb)).
    destruct (decide (status x = w)) as [Hw|Hw]; [done|].
    rewrite (bind_ok _ _ _ _ _ _ (run_load_node _ _ _ Hn)).
    pose proof (chain_head _ _ _ _ Hch) as Hhd. rewrite Hhd in Hch |- *.
    rewrite IH; [|done|simpl in Hlen; lia]. by destruct (list_find _ ts) as [[j y]|].
Qed.
Lemma find_from_head_run w s S0 bs ts : urepr sch s S0 bs ts →
  UthreadPool.find_from_head w (Some sch) t s =
    Ok (match list_find (λ x, status x = w) ts with Some (j, _) => bs.*1 !! j | None => NULL end) s.
Proof.
  intros H. unfold UthreadPool.find_from_head. rewrite (bind_ok _ _ _ _ _ _ (run_get_head _ _ _ _ H)).
  cbn [gets]. unfold gets. erewrite bind_ok by reflexivity. cbv beta. apply find_run; [apply H..|].
  pose proof (chain_length _ _ _ _ (u_chain _ _ _ _ _ H)) as Hl. rewrite length_fmap in Hl. lia.
Qed.

Lemma run_active_thread s S0 bs ts a b : urepr sch s S0 bs ts → bs !! a = Some b →
  active_uthread S0 = Some b.1 → active_thread (Some sch) t s = Ok (Some b.2) s.
Proof.
  intros H Hb Ha. unfold active_thread.
  rewrite (bind_ok _ _ _ _ _ _ (run_load_sched _ _ (u_sch _ _ _ _ _ H))), Ha.
  destruct (lookup_lt_is_Some_2 ts a) as [x Hx].
  { rewrite <-(Forall2_length _ _ _ (u_threads _ _ _ _ _ H)). by eapply lookup_lt_Some. }
  destruct (Forall2_lookup_lr _ _ _ _ _ _ (u_threads _ _ _ _ _ H) Hb Hx) as (nd & Hn & Hu & _).
  by rewrite (bind_ok _ _ _ _ _ _ (run_load_node _ _ _ Hn)), Hu.
Qed.

Lemma urepr_block s S0 bs ts i x : urepr sch s S0 bs ts → ts !! i = Some x →
  ∃ b, bs !! i = Some b ∧ cells (uthreads s) !! b.2 = Some x ∧ own b.2 (context x).
Proof.
  intros H Hx. destruct (Forall2_lookup_r _ _ _ _ _ (u_threads _ _ _ _ _ H) Hx) as (b & Hb & nd & _ & _ & Ht).
  exists b. split; [done|]. split; [done|].
  exact (Forall2_lookup_lr _ _ _ _ _ _ (u_own _ _ _ _ _ H) Hb Hx).
Qed.

Lemma list_alter_insert {A} (f : A → A) (l : list A) i x : l !! i = Some x →
  alter f i l = <[i := f x]> l.
Proof.
  intros Hi. rewrite list_insert_alter. apply list_eq. intros k. destruct (decide (i = k)) as [<-|Hne].
  - by rewrite !list_lookup_alter_eq, Hi.
  - by rewrite !list_lookup_alter_ne.
Qed.

(** What switching leaves of the threads: [a] keeps [rest] to do, [j] runs. *)
Definition switched (a j : nat) (rest : code) ts : list uthread_t :=
  let ts1 := alter (λ x, set_status (if decide (status x = TERMINATED) then IDLE else READY) x) a ts in
  alter (set_context rest) a (alter (set_status RUNNING) j ts1).

Lemma switch_to_run s S0 bs ts a j ba bj xa xj rest : urepr sch s S0 bs ts →
  bs !! a = Some ba → bs !! j = Some bj → ts !! a = Some xa → ts !! j = Some xj → a ≠ j →
  active_uthread S0 = Some ba.1 → own ba.2 rest →
  ∃ s', switch_to (Some sch) (Some bj.1) rest t s = Ok (context xj) s' ∧
    urepr sch s' (set_active (Some bj.1) S0) bs (switched a j rest ts) ∧ printed s' = printed s.
Proof.
  intros H Hba Hbj Hxa Hxj Hne Hact Hown. unfold switch_to.
  rewrite (bind_ok _ _ _ _ _ _ (run_active_thread _ _ _ _ _ _ H Hba Hact)).
  destruct (urepr_block _ _ _ _ _ _ H Hxa) as (b & Hb & Hta & Howna). rewrite Hba in Hb. injection Hb as <-.
  rewrite (bind_ok _ _ _ _ _ _ (run_load_thread _ _ _ Hta)).
  set (x1 := set_status (if decide (status xa = TERMINATED) then IDLE else READY) xa).
  rewrite (bind_ok _ _ _ _ _ _ (run_update_thread _ _ _ _ Hta)). fold x1.
  pose proof (urepr_thread _ _ _ _ _ _ _ x1 H Hba Hxa Howna eq_refl) as H1.
  rewrite (bind_ok _ _ _ _ _ _ (run_update_sched _ _ _ (u_sch _ _ _ _ _ H1))).
  pose proof (urepr_sched _ _ (set_active (Some bj.1) S0) _ _ H1 eq_refl) as H2.
  rewrite (bind_ok _ _ _ _ _ _ (run_active_thread _ _ _ _ _ _ H2 Hbj eq_refl)).
  assert (<[a:=x1]> ts !! j = Some xj) as Hxj1 by (by rewrite list_lookup_insert_ne).
  destruct (urepr_block _ _ _ _ _ _ H2 Hxj1) as (b & Hb & Htj & Hownj). rewrite Hbj in Hb. injection Hb as <-.
  rewrite (bind_ok _ _ _ _ _ _ (run_update_thread _ _ _ _ Htj)).
  pose proof (urepr_thread _ _ _ _ _ _ _ (set_status RUNNING xj) H2 Hbj Hxj1 Hownj eq_refl) as H3.
  destruct (Forall2_lookup_lr _ _ _ _ _ _ (u_threads _ _ _ _ _ H3) Hbj
    (list_lookup_insert_eq _ _ (set_status RUNNING xj) (lookup_lt_Some _ _ _ Hxj1))) as (nd & Hn & Hu & Htj3).
  rewrite (bind_ok _ _ _ _ _ _ (run_load_node _ _ _ Hn)).
  assert (<[j:=set_status RUNNING xj]> (<[a:=x1]> ts) !! a = Some x1) as Hxa3.
  { rewrite list_lookup_insert_ne by done. apply list_lookup_insert_eq. by eapply lookup_lt_Some. }
  destruct (urepr_block _ _ _ _ _ _ H3 Hxa3) as (b & Hb & Hta3 & _). rewrite Hba in Hb. injection Hb as <-.
  rewrite (bind_ok _ _ _ _ _ _ (run_update_thread _ _ _ _ Hta3)), Hu.
  pose proof (urepr_thread _ _ _ _ _ _ _ (set_context rest x1) H3 Hba Hxa3 Hown eq_refl) as H4.
  assert (<[a:=set_context rest x1]> (<[j:=set_status RUNNING xj]> (<[a:=x1]> ts)) !! j = Some (set_status RUNNING xj)) as Hxj4.
  { rewrite list_lookup_insert_ne by done. apply list_lookup_insert_eq. rewrite length_insert. by eapply lookup_lt_Some. }
  destruct (urepr_block _ _ _ _ _ _ H4 Hxj4) as (b & Hb & Htj4 & _). rewrite Hbj in Hb. injection Hb as <-.
  rewrite (bind_ok _ _ _ _ _ _ (run_load_thread _ _ _ Htj4)).
  eexists. split; [done|]. split; [|done].
  replace (switched a j rest ts) with (<[a:=set_context rest x1]> (<[j:=set_status RUNNING xj]> (<[a:=x1]> ts))); [done|].
  unfold switched. subst x1. symmetry.
  rewrite (list_alter_insert _ ts a xa), (list_alter_insert _ _ j xj) by done.
  by apply list_alter_insert.
Qed.

(** [usched_yield] resumes the first READY thread; without one the scheduler is
    finished and nothing else changes. *)
Lemma yield_run s S0 bs ts a ba xa rest : urepr sch s S0 bs ts → bs !! a = Some ba → ts !! a = Some xa →
  status xa ≠ READY → active_uthread S0 = Some ba.1 → own ba.2 rest →
  match list_find (λ x, status x = READY) ts with
  | Some (j, xj) => ∃ s' bj, bs !! j = Some bj ∧
      UthreadPool.usched_yield (Some sch) rest t s = Ok (Some (context xj)) s' ∧
      urepr sch s' (set_active (Some bj.1) S0) bs (switched a j rest ts) ∧ printed s' = printed s
  | None =>
      UthreadPool.usched_yield (Some sch) rest t s = Ok None (put_sched sch (set_finished true S0) s) ∧
      urepr sch (put_sched sch (set_finished true S0) s) (set_finished true S0) bs ts
  end.
Proof.
  intros H Hba Hxa Hst Hact Hown. unfold UthreadPool.usched_yield.
  pose proof (find_from_head_run READY _ _ _ _ H) as Hf.
  destruct (list_find _ ts) as [[j xj]|] eqn:Hj; rewrite (bind_ok _ _ _ _ _ _ Hf).
  - apply list_find_Some in Hj as (Hxj & Hrd & _).
    destruct (urepr_block _ _ _ _ _ _ H Hxj) as (bj & Hbj & _). rewrite list_lookup_fmap, Hbj. simpl.
    assert (a ≠ j) as Hne by congruence.
    destruct (switch_to_run _ _ _ _ a j ba bj xa xj rest H Hba Hbj Hxa Hxj Hne Hact Hown) as (s' & Hr & H' & Hp).
    exists s', bj. split; [done|]. split; [|done]. by rewrite (bind_ok _ _ _ _ _ _ Hr).
  - rewrite (bind_ok _ _ _ _ _ _ (run_update_sched _ _ _ (u_sch _ _ _ _ _ H))).
    split; [done|]. by apply (urepr_sched _ _ (set_finished true S0) _ _ H).
Qed.

(** ** The machine on the list of threads *)

(** The same execution without the heap: [us] are the threads' addresses, [a]
    the active thread; the threads and the output when it ends. *)
Fixpoint sexec (fuel : nat) (us : list positive) ts (a : nat) (k : code) (out : list Z) :
    option (list uthread_t * list Z) :=
  match fuel with
  | O => None
  | Datatypes.S fuel' =>
      match k with
      | [] => None
      | Call (Out z) :: k' => sexec fuel' us ts a k' (out ++ [z])
      | Start f :: k' => sexec fuel' us ts a ((Call <$> f) ++ Terminate (us !! a) :: Call Yield :: k') out
      | Terminate _ :: k' => sexec fuel' us (alter (set_status TERMINATED) a ts) a k' out
      | Call Yield :: k' =>
          match list_find (λ x, status x = READY) ts with
          | Some (j, x) => sexec fuel' us (switched a j k' ts) j (context x) out
          | None => Some (ts, out)
          end
      end
  end.

Lemma own_tail u o k : own u (o :: k) → own u k.
Proof. intros H p Hp. apply H. set_solver. Qed.

Lemma sexec_printed fuel us ts a k out ts' out' : sexec fuel us ts a k out = Some (ts', out') →
  (length out <= length out')%nat.
Proof.
  revert ts a k out. induction fuel as [|fuel IH]; intros ts a k out; [done|]. cbn [sexec].
  destruct k as [|[[z|]|g|p] k]; [done| | |by apply IH|by apply IH].
  - intros Hs%IH. rewrite length_app in Hs. simpl in Hs. lia.
  - destruct (list_find _ ts) as [[j x]|]; [by apply IH|]. by intros [= <- <-].
Qed.

Lemma exec_refines fuel s S0 bs ts a ba xa k ts' out' : urepr sch s S0 bs ts →
  bs !! a = Some ba → ts !! a = Some xa → status xa ≠ READY → active_uthread S0 = Some ba.1 →
  own ba.2 k → sexec fuel bs.*2 ts a k (printed s) = Some (ts', out') →
  (Z.of_nat (length out') <= INT_MAX)%Z →
  ∃ s' S1, exec (UthreadPool.usched_yield (Some sch)) (Some sch) fuel k t s = Ok tt s' ∧
    urepr sch s' S1 bs ts' ∧ is_finished S1 = true ∧ printed s' = out'.
Proof.
  revert s S0 ts a ba xa k. induction fuel as [|fuel IH]; intros s S0 ts a ba xa k H Hba Hxa Hst Hact Hown; [done|].
  cbn [sexec exec]. destruct k as [|[[z|]|g|p] k]; [done|..].
  - intros Hs Hmax. assert (print z t s = Ok tt (UState (schedulers s) (unodes s) (uthreads s) (stacks s) (uanswers s)
        (printed s ++ [z]))) as Hpr.
    { pose proof (sexec_printed _ _ _ _ _ _ _ _ Hs) as Hle. rewrite length_app in Hle. simpl in Hle.
      unfold print, gets. erewrite bind_ok by reflexivity. cbv beta. unfold signed_add.
      rewrite decide_True by lia. done. }
    rewrite (bind_ok _ _ _ _ _ _ Hpr). clear Hpr.
    eapply (IH _ S0 ts a ba xa); [|done..|by eapply own_tail|done|done].
    destruct H; by split.
  - intros Hs Hmax. pose proof (yield_run _ _ _ _ _ _ _ k H Hba Hxa Hst Hact (own_tail _ _ _ Hown)) as Hy.
    destruct (list_find _ ts) as [[j xj]|] eqn:Hj.
    + destruct Hy as (s1 & bj & Hbj & Hr & H1 & Hp). rewrite (bind_ok _ _ _ _ _ _ Hr).
      apply list_find_Some in Hj as (Hxj & Hrd & _). assert (a ≠ j) as Hne by congruence.
      assert (∃ xj', switched a j k ts !! j = Some xj' ∧ status xj' = RUNNING) as (xj' & Hxj' & Hrun).
      { unfold switched. rewrite list_lookup_alter_ne by done.
        rewrite list_lookup_alter_eq, list_lookup_alter_ne by done. rewrite Hxj. simpl. eauto. }
      eapply (IH s1 _ _ j bj xj'); [done..|by rewrite Hrun|done| |by rewrite Hp|done].
      destruct (urepr_block _ _ _ _ _ _ H Hxj) as (b & Hb & _ & Ho). by simplify_eq.
    + destruct Hy as [Hr H1]. rewrite (bind_ok _ _ _ _ _ _ Hr). simplify_eq.
      by eexists _, _.
  - intros Hs Hmax. rewrite (bind_ok _ _ _ _ _ _ (run_active_thread _ _ _ _ _ _ H Hba Hact)).
    eapply (IH s S0 ts a ba xa); [done..| | |done].
    + intros p Hp. apply elem_of_app in Hp as [(? & ? & _)%list_elem_of_fmap|Hp]; [done|].
      apply elem_of_cons in Hp as [[= ->]|Hp]; [done|].
      apply elem_of_cons in Hp as [|Hp]; [done|]. apply Hown. set_solver.
    + rewrite list_lookup_fmap, Hba in Hs. exact Hs.
  - intros Hs Hmax. assert (p = Some ba.2) as -> by (apply Hown; set_solver).
    destruct (urepr_block _ _ _ _ _ _ H Hxa) as (b & Hb & Hta & Ho). rewrite Hba in Hb. injection Hb as <-.
    rewrite (bind_ok _ _ _ _ _ _ (run_update_thread _ _ _ _ Hta)).
    pose proof (urepr_thread _ _ _ _ _ _ _ (set_status TERMINATED xa) H Hba Hxa Ho eq_refl) as H1.
    rewrite (list_alter_insert _ _ _ _ Hxa) in Hs.
    eapply (IH _ S0 _ a ba (set_status TERMINATED xa)); [done..| |done|done|by eapply own_tail|done|done].
    apply list_lookup_insert_eq. by eapply lookup_lt_Some.
Qed.
End repr.

(** ** Every execution ends, and all threads but one at most are done *)

#[local] Open Scope nat_scope.

(** What a function prints, and what a context will print *)
Definition outs (g : list call) : list Z := omap (λ c, match c with Out z => Some z | Yield => None end) g.
Definition op_outs (o : op) : list Z :=
  match o with Call c => outs [c] | Start f => outs f | Terminate _ => [] end.
Definition pend (k : code) : list Z := concat (op_outs <$> k).

(** The operations left, entering the wrapper counted as one *)
Definition op_work (o : op) : list unit :=
  match o with Start f => replicate (length f + 3) tt | _ => [tt] end.
Definition work (k : code) : list unit := concat (op_work <$> k).

Lemma work_cons o k : length (work (o :: k)) = length (op_work o) + length (work k).
Proof. unfold work. simpl. by rewrite length_app. Qed.
Lemma work_start f : length (work [Start f]) = length f + 3.
Proof. rewrite work_cons. simpl. rewrite length_replicate. lia. Qed.

(** A context of a READY thread, or of the running one *)
Definition good (k : code) : Prop :=
  (∃ f, k = [Start f]) ∨ ∃ g p, k = (Call <$> g) ++ [Terminate p; Call Yield].

(** Of all threads that are READY *)
Definition if_ready {A} (f : code → list A) (x : uthread_t) : list A :=
  if decide (status x = READY) then f (context x) else [].
Definition of_ready {A} (f : code → list A) (ts : list uthread_t) : list A := concat (if_ready f <$> ts).

Lemma of_ready_insert {A} (f : code → list A) ts i x x' : ts !! i = Some x →
  if_ready f x ++ of_ready f (<[i := x']> ts) ≡ₚ if_ready f x' ++ of_ready f ts.
Proof.
  intros Hi. rewrite <-(take_drop_middle ts i x) by done. rewrite insert_app_r_alt.
  2:{ rewrite length_take. lia. }
  rewrite length_take, Nat.min_l by (apply lookup_lt_Some in Hi; lia). rewrite Nat.sub_diag.
  unfold of_ready. rewrite !fmap_app, !concat_app. cbn [fmap list_fmap concat list_insert insert].
  solve_Permutation.
Qed.

Lemma outs_cons c g : outs (c :: g) = outs [c] ++ outs g.
Proof. by destruct c. Qed.
Lemma pend_calls g k : pend ((Call <$> g) ++ k) = outs g ++ pend k.
Proof.
  induction g as [|c g IH]; [done|]. rewrite outs_cons, <-app_assoc, <-IH. done.
Qed.
Lemma work_calls g k : length (work ((Call <$> g) ++ k)) = length g + length (work k).
Proof. induction g as [|c g IH]; [done|]. simpl. f_equal. apply IH. Qed.

(** The threads around an active thread [a] that has [k] left to do; what each
    is to print satisfies [P]. *)
Record swf (P : list Z → Prop) (ts : list uthread_t) (a : nat) (k : code) : Prop := {
  swf_active : ∃ x, ts !! a = Some x ∧
    ((status x = RUNNING ∧ good k) ∨ (status x = TERMINATED ∧ k = [Call Yield]));
  swf_others : ∀ i x, i ≠ a → ts !! i = Some x →
    status x = IDLE ∨ (status x = READY ∧ good (context x) ∧ P (pend (context x)));
  swf_pend : P (pend k);
}.

Lemma swf_active_not_ready {A} (f : code → list A) P ts a k x : swf P ts a k → ts !! a = Some x →
  status x ≠ READY ∧ if_ready f x = [].
Proof.
  intros [(y & Hy & Hst) _ _] Hx. simplify_eq. unfold if_ready.
  destruct Hst as [[-> _]|[-> _]]; done.
Qed.

Lemma switched_insert a j k ts xa xj : ts !! a = Some xa → ts !! j = Some xj → a ≠ j →
  switched a j k ts =
    <[a := set_context k (set_status (if decide (status xa = TERMINATED) then IDLE else READY) xa)]>
      (<[j := set_status RUNNING xj]> ts).
Proof.
  intros Ha Hj Hne. unfold switched. rewrite (list_alter_insert _ ts a xa) by done.
  rewrite (list_alter_insert _ _ j xj) by (by rewrite list_lookup_insert_ne).
  erewrite list_alter_insert.
  2:{ rewrite list_lookup_insert_ne by done. apply list_lookup_insert_eq. by eapply lookup_lt_Some. }
  rewrite (list_insert_insert_ne _ j a) by done. by rewrite list_insert_insert_eq.
Qed.

Lemma good_yield k : good (Call Yield :: k) → good k.
Proof.
  intros [(f & ?)|(g & p & Hk)]; [done|]. destruct g as [|c g]; simplify_eq/=.
  right. by exists g, p.
Qed.

(** Switching to a READY thread: nothing is lost, and the order of the threads
    does not matter. *)
Lemma swf_switch P ts a j xj k : P [] → swf P ts a (Call Yield :: k) → ts !! j = Some xj →
  status xj = READY →
  swf P (switched a j k ts) j (context xj) ∧
  of_ready pend (switched a j k ts) ++ pend (context xj) ≡ₚ pend k ++ of_ready pend ts ∧
  of_ready work (switched a j k ts) ++ work (context xj) ≡ₚ work k ++ of_ready work ts.
Proof.
  intros HP0 Hwf Hj Hrd. pose proof Hwf as [(xa & Ha & Hact) Hoth Hpk].
  assert (a ≠ j) as Hne by (intros ->; destruct (swf_active_not_ready pend _ _ _ _ _ Hwf Hj); done).
  destruct (Hoth j xj (not_eq_sym Hne) Hj) as [?|(_ & Hgj & HPj)]; [congruence|].
  rewrite (switched_insert a j k ts xa xj) by done.
  set (xa' := set_context k (set_status (if decide (status xa = TERMINATED) then IDLE else READY) xa)).
  assert (<[j:=set_status RUNNING xj]> ts !! a = Some xa) as Ha1 by (by rewrite list_lookup_insert_ne).
  assert (∀ A (f : code → list A), f [] = [] →
    of_ready f (<[a:=xa']> (<[j:=set_status RUNNING xj]> ts)) ++ f (context xj) ≡ₚ f k ++ of_ready f ts) as Hperm.
  { intros A f Hf. pose proof (of_ready_insert f ts j xj (set_status RUNNING xj) Hj) as H1.
    pose proof (of_ready_insert f _ a xa xa' Ha1) as H2.
    destruct (swf_active_not_ready f _ _ _ _ _ Hwf Ha) as [_ Hfa]. rewrite Hfa in H2. simpl in H2.
    assert (if_ready f xj = f (context xj)) as Hfj by (unfold if_ready; by rewrite decide_True).
    assert (if_ready f (set_status RUNNING xj) = []) as Hfj' by done.
    assert (if_ready f xa' = f k) as Hfa'.
    { unfold if_ready, xa'. simpl. destruct Hact as [[-> _]|[-> Hk]]; [done|]. simpl. by simplify_eq. }
    rewrite Hfj, Hfj' in H1. simpl in H1. rewrite H2, Hfa', <-H1. solve_Permutation. }
  split; [|split; by apply Hperm].
  split; [| |done].
  - exists (set_status RUNNING xj). rewrite list_lookup_insert_ne by done.
    rewrite list_lookup_insert_eq by (by eapply lookup_lt_Some). split; [done|]. by left.
  - intros i x Hij Hx. destruct (decide (i = a)) as [->|Hia].
    + rewrite list_lookup_insert_eq in Hx by (rewrite length_insert; by eapply lookup_lt_Some). simplify_eq.
      destruct Hact as [[Hr Hg]|[Hr Hg]].
      * right. simpl. rewrite Hr. simpl. split; [done|]. split; [by apply good_yield|]. done.
      * left. simpl. by rewrite Hr.
    + rewrite !list_lookup_insert_ne in Hx by done. by apply Hoth with i.
Qed.

Lemma of_ready_none {A} (f : code → list A) ts :
  list_find (λ x, status x = READY) ts = None → of_ready f ts = [].
Proof.
  rewrite list_find_None. unfold of_ready. induction 1 as [|x ts Hx _ IH]; [done|].
  cbn [fmap list_fmap concat]. rewrite IH, app_nil_r. unfold if_ready. by rewrite decide_False.
Qed.

Lemma swf_step P ts a k k' : swf P ts a k → good k → good k' → P (pend k') → swf P ts a k'.
Proof.
  intros [(x & Hx & Hst) Hoth _] Hg Hg' HP. split; [|done|done]. exists x. split; [done|].
  destruct Hst as [[? _]|[? ->]]; [by left|]. exfalso.
  destruct Hg as [(f & ?)|(g & p & Hk)]; [done|]. by destruct g as [|c [|? ?]].
Qed.
Lemma swf_terminate P ts a x p : swf P ts a [Terminate p; Call Yield] → ts !! a = Some x →
  swf P (alter (set_status TERMINATED) a ts) a [Call Yield] ∧
  ∀ A (f : code → list A), of_ready f (alter (set_status TERMINATED) a ts) ≡ₚ of_ready f ts.
Proof.
  intros Hwf Hx. pose proof Hwf as [_ Hoth HP]. split.
  - split; [|intros i y Hi Hy; rewrite list_lookup_alter_ne in Hy by done; by eapply Hoth|done].
    exists (set_status TERMINATED x). rewrite list_lookup_alter_eq, Hx. split; [done|]. by right.
  - intros A f. rewrite (list_alter_insert _ _ _ _ Hx).
    pose proof (of_ready_insert f ts a x (set_status TERMINATED x) Hx) as H.
    destruct (swf_active_not_ready f _ _ _ _ _ Hwf Hx) as [_ Hf]. rewrite Hf in H. exact H.
Qed.

(** With one step for every operation left, the execution ends; what was to be
    printed has been, up to [lost], the rest of one thread. *)
Lemma sexec_ends P fuel us ts a k out : P [] → (∀ z l, P (z :: l) → P l) →
  swf P ts a k → length (work k) + length (of_ready work ts) ≤ fuel →
  ∃ ts' out' lost, sexec fuel us ts a k out = Some (ts', out') ∧
    out ++ pend k ++ of_ready pend ts ≡ₚ out' ++ lost ∧ P lost.
Proof.
  intros HP0 HPs. revert ts a k out. induction fuel as [|fuel IH]; intros ts a k out Hwf Hlen.
  { exfalso. destruct Hwf as [(x & _ & [[_ [(f & ->)|(g & p & ->)]]|[_ ->]]) _ _].
    - rewrite work_start in Hlen. lia.
    - rewrite work_calls, work_cons in Hlen. simpl in Hlen. lia.
    - rewrite work_cons in Hlen. simpl in Hlen. lia. }
  assert (∀ k0, k = Call Yield :: k0 → ∃ ts' out' lost, sexec (Datatypes.S fuel) us ts a k out = Some (ts', out') ∧
    out ++ pend k ++ of_ready pend ts ≡ₚ out' ++ lost ∧ P lost) as Hyield.
  { intros k0 ->. cbn [sexec]. destruct (list_find _ ts) as [[j xj]|] eqn:Hj.
    - apply list_find_Some in Hj as (Hxj & Hrd & _).
      destruct (swf_switch P ts a j xj k0 HP0 Hwf Hxj Hrd) as (Hwf' & Hp & Hw).
      destruct (IH (switched a j k0 ts) j (context xj) out Hwf') as (ts' & out' & lost & Hs & Hpm & Hl).
      { apply Permutation_length in Hw. rewrite !length_app in Hw. rewrite work_cons in Hlen. simpl in Hlen. lia. }
      exists ts', out', lost. split; [done|]. split; [|done]. rewrite <-Hpm. f_equiv.
      change (pend (Call Yield :: k0)) with (pend k0). rewrite <-Hp. apply Permutation_app_comm.
    - exists ts, out, (pend k0). split; [done|]. rewrite of_ready_none, app_nil_r by done.
      split; [done|]. by apply Hwf. }
  pose proof Hwf as [(x & Hx & [[Hst Hg]|[Hst Hk]]) _ HPk]; [|by apply (Hyield [])].
  pose proof Hg as [(f & ->)|(g & p & ->)].
  - cbn [sexec].
    assert (pend ((Call <$> f) ++ [Terminate (us !! a); Call Yield]) = pend [Start f]) as Hpd by (by rewrite pend_calls).
    destruct (IH ts a ((Call <$> f) ++ [Terminate (us !! a); Call Yield]) out) as (ts' & out' & lost & Hs & Hp & Hl).
    + apply (swf_step _ _ _ _ _ Hwf Hg); [right; eauto|by rewrite Hpd].
    + rewrite work_start in Hlen. rewrite work_calls, !work_cons. simpl. lia.
    + exists ts', out', lost. by rewrite <-Hpd.
  - destruct g as [|[z|] g].
    + cbn [sexec fmap list_fmap app] in *. destruct (swf_terminate _ _ _ _ _ Hwf Hx) as [Hwf' Hperm].
      destruct (IH _ a [Call Yield] out Hwf') as (ts' & out' & lost & Hs & Hp & Hl).
      { rewrite (Permutation_length (Hperm _ work)). rewrite !work_cons in *. simpl in *. lia. }
      exists ts', out', lost. split; [done|]. split; [|done]. by rewrite <-Hp, (Hperm _ pend).
    + cbn [sexec fmap list_fmap app] in *.
      destruct (IH ts a ((Call <$> g) ++ [Terminate p; Call Yield]) (out ++ [z])) as (ts' & out' & lost & Hs & Hp & Hl).
      * apply (swf_step _ _ _ _ _ Hwf Hg); [right; by exists g, p|]. apply (HPs z). exact HPk.
      * rewrite work_cons in Hlen. simpl in Hlen. lia.
      * exists ts', out', lost. split; [done|]. split; [|done]. by rewrite <-Hp, <-app_assoc.
    + by apply (Hyield ((Call <$> g) ++ [Terminate p; Call Yield])).
Qed.

(** ** Adding tasks, and the whole program *)

#[export] Instance scheduler_oom_indep : OomIndep ustate uthread_scheduler_t.
Proof. by split. Qed.
#[export] Instance unode_oom_indep : OomIndep ustate uthread_node_t.
Proof. by split. Qed.
#[export] Instance uthread_oom_indep : OomIndep ustate uthread_t.
Proof. by split. Qed.
#[export] Instance stack_oom_indep : OomIndep ustate stack_t.
Proof. by split. Qed.

Lemma malloc_run {N} `{Heap ustate N, !OomIndep ustate N} (n : N) t s : uanswers s = [] →
  malloc N n t s = Ok (Some (fresh_loc (heap N s))) (set_heap N (mem_alloc n (heap N s)) s).
Proof.
  intros Hs. assert (oom s = []) as Ho by exact Hs.
  assert (¬ malloc_fails s) as Hm by (unfold malloc_fails; by rewrite Ho).
  rewrite (malloc_ok n t s Hm), Ho. cbn [tail].
  assert (set_oom [] s = s) as -> by (rewrite <-Ho; apply set_oom_id). done.
Qed.

Ltac ulook := cbn; repeat (rewrite lookup_insert_eq || rewrite lookup_insert_ne by congruence); first [eassumption|reflexivity].
Ltac ustep := erewrite bind_ok; [|
  lazymatch goal with
  | |- malloc _ _ _ _ = _ => by apply malloc_run
  | |- load _ _ _ _ = _ => eapply load_ok; ulook
  | |- update _ _ _ _ _ = _ => eapply update_ok; ulook
  | |- free _ _ _ _ = _ => eapply free_ok; ulook
  | |- _ => first [eassumption|reflexivity]
  end]; cbv beta iota.

Section adding.
Context (sch : positive) (t : tid).
Implicit Types (s : ustate) (bs : list block) (ts : list uthread_t).

Lemma new_uthread_run s S0 : uanswers s = [] → cells (schedulers s) !! sch = Some S0 →
  (0 <= id_generator S0 < LONG_MAX)%Z →
  new_uthread (Some sch) t s = Ok (Some (fresh_loc (uthreads s)))
    (UState (mem_set sch (set_generator (id_generator S0 + 1) S0) (schedulers s)) (unodes s)
       (mem_alloc (Uthread IDLE (id_generator S0) [] (Some (fresh_loc (stacks s))) []) (uthreads s))
       (mem_alloc Stack (stacks s)) [] (printed s)).
Proof.
  intros Ho Hs Hg. destruct s as [ss ns us st an pr]. simpl in Ho, Hs. subst an.
  unfold new_uthread. ustep. ustep. unfold signed_add. rewrite decide_True by lia.
  ustep. ustep. ustep. unfold __init_ucontext. rewrite !bind_assoc. ustep. rewrite !bind_assoc. ustep. ustep.
  cbn. do 2 f_equal. by rewrite !mem_set_alloc.
Qed.

(** A new thread in front of the list; [prev] of the old head is of no account. *)
Lemma urepr_cons s s' S0 S1 bs ts l nd u x stk : urepr sch s S0 bs ts →
  cells (unodes s) !! l = None → cells (uthreads s) !! u = None → cells (stacks s) !! stk = None →
  cells (schedulers s') = <[sch := S1]> (cells (schedulers s)) → head_uthread S1 = Some (Some l) →
  cells (unodes s') !! l = Some nd → unext nd = head bs.*1 → uthread nd = Some u →
  (∀ k, k ≠ l → (λ n, (unext n, uthread n)) <$> cells (unodes s') !! k =
                (λ n, (unext n, uthread n)) <$> cells (unodes s) !! k) →
  cells (uthreads s') = <[u := x]> (cells (uthreads s)) →
  cells (stacks s') = <[stk := Stack]> (cells (stacks s)) →
  stack x = Some stk → own u (context x) →
  urepr sch s' S1 ((l, u) :: bs) (x :: ts).
Proof.
  intros [Hsch Hhead Hch Hth Hnd Hown Honly Hns Hus (ps & Hps & Hndp & Hd)] Hl Hu Hk HS HS1 Hnl Hnx Hnu Hsame Hth' Hst' Hsx Hox.
  assert (l ∉ bs.*1) as Hlb by (intros Hin; apply not_elem_of_dom in Hl; apply Hl; rewrite Hns; by apply elem_of_list_to_set).
  assert (u ∉ bs.*2) as Hub by (intros Hin; apply not_elem_of_dom in Hu; apply Hu; rewrite Hus; by apply elem_of_list_to_set).
  split; cbn [fst snd fmap list_fmap head list_to_set chain]; rewrite ?(fmap_cons _ _ bs);
    change (list_fmap block positive fst bs) with (bs.*1) in *; change (list_fmap block positive snd bs) with (bs.*2) in *.
  - rewrite HS. apply lookup_insert_eq.
  - done.
  - split; [done|]. exists nd. split; [done|]. rewrite Hnx. eapply chain_ext; [|exact Hch].
    intros k Hkin. assert (k ≠ l) as Hkl by set_solver. specialize (Hsame k Hkl).
    destruct (cells (unodes s') !! k), (cells (unodes s) !! k); simpl in *; congruence.
  - constructor.
    + exists nd. simpl. rewrite Hth', lookup_insert_eq. done.
    + apply Forall2_same_length_lookup. split; [by eapply Forall2_length|]. intros i b y Hb Hy.
      destruct (Forall2_lookup_lr _ _ _ _ _ _ Hth Hb Hy) as (n & Hn & Hnu' & Hty).
      assert (b.1 ∈ bs.*1 ∧ b.2 ∈ bs.*2) as [Hb1 Hb2].
      { apply list_elem_of_lookup_2 in Hb. split; by apply list_elem_of_fmap_2. }
      specialize (Hsame b.1 ltac:(set_solver)). rewrite Hn in Hsame.
      destruct (cells (unodes s') !! b.1) as [n'|] eqn:Hn'; simplify_eq/=.
      exists n'. split; [done|]. split; [congruence|]. rewrite Hth', lookup_insert_ne by set_solver. done.
  - by constructor.
  - by constructor.
  - rewrite HS, dom_insert_L. set_solver.
  - apply set_eq. intros k. rewrite elem_of_dom. destruct (decide (k = l)) as [->|Hkl].
    + rewrite Hnl. set_solver.
    + specialize (Hsame k Hkl). rewrite elem_of_union, elem_of_singleton, <-Hns, elem_of_dom.
      destruct (cells (unodes s') !! k), (cells (unodes s) !! k); simplify_eq/=; split; intros; try tauto; eauto; by destruct H.
  - rewrite Hth', dom_insert_L, Hus. set_solver.
  - exists (stk :: ps). rewrite Hsx, Hps. split; [done|]. split.
    + constructor; [|done]. intros Hin. apply not_elem_of_dom in Hk. apply Hk. rewrite Hd. set_solver.
    + rewrite Hst', dom_insert_L, Hd. set_solver.
Qed.

(** [__create_uthread] puts a node for the new thread in front. *)
Lemma create_uthread_run s S0 h : uanswers s = [] → cells (schedulers s) !! sch = Some S0 →
  head_uthread S0 = Some h → (∀ l, h = Some l → is_Some (cells (unodes s) !! l)) →
  (0 <= id_generator S0 < LONG_MAX)%Z → (0 <= ssize S0 < LONG_MAX)%Z →
  let u := fresh_loc (uthreads s) in let l := fresh_loc (unodes s) in
  ∃ ns, UthreadPool.__create_uthread (Some sch) t s = Ok true
    (UState (mem_set sch (Scheduler (is_finished S0) (id_generator S0 + 1) (ssize S0 + 1) (Some (Some l)) (active_uthread S0))
        (schedulers s)) ns
       (mem_alloc (Uthread IDLE (id_generator S0) [] (Some (fresh_loc (stacks s))) []) (uthreads s))
       (mem_alloc Stack (stacks s)) [] (printed s)) ∧
    cells ns !! l = Some (Unode h NULL (Some u)) ∧
    ∀ k, k ≠ l → (λ n, (unext n, uthread n)) <$> cells ns !! k =
                 (λ n, (unext n, uthread n)) <$> cells (unodes s) !! k.
Proof.
  intros Ho Hs Hh Hl Hg Hz. cbv zeta. unfold UthreadPool.__create_uthread.
  rewrite (bind_ok _ _ _ _ _ _ (new_uthread_run _ _ Ho Hs Hg)). cbv beta iota.
  destruct s as [ss ns us st an pr]. cbn [uanswers schedulers unodes uthreads stacks printed] in *. subst an.
  ustep. unfold get_head. rewrite bind_assoc. ustep. cbn [head_uthread set_generator]. rewrite Hh.
  erewrite bind_ok by reflexivity. ustep.
  destruct h as [l0|].
  - destruct (Hl l0 eq_refl) as [n0 Hn0].
    assert (l0 ≠ fresh_loc ns) as Hne by (intros ->; by rewrite fresh_loc_none in Hn0).
    ustep. ustep. ustep. unfold signed_add. rewrite decide_True by (simpl; lia). ustep. ustep.
    eexists. split; [|split].
    + cbn. do 2 f_equal. by rewrite !mem_set_set.
    + ulook.
    + intros k Hk. cbn. destruct (decide (k = l0)) as [->|Hk0].
      * rewrite lookup_insert_eq, Hn0. done.
      * by rewrite !lookup_insert_ne by done.
  - erewrite bind_ok by reflexivity.
    ustep. ustep. unfold signed_add. rewrite decide_True by (simpl; lia). ustep. ustep.
    eexists. split; [|split].
    + cbn. do 2 f_equal. by rewrite !mem_set_set.
    + ulook.
    + intros k Hk. cbn. by rewrite !lookup_insert_ne by done.
Qed.

(** Without an IDLE thread a new one is made for the task, in front of the
    others and with the next number. *)
Lemma add_run s S0 bs ts f : urepr sch s S0 bs ts → uanswers s = [] →
  Forall (λ x, status x ≠ IDLE) ts → (0 <= id_generator S0 < LONG_MAX)%Z → (0 <= ssize S0 < LONG_MAX)%Z →
  ∃ s' S1 b x, UthreadPool.add_to_scheduler (Some sch) f t s = Ok true s' ∧
    urepr sch s' S1 (b :: bs) (x :: ts) ∧ uanswers s' = [] ∧ printed s' = printed s ∧
    is_finished S1 = is_finished S0 ∧ id_generator S1 = (id_generator S0 + 1)%Z ∧ ssize S1 = (ssize S0 + 1)%Z ∧
    status x = READY ∧ id x = id_generator S0 ∧ func x = f ∧ context x = [Start f].
Proof.
  intros H Ho Hst Hg Hz. pose proof (u_sch _ _ _ _ _ H) as Hs.
  unfold UthreadPool.add_to_scheduler.
  pose proof (find_from_head_run sch t IDLE _ _ _ _ H) as Hf.
  assert (list_find (λ x, status x = IDLE) ts = None) as Hno by (by apply list_find_None).
  rewrite Hno in Hf. rewrite (bind_ok _ _ _ _ _ _ Hf). clear Hf Hno.
  destruct (create_uthread_run s S0 (head bs.*1) Ho Hs (u_head _ _ _ _ _ H)) as (ns & Hr & Hn & Hsame); [|done..|].
  { intros l Hl. eapply chain_lookup; [apply H|by apply head_elem]. }
  rewrite (bind_ok _ _ _ _ _ _ Hr). clear Hr. cbv beta iota.
  destruct s as [ss ns0 us st an pr]. cbn [uanswers schedulers unodes uthreads stacks printed] in *. subst an.
  unfold get_head. rewrite bind_assoc. ustep. cbn [head_uthread]. erewrite bind_ok by reflexivity.
  ustep. unfold set_task. ustep. ustep. ustep. ustep.
  eexists _, (Scheduler _ _ _ _ _), (fresh_loc ns0, fresh_loc us), (Uthread READY (id_generator S0) f _ [Start f]).
  split; [reflexivity|]. split; [|by split_and!].
  eapply urepr_cons with (stk := fresh_loc st); [exact H|apply fresh_loc_none..|reflexivity|reflexivity|exact Hn|done|done|exact Hsame| |reflexivity|done| ].
  - cbn. rewrite !insert_insert_eq. reflexivity.
  - intros p Hp%list_elem_of_singleton. done.
Qed.

(** A READY thread for each task, the last one first *)
Definition is_task (x : uthread_t) (f : list call) : Prop := status x = READY ∧ context x = [Start f].

Lemma add_tasks_run fs s S0 bs ts fs0 : urepr sch s S0 bs ts → uanswers s = [] → Forall2 is_task ts fs0 →
  (0 <= id_generator S0)%Z → (0 <= ssize S0)%Z →
  (id_generator S0 + Z.of_nat (length fs) <= LONG_MAX)%Z → (ssize S0 + Z.of_nat (length fs) <= LONG_MAX)%Z →
  ∃ s' S1 bs' ts', add_tasks UthreadPool.add_to_scheduler (Some sch) fs t s = Ok tt s' ∧
    urepr sch s' S1 bs' ts' ∧ printed s' = printed s ∧ is_finished S1 = is_finished S0 ∧
    Forall2 is_task ts' (rev fs ++ fs0).
Proof.
  revert s S0 bs ts fs0. induction fs as [|f fs IH]; intros s S0 bs ts fs0 H Ho Hts Hg0 Hz0 Hg Hz.
  - by exists s, S0, bs, ts.
  - assert (Forall (λ x, status x ≠ IDLE) ts) as Hidle.
    { eapply Forall2_Forall_l; [exact Hts|]. apply Forall_true. intros f0 x [-> _]. done. }
    cbn [length] in Hg, Hz.
    destruct (add_run s S0 bs ts f H Ho Hidle) as (s1 & S1 & b & x & Hr & H1 & Ho1 & Hp & Hf & Hgen & Hsz & Hrd & _ & _ & Hcx); [lia..|].
    destruct (IH s1 S1 (b :: bs) (x :: ts) (f :: fs0) H1 Ho1) as (s' & S' & bs' & ts' & Hr' & H' & Hp' & Hf' & Hts'); [|lia..|].
    { by constructor. }
    exists s', S', bs', ts'. cbn [add_tasks rev]. rewrite (bind_ok _ _ _ _ _ _ Hr), Hr', <-app_assoc.
    split_and!; try done; by congruence.
Qed.

(** Destroying gives back nodes, threads and stacks. *)
Lemma destroy_nodes_run s bs ts ps fuel : chain unext (cells (unodes s)) (head bs.*1) bs.*1 NULL →
  Forall2 (thread_at s) bs ts → NoDup bs.*2 → stack <$> ts = Some <$> ps → NoDup ps →
  (list_to_set ps : gset positive) ⊆ dom (cells (stacks s)) → length bs < fuel →
  ∃ s', UthreadPool.destroy_nodes fuel (head bs.*1) t s = Ok tt s' ∧
    schedulers s' = schedulers s ∧ printed s' = printed s ∧
    dom (cells (unodes s')) = dom (cells (unodes s)) ∖ list_to_set bs.*1 ∧
    dom (cells (uthreads s')) = dom (cells (uthreads s)) ∖ list_to_set bs.*2 ∧
    dom (cells (stacks s')) = dom (cells (stacks s)) ∖ list_to_set ps.
Proof.
  intros Hch Hth. revert s ps fuel Hch Hth. induction bs as [|[l u] bs IH] in ts |- *; intros s ps fuel Hch Hth Hnd Hps Hndp Hsub Hf.
  - inversion Hth; subst. destruct ps; [|done]. destruct fuel; [lia|]. exists s. cbn. set_solver.
  - pose proof (chain_NoDup _ _ _ _ Hch) as Hndb.
    inversion Hth as [|? x ? ts' (nd & Hn & Hu & Ht) Hth']; subst. destruct ps as [|stk ps]; [done|].
    destruct fuel as [|fuel]; [simpl in Hf; lia|]. cbn [fst snd fmap list_fmap] in *.
    destruct Hch as [_ (nd' & Hn' & Hch)]. assert (nd' = nd) as -> by congruence. clear Hn'.
    apply NoDup_cons in Hndb as [Hlb Hndb]. apply NoDup_cons in Hnd as [Hub Hnd].
    apply NoDup_cons in Hndp as [Hkp Hndp]. injection Hps as Hsx Hps'.
    destruct s as [ss ns us st an pr]. cbn [unodes uthreads stacks schedulers printed] in *.
    assert (is_Some (cells st !! stk)) as [[] Hst] by (apply elem_of_dom; set_solver).
    cbn [UthreadPool.destroy_nodes head].
    ustep. rewrite Hu. ustep. rewrite Hsx. ustep. ustep. rewrite bind_assoc. ustep.
    erewrite bind_ok by reflexivity. ustep.
    pose proof (chain_head _ _ _ _ Hch) as Hhd. rewrite Hhd in Hch |- *.
    cbn [heap set_heap scheduler_heap unode_heap uthread_heap stack_heap schedulers unodes uthreads stacks uanswers printed].
    destruct (IH ts' (UState ss (mem_del l ns) (mem_del u us) (mem_del stk st) an pr) ps fuel)
      as (s' & Hr & Hs1 & Hs2 & Hd1 & Hd2 & Hd3); cbn; try done.
    + by apply chain_delete_notin.
    + apply Forall2_same_length_lookup. split; [by eapply Forall2_length|]. intros i b y Hb Hy.
      destruct (Forall2_lookup_lr _ _ _ _ _ _ Hth' Hb Hy) as (n & Hnb & Hnu & Hty).
      apply list_elem_of_lookup_2 in Hb. exists n. cbn.
      rewrite !lookup_delete_ne; [done|..]; intros ->; [apply Hub|apply Hlb]; by apply list_elem_of_fmap_2.
    + rewrite dom_delete_L. set_solver.
    + simpl in Hf. lia.
    + exists s'. rewrite Hr, Hd1, Hd2, Hd3. cbn. rewrite !dom_delete_L. split_and!; try done; set_solver.
Qed.

Lemma destroy_scheduler_run s S0 bs ts : urepr sch s S0 bs ts →
  ∃ s', UthreadPool.destroy_scheduler (Some sch) t s = Ok tt s' ∧ printed s' = printed s ∧
    cells (schedulers s') = ∅ ∧ cells (unodes s') = ∅ ∧ cells (uthreads s') = ∅ ∧ cells (stacks s') = ∅.
Proof.
  intros H. pose proof H as [Hs Hh Hch Hth Hnd _ Ho Hn Hu (ps & Hps & Hndp & Hd)].
  unfold UthreadPool.destroy_scheduler. rewrite (bind_ok _ _ _ _ _ _ (run_get_head _ _ _ _ _ _ H)).
  unfold gets. erewrite bind_ok by reflexivity. cbv beta.
  destruct (destroy_nodes_run s bs ts ps (Datatypes.S (size (cells (unodes s)))) Hch Hth Hnd Hps Hndp)
    as (s' & Hr & Hs1 & Hp & Hd1 & Hd2 & Hd3).
  { by rewrite Hd. }
  { pose proof (chain_length _ _ _ _ Hch) as Hl. rewrite length_fmap in Hl. lia. }
  rewrite (bind_ok _ _ _ _ _ _ Hr). rewrite <-Hs1 in Hs, Ho.
  rewrite (@free_ok _ _ scheduler_heap sch S0 t s' Hs).
  eexists. split; [reflexivity|]. cbn. split; [done|].
  rewrite Hn in Hd1. rewrite Hu in Hd2. rewrite Hd in Hd3.
  repeat split; apply dom_empty_iff_L; rewrite ?dom_delete_L; set_solver.
Qed.

Lemma tasks_pend ts fs : Forall2 is_task ts fs → of_ready pend ts = concat (outs <$> fs).
Proof.
  unfold of_ready. induction 1 as [|x f ts fs [Hst Hcx] _ IH]; [done|].
  cbn [fmap list_fmap concat]. rewrite IH. unfold if_ready. rewrite decide_True, Hcx by done.
  cbn. by rewrite app_nil_r.
Qed.
Lemma tasks_work ts fs : Forall2 is_task ts fs →
  length (of_ready work ts) = length (concat fs) + 3 * length fs.
Proof.
  unfold of_ready. induction 1 as [|x f ts fs [Hst Hcx] _ IH]; [done|].
  cbn [fmap list_fmap concat length]. rewrite !length_app, IH. unfold if_ready. rewrite decide_True, Hcx by done.
  rewrite work_start. lia.
Qed.

(** [run_scheduler] starts the first thread, and returns with what it and those it
    yields to have done. *)
Lemma run_scheduler_first s S0 bs x ts f fuel ts' out' : urepr sch s S0 bs (x :: ts) → is_finished S0 = false →
  is_task x f → sexec fuel bs.*2 (set_status RUNNING x :: ts) 0 [Start f] (printed s) = Some (ts', out') →
  (Z.of_nat (length out') <= INT_MAX)%Z →
  ∃ s' S1, UthreadPool.run_scheduler (Datatypes.S fuel) (Some sch) t s = Ok tt s' ∧ urepr sch s' S1 bs ts' ∧ printed s' = out'.
Proof.
  intros H Hfin [Hst Hcx] Hs Hmax. cbn [UthreadPool.run_scheduler].
  rewrite (bind_ok _ _ _ _ _ _ (run_load_sched _ _ _ _ (u_sch _ _ _ _ _ H))), Hfin.
  pose proof (find_from_head_run _ t READY _ _ _ _ H) as Hf. rewrite (bind_ok _ _ _ _ _ _ Hf). clear Hf.
  cbn [list_find]. rewrite decide_True by done.
  destruct bs as [|b bs]; [by pose proof (Forall2_length _ _ _ (u_threads _ _ _ _ _ H))|].
  cbn [lookup list_lookup fmap list_fmap].
  rewrite (bind_ok _ _ _ _ _ _ (run_update_sched _ _ _ _ _ (u_sch _ _ _ _ _ H))).
  pose proof (urepr_sched _ _ _ (set_active (Some b.1) S0) _ _ H eq_refl) as H1.
  rewrite (bind_ok _ _ _ _ _ _ (run_active_thread _ _ _ _ _ _ 0 b H1 eq_refl eq_refl)).
  destruct (urepr_block _ _ _ _ _ 0 x H1 eq_refl) as (b' & Hb' & Ht & Ho). injection Hb' as <-.
  rewrite (bind_ok _ _ _ _ _ _ (run_update_thread _ _ _ _ _ Ht)).
  pose proof (urepr_thread _ _ _ _ _ 0 b x (set_status RUNNING x) H1 eq_refl eq_refl Ho eq_refl) as H2.
  destruct (urepr_block _ _ _ _ _ 0 (set_status RUNNING x) H2 eq_refl) as (b' & Hb' & Ht2 & _). injection Hb' as <-.
  rewrite (bind_ok _ _ _ _ _ _ (run_load_thread _ _ _ _ Ht2)). cbn [context set_status]. rewrite Hcx.
  destruct (exec_refines sch t fuel _ _ _ _ 0 b (set_status RUNNING x) [Start f] ts' out' H2 eq_refl eq_refl)
    as (s' & S1 & Hr & H' & Hfin' & Hp); [done|done| |exact Hs|done|].
  { by intros p ?%list_elem_of_singleton. }
  rewrite (bind_ok _ _ _ _ _ _ Hr). destruct fuel as [|fuel]; [done|]. cbn [UthreadPool.run_scheduler].
  rewrite (bind_ok _ _ _ _ _ _ (run_load_sched _ _ _ _ (u_sch _ _ _ _ _ H'))), Hfin'.
  by exists s', S1.
Qed.

(** [run_scheduler] returns when no thread is READY any more. *)
Lemma run_scheduler_run P fs s S0 bs ts fuel : urepr sch s S0 bs ts → is_finished S0 = false →
  Forall2 is_task ts fs → P [] → (∀ z l, P (z :: l) → P l) → Forall (λ f, P (outs f)) fs →
  length (concat fs) + 3 * length fs + 1 < fuel →
  (Z.of_nat (length (printed s ++ concat (outs <$> fs))) <= INT_MAX)%Z →
  ∃ s' S1 ts' lost, UthreadPool.run_scheduler fuel (Some sch) t s = Ok tt s' ∧
    urepr sch s' S1 bs ts' ∧ printed s ++ concat (outs <$> fs) ≡ₚ printed s' ++ lost ∧ P lost.
Proof.
  intros H Hfin Hts HP0 HPs HPf Hfuel Hmax. destruct fuel as [|fuel]; [lia|].
  destruct Hts as [|x f ts fs Htask Hts].
  { cbn [UthreadPool.run_scheduler]. rewrite (bind_ok _ _ _ _ _ _ (run_load_sched _ _ _ _ (u_sch _ _ _ _ _ H))), Hfin.
    pose proof (find_from_head_run _ t READY _ _ _ _ H) as Hf. rewrite (bind_ok _ _ _ _ _ _ Hf).
    exists s, S0, [], []. by rewrite !app_nil_r. }
  apply Forall_cons in HPf as [HPf HPfs].
  cbn [length concat fmap list_fmap] in Hfuel |- *. rewrite length_app in Hfuel.
  destruct (sexec_ends P fuel bs.*2 (set_status RUNNING x :: ts) 0 [Start f] (printed s) HP0 HPs)
    as (ts' & out' & lost & Hs & Hperm & Hlost).
  { split.
    - eexists. split; [reflexivity|]. left. split; [done|]. left. by exists f.
    - intros [|i] y Hi Hy; [done|]. right. simpl in Hy.
      destruct (Forall2_lookup_l _ _ _ _ _ Hts Hy) as (g & Hg & Hy1 & Hy2).
      rewrite Hy2. split; [done|]. split; [left; by exists g|]. unfold pend. cbn. rewrite app_nil_r.
      by apply (Forall_lookup_1 _ _ _ _ HPfs Hg).
    - unfold pend. cbn. by rewrite app_nil_r. }
  { change (of_ready work (set_status RUNNING x :: ts)) with (of_ready work ts).
    rewrite (tasks_work _ _ Hts), work_start. lia. }
  assert (printed s ++ concat (outs <$> f :: fs) ≡ₚ out' ++ lost) as Hall.
  { rewrite <-Hperm. change (of_ready pend (set_status RUNNING x :: ts)) with (of_ready pend ts).
    rewrite (tasks_pend _ _ Hts). unfold pend. cbn. by rewrite app_nil_r. }
  destruct (run_scheduler_first s S0 bs x ts f fuel ts' out' H Hfin Htask Hs) as (s' & S1 & Hr & H' & Hp).
  { rewrite (Permutation_length Hall), length_app in Hmax. lia. }
  exists s', S1, ts', lost. split; [done|]. split; [done|]. split; [|done].
  by rewrite Hp.
Qed.
End adding.

(** ** The program *)

Lemma concat_perm {A} (l l' : list (list A)) : l ≡ₚ l' → concat l ≡ₚ concat l'.
Proof. induction 1; simpl; [done|by f_equiv|solve_Permutation|by etrans]. Qed.

(** [main], from what [run_scheduler] does with the tasks *)
Lemma main1_run (t : tid) (fs : list (list call)) (fuel : nat) (Q : list Z → Prop) : (Z.of_nat (length fs) <= LONG_MAX)%Z →
  (∀ sch s S0 bs ts, urepr sch s S0 bs ts → is_finished S0 = false → Forall2 is_task ts (rev fs) → printed s = [] →
    ∃ s' S1 ts', UthreadPool.run_scheduler fuel (Some sch) t s = Ok tt s' ∧ urepr sch s' S1 bs ts' ∧ Q (printed s')) →
  ∃ s, main1 (Some NULL) fs fuel t ustart = Ok (Z.of_nat (length (printed s))) s ∧ Q (printed s) ∧
    cells (schedulers s) = ∅ ∧ cells (unodes s) = ∅ ∧ cells (uthreads s) = ∅ ∧ cells (stacks s) = ∅.
Proof.
  intros Hn Hrun. unfold main1, main, init_scheduler. set (sch := 1%positive).
  set (S0 := Scheduler false 0 0 (Some NULL) NULL).
  set (s0 := UState (mem_alloc S0 mem_empty) mem_empty mem_empty mem_empty [] []).
  assert (urepr sch s0 S0 [] []) as H0.
  { split; try done; try constructor. exists []. split; [done|]. split; [constructor|done]. }
  assert (malloc uthread_scheduler_t S0 t ustart = Ok (Some sch) s0) as Hm by done.
  rewrite (bind_ok _ _ _ _ _ _ Hm).
  destruct (add_tasks_run sch t fs s0 S0 [] [] [] H0) as (s1 & S1 & bs & ts & Hadd & H1 & Hp1 & Hf1 & Hts);
    [done|constructor|done|done|exact Hn|exact Hn|].
  rewrite (bind_ok _ _ _ _ _ _ Hadd). rewrite app_nil_r in Hts.
  destruct (Hrun sch s1 S1 bs ts H1 Hf1 Hts Hp1) as (s2 & S2 & ts2 & Hr & H2 & HQ).
  rewrite (bind_ok _ _ _ _ _ _ Hr).
  destruct (destroy_scheduler_run sch t _ _ _ _ H2) as (s3 & Hd & Hp3 & He).
  unfold gets. erewrite bind_ok by reflexivity. cbv beta. rewrite (bind_ok _ _ _ _ _ _ Hd).
  exists s3. by rewrite Hp3.
Qed.

(** C9: with a fresh scheduler whose head happens to be NULL, any number of
    tasks added to it, and fuel linear in what the tasks do, [run_scheduler]
    returns; each value a task was to print is printed exactly once, except for
    the rest of at most one task, which is never resumed; and
    [destroy_scheduler] gives back every node, thread and stack. Assumed: malloc,
    mmap and getcontext succeed. *)
Theorem uthreads_run_all (t : tid) (fs : list (list call)) (fuel : nat)
    (Hn : (Z.of_nat (length fs) <= LONG_MAX)%Z)
    (Hcnt : (Z.of_nat (length (concat (outs <$> fs))) <= INT_MAX)%Z)
    (Hfuel : length (concat fs) + 3 * length fs + 1 < fuel) :
  ∃ s lost, main1 (Some NULL) fs fuel t ustart = Ok (Z.of_nat (length (printed s))) s ∧
    concat (outs <$> fs) ≡ₚ printed s ++ lost ∧
    (lost = [] ∨ ∃ f, f ∈ fs ∧ lost `suffix_of` outs f) ∧
    cells (schedulers s) = ∅ ∧ cells (unodes s) = ∅ ∧ cells (uthreads s) = ∅ ∧ cells (stacks s) = ∅.
Proof.
  set (P := λ l, l = [] ∨ ∃ f, f ∈ fs ∧ l `suffix_of` outs f).
  destruct (main1_run t fs fuel (λ out, ∃ lost, concat (outs <$> fs) ≡ₚ out ++ lost ∧ P lost) Hn)
    as (s & Hm & (lost & Hp & HP) & He); [|by exists s, lost].
  intros sch s1 S1 bs ts H1 Hf1 Hts Hp1.
  destruct (run_scheduler_run sch t P (rev fs) s1 S1 bs ts fuel H1 Hf1 Hts)
    as (s2 & S2 & ts2 & lost & Hrun & H2 & Hperm & Hlost).
  { by left. }
  { intros z l [|(f & Hf & Hl)]; [done|]. right. exists f. split; [done|]. by apply suffix_cons_l in Hl. }
  { apply Forall_forall. intros f Hf. right. exists f. split; [|done]. by rewrite <-(Permutation_rev fs) in Hf. }
  { rewrite (Permutation_length (concat_perm _ _ (Permutation_rev fs))), (Permutation_length (Permutation_rev fs)) in Hfuel. done. }
  { rewrite Hp1. simpl. by rewrite <-(Permutation_length (concat_perm _ _ (fmap_Permutation outs _ _ (Permutation_rev fs)))). }
  exists s2, S2, ts2. split; [done|]. split; [done|]. exists lost. split; [|done].
  rewrite <-Hperm, Hp1. apply concat_perm. by rewrite <-(Permutation_rev fs).
Qed.

Example uthreads_run_all_witness :
  ∃ s lost, main1 (Some NULL) (foo_tasks TASKS) 71 0 ustart = Ok (Z.of_nat (length (printed s))) s ∧
    concat (outs <$> foo_tasks TASKS) ≡ₚ printed s ++ lost ∧
    (lost = [] ∨ ∃ f, f ∈ foo_tasks TASKS ∧ lost `suffix_of` outs f) ∧
    cells (schedulers s) = ∅ ∧ cells (unodes s) = ∅ ∧ cells (uthreads s) = ∅ ∧ cells (stacks s) = ∅.
Proof. apply (uthreads_run_all 0 (foo_tasks TASKS) 71); vm_compute; [done|done|lia]. Defined.

(** What a run of [main] printed, and whether it gave back all memory *)
Definition observed (o : outcome ustate Z) : option (Z * list Z * bool) :=
  match o with
  | Ok c s => Some (c, printed s, bool_decide (cells (schedulers s) = ∅ ∧ cells (unodes s) = ∅ ∧
      cells (uthreads s) = ∅ ∧ cells (stacks s) = ∅))
  | _ => None
  end.

(** [main] with the list and 10 tasks: yielding goes to the first READY
    thread of the list, so two threads take turns until both are done and the
    next two begin; all 20 prints happen and all memory is given back. *)
Theorem main1_output (t : tid) :
  observed (main1 (Some NULL) (foo_tasks TASKS) 100 t ustart) =
    Some (20, [9; 8; 9; 8; 7; 6; 7; 6; 5; 4; 5; 4; 3; 2; 3; 2; 1; 0; 1; 0], true)%Z.
Proof. vm_compute. reflexivity. Qed.

(** [main] with the ring and 10 tasks: yielding goes around the ring, so
    every task prints once before the first is resumed; all 20 prints happen and
    all memory is given back. *)
Theorem main2_output (t : tid) :
  observed (main2 (Some NULL) (foo_tasks TASKS) 100 t ustart) =
    Some (20, [9; 0; 1; 2; 3; 4; 5; 6; 7; 8; 9; 0; 1; 2; 3; 4; 5; 6; 7; 8], true)%Z.
Proof. vm_compute. reflexivity. Qed.

(** ** What is lost *)

(** The order of version 1: the tasks take turns in pairs; one that is left over
    at the end prints before it yields, and nothing after. *)
Fixpoint in_pairs (zs : list Z) : list Z :=
  match zs with
  | z1 :: z2 :: zs' => [z1; z2; z1; z2] ++ in_pairs zs'
  | _ => zs
  end.

Lemma in_pairs_length zs : length (in_pairs zs) = 2 * length zs - length zs mod 2.
Proof.
  assert (∀ n zs, length zs ≤ n → length (in_pairs zs) + length zs mod 2 = 2 * length zs) as Hall.
  { induction n as [|n IH]; intros [|z1 [|z2 l]] Hl; simpl in Hl; try done; try lia.
    cbn [in_pairs]. rewrite length_app. cbn [length]. specialize (IH l ltac:(lia)).
    replace (Datatypes.S (Datatypes.S (length l))) with (length l + 1 * 2) by lia. rewrite Nat.Div0.mod_add. lia. }
  specialize (Hall (length zs) zs ltac:(lia)). lia.
Qed.

Lemma find_ready_app D x r : Forall (λ x, status x ≠ READY) D → status x = READY →
  list_find (λ x, status x = READY) (D ++ x :: r) = Some (length D + 0, x).
Proof.
  intros HD Hx. rewrite Nat.add_0_r. apply list_find_Some. split; [by apply list_lookup_middle|]. split; [done|].
  intros j y Hj Hlt. rewrite lookup_app_l in Hj by done. by eapply (Forall_lookup_1 _ _ _ _ HD).
Qed.
Lemma find_ready_next D x1 x2 r : Forall (λ x, status x ≠ READY) D → status x1 ≠ READY → status x2 = READY →
  list_find (λ x, status x = READY) (D ++ x1 :: x2 :: r) = Some (length D + 1, x2).
Proof.
  intros HD H1 H2. pose proof (find_ready_app (D ++ [x1]) x2 r) as Hf.
  rewrite <-app_assoc, length_app, Nat.add_0_r in Hf. apply Hf; [|done]. apply Forall_app. split; [done|by constructor].
Qed.
Lemma find_ready_none D r : Forall (λ x, status x ≠ READY) D → Forall (λ x, status x ≠ READY) r →
  list_find (λ x, status x = READY) (D ++ r) = None.
Proof. intros HD Hr. apply list_find_None, Forall_app. by split. Qed.
Lemma switched_app D r a j k : switched (length D + a) (length D + j) k (D ++ r) = D ++ switched a j k r.
Proof. unfold switched. by rewrite !alter_app_r. Qed.

(** The two halves of a task: up to the yield, and from there on *)
Definition second_half (z : Z) (u : ptr) : code := [Call (Out z); Terminate u; Call Yield].
Lemma sexec_first_half fuel us ts a z out :
  sexec (3 + fuel) us ts a [Start (foo_with_scheduling z)] out =
  match list_find (λ x, status x = READY) ts with
  | Some (j, x) => sexec fuel us (switched a j (second_half z (us !! a)) ts) j (context x) (out ++ [z])
  | None => Some (ts, out ++ [z])
  end.
Proof. reflexivity. Qed.
Lemma sexec_second_half fuel us ts a z u out (ts1 := alter (set_status TERMINATED) a ts) :
  sexec (3 + fuel) us ts a (second_half z u) out =
  match list_find (λ x, status x = READY) ts1 with
  | Some (j, x) => sexec fuel us (switched a j [] ts1) j (context x) (out ++ [z])
  | None => Some (ts1, out ++ [z])
  end.
Proof. reflexivity. Qed.

(** The first of the tasks that are left starts, and they end in pairs. *)
Lemma sexec_pairs n : ∀ D x1 ts z1 zs us fuel out, length zs ≤ n → Forall (λ x, status x ≠ READY) D →
  status x1 = RUNNING → Forall2 is_task ts (foo_with_scheduling <$> zs) → 6 * length (z1 :: zs) ≤ fuel →
  ∃ ts', sexec fuel us (D ++ x1 :: ts) (length D + 0) [Start (foo_with_scheduling z1)] out = Some (ts', out ++ in_pairs (z1 :: zs)).
Proof.
  assert (∀ D (x1 : uthread_t) z1 us fuel out, Forall (λ x, status x ≠ READY) D → status x1 = RUNNING → 6 ≤ fuel →
    ∃ ts', sexec fuel us (D ++ [x1]) (length D + 0) [Start (foo_with_scheduling z1)] out = Some (ts', out ++ [z1])) as Hone.
  { intros D x1 z1 us fuel out HD H1 Hf. replace fuel with (3 + (fuel - 3)) by lia. rewrite sexec_first_half.
    rewrite find_ready_none; [by eexists|done|]. constructor; [congruence|constructor]. }
  induction n as [|n IH]; intros D x1 ts z1 zs us fuel out Hn HD H1 Hts Hfuel.
  { destruct zs; [|simpl in Hn; lia]. inversion Hts; subst. apply Hone; simpl in *; [done|done|lia]. }
  destruct zs as [|z2 zs]; [inversion Hts; subst; apply Hone; simpl in *; [done|done|lia]|].
  inversion Hts as [|x2 ? ts2 ? [Hst2 Hcx2] Hts2]; subst. cbn [length] in Hfuel, Hn.
  replace fuel with (3 + (3 + (3 + (3 + (fuel - 12))))) by lia.
  rewrite sexec_first_half, find_ready_next by (done || congruence). rewrite switched_app, Hcx2.
  set (k1 := second_half z1 _).
  assert (switched 0 1 k1 (x1 :: x2 :: ts2) = set_context k1 (set_status READY x1) :: set_status RUNNING x2 :: ts2) as ->
    by (unfold switched; cbn; by rewrite H1).
  rewrite sexec_first_half, find_ready_app by done. rewrite switched_app. set (k2 := second_half z2 _).
  set (x1' := set_context k1 (set_status READY x1)). set (x2' := set_status RUNNING x2).
  assert (switched 1 0 k2 (x1' :: x2' :: ts2) = set_status RUNNING x1' :: set_context k2 (set_status READY x2') :: ts2) as -> by done.
  change (context x1') with k1. unfold k1 at 1. rewrite sexec_second_half, alter_app_r. cbn [alter list_alter].
  rewrite find_ready_next by done. rewrite switched_app.
  match goal with |- context [switched 0 1 [] (?y1 :: ?y2 :: ts2)] =>
    assert (switched 0 1 [] (y1 :: y2 :: ts2) = set_context [] (set_status IDLE y1) :: set_status RUNNING y2 :: ts2) as -> by done end.
  match goal with |- context [context (set_context k2 ?y)] =>
    change (context (set_context k2 y)) with (second_half z2 (us !! (length D + 1))) end.
  rewrite sexec_second_half, alter_app_r. cbn [alter list_alter].
  set (y1 := set_context [] _). match goal with |- context [set_status TERMINATED ?x] => set (y2 := set_status TERMINATED x) end.
  replace (out ++ in_pairs (z1 :: z2 :: zs)) with ((((out ++ [z1]) ++ [z2]) ++ [z1]) ++ [z2] ++ in_pairs zs)
    by (cbn [in_pairs]; by rewrite <-!app_assoc).
  set (out' := ((out ++ [z1]) ++ [z2]) ++ [z1]).
  assert (Forall (λ x, status x ≠ READY) (D ++ [y1; y2])) as HD2 by (apply Forall_app; split; [done|by repeat constructor]).
  assert (D ++ y1 :: y2 :: ts2 = (D ++ [y1; y2]) ++ ts2) as -> by (by rewrite <-app_assoc).
  destruct zs as [|z3 zs].
  { inversion Hts2; subst. rewrite find_ready_none by done. by eexists. }
  inversion Hts2 as [|x3 ? ts3 ? [Hst3 Hcx3] Hts3]; subst. rewrite find_ready_app, Hcx3 by done.
  assert (switched (length D + 1) (length (D ++ [y1; y2]) + 0) [] ((D ++ [y1; y2]) ++ x3 :: ts3) =
    (D ++ [y1; set_context [] (set_status IDLE y2)]) ++ set_status RUNNING x3 :: ts3) as ->.
  { rewrite length_app, <-!app_assoc. cbn [length app]. replace (length D + 2 + 0) with (length D + 2) by lia. by rewrite switched_app. }
  replace (length (D ++ [y1; y2])) with (length (D ++ [y1; set_context [] (set_status IDLE y2)])) by (by rewrite !length_app).
  rewrite (app_assoc out' [z2]). apply IH; [cbn in Hn; lia| |done|exact Hts3|cbn in Hfuel |- *; lia].
  apply Forall_app. split; [done|by repeat constructor].
Qed.

(** With no other thread READY, what is left of a thread that yields is lost. *)
Lemma yield_lost sch t s S0 bs ts a ba xa rest fuel fuel' : urepr sch s S0 bs ts → bs !! a = Some ba → ts !! a = Some xa →
  status xa = RUNNING → active_uthread S0 = Some ba.1 → own ba.2 rest →
  (∀ j x, j ≠ a → ts !! j = Some x → status x ≠ READY) →
  ∃ s', exec (UthreadPool.usched_yield (Some sch)) (Some sch) (Datatypes.S fuel) (Call Yield :: rest) t s = Ok tt s' ∧
    printed s' = printed s ∧ uthreads s' = uthreads s ∧
    UthreadPool.run_scheduler (Datatypes.S fuel') (Some sch) t s' = Ok tt s'.
Proof.
  intros H Hba Hxa Hst Hact Hown Hno.
  assert (list_find (λ x, status x = READY) ts = None) as Hf.
  { apply list_find_None, Forall_lookup. intros j x Hx. destruct (decide (j = a)) as [->|Hne]; [congruence|by apply (Hno j)]. }
  pose proof (yield_run sch t s S0 bs ts a ba xa rest H Hba Hxa ltac:(congruence) Hact Hown) as Hy. rewrite Hf in Hy.
  destruct Hy as [Hy H']. eexists. cbn [exec]. rewrite (bind_ok _ _ _ _ _ _ Hy).
  split; [reflexivity|]. split; [done|]. split; [done|]. cbn [UthreadPool.run_scheduler].
  by rewrite (bind_ok _ _ _ _ _ _ (run_load_sched _ _ _ _ (u_sch _ _ _ _ _ H'))).
Qed.

(** The numbers of the tasks of [main], the last one first *)
Definition numbers (n : nat) : list Z := rev (Z.of_nat <$> seq 0 n).

Lemma main1_pairs (t : tid) (n fuel : nat) : (2 * Z.of_nat n <= INT_MAX)%Z → 6 * n < fuel →
  ∃ s, main1 (Some NULL) (foo_tasks n) fuel t ustart = Ok (Z.of_nat (length (printed s))) s ∧ printed s = in_pairs (numbers n) ∧
    cells (schedulers s) = ∅ ∧ cells (unodes s) = ∅ ∧ cells (uthreads s) = ∅ ∧ cells (stacks s) = ∅.
Proof.
  intros Hn Hfuel. assert (length (numbers n) = n) as Hlen by (unfold numbers; by rewrite length_rev, length_fmap, length_seq).
  apply (main1_run t (foo_tasks n) fuel (λ out, out = in_pairs (numbers n))).
  { unfold foo_tasks. rewrite length_fmap, length_seq. unfold INT_MAX, LONG_MAX in *. lia. }
  intros sch s S0 bs ts H Hfin Hts Hp.
  assert (rev (foo_tasks n) = foo_with_scheduling <$> numbers n) as Hrev.
  { unfold foo_tasks, numbers. change (_ <$> rev ?l) with (map foo_with_scheduling (rev l)). rewrite map_rev. f_equal.
    exact (list_fmap_compose Z.of_nat foo_with_scheduling _). }
  rewrite Hrev in Hts. destruct (numbers n) as [|z zs] eqn:Hnum.
  { inversion Hts; subst. destruct fuel as [|fuel]; [lia|]. exists s, S0, [].
    cbn [UthreadPool.run_scheduler]. rewrite (bind_ok _ _ _ _ _ _ (run_load_sched _ _ _ _ (u_sch _ _ _ _ _ H))), Hfin.
    pose proof (find_from_head_run _ t READY _ _ _ _ H) as Hf. by rewrite (bind_ok _ _ _ _ _ _ Hf). }
  inversion Hts as [|x ? ts' ? Htask Hts']; subst. destruct fuel as [|fuel]; [lia|].
  destruct (sexec_pairs (length zs) [] (set_status RUNNING x) ts' z zs bs.*2 fuel (printed s)) as (ts2 & Hs);
    [done|constructor|done|exact Hts'|lia|].
  destruct (run_scheduler_first sch t s S0 bs x ts' (foo_with_scheduling z) fuel ts2 (printed s ++ in_pairs (z :: zs)) H Hfin Htask Hs)
    as (s' & S1 & Hr & H' & Hp').
  { rewrite Hp. cbn [app]. rewrite in_pairs_length. lia. }
  exists s', S1, ts2. split; [exact Hr|]. split; [exact H'|]. by rewrite Hp', Hp.
Qed.

(** C37: in version 1, when a thread that runs yields and no other thread is
    READY, control goes back to [run_scheduler], which returns: what was left of
    the thread is not run. So of the two prints of each of the [n] tasks of [main]
    all happen when [n] is even, and when it is odd all but the second of the last
    thread, number 0. In version 2, which does not look at the last candidate of
    its walk, already two tasks lose three of their four prints. *)
Theorem lost_prints :
  (∀ sch t s S0 bs ts a ba xa rest fuel fuel', urepr sch s S0 bs ts → bs !! a = Some ba → ts !! a = Some xa →
    status xa = RUNNING → active_uthread S0 = Some ba.1 → own ba.2 rest →
    (∀ j x, j ≠ a → ts !! j = Some x → status x ≠ READY) →
    ∃ s', exec (UthreadPool.usched_yield (Some sch)) (Some sch) (Datatypes.S fuel) (Call Yield :: rest) t s = Ok tt s' ∧
      printed s' = printed s ∧ uthreads s' = uthreads s ∧
      UthreadPool.run_scheduler (Datatypes.S fuel') (Some sch) t s' = Ok tt s') ∧
  (∀ t n fuel, (2 * Z.of_nat n <= INT_MAX)%Z → 6 * n < fuel →
    ∃ s, main1 (Some NULL) (foo_tasks n) fuel t ustart = Ok (2 * Z.of_nat n - Z.of_nat (n mod 2)%nat)%Z s ∧
      printed s = in_pairs (numbers n)) ∧
  ∀ t, observed (main2 (Some NULL) (foo_tasks 2) 100 t ustart) = Some (1, [1], true)%Z.
Proof.
  split; [exact yield_lost|]. split; [|by vm_compute]. intros t n fuel Hn Hfuel.
  destruct (main1_pairs t n fuel Hn Hfuel) as (s & Hm & Hp & _). exists s. split; [|done].
  rewrite Hm, Hp, in_pairs_length. unfold numbers. rewrite length_rev, length_fmap, length_seq.
  f_equal. pose proof (Nat.Div0.mod_le n 2). lia.
Qed.
(** A single thread, which runs *)
Definition running_thread : uthread_t := Uthread RUNNING 0 [] (Some 1%positive) [].
Definition one_scheduler : uthread_scheduler_t := Scheduler false 1 1 (Some (Some 1%positive)) (Some 1%positive).
Definition one_thread : ustate :=
  UState (mem_alloc one_scheduler mem_empty) (mem_alloc (Unode NULL NULL (Some 1%positive)) mem_empty)
    (mem_alloc running_thread mem_empty) (mem_alloc Stack mem_empty) [] [].
Lemma one_thread_repr : urepr 1 one_thread one_scheduler [(1, 1)%positive] [running_thread].
Proof.
  split; try done; cbn.
  - split; [done|]. by eexists.
  - repeat constructor. by exists (Unode NULL NULL (Some 1%positive)).
  - repeat constructor. set_solver.
  - repeat constructor. intros p Hp. by apply not_elem_of_nil in Hp.
  - exists [1%positive]. split; [done|]. split; [repeat constructor; set_solver|done].
Qed.

Example lost_prints_witness :
  (∃ s', exec (UthreadPool.usched_yield (Some 1%positive)) (Some 1%positive) 1 [Call Yield; Call (Out 7)] 0 one_thread = Ok tt s' ∧
    printed s' = []) ∧
  ∃ s, main1 (Some NULL) (foo_tasks 3) 19 0 ustart = Ok 5%Z s ∧ printed s = [2; 1; 2; 1; 0]%Z.
Proof.
  destruct lost_prints as (H1 & H2 & _). split; [|apply (H2 0 3 19); [done|lia]].
  destruct (H1 1%positive 0 one_thread one_scheduler _ _ 0 _ _ [Call (Out 7)] 0 0 one_thread_repr eq_refl eq_refl eq_refl eq_refl)
    as (s' & Hs & Hp & _).
  - intros p Hp. by apply list_elem_of_singleton in Hp.
  - intros [|j] x Hj Hx; [done|]. by destruct j.
  - by exists s'.
Defined.

(** [init_scheduler] does not assign [head_uthread], so adding the first
    task reads an indeterminate pointer, whatever the tasks are. *)
Theorem head_uthread_uninit (t : tid) (f : list call) (fs : list (list call)) (fuel : nat) :
  main1 None (f :: fs) fuel t ustart = Fault Uninit ∧ main2 None (f :: fs) fuel t ustart = Fault Uninit.
Proof. done. Qed.
