(* ===== verification/HttpUtils.v ===== *)
(** HttpUtils: requests and their parsing (one half of
    lab3/src/http_utils/http_utils.c; the other is HttpSend.v). *)
From S2P Require Import Prelude CString.

#[local] Open Scope Z_scope.

(** * Data *)

Definition HTTP_REQUEST_BYTES_LEN : nat := 4096.
Definition HTTP_BODY_LEN : nat := 512.
Definition HTTP_HEADER_COUNT : nat := 16.

(** A character array is the string in it, [None] as long as none was written. *)
Record http_request_t := HttpRequest {
  header_count : nat;
  method : option (list Z);
  version : option (list Z);
  path : option (list Z);
  body : option (list Z);
  headers : list (option (list Z));
}.

Definition set_header_count n r := HttpRequest n (method r) (version r) (path r) (body r) (headers r).
Definition set_method s r := HttpRequest (header_count r) (Some s) (version r) (path r) (body r) (headers r).
Definition set_version s r := HttpRequest (header_count r) (method r) (Some s) (path r) (body r) (headers r).
Definition set_path s r := HttpRequest (header_count r) (method r) (version r) (Some s) (body r) (headers r).
Definition set_body s r := HttpRequest (header_count r) (method r) (version r) (path r) (Some s) (headers r).
Definition set_header i s r :=
  HttpRequest (header_count r) (method r) (version r) (path r) (body r) (<[i := Some s]> (headers r)).

(** What [malloc] returns; [header_count] is assigned before it is read. *)
Definition new_request : http_request_t :=
  HttpRequest 0 None None None None (replicate HTTP_HEADER_COUNT None).

Definition CRLF : list Z := [CR; LF].

Module HttpUtils.
Section ops.
Context {S : Type} `{Heap S http_request_t, Oom S}.

(** The string at [ptr], an offset into the request's bytes *)
Definition str (bytes : list Z) (ptr : nat) : C S (list Z) :=
  match str_at bytes ptr with Some s => mret s | None => fail OutOfBounds end.

(** [strstr (ptr, CRLF)], and [strstr (ptr, LF)] when that is NULL *)
Definition find_line_end (bytes : list Z) (ptr : nat) : C S (option nat) :=
  s ← str bytes ptr;
  match strstr s CRLF with
  | Some i => mret (Some (ptr + i)%nat)
  | None =>
      match strstr s [LF] with
      | Some i => mret (Some (ptr + i)%nat)
      | None => mret None
      end
  end.

(** What [sscanf] with [%7s %255s %15s] assigns *)
Definition assign_fields (fields : list (list Z)) (r : http_request_t) : http_request_t :=
  match fields with
  | [] => r
  | [m] => set_method m r
  | [m; p] => set_path p (set_method m r)
  | m :: p :: v :: _ => set_version v (set_path p (set_method m r))
  end.

(** [strncpy] of [n] characters, and the terminator after them *)
Definition copy_string (n : nat) (s : list Z) : list Z := cstr (strncpy n s ++ [NUL]).

Definition store_header (request : ptr) (s : list Z) : C S unit :=
  r ← load http_request_t request;
  if decide (header_count r < HTTP_HEADER_COUNT)%nat then
    update http_request_t request (set_header (header_count r) s)
  else fail OutOfBounds.

(** The loop over the lines: where it leaves [ptr] *)
Fixpoint parse_headers (fuel : nat) (bytes : list Z) (request : ptr) (ptr : nat) : C S nat :=
  match fuel with
  | O => fail OutOfFuel
  | Datatypes.S fuel' =>
      le ← find_line_end bytes ptr;
      match le with
      | None => mret ptr
      | Some line_end =>
          let header_length := ((line_end - ptr) `min` 255)%nat in
          s ← str bytes ptr;
          store_header request (copy_string header_length s);;
          r ← load http_request_t request;
          update http_request_t request (set_header_count (header_count r + 1));;
          r ← load http_request_t request;
          if decide (10 <= header_count r)%nat then mret ptr else
          parse_headers fuel' bytes request (line_end + 2)
      end
  end.

(** The first line: where it leaves [ptr] *)
Definition parse_request_line (bytes : list Z) (request : ptr) : C S nat :=
  le ← find_line_end bytes 0;
  match le with
  | Some line_end =>
      s ← str bytes 0;
      update http_request_t request (assign_fields (sscanf [7; 255; 15]%nat s));;
      mret (line_end + 2)%nat
  | None => mret 0%nat
  end.

Definition __parse_http_request (bytes : list Z) (request : ptr) : C S Z :=
  ptr ← parse_request_line bytes request;
  update http_request_t request (set_header_count 0);;
  ptr ← parse_headers 10 bytes request ptr;
  s ← str bytes ptr;
  (if decide (0 < length s)%nat then
     update http_request_t request (set_body (copy_string (HTTP_BODY_LEN - 1) s))
   else update http_request_t request (set_body []));;
  mret 0.

Definition parse_http_request (bytes : list Z) : C S ptr :=
  result ← malloc http_request_t new_request;
  match result with
  | None => mret NULL
  | Some _ =>
      err ← __parse_http_request bytes result;
      if decide (err ≠ 0) then free http_request_t result;; mret NULL else mret result
  end.
End ops.
End HttpUtils.

(** * Facts *)

#[local] Open Scope nat_scope.

(** A line of a message has no LF and no NUL. *)
Definition is_line (s : list Z) : Prop := Forall (λ c, c ≠ LF ∧ c ≠ NUL) s.
#[export] Instance is_line_dec s : Decision (is_line s).
Proof. unfold is_line. apply _. Defined.

Lemma is_line_no_nul s : is_line s → no_nul s.
Proof. intros Hs. eapply Forall_impl; [exact Hs|]. by intros c []. Qed.

(** The end of the first line is found, with CRLF. *)
Lemma strstr_crlf s r : is_line s → strstr (s ++ CRLF ++ r) CRLF = Some (length s).
Proof.
  intros Hs. apply strstr_Some. split; [by exists s, r|]. intros pre post Heq.
  destruct (decide (length s ≤ length pre)) as [|Hlt]; [done|exfalso].
  assert ((s ++ CRLF ++ r) !! (length pre + 1) = Some LF) as HLF.
  { rewrite Heq, lookup_app_r by lia. by replace (length pre + 1 - length pre) with 1 by lia. }
  destruct (decide (length pre + 1 < length s)) as [Hin|Hout].
  - rewrite lookup_app_l in HLF by done.
    apply (Forall_lookup_1 _ _ _ _ Hs) in HLF as [? _]. done.
  - rewrite lookup_app_r in HLF by lia. by replace (length pre + 1 - length s) with 0 in HLF by lia.
Qed.
Lemma strstr_no_lf s : is_line s → strstr s [LF] = None ∧ strstr s CRLF = None.
Proof.
  intros Hs. assert (LF ∉ s) as Hn.
  { intros Hin. by apply (proj1 (Forall_forall _ _) Hs) in Hin as [? _]. }
  split; apply strstr_None; intros pre post ->; apply Hn; unfold CRLF; set_solver.
Qed.

(** A line end is inside of the string, before its last character at the latest. *)
Lemma strstr_in s needle i : strstr s needle = Some i → i + length needle ≤ length s.
Proof. intros [(pre & post & -> & <-) _]%strstr_Some. rewrite !length_app. lia. Qed.

Lemma copy_string_line n s : no_nul s → HttpUtils.copy_string n s = take n s.
Proof.
  intros Hs. unfold HttpUtils.copy_string, strncpy. rewrite (cstr_id s) by done.
  rewrite <-app_assoc. destruct (n - length s) eqn:E; simpl; by apply cstr_app_nul, no_nul_take.
Qed.
Lemma copy_string_bound n s : length (HttpUtils.copy_string n s) ≤ n.
Proof.
  unfold HttpUtils.copy_string, strncpy. pose proof (cstr_no_nul s) as Hs.
  rewrite <-app_assoc.
  destruct (n - length (cstr s)) eqn:E; simpl; rewrite cstr_app_nul by (by apply no_nul_take);
    rewrite length_take; lia.
Qed.

(** ** Where the parser may read *)

(** A buffer with [data] and [k] NULs after it *)
Definition padded (data : list Z) (k : nat) : list Z := data ++ replicate k NUL.
(** What [__recv] leaves in the buffer of [__handle_client], all NUL before:
    [data], at most 4095 bytes, and at least one NUL *)
Definition received (data : list Z) : list Z := padded data (HTTP_REQUEST_BYTES_LEN - length data).

Lemma cstr_prefix s : cstr s `prefix_of` s.
Proof. induction s as [|c s IH]; simpl; [done|]. case_decide; [apply prefix_nil|by apply prefix_cons]. Qed.
Lemma cstr_padded data k : cstr (data ++ replicate k NUL) = cstr data.
Proof.
  induction data as [|c data IH]; simpl; [by destruct k|]. by rewrite IH.
Qed.

(** The positions the parser gets to: two characters are skipped after a line
    end, which may be one LF, the last of [data]. *)
Definition position (data : list Z) (p : nat) : Prop :=
  p ≤ length data + 1 ∧ (p = length data + 1 → last data = Some LF).
(** Then a single NUL is not enough. *)
Definition too_short (data : list Z) (k : nat) : Prop := k = 1 ∧ last data = Some LF.

Lemma str_at_padded data k p : 1 ≤ k → position data p →
  too_short data k ∧ str_at (padded data k) p = None ∨
  ∃ s, str_at (padded data k) p = Some s ∧ (s = [] ∨ p ≤ length data ∧ s `prefix_of` drop p data).
Proof.
  intros Hk [Hp Hlast]. unfold str_at, padded. rewrite drop_app, drop_replicate.
  destruct (decide (p = length data + k)) as [->|Hne].
  - left. assert (k = 1) as -> by lia. split; [split; [done|by apply Hlast]|].
    rewrite drop_ge by lia. replace (1 - (length data + 1 - length data)) with 0 by lia. done.
  - right. rewrite decide_True by (apply elem_of_app; right; apply elem_of_replicate; split; [done|lia]).
    eexists. split; [done|]. rewrite cstr_padded. destruct (decide (p ≤ length data)).
    + right. split; [done|]. apply cstr_prefix.
    + left. by rewrite drop_ge by lia.
Qed.

(** ** Running the parser *)

Section parse.
Context {S : Type} `{Heap S http_request_t, Oom S, !OomIndep S http_request_t}.
Context (s0 : S) (t : tid).

(** [s0] with the new request [r] *)
Definition with_request (r : http_request_t) : S :=
  set_heap http_request_t (mem_alloc r (heap http_request_t s0)) s0.
Definition the_request : ptr := Some (fresh_loc (heap http_request_t s0)).

Lemma with_request_cell r : cells (heap http_request_t (with_request r)) !! fresh_loc (heap http_request_t s0) = Some r.
Proof. unfold with_request. rewrite heap_set. apply mem_alloc_lookup. Qed.
Lemma load_request r : load http_request_t the_request t (with_request r) = Ok r (with_request r).
Proof. apply load_ok, with_request_cell. Qed.
Lemma update_request f r :
  update http_request_t the_request f t (with_request r) = Ok tt (with_request (f r)).
Proof.
  unfold the_request. rewrite (update_ok _ _ _ _ _ (with_request_cell r)).
  unfold with_request. by rewrite heap_set, set_heap_set, mem_set_alloc.
Qed.

Lemma run_str bytes p s st : str_at bytes p = Some s → HttpUtils.str (S := S) bytes p t st = Ok s st.
Proof. intros Hs. unfold HttpUtils.str. by rewrite Hs. Qed.
Lemma run_store_header s r : header_count r < HTTP_HEADER_COUNT →
  HttpUtils.store_header the_request s t (with_request r) = Ok tt (with_request (set_header (header_count r) s r)).
Proof.
  intros Hc. unfold HttpUtils.store_header. rewrite (bind_ok _ _ _ _ _ _ (load_request r)).
  rewrite decide_True by done. apply update_request.
Qed.

(** One line of the loop *)
Lemma parse_headers_line fuel bytes p s e r : header_count r < HTTP_HEADER_COUNT →
  str_at bytes p = Some s → HttpUtils.find_line_end bytes p t (with_request r) = Ok (Some e) (with_request r) →
  let r' := set_header_count (header_count r + 1)
              (set_header (header_count r) (HttpUtils.copy_string ((e - p) `min` 255) s) r) in
  HttpUtils.parse_headers (Datatypes.S fuel) bytes the_request p t (with_request r) =
    if decide (10 ≤ header_count r + 1) then Ok p (with_request r')
    else HttpUtils.parse_headers fuel bytes the_request (e + 2) t (with_request r').
Proof.
  intros Hc Hs He r'. cbn [HttpUtils.parse_headers]. rewrite (bind_ok _ _ _ _ _ _ He). cbv zeta.
  rewrite (bind_ok _ _ _ _ _ _ (run_str _ _ _ _ Hs)).
  rewrite (bind_ok _ _ _ _ _ _ (run_store_header _ _ Hc)).
  rewrite (bind_ok _ _ _ _ _ _ (load_request _)). rewrite (bind_ok _ _ _ _ _ _ (update_request _ _)).
  rewrite (bind_ok _ _ _ _ _ _ (load_request _)). cbn [header_count set_header_count set_header].
  by case_decide.
Qed.
Lemma parse_headers_end fuel bytes p r :
  HttpUtils.find_line_end bytes p t (with_request r) = Ok None (with_request r) →
  HttpUtils.parse_headers (Datatypes.S fuel) bytes the_request p t (with_request r) = Ok p (with_request r).
Proof. intros He. cbn [HttpUtils.parse_headers]. by rewrite (bind_ok _ _ _ _ _ _ He). Qed.

(** What is assigned fits its array; the first [header_count] headers are. *)
Record bounded (r : http_request_t) : Prop := {
  b_count : header_count r ≤ 10;
  b_headers : length (headers r) = HTTP_HEADER_COUNT;
  b_assigned : ∀ i, i < header_count r → ∃ s, headers r !! i = Some (Some s) ∧ length s ≤ 255;
  b_method : ∀ s, method r = Some s → length s ≤ 7;
  b_path : ∀ s, path r = Some s → length s ≤ 255;
  b_version : ∀ s, version r = Some s → length s ≤ 15;
  b_body : ∀ s, body r = Some s → length s ≤ 511;
}.

Lemma bounded_header r s : bounded r → header_count r < 10 → length s ≤ 255 →
  bounded (set_header_count (header_count r + 1) (set_header (header_count r) s r)).
Proof.
  intros [] Hc Hs. split; simpl; try done; [lia|by rewrite length_insert|].
  intros i Hi. destruct (decide (i = header_count r)) as [->|Hne].
  - exists s. split; [|done]. apply list_lookup_insert_eq. rewrite b_headers0. unfold HTTP_HEADER_COUNT. lia.
  - rewrite list_lookup_insert_ne by done. apply b_assigned0. lia.
Qed.
Lemma bounded_body r s : bounded r → length s ≤ 511 → bounded (set_body s r).
Proof. intros [] Hs. split; simpl; try done. by intros s' [= <-]. Qed.

Lemma sscanf_fields s : bounded (HttpUtils.assign_fields (sscanf [7; 255; 15] s) new_request).
Proof.
  assert (∀ w u tok rest, scan_s w u = Some (tok, rest) → length tok ≤ w) as Hb.
  { intros w u tok rest Hu. unfold scan_s in Hu. destruct (skip_space u) as [|c u']; [done|].
    injection Hu as Hu. pose proof (take_token_bound w (c :: u')) as Hl. by rewrite Hu in Hl. }
  cbn [sscanf].
  destruct (scan_s 7 s) as [[m s1]|] eqn:E1; [apply Hb in E1|by split; simpl; try (intros; lia || done); lia].
  destruct (scan_s 255 s1) as [[p s2]|] eqn:E2;
    [apply Hb in E2|by split; simpl; try (intros; simplify_eq; lia || done); lia].
  destruct (scan_s 15 s2) as [[v s3]|] eqn:E3;
    [apply Hb in E3|]; by split; simpl; try (intros; simplify_eq; lia || done); lia.
Qed.

(** ** Any request *)

Section padded.
Context (data : list Z) (k : nat) (a_nul : 1 ≤ k).

Lemma position_le p : p ≤ length data → position data p.
Proof. intros Hp. split; lia. Qed.

(** The line end in the string [s] at [p] is found, and the parser goes on. *)
Lemma position_crlf p s i : p ≤ length data → s `prefix_of` drop p data → strstr s CRLF = Some i →
  position data (p + i + 2).
Proof.
  intros Hp Hs Hi%strstr_in. apply position_le. apply prefix_length in Hs. rewrite length_drop in Hs. simpl in Hi. lia.
Qed.
Lemma position_lf p s i : p ≤ length data → s `prefix_of` drop p data → strstr s [LF] = Some i →
  position data (p + i + 2).
Proof.
  intros Hp Hs Hi. pose proof (strstr_in _ _ _ Hi) as Hl. pose proof (prefix_length _ _ Hs) as Hls.
  rewrite length_drop in Hls. simpl in Hl. split; [lia|]. intros He.
  apply strstr_Some in Hi as [(pre & post & -> & <-) _]. destruct Hs as [rest Hs].
  rewrite last_lookup. replace (pred (length data)) with (p + length pre) by lia.
  rewrite <-lookup_drop, Hs, <-!app_assoc, lookup_app_r, Nat.sub_diag by done. done.
Qed.

Lemma find_line_end_padded p st : position data p →
  too_short data k ∧ HttpUtils.find_line_end (S := S) (padded data k) p t st = Fault OutOfBounds ∨
  ∃ s, str_at (padded data k) p = Some s ∧
    (HttpUtils.find_line_end (S := S) (padded data k) p t st = Ok None st ∨
     ∃ e, HttpUtils.find_line_end (S := S) (padded data k) p t st = Ok (Some e) st ∧ position data (e + 2)).
Proof.
  intros Hp. unfold HttpUtils.find_line_end.
  destruct (str_at_padded data k p a_nul Hp) as [[Hshort Hs]|(s & Hs & Hpre)].
  { left. split; [done|]. unfold HttpUtils.str. by rewrite Hs. }
  right. exists s. split; [done|]. rewrite (bind_ok _ _ _ _ _ _ (run_str _ _ _ _ Hs)).
  destruct Hpre as [->|[Hle Hpre]]; [by left|].
  destruct (strstr s CRLF) as [i|] eqn:E1; [right; exists (p + i); split; [done|by eapply position_crlf]|].
  destruct (strstr s [LF]) as [i|] eqn:E2; [right; exists (p + i); split; [done|by eapply position_lf]|by left].
Qed.

Lemma parse_headers_padded fuel p r : position data p → bounded r →
  header_count r < 10 → 10 ≤ fuel + header_count r →
  too_short data k ∧
    HttpUtils.parse_headers fuel (padded data k) the_request p t (with_request r) = Fault OutOfBounds ∨
  ∃ p' r' s, HttpUtils.parse_headers fuel (padded data k) the_request p t (with_request r) = Ok p' (with_request r') ∧
    str_at (padded data k) p' = Some s ∧ bounded r'.
Proof.
  revert p r. induction fuel as [|fuel IH]; intros p r Hp Hb Hc Hf; [lia|].
  destruct (find_line_end_padded p (with_request r) Hp) as [[Hshort He]|(s & Hs & [He|(e & He & Hpos)])].
  { left. split; [done|]. cbn [HttpUtils.parse_headers]. by rewrite (bind_fault _ _ _ _ _ He). }
  { right. exists p, r, s. by rewrite (parse_headers_end _ _ _ _ He). }
  rewrite (parse_headers_line fuel _ p s e r); [|unfold HTTP_HEADER_COUNT; lia|done..]. cbv zeta.
  assert (length (HttpUtils.copy_string ((e - p) `min` 255) s) ≤ 255) as Hlen
    by (pose proof (copy_string_bound ((e - p) `min` 255) s); lia).
  pose proof (bounded_header r _ Hb Hc Hlen) as Hb'.
  case_decide; [right; by eexists p, _, s|]. apply IH; [done..|simpl; lia|simpl; lia].
Qed.

Lemma parse_request_line_padded :
  too_short data k ∧
    HttpUtils.parse_request_line (padded data k) the_request t (with_request new_request) = Fault OutOfBounds ∨
  ∃ r p, HttpUtils.parse_request_line (padded data k) the_request t (with_request new_request) = Ok p (with_request r) ∧
    bounded r ∧ position data p.
Proof.
  unfold HttpUtils.parse_request_line.
  destruct (find_line_end_padded 0 (with_request new_request)) as [[Hshort He]|(s & Hs & [He|(e & He & Hpos)])];
    [apply position_le; lia|..].
  - left. split; [done|]. by rewrite (bind_fault _ _ _ _ _ He).
  - right. rewrite (bind_ok _ _ _ _ _ _ He). exists new_request, 0. split; [done|]. split; [|apply position_le; lia].
    split; simpl; try (intros; done); intros; lia.
  - right. exists (HttpUtils.assign_fields (sscanf [7; 255; 15] s) new_request), (e + 2).
    rewrite (bind_ok _ _ _ _ _ _ He), (bind_ok _ _ _ _ _ _ (run_str _ _ _ _ Hs)).
    rewrite (bind_ok _ _ _ _ _ _ (update_request _ _)).
    split; [done|]. split; [apply sscanf_fields|done].
Qed.

Lemma parse_padded :
  too_short data k ∧
    HttpUtils.__parse_http_request (padded data k) the_request t (with_request new_request) = Fault OutOfBounds ∨
  ∃ r, HttpUtils.__parse_http_request (padded data k) the_request t (with_request new_request) = Ok 0%Z (with_request r) ∧
    bounded r ∧ is_Some (body r).
Proof.
  unfold HttpUtils.__parse_http_request.
  destruct parse_request_line_padded as [[Hshort Hf]|(r & p & Hline & Hb & Hp)].
  { left. split; [done|]. by rewrite (bind_fault _ _ _ _ _ Hf). }
  rewrite (bind_ok _ _ _ _ _ _ Hline), (bind_ok _ _ _ _ _ _ (update_request _ _)).
  assert (bounded (set_header_count 0 r)) as Hb0 by (destruct Hb; split; simpl; try done; intros; lia).
  destruct (parse_headers_padded 10 p _ Hp Hb0) as [[Hshort Hf]|(p' & r' & s & Hr & Hs & Hb')]; [simpl; lia..| |].
  { left. split; [done|]. by rewrite (bind_fault _ _ _ _ _ Hf). }
  right. rewrite (bind_ok _ _ _ _ _ _ Hr), (bind_ok _ _ _ _ _ _ (run_str _ _ _ _ Hs)).
  case_decide; rewrite (bind_ok _ _ _ _ _ _ (update_request _ _)).
  - eexists. split; [done|]. split; [|by eexists]. apply bounded_body; [done|apply copy_string_bound].
  - eexists. split; [done|]. split; [|by eexists]. apply bounded_body; simpl; [done|lia].
Qed.
End padded.

(** ** A well-formed message *)

Definition end_line (l : list Z) : list Z := l ++ CRLF.
Definition request_line (m p v : list Z) : list Z := m ++ 32%Z :: p ++ 32%Z :: v ++ CRLF.
(** Header lines, the empty one before the body among them, and the body *)
Definition text (ls : list (list Z)) (b : list Z) : list Z := concat (end_line <$> ls) ++ b.

Definition word (n : nat) (s : list Z) : Prop := graphic s ∧ no_nul s ∧ s ≠ [] ∧ length s ≤ n.
#[export] Instance word_dec n s : Decision (word n s).
Proof. unfold word. apply _. Defined.

(** What is parsed: at most ten header lines; after the tenth line [ptr] was not
    moved, so the body starts with that line again. *)
Definition rest_of (ls : list (list Z)) (b : list Z) : list Z :=
  if decide (length ls < 10) then b else text (drop 9 ls) b.
Definition parsed (m p v : list Z) (ls : list (list Z)) (b : list Z) : http_request_t :=
  HttpRequest (length ls `min` 10) (Some m) (Some v) (Some p) (Some (take 511 (rest_of ls b)))
    ((Some ∘ take 255 <$> take 10 ls) ++ replicate (HTTP_HEADER_COUNT - length ls `min` 10) None).

Lemma text_no_nul ls b : Forall is_line ls → no_nul b → no_nul (text ls b).
Proof.
  intros Hls Hb. apply no_nul_app. split; [|done].
  induction Hls as [|l ls Hl _ IH]; simpl; [constructor|]. apply no_nul_app. split; [|done].
  apply no_nul_app. split; [by apply is_line_no_nul|]. by repeat constructor.
Qed.
Lemma str_at_pre pre s post : no_nul s → str_at (pre ++ s ++ NUL :: post) (length pre) = Some s.
Proof. apply str_at_app. Qed.

Fixpoint add_headers (ls : list (list Z)) (r : http_request_t) : http_request_t :=
  match ls with
  | [] => r
  | l :: ls' => add_headers ls'
      (set_header_count (header_count r + 1) (set_header (header_count r) (take 255 l) r))
  end.

Section message.
Context (post : list Z) (b : list Z) (b_line : is_line b).

(** The loop leaves [ptr] where the rest begins. *)
Lemma parse_headers_message ls fuel pre r : Forall is_line ls → header_count r < 10 →
  10 ≤ fuel + header_count r →
  let rest := if decide (header_count r + length ls < 10) then b else text (drop (9 - header_count r) ls) b in
  ∃ pre', pre ++ text ls b = pre' ++ rest ∧
  HttpUtils.parse_headers fuel (pre ++ text ls b ++ NUL :: post) the_request (length pre) t (with_request r) =
    Ok (length pre') (with_request (add_headers (take (10 - header_count r) ls) r)).
Proof.
  intros Hls. revert fuel pre r. induction Hls as [|l ls Hl Hls IH]; intros fuel pre r Hc Hf; cbv zeta.
  - exists pre. rewrite decide_True by (simpl; lia). split; [done|]. rewrite take_nil.
    destruct fuel as [|fuel]; [lia|]. apply parse_headers_end. unfold HttpUtils.find_line_end.
    unfold text. simpl. rewrite (bind_ok _ _ _ _ _ _ (run_str _ _ _ _ (str_at_pre pre b post (is_line_no_nul _ b_line)))).
    by destruct (strstr_no_lf b b_line) as [-> ->].
  - destruct fuel as [|fuel]; [lia|].
    assert (no_nul (text (l :: ls) b)) as Hnn by (by apply text_no_nul; [constructor|apply is_line_no_nul]).
    pose proof (str_at_pre pre _ post Hnn) as Hs.
    assert (text (l :: ls) b = l ++ CRLF ++ text ls b) as Htext.
    { unfold text. simpl. unfold end_line. by rewrite <-!app_assoc. }
    assert (HttpUtils.find_line_end (pre ++ text (l :: ls) b ++ NUL :: post) (length pre) t (with_request r) =
      Ok (Some (length pre + length l)) (with_request r)) as He.
    { unfold HttpUtils.find_line_end. rewrite (bind_ok _ _ _ _ _ _ (run_str _ _ _ _ Hs)).
      by rewrite Htext, strstr_crlf. }
    rewrite (parse_headers_line fuel _ (length pre) (text (l :: ls) b) (length pre + length l) r); [|unfold HTTP_HEADER_COUNT; lia|exact Hs|exact He]. cbv zeta.
    replace (length pre + length l - length pre) with (length l) by lia.
    assert (HttpUtils.copy_string (length l `min` 255) (text (l :: ls) b) = take 255 l) as ->.
    { rewrite copy_string_line by done. by rewrite Htext, Nat.min_comm, <-take_take, take_app_length. }
    destruct (decide (10 ≤ header_count r + 1)) as [H10|H10].
    + exists pre. replace (10 - header_count r) with 1 by lia. replace (9 - header_count r) with 0 by lia.
      rewrite decide_False by (simpl; lia). done.
    + set (r1 := set_header_count (header_count r + 1) (set_header (header_count r) (take 255 l) r)).
      destruct (IH fuel (pre ++ l ++ CRLF) r1) as (pre' & Hpre & Hr); [simpl; lia..|].
      replace (10 - header_count r) with (Datatypes.S (10 - header_count r1)) by (simpl; lia).
      replace (9 - header_count r) with (Datatypes.S (9 - header_count r1)) by (simpl; lia).
      exists pre'. split.
      * rewrite Htext, <-!app_assoc in *. simpl in Hpre |- *. rewrite Hpre. f_equal.
        repeat case_decide; simpl in *; lia || done.
      * change (add_headers (take (Datatypes.S ?n) (l :: ls)) r) with (add_headers (take n ls) r1).
        rewrite <-Hr. f_equal; [by rewrite Htext, <-!app_assoc|]. rewrite !length_app. simpl. lia.
Qed.

(** The first line is split at its blanks. *)
Lemma sscanf_request_line m p v rest : word 7 m → word 255 p → word 15 v →
  sscanf [7; 255; 15] (request_line m p v ++ rest) = [m; p; v].
Proof.
  intros (Hm & _ & Hm0 & Hml) (Hp & _ & Hp0 & Hpl) (Hv & _ & Hv0 & Hvl). unfold request_line, CRLF.
  rewrite <-!app_assoc. simpl. rewrite <-!app_assoc. simpl. rewrite <-!app_assoc. simpl.
  rewrite (scan_s_word 7 m) by done. cbn [sscanf]. rewrite scan_s_space by done.
  rewrite (scan_s_word 255 p) by done. cbn [sscanf]. rewrite scan_s_space by done.
  by rewrite (scan_s_word 15 v) by done.
Qed.

Lemma word_line n s : word n s → is_line s.
Proof.
  intros (Hg & Hn & _). apply Forall_forall. intros c Hc. split.
  - intros ->. apply (proj1 (Forall_forall _ _) Hg) in Hc. done.
  - by apply (proj1 (Forall_forall _ _) Hn).
Qed.

Lemma add_headers_headers ls r : header_count r + length ls ≤ length (headers r) →
  add_headers ls r = HttpRequest (header_count r + length ls) (method r) (version r) (path r) (body r)
    (take (header_count r) (headers r) ++ (Some ∘ take 255 <$> ls) ++ drop (header_count r + length ls) (headers r)).
Proof.
  revert r. induction ls as [|l ls IH]; intros r Hlen; simpl in *.
  - destruct r as [c m v p bd hs]. simpl in *. by rewrite Nat.add_0_r, take_drop.
  - rewrite IH by (simpl; rewrite length_insert; lia). simpl.
    rewrite <-Nat.add_assoc. simpl. f_equal.
    rewrite insert_take_drop by lia.
    assert (length (take (header_count r) (headers r)) = header_count r) as Hl by (rewrite length_take; lia).
    rewrite take_app_ge by lia. rewrite Hl. replace (header_count r + 1 - header_count r) with 1 by lia.
    simpl. rewrite <-app_assoc. simpl. f_equal. f_equal. f_equal.
    rewrite drop_app_ge by lia. rewrite Hl.
    replace (header_count r + Datatypes.S (length ls) - header_count r) with (Datatypes.S (length ls)) by lia.
    simpl. rewrite drop_drop. f_equal. lia.
Qed.
End message.
End parse.

Section request_line.
Context {S : Type} `{Heap S http_request_t, Oom S, !OomIndep S http_request_t}.

Lemma parse_request_line_message (s0 : S) t m p v rest post : word 7 m → word 255 p → word 15 v → no_nul rest →
  HttpUtils.parse_request_line (request_line m p v ++ rest ++ NUL :: post) (the_request s0) t
    (with_request s0 new_request) =
  Ok (length (request_line m p v)) (with_request s0 (set_version v (set_path p (set_method m new_request)))).
Proof.
  intros Hm Hp Hv Hrest. set (first := m ++ 32%Z :: p ++ 32%Z :: v).
  assert (request_line m p v = first ++ CRLF) as Hfirst.
  { unfold request_line, first. by rewrite <-!app_assoc, <-!app_comm_cons, <-!app_assoc. }
  assert (is_line first) as Hl.
  { apply Forall_app. split; [by eapply word_line|]. apply Forall_cons. split; [done|].
    apply Forall_app. split; [by eapply word_line|]. apply Forall_cons. split; [done|]. by eapply word_line. }
  assert (no_nul (request_line m p v ++ rest)) as Hn.
  { rewrite Hfirst. apply no_nul_app. split; [|done]. apply no_nul_app. split; [by apply is_line_no_nul|].
    by repeat constructor. }
  pose proof (str_at_pre [] _ post Hn) as Hs. rewrite <-app_assoc in Hs. cbn [app length] in Hs.
  unfold HttpUtils.parse_request_line, HttpUtils.find_line_end. rewrite bind_assoc.
  rewrite (bind_ok _ _ _ _ _ _ (run_str _ _ _ _ _ Hs)).
  assert (strstr (request_line m p v ++ rest) CRLF = Some (length first)) as ->
    by (rewrite Hfirst, <-app_assoc; by apply strstr_crlf).
  erewrite bind_ok by reflexivity. cbv beta iota.
  rewrite (bind_ok _ _ _ _ _ _ (run_str _ _ _ _ _ Hs)), sscanf_request_line by done.
  rewrite (bind_ok _ _ _ _ _ _ (update_request _ _ _ _)). by rewrite Hfirst, length_app.
Qed.
End request_line.

(** * Properties *)

Section properties.
Context {S : Type} `{Heap S http_request_t, Oom S, !OomIndep S http_request_t}.

(** With memory for the request, [parse_http_request] is the parser on it. *)
Lemma parse_malloc bytes t s s1 r : ¬ malloc_fails s → s1 = set_oom (tl (oom s)) s →
  HttpUtils.__parse_http_request bytes (the_request s1) t (with_request s1 new_request) = Ok 0%Z (with_request s1 r) →
  HttpUtils.parse_http_request bytes t s = Ok (the_request s1) (with_request s1 r).
Proof.
  intros Hm -> Hr. unfold HttpUtils.parse_http_request.
  rewrite (bind_ok _ _ _ _ _ _ (malloc_ok _ _ _ Hm)). cbv beta iota.
  unfold the_request, with_request in Hr |- *. rewrite heap_oom in Hr |- *.
  rewrite (bind_ok _ _ _ _ _ _ Hr). by rewrite decide_False by auto.
Qed.

(** It fails as the parser does. *)
Lemma parse_malloc_fault bytes t s e (s1 := set_oom (tl (oom s)) s) : ¬ malloc_fails s →
  HttpUtils.__parse_http_request bytes (the_request s1) t (with_request s1 new_request) = Fault e →
  HttpUtils.parse_http_request bytes t s = Fault e.
Proof.
  intros Hm Hr. unfold HttpUtils.parse_http_request.
  rewrite (bind_ok _ _ _ _ _ _ (malloc_ok _ _ _ Hm)). cbv beta iota.
  unfold the_request, with_request, s1 in Hr. rewrite heap_oom in Hr. by rewrite (bind_fault _ _ _ _ _ Hr).
Qed.

(** C21: whatever [data] of at most 4095 bytes was received into the buffer of
    4096, the parser returns a request, and it never leaves the request's arrays:
    at most ten headers are counted, each of them and the body are assigned, and
    every string fits its array. The one exception is a full buffer (4095 bytes)
    whose last character is LF: there it either does the same or reads behind the
    buffer. Without memory it returns NULL and changes nothing. *)
Theorem parse_http_request_bounded (s : S) (t : tid) (data : list Z)
    (fits : length data < HTTP_REQUEST_BYTES_LEN) :
  if decide (malloc_fails s) then
    HttpUtils.parse_http_request (received data) t s = Ok NULL (set_oom (tl (oom s)) s)
  else
    (∃ l r s', HttpUtils.parse_http_request (received data) t s = Ok (Some l) s' ∧
      cells (heap http_request_t s') = <[l := r]> (cells (heap http_request_t s)) ∧
      cells (heap http_request_t s) !! l = None ∧ bounded r ∧ is_Some (body r)) ∨
    length data = 4095 ∧ last data = Some LF ∧
      HttpUtils.parse_http_request (received data) t s = Fault OutOfBounds.
Proof.
  destruct (decide (malloc_fails s)) as [Hm|Hm].
  { unfold HttpUtils.parse_http_request. by rewrite (bind_ok _ _ _ _ _ _ (malloc_null _ _ _ Hm)). }
  unfold received. set (k := HTTP_REQUEST_BYTES_LEN - length data). assert (1 ≤ k) as Hk by lia.
  set (s1 := set_oom (tl (oom s)) s).
  destruct (parse_padded s1 t data k Hk) as [[[Hk1 Hlast] Hf]|(r & Hr & Hb & Hbody)].
  - right. split; [unfold k, HTTP_REQUEST_BYTES_LEN in *; lia|]. split; [done|]. by apply parse_malloc_fault.
  - left. eexists _, r, _. split; [exact (parse_malloc _ _ _ _ _ Hm eq_refl Hr)|].
    unfold with_request. rewrite heap_set. unfold s1. rewrite heap_oom. split; [done|]. split; [apply fresh_loc_none|done].
Qed.

Lemma parse_message_run (s : S) (t : tid) (m p v : list Z) (ls : list (list Z)) (b post : list Z)
    (s1 := set_oom (tl (oom s)) s) :
  ¬ malloc_fails s → word 7 m → word 255 p → word 15 v → Forall is_line ls → is_line b →
  HttpUtils.parse_http_request (request_line m p v ++ text ls b ++ NUL :: post) t s =
    Ok (the_request s1) (with_request s1 (parsed m p v ls b)).
Proof.
  intros memory Hm Hp Hv Hls Hb.
  assert (HttpUtils.__parse_http_request (request_line m p v ++ text ls b ++ NUL :: post) (the_request s1) t
    (with_request s1 new_request) = Ok 0%Z (with_request s1 (parsed m p v ls b))) as Hr.
  { unfold HttpUtils.__parse_http_request.
    assert (no_nul (text ls b)) as Hn by (apply text_no_nul; [done|by apply is_line_no_nul]).
    rewrite (bind_ok _ _ _ _ _ _ (parse_request_line_message s1 t m p v _ post Hm Hp Hv Hn)).
    rewrite (bind_ok _ _ _ _ _ _ (update_request _ _ _ _)).
    set (r0 := set_header_count 0 _).
    destruct (parse_headers_message s1 t post b Hb ls 10 (request_line m p v) r0 Hls) as (pre & Hpre & Hr);
      [simpl; lia..|].
    rewrite (bind_ok _ _ _ _ _ _ Hr). simpl in Hpre. fold (rest_of ls b) in Hpre.
    assert (no_nul (rest_of ls b)) as Hnr.
    { unfold rest_of. case_decide; [by apply is_line_no_nul|].
      apply text_no_nul; [by apply Forall_drop|by apply is_line_no_nul]. }
    rewrite app_assoc, Hpre, <-app_assoc.
    rewrite (bind_ok _ _ _ _ _ _ (run_str _ _ _ _ _ (str_at_pre pre _ post Hnr))).
    assert (10 - header_count r0 = 10) as Hten by done. rewrite Hten.
    rewrite add_headers_headers by (simpl; rewrite length_take; lia). cbn [header_count r0 set_header_count].
    assert ((if decide (0 < length (rest_of ls b)) then set_body (HttpUtils.copy_string (HTTP_BODY_LEN - 1) (rest_of ls b))
             else set_body []) = set_body (take 511 (rest_of ls b))) as Hbody.
    { case_decide as Hlen; [by rewrite copy_string_line|]. destruct (rest_of ls b); [done|simpl in Hlen; lia]. }
    assert (∀ X Y r, (if decide (0 < length (rest_of ls b)) then update http_request_t (the_request s1) X
             else update http_request_t (the_request s1) Y) t (with_request s1 r) =
             Ok tt (with_request s1 ((if decide (0 < length (rest_of ls b)) then X else Y) r))) as Hupd.
    { intros X Y r. case_decide; apply update_request. }
    rewrite (bind_ok _ _ _ _ _ _ (Hupd _ _ _)), Hbody.
    unfold parsed, set_body, mret, C_ret. cbn. rewrite length_take. do 3 f_equal; [lia|].
    f_equal. rewrite Nat.min_comm. exact (drop_replicate (length ls `min` 10) 16 None). }
  exact (parse_malloc _ _ _ _ _ memory eq_refl Hr).
Qed.

(** Without a line end nothing of the first line is assigned. *)
Lemma parse_no_line (s : S) (t : tid) (bytes post : list Z) (s1 := set_oom (tl (oom s)) s) :
  ¬ malloc_fails s → is_line bytes →
  ∃ r, HttpUtils.parse_http_request (bytes ++ NUL :: post) t s = Ok (the_request s1) (with_request s1 r) ∧
    path r = None.
Proof.
  intros memory Hl.
  assert (str_at (bytes ++ NUL :: post) 0 = Some bytes) as Hs by (apply (str_at_pre []), is_line_no_nul, Hl).
  assert (∀ st, HttpUtils.find_line_end (S := S) (bytes ++ NUL :: post) 0 t st = Ok None st) as Hf.
  { intros st. unfold HttpUtils.find_line_end. rewrite (bind_ok _ _ _ _ _ _ (run_str _ _ _ _ _ Hs)).
    by destruct (strstr_no_lf bytes Hl) as [-> ->]. }
  exists (set_body (if decide (0 < length bytes) then HttpUtils.copy_string (HTTP_BODY_LEN - 1) bytes else [])
    (set_header_count 0 new_request)). split; [|done].
  apply parse_malloc; [done|done|]. unfold HttpUtils.__parse_http_request, HttpUtils.parse_request_line.
  rewrite bind_assoc, (bind_ok _ _ _ _ _ _ (Hf _)). erewrite bind_ok by reflexivity.
  rewrite (bind_ok _ _ _ _ _ _ (update_request _ _ _ _)).
  rewrite (bind_ok _ _ _ _ _ _ (parse_headers_end _ _ _ _ _ _ (Hf _))).
  rewrite (bind_ok _ _ _ _ _ _ (run_str _ _ _ _ _ Hs)).
  destruct (decide (0 < length bytes)); by rewrite (bind_ok _ _ _ _ _ _ (update_request _ _ _ _)).
Qed.

(** C22: a message of a request line, header lines (among them the empty one)
    and a body without LF is read back: the three words of the first line, up to
    ten lines cut to 255 characters, and up to 511 characters of the body, which
    from ten lines on starts with the tenth line. *)
Theorem parse_message (s : S) (t : tid) (m p v : list Z) (ls : list (list Z)) (b post : list Z)
    (memory : ¬ malloc_fails s) (Hm : word 7 m) (Hp : word 255 p) (Hv : word 15 v)
    (Hls : Forall is_line ls) (Hb : is_line b) :
  ∃ l s', HttpUtils.parse_http_request (request_line m p v ++ text ls b ++ NUL :: post) t s = Ok (Some l) s' ∧
    cells (heap http_request_t s') = <[l := parsed m p v ls b]> (cells (heap http_request_t s)).
Proof.
  eexists _, _. split; [by apply parse_message_run|].
  unfold with_request. by rewrite heap_set, heap_oom.
Qed.
End properties.

Section overrun.
Context {S : Type} `{Heap S http_request_t, Oom S, !OomIndep S http_request_t}.

(** [strstr] of a line that ends with LF alone *)
Lemma strstr_lf l : is_line l → CR ∉ l → strstr (l ++ [LF]) CRLF = None ∧ strstr (l ++ [LF]) [LF] = Some (length l).
Proof.
  intros Hl no_cr. split.
  - apply strstr_None. intros pre post Heq.
    assert (CR ∈ l ++ [LF]) as Hin by (rewrite Heq; unfold CRLF; set_solver).
    apply elem_of_app in Hin as [Hin|Hin%list_elem_of_singleton]; done.
  - apply strstr_Some. split; [by exists l, []|]. intros pre post Heq.
    destruct (decide (length l ≤ length pre)) as [|Hlt]; [done|exfalso].
    assert ((l ++ [LF]) !! length pre = Some LF) as Hx by (rewrite Heq, lookup_app_r, Nat.sub_diag by lia; done).
    rewrite lookup_app_l in Hx by lia. by apply (Forall_lookup_1 _ _ _ _ Hl) in Hx as [? _].
Qed.

Section message.
Context (s0 : S) (t : tid) (l : list Z) (Hl : is_line l) (no_cr : CR ∉ l).

(** Lines that end with CRLF, one that ends with LF, and one NUL, after [pre] *)
Definition full_buffer (pre : list Z) (ls : list (list Z)) : list Z := pre ++ text ls (l ++ [LF]) ++ [NUL].

Lemma full_buffer_str pre ls : Forall is_line ls →
  str_at (full_buffer pre ls) (length pre) = Some (text ls (l ++ [LF])).
Proof.
  intros Hls. apply str_at_pre, text_no_nul; [done|]. apply no_nul_app. split; [by apply is_line_no_nul|by repeat constructor].
Qed.
Lemma full_buffer_line pre ls st : Forall is_line ls →
  HttpUtils.find_line_end (S := S) (full_buffer pre ls) (length pre) t st =
    Ok (Some (length pre + length (default l (head ls)))) st.
Proof.
  intros Hls. unfold HttpUtils.find_line_end. rewrite (bind_ok _ _ _ _ _ _ (run_str _ _ _ _ _ (full_buffer_str pre ls Hls))).
  destruct Hls as [|x ls Hx Hls]; unfold text; simpl.
  - by destruct (strstr_lf l Hl no_cr) as [-> ->].
  - unfold end_line. by rewrite <-!app_assoc, strstr_crlf.
Qed.
(** The next line, or the end of the buffer *)
Lemma full_buffer_next pre x ls : full_buffer pre (x :: ls) = full_buffer (pre ++ end_line x) ls.
Proof. unfold full_buffer, text. simpl. by rewrite <-!app_assoc. Qed.
Lemma full_buffer_end pre fuel s :
  HttpUtils.parse_headers (Datatypes.S fuel) (full_buffer pre []) (the_request s0) (length pre + length l + 2) t s =
    Fault OutOfBounds.
Proof.
  cbn [HttpUtils.parse_headers]. apply bind_fault. unfold HttpUtils.find_line_end. apply bind_fault.
  unfold HttpUtils.str, str_at, full_buffer, text.
  by rewrite drop_ge by (rewrite !length_app; simpl; lia).
Qed.

Lemma parse_headers_overrun ls : Forall is_line ls → ∀ pre fuel r,
  header_count r + length ls < 9 → 10 ≤ fuel + header_count r →
  HttpUtils.parse_headers fuel (full_buffer pre ls) (the_request s0) (length pre) t (with_request s0 r) = Fault OutOfBounds.
Proof.
  induction ls as [|x ls IH]; intros Hls pre [|fuel] r Hc Hf; cbn [length] in *; [lia|idtac|lia|idtac];
    (rewrite (parse_headers_line s0 t fuel _ _ _ _ r ltac:(unfold HTTP_HEADER_COUNT; lia)
      (full_buffer_str pre _ Hls) (full_buffer_line pre _ _ Hls)));
    cbv zeta; rewrite decide_False by lia; cbn [head default from_option id].
  - destruct fuel as [|fuel]; [lia|]. apply full_buffer_end.
  - rewrite full_buffer_next. replace (length pre + length x + 2) with (length (pre ++ end_line x))
      by (unfold end_line; rewrite !length_app; simpl; lia). apply IH; [by inversion Hls|simpl; lia..].
Qed.

Lemma parse_overruns_run ls : Forall is_line ls → length ls < 10 →
  HttpUtils.__parse_http_request (full_buffer [] ls) (the_request s0) t (with_request s0 new_request) = Fault OutOfBounds.
Proof.
  intros Hls Hlen. unfold HttpUtils.__parse_http_request, HttpUtils.parse_request_line.
  rewrite bind_assoc, (bind_ok _ _ _ _ _ _ (full_buffer_line [] ls _ Hls)). cbv beta iota.
  rewrite bind_assoc, (bind_ok _ _ _ _ _ _ (run_str _ _ _ _ _ (full_buffer_str [] ls Hls))).
  rewrite bind_assoc, (bind_ok _ _ _ _ _ _ (update_request _ _ _ _)).
  erewrite bind_ok by reflexivity. rewrite (bind_ok _ _ _ _ _ _ (update_request _ _ _ _)).
  apply bind_fault. destruct Hls as [|x ls Hx Hls]; cbn [head default from_option id].
  - apply (full_buffer_end []).
  - rewrite full_buffer_next. replace (length (@nil Z) + length x + 2) with (length ([] ++ end_line x))
      by (unfold end_line; rewrite !length_app; simpl; lia).
    apply parse_headers_overrun; [done|simpl in *; lia..].
Qed.
End message.

(** C23: the handler's buffer of 4096 is filled by a message of 4095 bytes: at
    most nine lines that end with CRLF, then one without CR that ends with a
    single LF, the last byte received. After a line end two characters are
    skipped, here the LF and the only NUL: the parser reads behind the buffer. *)
Theorem parse_overruns (s : S) (t : tid) (ls : list (list Z)) (l : list Z) (memory : ¬ malloc_fails s)
    (Hls : Forall is_line ls) (few : length ls < 10) (Hl : is_line l) (no_cr : CR ∉ l)
    (full : length (text ls (l ++ [LF])) = 4095) :
  HttpUtils.parse_http_request (received (text ls (l ++ [LF]))) t s = Fault OutOfBounds.
Proof.
  unfold received, padded. rewrite full. apply parse_malloc_fault; [done|]. by apply (parse_overruns_run _ _ l Hl no_cr ls).
Qed.
End overrun.

(** ** A store, and the properties there *)

(** The requests and the answers of the allocator *)
Record request_store := RequestStore { requests : mem http_request_t; rs_answers : list bool }.
#[export] Instance requests_heap : Heap request_store http_request_t.
Proof.
  refine {| heap := requests; set_heap m s := RequestStore m (rs_answers s) |};
    by intros; repeat match goal with s : request_store |- _ => destruct s end.
Defined.
#[export] Instance requests_oom : Oom request_store.
Proof.
  refine {| oom := rs_answers; set_oom o s := RequestStore (requests s) o |};
    by intros; repeat match goal with s : request_store |- _ => destruct s end.
Defined.
#[export] Instance requests_oom_indep : OomIndep request_store http_request_t.
Proof. by split. Qed.

Definition no_requests (answers : list bool) : request_store := RequestStore mem_empty answers.

(** A full buffer, too *)
Example parse_http_request_bounded_witness :
  HttpUtils.parse_http_request (received (lit "GET / HTTP/1.1")) 0 (no_requests [false]) = Ok NULL (no_requests []) ∧
  (∃ l r s', HttpUtils.parse_http_request (received (replicate 4095 120%Z)) 0 (no_requests []) = Ok (Some l) s' ∧
    cells (heap http_request_t s') = <[l := r]> (cells (heap http_request_t (no_requests []))) ∧
    cells (heap http_request_t (no_requests [])) !! l = None ∧ bounded r ∧ is_Some (body r)).
Proof.
  split.
  - pose proof (parse_http_request_bounded (no_requests [false]) 0 (lit "GET / HTTP/1.1") ltac:(vm_compute; lia)) as H.
    rewrite decide_True in H by done. exact H.
  - pose proof (parse_http_request_bounded (no_requests []) 0 (replicate 4095 120%Z)
      ltac:(rewrite length_replicate; unfold HTTP_REQUEST_BYTES_LEN; lia)) as H.
    rewrite decide_False in H by done. destruct H as [H|(_ & Hlast & _)]; [exact H|].
    exfalso. revert Hlast. rewrite last_lookup, length_replicate. by vm_compute.
Defined.

Example parse_message_witness :
  ∃ l s', HttpUtils.parse_http_request (request_line (lit "GET") (lit "http://a.b/c") (lit "HTTP/1.1") ++
      text [lit "Host: a.b"; lit "Accept: */*"; []] (lit "body") ++ [NUL; NUL]) 0 (no_requests []) = Ok (Some l) s' ∧
    cells (heap http_request_t s') =
      <[l := parsed (lit "GET") (lit "http://a.b/c") (lit "HTTP/1.1") [lit "Host: a.b"; lit "Accept: */*"; []] (lit "body")]>
        (cells (heap http_request_t (no_requests []))).
Proof.
  apply (parse_message (no_requests []) 0 (lit "GET") (lit "http://a.b/c") (lit "HTTP/1.1")
    [lit "Host: a.b"; lit "Accept: */*"; []] (lit "body") [NUL]); [done|..]; apply (bool_decide_unpack _); vm_compute; exact Logic.I.
Defined.

Example parse_overruns_witness :
  HttpUtils.parse_http_request (received (text [lit "GET / HTTP/1.1"] (replicate 4078 120%Z ++ [LF]))) 0 (no_requests []) =
    Fault OutOfBounds.
Proof.
  apply (parse_overruns (no_requests []) 0 [lit "GET / HTTP/1.1"] (replicate 4078 120%Z));
    apply (bool_decide_unpack _); vm_compute; exact Logic.I.
Defined.
