(* ===== verification/HttpSend.v ===== *)
(** HttpSend: requests sent through libcurl and the progress reports of a
    download (the other half of lab3/src/http_utils/http_utils.c). libcurl is a
    parameter. *)
From Stdlib Require Import SpecFloat.
From S2P Require Import Prelude CString Threads HttpUtils.

#[local] Open Scope Z_scope.

(** * Data *)

Inductive http_method_t := UNDEFINED | GET | POST | PUT | DELETE | HEAD | PATCH.
#[export] Instance http_method_eq_dec : EqDecision http_method_t.
Proof. solve_decision. Defined.

Record request_context_t := RequestContext {
  downloaded_quarter : Z;
  request : ptr;
  manager : ptr;
  proxy_context : ptr;
}.
Definition set_quarter x c := RequestContext x (request c) (manager c) (proxy_context c).

Definition ACCEPT_TIMEOUT_MS : Z := 5000.

(** A list of [curl_slist]; NULL is the empty one *)
Abbreviation slist := (option (list (list Z))).

(** The options [send_http_request] sets; a callback's data is the context. *)
Inductive curl_opt :=
  | CURLOPT_URL (url : list Z)
  | CURLOPT_HTTPHEADER (headers : slist)
  | CURLOPT_POST (on : Z)
  | CURLOPT_POSTFIELDS (body : list Z)
  | CURLOPT_POSTFIELDSIZE (n : Z)
  | CURLOPT_CUSTOMREQUEST (name : list Z)
  | CURLOPT_ACCEPTTIMEOUT_MS (ms : Z)
  | CURLOPT_HEADERFUNCTION_callback
  | CURLOPT_HEADERDATA (context : ptr)
  | CURLOPT_WRITEFUNCTION_callback
  | CURLOPT_WRITEDATA (context : ptr)
  | CURLOPT_XFERINFOFUNCTION_xferinfo_callback
  | CURLOPT_XFERINFODATA (context : ptr)
  | CURLOPT_NOPROGRESS (on : Z).

(** * Sending *)

Definition __parse_method (str : list Z) : http_method_t :=
  if decide (strcmp str (lit "GET") = 0) then GET
  else if decide (strcmp str (lit "POST") = 0) then POST
  else if decide (strcmp str (lit "PUT") = 0) then PUT
  else if decide (strcmp str (lit "DELETE") = 0) then DELETE
  else if decide (strcmp str (lit "HEAD") = 0) then HEAD
  else if decide (strcmp str (lit "PATCH") = 0) then PATCH
  else UNDEFINED.

Module HttpSend.
Section ops.
Context {S : Type} `{Heap S http_request_t, Heap S request_context_t, Oom S}.

(** libcurl: whether there is a handle, the list with one more string or NULL,
    the result of a transfer with the options set, and the response code *)
Context (curl_easy_init : C S bool).
Context (curl_slist_append : slist → list Z → C S slist).
Context (curl_easy_perform : list curl_opt → prog S Z).
Context (curl_easy_getinfo : C S Z).

Definition create_request_context (request manager proxy_context : ptr) : C S ptr :=
  malloc request_context_t (RequestContext 0 request manager proxy_context).

(** A field that was never assigned is not read. *)
Definition read {A} (field : option A) : C S A :=
  match field with Some x => mret x | None => fail Uninit end.
Definition get_header (req : ptr) (i : nat) : C S (list Z) :=
  r ← load http_request_t req;
  h ← array_get (headers r) i;
  read h.

(** The loop of [__prepare_headers], [n] headers before its end *)
Fixpoint append_headers (n : nat) (context : ptr) (headers : slist) (i : nat) : C S slist :=
  match n with
  | O => mret headers
  | Datatypes.S n' =>
      c ← load request_context_t context;
      h ← get_header (request c) i;
      headers' ← curl_slist_append headers h;
      append_headers n' context headers' (i + 1)
  end.

(** The value returned and [*headers] *)
Definition __prepare_headers (headers : slist) (context : ptr) : C S (Z * slist) :=
  headers ← curl_slist_append headers (lit "Accept-Encoding:");
  match headers with
  | None => mret (-1, None)
  | Some _ =>
      c ← load request_context_t context;
      r ← load http_request_t (request c);
      headers ← append_headers (header_count r) context headers 0;
      mret (0, headers)
  end.

Definition method_options (context : ptr) : C S (list curl_opt) :=
  c ← load request_context_t context;
  r ← load http_request_t (request c);
  m ← read (method r);
  match __parse_method m with
  | POST =>
      b ← read (body r);
      mret [CURLOPT_POST 1; CURLOPT_POSTFIELDS b; CURLOPT_POSTFIELDSIZE (Z.of_nat (length b))]
  | PUT =>
      b ← read (body r);
      mret [CURLOPT_CUSTOMREQUEST (lit "PUT"); CURLOPT_POSTFIELDS b; CURLOPT_POSTFIELDSIZE (Z.of_nat (length b))]
  | DELETE => mret [CURLOPT_CUSTOMREQUEST (lit "DELETE")]
  | _ => mret []
  end.

Definition callback_options (context : ptr) : list curl_opt :=
  [CURLOPT_ACCEPTTIMEOUT_MS ACCEPT_TIMEOUT_MS;
   CURLOPT_HEADERFUNCTION_callback; CURLOPT_HEADERDATA context;
   CURLOPT_WRITEFUNCTION_callback; CURLOPT_WRITEDATA context;
   CURLOPT_XFERINFOFUNCTION_xferinfo_callback; CURLOPT_XFERINFODATA context;
   CURLOPT_NOPROGRESS 0].

(** The options that are set before the transfer; [None] if there is no handle
    or no memory for the headers *)
Definition prepare_transfer (context : ptr) : C S (option (list curl_opt)) :=
  curl ← curl_easy_init;
  if negb curl then mret None else
  c ← load request_context_t context;
  r ← load http_request_t (request c);
  url ← read (path r);
  p ← __prepare_headers None context;
  let '(err, headers) := p : Z * slist in
  if decide (err ≠ 0) then mret None else
  by_method ← method_options context;
  mret (Some ([CURLOPT_URL url; CURLOPT_HTTPHEADER headers] ++ by_method ++ callback_options context)).

(** The transfer calls back: other threads run meanwhile. *)
Definition send_http_request (context : ptr) : prog S Z :=
  opts ← atomic (prepare_transfer context);
  match opts with
  | None => mret (-1)
  | Some opts =>
      res ← curl_easy_perform opts;
      if decide (res ≠ 0) then mret (-1) else atomic curl_easy_getinfo
  end.
End ops.
End HttpSend.

(** * Progress reports *)

(** [double], its arithmetic and the conversion of an integer *)
Definition double : Type := spec_float.
Definition of_int (z : Z) : double := binary_normalize 53 1024 z 0 false.
Definition ddiv : double → double → double := SFdiv 53 1024.
Definition dmul : double → double → double := SFmul 53 1024.
Definition dge (a b : double) : bool := SFleb b a.

Definition progress_of (dltotal dlnow : Z) : double :=
  dmul (ddiv (of_int dlnow) (of_int dltotal)) (of_int 100).

(** [xferinfo_callback] on the context's [downloaded_quarter]: its new value and
    the percentage logged *)
Definition xferinfo_step (q dltotal dlnow : Z) : Z * option Z :=
  if decide (dltotal > 0) then
    let progress := progress_of dltotal dlnow in
    if dge progress (of_int 0) && bool_decide (q = 0) then (1, Some 0)
    else if dge progress (of_int 33) && bool_decide (q < 2) then (2, Some 33)
    else if dge progress (of_int 66) && bool_decide (q < 3) then (3, Some 66)
    else if dge progress (of_int 100) && bool_decide (q < 4) then (4, Some 100)
    else (q, None)
  else (q, None).

Definition xferinfo_callback {S : Type} `{Heap S request_context_t} (clientp : ptr) (dltotal dlnow : Z) : C S (Z * option Z) :=
  c ← load request_context_t clientp;
  let '(q, logged) := xferinfo_step (downloaded_quarter c) dltotal dlnow in
  update request_context_t clientp (set_quarter q);;
  mret (0, logged).

(** The calls during one download and what they log *)
Fixpoint xferinfo_calls {S : Type} `{Heap S request_context_t} (clientp : ptr) (calls : list (Z * Z)) : C S (list Z) :=
  match calls with
  | [] => mret []
  | (dltotal, dlnow) :: calls' =>
      r ← xferinfo_callback clientp dltotal dlnow;
      logged ← xferinfo_calls clientp calls';
      mret (option_list (r : Z * option Z).2 ++ logged)
  end.

(** * Facts *)

Lemma xferinfo_step_logs q dltotal dlnow : 0 <= q <= 4 →
  let '(q', logged) := xferinfo_step q dltotal dlnow in
  (q' = q ∧ logged = None) ∨
  (q < q' <= 4 ∧ logged = [0; 33; 66; 100] !! Z.to_nat (q' - 1)).
Proof.
  intros Hq. unfold xferinfo_step. case_decide; [|by left]. cbv zeta.
  repeat match goal with |- context [if ?b then _ else _] =>
    let E := fresh in destruct b eqn:E;
    [apply andb_true_iff in E as [_ E%bool_decide_eq_true]; right; split; [lia|done]|]
  end.
  by left.
Qed.

(** A later part of the reports, after the one just logged *)
Lemma reports_step (q q' : Z) x l : 0 <= q < q' → [0; 33; 66; 100] !! Z.to_nat (q' - 1) = Some x →
  l `sublist_of` drop (Z.to_nat q') [0; 33; 66; 100] →
  x :: l `sublist_of` drop (Z.to_nat q) [0; 33; 66; 100].
Proof.
  intros Hq Hx Hl. assert (drop (Z.to_nat (q' - 1)) [0; 33; 66; 100] = x :: drop (Z.to_nat q') [0; 33; 66; 100]) as Hd.
  { rewrite (drop_S _ _ _ Hx). do 2 f_equal. lia. }
  assert (x :: l `sublist_of` drop (Z.to_nat (q' - 1)) [0; 33; 66; 100]) as Hs by (rewrite Hd; by apply sublist_skip).
  etrans; [exact Hs|]. replace (Z.to_nat (q' - 1)) with (Z.to_nat q + Z.to_nat (q' - 1 - q))%nat by lia.
  rewrite <-drop_drop. apply sublist_drop.
Qed.

(** during a download, whatever amounts are reported, [xferinfo_callback]
    returns 0 and logs 0%, 33%, 66% and 100% in this order, each at most once. *)
Theorem progress_reports {S : Type} `{Heap S request_context_t} (s : S) (t : tid) (l : positive)
    (c : request_context_t) (calls : list (Z * Z))
    (Hc : cells (heap request_context_t s) !! l = Some c) (Hq : 0 <= downloaded_quarter c <= 4) :
  ∃ logged s', xferinfo_calls (Some l) calls t s = Ok logged s' ∧
    logged `sublist_of` drop (Z.to_nat (downloaded_quarter c)) [0; 33; 66; 100].
Proof.
  revert s c Hc Hq. induction calls as [|[dltotal dlnow] calls IH]; intros s c Hc Hq.
  { exists [], s. split; [done|]. apply sublist_nil_l. }
  cbn [xferinfo_calls]. unfold xferinfo_callback.
  pose proof (xferinfo_step_logs (downloaded_quarter c) dltotal dlnow Hq) as Hstep.
  rewrite bind_assoc, (bind_ok _ _ _ _ _ _ (load_ok _ _ _ _ Hc)).
  destruct (xferinfo_step _ _ _) as [q' o].
  rewrite bind_assoc, (bind_ok _ _ _ _ _ _ (update_ok _ _ _ _ _ Hc)).
  erewrite bind_ok by reflexivity.
  destruct (IH (set_heap request_context_t (mem_set l (set_quarter q' c) (heap request_context_t s)) s) (set_quarter q' c))
    as (logged & s' & Hr & Hl).
  { rewrite heap_set. simpl. apply lookup_insert_eq. }
  { simpl. destruct Hstep as [[-> _]|[? _]]; lia. }
  rewrite (bind_ok _ _ _ _ _ _ Hr). eexists _, s'. split; [reflexivity|].
  destruct Hstep as [[-> ->]|[Hq' ->]]; [done|]. cbn [snd downloaded_quarter set_quarter] in *.
  destruct (lookup_lt_is_Some_2 [0; 33; 66; 100] (Z.to_nat (q' - 1))) as [x Hx]; [simpl; lia|].
  rewrite Hx. simpl. apply (reports_step (downloaded_quarter c) q'); [lia|done|done].
Qed.

(** ** What libcurl is given *)

Section send.
Context {S : Type} `{Heap S http_request_t, Heap S request_context_t}.
Context (curl_easy_init : C S bool) (curl_slist_append : slist → list Z → C S slist).
Context (curl_easy_perform : list curl_opt → prog S Z) (curl_easy_getinfo : C S Z).

(** The requests and contexts are the same. *)
Definition same_requests (s s' : S) : Prop :=
  heap http_request_t s' = heap http_request_t s ∧ heap request_context_t s' = heap request_context_t s.

(** Documented of [curl_slist_append]: NULL if anything went wrong, else the list
    with the string at its end. [answer] says for every call whether it succeeds,
    and what it leaves. *)
Context (answer : slist → list Z → S → bool * S).
Definition append_answers : Prop := ∀ l x t s,
  curl_slist_append l x t s = Ok (if (answer l x s).1 then Some (default [] l ++ [x]) else None) (answer l x s).2 ∧
  same_requests s (answer l x s).2.

(** Strings that are appended one after the other: the list, where NULL is the
    empty one again, and the state *)
Fixpoint appended (l : slist) (xs : list (list Z)) (s : S) : slist * S :=
  match xs with
  | [] => (l, s)
  | x :: xs' =>
      appended (if (answer l x s).1 then Some (default [] l ++ [x]) else None) xs' (answer l x s).2
  end.
Fixpoint all_accepted (l : slist) (xs : list (list Z)) (s : S) : bool :=
  match xs with
  | [] => true
  | x :: xs' => (answer l x s).1 && all_accepted (Some (default [] l ++ [x])) xs' (answer l x s).2
  end.

Lemma appended_app l xs ys s : appended l (xs ++ ys) s = appended (appended l xs s).1 ys (appended l xs s).2.
Proof. revert l s. induction xs as [|x xs IH]; intros l s; simpl; [done|]. apply IH. Qed.
Lemma appended_accepted l xs s : all_accepted l xs s = true →
  (appended l xs s).1 = match l, xs with None, [] => None | _, _ => Some (default [] l ++ xs) end.
Proof.
  revert l s. induction xs as [|x xs IH]; intros l s Hall; simpl in *.
  { destruct l as [l|]; simpl; [by rewrite app_nil_r|done]. }
  apply andb_true_iff in Hall as [-> Hall]. rewrite IH by done. simpl. rewrite <-app_assoc. by destruct l.
Qed.

(** The request [r] of the context [c] at [ctx]; its headers are [hs]. *)
Record request_at (ctx : positive) (c : request_context_t) (r : http_request_t) (hs : list (list Z)) (s : S) : Prop := {
  ra_context : cells (heap request_context_t s) !! ctx = Some c;
  ra_request : ∃ l, request c = Some l ∧ cells (heap http_request_t s) !! l = Some r;
  ra_count : header_count r = length hs;
  ra_headers : ∀ i h, hs !! i = Some h → headers r !! i = Some (Some h);
}.

Lemma request_at_same ctx c r hs s s' : same_requests s s' → request_at ctx c r hs s → request_at ctx c r hs s'.
Proof. intros [H1 H2] []. split; rewrite ?H1, ?H2; done. Qed.
Lemma same_requests_trans s1 s2 s3 : same_requests s1 s2 → same_requests s2 s3 → same_requests s1 s3.
Proof. intros [? ?] [? ?]. split; congruence. Qed.

Lemma run_load_context t ctx c r hs s : request_at ctx c r hs s → load request_context_t (Some ctx) t s = Ok c s.
Proof. intros []. by apply load_ok. Qed.
Lemma run_load_http t ctx c r hs s : request_at ctx c r hs s → load http_request_t (request c) t s = Ok r s.
Proof. intros [_ (l & -> & Hl) _ _]. by apply load_ok. Qed.

Context (append_spec : append_answers).

Lemma appended_same l xs s : same_requests s (appended l xs s).2.
Proof.
  revert l s. induction xs as [|x xs IH]; intros l s; simpl; [done|].
  eapply same_requests_trans; [|apply IH]. apply (append_spec l x 0%nat s).
Qed.

Lemma append_headers_run t ctx c r hs before todo headers s : request_at ctx c r hs s → hs = before ++ todo →
  HttpSend.append_headers curl_slist_append (length todo) (Some ctx) headers (length before) t s =
    Ok (appended headers todo s).1 (appended headers todo s).2.
Proof.
  revert before headers s. induction todo as [|h todo IH]; [done|]. intros before headers s Hra Hhs.
  cbn [length HttpSend.append_headers appended].
  rewrite (bind_ok _ _ _ _ _ _ (run_load_context _ _ _ _ _ _ Hra)).
  assert (HttpSend.get_header (request c) (length before) t s = Ok h s) as Hget.
  { unfold HttpSend.get_header. rewrite (bind_ok _ _ _ _ _ _ (run_load_http _ _ _ _ _ _ Hra)).
    unfold array_get. rewrite (ra_headers _ _ _ _ _ Hra (length before) h); [done|].
    rewrite Hhs. by rewrite list_lookup_middle. }
  rewrite (bind_ok _ _ _ _ _ _ Hget). destruct (append_spec headers h t s) as [Hr Hsame].
  rewrite (bind_ok _ _ _ _ _ _ Hr). rewrite <-(IH (before ++ [h])).
  - by rewrite length_app.
  - by eapply request_at_same.
  - by rewrite <-app_assoc.
Qed.

(** The first header of every request; without it libcurl would send its own. *)
Definition no_encoding : list Z := lit "Accept-Encoding:".

Lemma prepare_headers_run (t : tid) (ctx : positive) (c : request_context_t) (r : http_request_t)
    (hs : list (list Z)) (s : S) (Hra : request_at ctx c r hs s) :
  HttpSend.__prepare_headers curl_slist_append None (Some ctx) t s =
    let s1 := (answer None no_encoding s).2 in
    if (answer None no_encoding s).1 then
      Ok (0, (appended (Some [no_encoding]) hs s1).1) (appended (Some [no_encoding]) hs s1).2
    else Ok (-1, None) s1.
Proof.
  unfold HttpSend.__prepare_headers. destruct (append_spec None no_encoding t s) as [Hr Hsame].
  unfold no_encoding in Hr |- *. rewrite (bind_ok _ _ _ _ _ _ Hr). destruct (answer _ _ s) as [[|] s1]; [|done].
  cbn [fst snd] in *. pose proof (request_at_same _ _ _ _ _ _ Hsame Hra) as Hra1.
  rewrite (bind_ok _ _ _ _ _ _ (run_load_context _ _ _ _ _ _ Hra1)).
  rewrite (bind_ok _ _ _ _ _ _ (run_load_http _ _ _ _ _ _ Hra1)), (ra_count _ _ _ _ _ Hra).
  by rewrite (bind_ok _ _ _ _ _ _ (append_headers_run t ctx c r hs [] hs _ s1 Hra1 eq_refl)).
Qed.

(** C25: [__prepare_headers], whichever calls of [curl_slist_append] fail. If the
    first one fails, it returns -1 with no list and makes no other call. Otherwise
    it returns 0, after one call for each header of the request, in order: the
    list is [Accept-Encoding:] and all of them if every call succeeds; a failure
    there is not noticed, and the list then has exactly the headers after the last
    one that failed, and is NULL if that was the last header. *)
Theorem prepare_headers_spec (t : tid) (ctx : positive) (c : request_context_t) (r : http_request_t)
    (hs : list (list Z)) (s : S) (Hra : request_at ctx c r hs s) (s1 := (answer None no_encoding s).2) :
  if (answer None no_encoding s).1 then
    ∃ headers s', HttpSend.__prepare_headers curl_slist_append None (Some ctx) t s = Ok (0, headers) s' ∧
      (headers, s') = appended (Some [no_encoding]) hs s1 ∧ same_requests s s' ∧
      (all_accepted (Some [no_encoding]) hs s1 = true → headers = Some (no_encoding :: hs)) ∧
      (∀ before h after l s2, hs = before ++ h :: after → appended (Some [no_encoding]) before s1 = (l, s2) →
        (answer l h s2).1 = false → all_accepted None after (answer l h s2).2 = true →
        headers = match after with [] => None | _ => Some after end)
  else HttpSend.__prepare_headers curl_slist_append None (Some ctx) t s = Ok (-1, None) s1.
Proof.
  pose proof (prepare_headers_run t ctx c r hs s Hra) as Hr. cbv zeta in Hr. fold s1 in Hr.
  destruct (answer None no_encoding s).1; [|exact Hr].
  destruct (appended (Some [no_encoding]) hs s1) as [headers s'] eqn:Happ. exists headers, s'.
  split; [exact Hr|]. split; [done|]. split.
  { eapply same_requests_trans; [apply (append_spec None no_encoding t s)|].
    pose proof (appended_same (Some [no_encoding]) hs s1) as Hs. by rewrite Happ in Hs. }
  split.
  - intros Hall%appended_accepted. by rewrite Happ in Hall.
  - intros before h after l s2 -> Hb Hno Hall%appended_accepted. rewrite appended_app, Hb in Happ. simpl in Happ.
    rewrite Hno in Happ. rewrite Happ in Hall. by destruct after.
Qed.

(** The options a request is to be sent with: its URL and the list of headers,
    the method and the body of a POST or PUT, the method of a DELETE, nothing for
    any other method (libcurl then sends GET), the timeout, and the callbacks with
    their data. *)
Definition expected_options (ctx : positive) (url m b : list Z) (headers : slist) : list curl_opt :=
  [CURLOPT_URL url; CURLOPT_HTTPHEADER headers] ++
  (if decide (m = lit "POST") then
     [CURLOPT_POST 1; CURLOPT_POSTFIELDS b; CURLOPT_POSTFIELDSIZE (Z.of_nat (length b))]
   else if decide (m = lit "PUT") then
     [CURLOPT_CUSTOMREQUEST (lit "PUT"); CURLOPT_POSTFIELDS b; CURLOPT_POSTFIELDSIZE (Z.of_nat (length b))]
   else if decide (m = lit "DELETE") then [CURLOPT_CUSTOMREQUEST (lit "DELETE")]
   else []) ++
  [CURLOPT_ACCEPTTIMEOUT_MS 5000;
   CURLOPT_HEADERFUNCTION_callback; CURLOPT_HEADERDATA (Some ctx);
   CURLOPT_WRITEFUNCTION_callback; CURLOPT_WRITEDATA (Some ctx);
   CURLOPT_XFERINFOFUNCTION_xferinfo_callback; CURLOPT_XFERINFODATA (Some ctx);
   CURLOPT_NOPROGRESS 0].

Lemma method_options_run t ctx c r hs s m b : request_at ctx c r hs s → method r = Some m → body r = Some b →
  no_nul m →
  HttpSend.method_options (Some ctx) t s = Ok
    (if decide (m = lit "POST") then
       [CURLOPT_POST 1; CURLOPT_POSTFIELDS b; CURLOPT_POSTFIELDSIZE (Z.of_nat (length b))]
     else if decide (m = lit "PUT") then
       [CURLOPT_CUSTOMREQUEST (lit "PUT"); CURLOPT_POSTFIELDS b; CURLOPT_POSTFIELDSIZE (Z.of_nat (length b))]
     else if decide (m = lit "DELETE") then [CURLOPT_CUSTOMREQUEST (lit "DELETE")]
     else []) s.
Proof.
  intros Hra Hm Hb Hn. unfold HttpSend.method_options.
  rewrite (bind_ok _ _ _ _ _ _ (run_load_context _ _ _ _ _ _ Hra)).
  rewrite (bind_ok _ _ _ _ _ _ (run_load_http _ _ _ _ _ _ Hra)), Hm, Hb.
  erewrite bind_ok by reflexivity. unfold __parse_method.
  assert (∀ name, no_nul name → (strcmp m name = 0 ↔ m = name)) as Hcmp by (intros name ?; by apply strcmp_eq).
  assert (∀ A (x y : A) name, no_nul name →
    (if decide (strcmp m name = 0) then x else y) = if decide (m = name) then x else y) as Hif.
  { intros A x y name Hname. specialize (Hcmp name Hname). by repeat case_decide; try tauto. }
  rewrite !Hif by (apply (bool_decide_unpack _); vm_compute; exact Logic.I).
  repeat case_decide; subst; done.
Qed.

Lemma prepare_transfer_run (t : tid) (ctx : positive) (c : request_context_t) (r : http_request_t)
    (hs : list (list Z)) (s s0 : S) (handle : bool) (url m b : list Z) :
  curl_easy_init t s = Ok handle s0 → same_requests s s0 → request_at ctx c r hs s →
  path r = Some url → method r = Some m → body r = Some b → no_nul m →
  HttpSend.prepare_transfer curl_easy_init curl_slist_append (Some ctx) t s =
    let s1 := (answer None no_encoding s0).2 in
    let p := appended (Some [no_encoding]) hs s1 in
    if handle then
      if (answer None no_encoding s0).1 then Ok (Some (expected_options ctx url m b p.1)) p.2 else Ok None s1
    else Ok None s0.
Proof.
  intros Hi Hsame0 Hra Hurl Hm Hb Hn. pose proof (request_at_same _ _ _ _ _ _ Hsame0 Hra) as Hra0.
  unfold HttpSend.prepare_transfer. rewrite (bind_ok _ _ _ _ _ _ Hi). destruct handle; [|done]. cbn [negb].
  rewrite (bind_ok _ _ _ _ _ _ (run_load_context _ _ _ _ _ _ Hra0)).
  rewrite (bind_ok _ _ _ _ _ _ (run_load_http _ _ _ _ _ _ Hra0)), Hurl.
  erewrite bind_ok by reflexivity. pose proof (prepare_headers_run t ctx c r hs s0 Hra0) as Hp. cbv zeta in Hp |- *.
  destruct (append_spec None no_encoding t s0) as [_ Hsame1].
  destruct (answer None no_encoding s0) as [[|] s1]; cbn [fst snd] in *; rewrite (bind_ok _ _ _ _ _ _ Hp); cbv beta iota.
  - rewrite decide_False by auto.
    assert (request_at ctx c r hs (appended (Some [no_encoding]) hs s1).2) as Hra2.
    { eapply request_at_same; [apply appended_same|]. by eapply request_at_same. }
    by rewrite (bind_ok _ _ _ _ _ _ (method_options_run _ _ _ _ _ _ _ _ Hra2 Hm Hb Hn)).
  - by rewrite decide_True.
Qed.

(** C24: a request whose fields are assigned. Without a handle, or if the first
    [curl_slist_append] fails, [send_http_request] returns -1 and there is no
    transfer. Otherwise libcurl is given its URL, the headers that were appended,
    the callbacks with the context, for POST and PUT the method and the body, for
    DELETE the method, and for every other method, HEAD and PATCH included,
    neither (a GET); the result is the response code of a completed transfer and
    -1 otherwise. *)
Theorem send_http_request_spec (n : nat) (t : tid) (ctx : positive) (c : request_context_t) (r : http_request_t)
    (hs : list (list Z)) (s s0 : S) (handle : bool) (url m b : list Z)
    (Hinit : curl_easy_init t s = Ok handle s0) (Hsame : same_requests s s0) (Hra : request_at ctx c r hs s)
    (Hurl : path r = Some url) (Hm : method r = Some m) (Hb : body r = Some b) (Hn : no_nul m)
    (s1 := (answer None no_encoding s0).2) (p := appended (Some [no_encoding]) hs s1) :
  run n (HttpSend.send_http_request curl_easy_init curl_slist_append curl_easy_perform curl_easy_getinfo (Some ctx)) t s =
    if handle then
      if (answer None no_encoding s0).1 then
        (res ← run n (curl_easy_perform (expected_options ctx url m b p.1));
         if decide (res ≠ 0) then mret (-1) else curl_easy_getinfo) t p.2
      else Ok (-1) s1
    else Ok (-1) s0.
Proof.
  pose proof (prepare_transfer_run t ctx c r hs s s0 handle url m b Hinit Hsame Hra Hurl Hm Hb Hn) as Hp.
  cbv zeta in Hp. fold s1 in Hp. fold p in Hp. unfold HttpSend.send_http_request.
  destruct handle; [destruct (answer None no_encoding s0).1|]; erewrite run_bind_ok by (rewrite run_atomic; exact Hp); [|done..].
  etransitivity; [apply (run_bind n (curl_easy_perform _) _ t p.2)|].
  apply C_bind_proper; [|done]. intros res t1 s2. case_decide; [done|]. by rewrite run_atomic.
Qed.
End send.

(** * A store, and the properties there *)

Record send_store := SendStore { ss_requests : mem http_request_t; ss_contexts : mem request_context_t }.
#[export] Instance ss_requests_heap : Heap send_store http_request_t.
Proof.
  refine {| heap := ss_requests; set_heap m s := SendStore m (ss_contexts s) |};
    by intros; repeat match goal with s : send_store |- _ => destruct s end.
Defined.
#[export] Instance ss_contexts_heap : Heap send_store request_context_t.
Proof.
  refine {| heap := ss_contexts; set_heap m s := SendStore (ss_requests s) m |};
    by intros; repeat match goal with s : send_store |- _ => destruct s end.
Defined.

(** A libcurl that refuses the strings [bad] *)
Definition append_but (bad : list Z → bool) (l : slist) (x : list Z) : C send_store slist :=
  mret (if negb (bad x) then Some (default [] l ++ [x]) else None).
Definition answer_but (bad : list Z → bool) (l : slist) (x : list Z) (s : send_store) : bool * send_store := (negb (bad x), s).
Lemma append_but_answers bad : append_answers (append_but bad) (answer_but bad).
Proof. by intros l x t s. Qed.

Definition some_request : http_request_t :=
  HttpRequest 2 (Some (lit "POST")) (Some (lit "HTTP/1.1")) (Some (lit "http://a.b/c")) (Some (lit "x=1"))
    ([Some (lit "Host: a.b"); Some []] ++ replicate 14 None).
Definition some_context : request_context_t := RequestContext 0 (Some 1%positive) NULL NULL.
Definition sending : send_store := SendStore (mem_alloc some_request mem_empty) (mem_alloc some_context mem_empty).
Lemma sending_request : request_at 1 some_context some_request [lit "Host: a.b"; []] sending.
Proof.
  split; [done|by exists 1%positive|done|]. intros [|[|i]] h Hi; simpl in *; [by simplify_eq..|done].
Qed.

Example progress_reports_witness :
  ∃ logged s', xferinfo_calls (Some 1%positive) [(0, 0); (100, 10); (100, 40); (100, 70); (100, 100)] 0%nat sending = Ok logged s' ∧
    logged `sublist_of` drop (Z.to_nat (downloaded_quarter some_context)) [0; 33; 66; 100].
Proof. apply (progress_reports sending 0%nat 1 some_context); [reflexivity|simpl; lia]. Defined.

(** The last header is refused, and the one before it is lost, too. *)
Example prepare_headers_spec_witness :
  ∃ headers s', HttpSend.__prepare_headers (append_but (λ x, bool_decide (x = []))) None (Some 1%positive) 0%nat sending =
      Ok (0, headers) s' ∧ same_requests sending s' ∧ headers = None.
Proof.
  destruct (prepare_headers_spec _ _ (append_but_answers (λ x, bool_decide (x = []))) 0%nat 1 some_context some_request _
    sending sending_request) as (headers & s' & Hr & _ & Hsame & _ & Hlast).
  exists headers, s'. split; [exact Hr|]. split; [exact Hsame|].
  exact (Hlast [lit "Host: a.b"] [] [] _ _ eq_refl eq_refl eq_refl eq_refl).
Defined.

Example send_http_request_spec_witness :
  run 1 (HttpSend.send_http_request (mret true) (append_but (λ _, false)) (λ _, Ret 0) (mret 200) (Some 1%positive)) 0%nat sending =
    Ok 200 sending.
Proof.
  exact (send_http_request_spec (mret true) _ (λ _, Ret 0) (mret 200) _ (append_but_answers _) 1 0%nat 1 some_context some_request
    _ sending sending true (lit "http://a.b/c") (lit "POST") (lit "x=1") eq_refl (conj eq_refl eq_refl) sending_request eq_refl eq_refl eq_refl
    ltac:(apply (bool_decide_unpack _); vm_compute; exact Logic.I)).
Defined.
