(* ===== verification/SwapList.v ===== *)
(** SwapList: the list of lab2/src/3, locked hand over hand while threads compare
    and swap its nodes, with the three kinds of locks it is built with. *)
From S2P Require Import Prelude Links CString Threads Pthread.

(** * Data *)

Definition MAX_STRING_LENGTH : nat := 100.
Definition STORAGE_SIZE : nat := 1000.

(** The macro the program is compiled with, of lock.h. A spinlock and a mutex are
    a [rwlock] that is only ever locked for writing. *)
Inductive lock_kind := USE_SPINLOCK | USE_MUTEX | USE_RWLOCK.

(** [after] is auxiliary: the node that comes next once the swap under way is
    done. The program never reads it. *)
Record node_t := Node { next : ptr; lock : rwlock; val : list Z; after : ptr }.
Record linked_list_t := LinkedList { first : ptr; stop : bool }.

Definition set_next p n := Node p (lock n) (val n) (after n).
Definition set_lock k n := Node (next n) k (val n) (after n).
Definition set_after p n := Node (next n) (lock n) (val n) p.
Definition set_stop b l := LinkedList (first l) b.

(** The counters of routine.c *)
Inductive counter :=
  | asc_count | asc_iter | desc_count | desc_iter | eq_count | eq_iter | swap_count | swap_iter.
#[export] Instance counter_eq_dec : EqDecision counter.
Proof. solve_decision. Defined.

(** The process; the answers of [malloc] and the numbers [rand] gives *)
Record lstate := LState {
  lists : mem linked_list_t;
  lnodes : mem node_t;
  counters : counter → Z;
  lanswers : list bool;
  rands : list Z;
}.

Ltac lstate_instance := intros; repeat match goal with s : lstate |- _ => destruct s end; reflexivity.
#[export] Instance lists_heap : Heap lstate linked_list_t.
Proof.
  refine {| heap := lists; set_heap m s := LState m (lnodes s) (counters s) (lanswers s) (rands s) |}; lstate_instance.
Defined.
#[export] Instance lnodes_heap : Heap lstate node_t.
Proof.
  refine {| heap := lnodes; set_heap m s := LState (lists s) m (counters s) (lanswers s) (rands s) |}; lstate_instance.
Defined.
#[export] Instance lstate_oom : Oom lstate.
Proof.
  refine {| oom := lanswers; set_oom o s := LState (lists s) (lnodes s) (counters s) o (rands s) |}; lstate_instance.
Defined.

(** * Locks *)

Section locks.
Context (kind : lock_kind).

(** The lock of the node at [p] *)
Definition on_node_lock (p : ptr) (m : C rwlock unit) : C lstate unit := λ t s,
  match p with
  | Some l =>
      match cells (lnodes s) !! l with
      | Some n =>
          match m t (lock n) with
          | Ok _ k => Ok tt (set_heap node_t (mem_set l (set_lock k n) (lnodes s)) s)
          | Blocked => Blocked
          | Fault e => Fault e
          end
      | None => Fault Segv
      end
  | None => Fault Segv
  end.

Definition read_lock (p : ptr) : prog lstate unit :=
  atomic (on_node_lock p (match kind with USE_RWLOCK => rwlock_rdlock | _ => rwlock_wrlock end)).
Definition write_lock (p : ptr) : prog lstate unit := atomic (on_node_lock p rwlock_wrlock).
Definition unlock (p : ptr) : prog lstate unit := atomic (on_node_lock p rwlock_unlock).
Definition lock_init : C rwlock unit := λ _ _, Ok tt (RWLock None []).

(** * The list *)

(** [malloc] without a test for NULL; what is in the new node is overwritten. *)
Definition create_node (s : list Z) : C lstate ptr :=
  node ← malloc node_t (Node NULL (RWLock None []) [] NULL);
  update node_t node (λ n, Node (next n) (lock n) (strncpy MAX_STRING_LENGTH s) (after n));;
  update node_t node (λ n, set_after NULL (set_next NULL n));;
  on_node_lock node lock_init;;
  mret node.

(** [cur] and what comes after it *)
Fixpoint destroy_from (fuel : nat) (cur : ptr) : C lstate unit :=
  match fuel with
  | O => fail OutOfFuel
  | Datatypes.S fuel' =>
      n ← load node_t cur;
      match next n with
      | None => free node_t cur
      | Some _ =>
          free node_t cur;;
          destroy_from fuel' (next n)
      end
  end.
Definition linked_list_destroy (ll : ptr) : C lstate unit :=
  l ← load linked_list_t ll;
  fuel ← gets (λ s, size (cells (lnodes s)));
  destroy_from fuel (first l).

(** * The threads *)

(** [p->field] *)
Definition node_get {A} (p : ptr) (field : node_t → A) : prog lstate A :=
  Act (load node_t p) (λ n, Ret (field n)).
Definition list_get {A} (p : ptr) (field : linked_list_t → A) : prog lstate A :=
  Act (load linked_list_t p) (λ n, Ret (field n)).

(** [c++]: a load and a store *)
Definition get_counter (c : counter) : C lstate Z := gets (λ s, counters s c).
Definition set_counter (c : counter) (x : Z) : C lstate unit :=
  modify (λ s, LState (lists s) (lnodes s) (λ k, if decide (k = c) then x else counters s k) (lanswers s) (rands s)).
Definition increment (c : counter) : prog lstate unit :=
  x ← atomic (get_counter c);
  y ← atomic (signed_add INT_MAX x 1);
  atomic (set_counter c y).

(** [strlen] of the node's array *)
Definition strlen_val (p : ptr) : prog lstate Z :=
  Act (n ← load node_t p;
       match str_at (val n) 0 with Some s => mret (Z.of_nat (length s)) | None => fail OutOfBounds end) Ret.
Definition strnlen_val (p : ptr) : prog lstate Z :=
  node_get p (λ n, Z.of_nat (length (cstr (take MAX_STRING_LENGTH (val n))))).

Inductive compare_type := ASC | DESC | EQ.

(** A pass over the list, from its first node locked *)
Definition compare_pass (compare : compare_type) (count : counter) (start : ptr) : prog lstate ptr :=
  Loop (λ prev : ptr,
    nx ← node_get prev next;
    match nx with
    | None => mret (inr prev)
    | Some _ =>
        cur ← node_get prev next;
        size ← strnlen_val prev;
        read_lock cur;;
        unlock prev;;
        len ← strlen_val cur;
        (if match compare with ASC => bool_decide (size < len)%Z | DESC => bool_decide (size > len)%Z
            | EQ => bool_decide (size = len) end
         then increment count else mret tt);;
        mret (inl cur)
    end) start Ret.

(** [while (!ll->stop) body] *)
Definition until_stopped (ll : ptr) (body : prog lstate unit) : prog lstate unit :=
  Loop (λ _ : unit,
    b ← list_get ll stop;
    if (b : bool) then mret (inr tt) else body;; mret (inl tt)) tt Ret.

Definition __compare_routine (ll : ptr) (compare : compare_type) (iter count : counter) : prog lstate unit :=
  until_stopped ll (
    f ← list_get ll first;
    read_lock f;;
    start ← list_get ll first;
    prev ← compare_pass compare count start;
    unlock prev;;
    increment iter).

Definition asc_routine (ll : ptr) := __compare_routine ll ASC asc_iter asc_count.
Definition desc_routine (ll : ptr) := __compare_routine ll DESC desc_iter desc_count.
Definition eq_routine (ll : ptr) := __compare_routine ll EQ eq_iter eq_count.

(** [rand () % 100 == 0] *)
Definition __needs_swap : prog lstate bool :=
  atomic (λ _ s,
    let '(x, r) := match rands s with [] => (1%Z, []) | x :: r => (x, r) end in
    Ok (bool_decide (x `rem` 100 = 0)%Z) (LState (lists s) (lnodes s) (counters s) (lanswers s) r)).

(** [prev->next = nx]; from here on the auxiliary order has [nx] before [cur]. *)
Definition relink (prev cur nx : ptr) : C lstate unit :=
  n ← load node_t nx;
  update node_t prev (λ p, set_after nx (set_next nx p));;
  update node_t nx (set_after cur);;
  update node_t cur (set_after (after n)).

(** From the lock of the third node on, with two of them locked *)
Definition exchange (prev cur nx : ptr) : prog lstate unit :=
  write_lock nx;;
  atomic (relink prev cur nx);;
  unlock prev;;
  rest ← node_get nx next;
  atomic (update node_t cur (set_next rest));;
  unlock cur;;
  atomic (update node_t nx (set_next cur));;
  increment swap_count.

Definition swap_pass (start : ptr) : prog lstate ptr :=
  Loop (λ prev : ptr,
    more ← node_get prev next;
    match more with
    | None => mret (inr prev)
    | Some _ =>
        swap ← __needs_swap;
        if negb swap then
          cur ← node_get prev next;
          write_lock cur;;
          unlock prev;;
          mret (inl cur)
        else
          cur ← node_get prev next;
          write_lock cur;;
          nx ← node_get cur next;
          match nx with
          | None => unlock cur;; mret (inr prev)
          | Some _ =>
              exchange prev cur nx;;
              mret (inl nx)
          end
    end) start Ret.

Definition swap_routine (ll : ptr) : prog lstate unit :=
  until_stopped ll (
    f ← list_get ll first;
    write_lock f;;
    start ← list_get ll first;
    prev ← swap_pass start;
    unlock prev;;
    increment swap_iter).

(** The numbers printed, once a second *)
Definition print_routine (ll : ptr) : prog lstate unit :=
  until_stopped ll (
    foldr (λ c p, _ ← atomic (get_counter c); p) (mret tt)
      [asc_count; asc_iter; desc_count; desc_iter; eq_count; eq_iter; swap_count; swap_iter]).

(** [main] after its [sleep] *)
Definition main_stop (ll : ptr) : prog lstate unit := atomic (update linked_list_t ll (set_stop true)).

(** The threads of [main], and main itself *)
Definition threads (ll : ptr) : list (prog lstate unit) :=
  [asc_routine ll; desc_routine ll; eq_routine ll; print_routine ll;
   swap_routine ll; swap_routine ll; swap_routine ll; main_stop ll].
End locks.

(** [main] up to the threads: [n] nodes, each with the next of the values *)
Fixpoint append_nodes (last : ptr) (vals : list (list Z)) : C lstate unit :=
  match vals with
  | [] => mret tt
  | v :: vals' =>
      newNode ← create_node v;
      update node_t last (λ n, set_after newNode (set_next newNode n));;
      append_nodes newNode vals'
  end.
(** [ll] itself is not tested for NULL. *)
Definition build_list (v : list Z) (vals : list (list Z)) : C lstate ptr :=
  ll ← malloc linked_list_t (LinkedList NULL false);
  update linked_list_t ll (set_stop false);;
  node ← create_node v;
  update linked_list_t ll (λ l, LinkedList node (stop l));;
  append_nodes node vals;;
  mret ll.

(** * Invariant, rely and guarantee *)

Lemma chain_succ {N} (nx : N → ptr) (h : gmap positive N) p ls i l n :
  chain nx h p ls NULL → ls !! i = Some l → h !! l = Some n → nx n = ls !! (i + 1).
Proof.
  revert p i. induction ls as [|k ls IH]; intros p i Hch Hi Hn; [done|].
  destruct Hch as [-> (n' & Hn' & Hch)]. destruct i as [|i]; simpl in *.
  - simplify_eq. pose proof (chain_head _ _ _ _ Hch) as ->. by destruct ls.
  - by eapply IH.
Qed.

Lemma bool_decide_inj P Q `{Decision P, Decision Q} : bool_decide P = bool_decide Q → P ↔ Q.
Proof. intros Hb. by rewrite <-(bool_decide_eq_true P), Hb, bool_decide_eq_true. Qed.

Section invariant.
Context (kind : lock_kind) (ll f : positive) (ls0 : list positive) (vals : positive → option (list Z)) (N : nat).
Context (vals_end : ∀ l v, vals l = Some v → NUL ∈ v).
Implicit Types (s : lstate) (n : nat).

Definition node_at s (l : positive) : option node_t := cells (lnodes s) !! l.

(** Thread [i] holds the lock [k], in either way. *)
Definition holds (i : tid) (k : rwlock) : Prop := rw_writer k = Some i ∨ i ∈ rw_readers k.
#[local] Instance holds_dec i k : Decision (holds i k).
Proof. unfold holds. apply _. Defined.
Definition holder (i : tid) (l : positive) s : Prop := ∃ nd, node_at s l = Some nd ∧ holds i (lock nd).

Record lock_ok (k : rwlock) : Prop := {
  k_once : NoDup (rw_readers k);
  k_exclusive : rw_writer k ≠ None → rw_readers k = [];
  k_threads : ∀ i, holds i k → i < N;
}.

(** The nodes in the order of [after] *)
Definition order s (ls : list positive) : Prop := chain after (cells (lnodes s)) (Some f) ls NULL.
Definition before s (l c : positive) : Prop :=
  ∀ ls, order s ls → ∃ i j, ls !! i = Some l ∧ ls !! j = Some c ∧ i < j.

(** The order is always a permutation of the nodes at the start, and that of
    [next] wherever no writer is. *)
Record inv s : Prop := {
  i_list : ∃ b, cells (lists s) !! ll = Some (LinkedList (Some f) b);
  i_order : ∃ ls, order s ls ∧ ls ≡ₚ ls0;
  i_nodes : dom (cells (lnodes s)) = list_to_set ls0;
  i_locks : ∀ l nd, node_at s l = Some nd → lock_ok (lock nd);
  i_next : ∀ l nd, node_at s l = Some nd → rw_writer (lock nd) = None → next nd = after nd;
  i_vals : ∀ l, val <$> node_at s l = vals l;
}.

(** What thread [i] sees of a node: whether it holds its lock, and if so the
    links. *)
Definition view (i : tid) (nd : node_t) : bool * bool * option (ptr * ptr) :=
  (bool_decide (rw_writer (lock nd) = Some i), bool_decide (i ∈ rw_readers (lock nd)),
   if decide (holds i (lock nd)) then Some (next nd, after nd) else None).
Definition rely (i : tid) s s' : Prop := ∀ l, view i <$> node_at s l = view i <$> node_at s' l.

(** A thread waits for a node behind all those it holds, held by another. *)
Definition waits (i : tid) s : Prop :=
  ∃ c j, j ≠ i ∧ holder j c s ∧ ∀ l, holder i l s → before s l c.

#[export] Instance list_rg : RG lstate.
Proof.
  refine {| I := inv; R := rely; okf e := e = Overflow; wt := waits; fin i s := ∀ l, ¬ holder i l s |}.
  - done.
  - intros i s1 s2 s3 H1 H2 l. by rewrite H1, H2.
Defined.

Lemma view_holds i nd nd' : view i nd = view i nd' → holds i (lock nd) ↔ holds i (lock nd').
Proof.
  unfold view, holds. intros [= H1 H2 _]. apply bool_decide_inj in H1, H2. tauto.
Qed.
Lemma view_links i nd nd' : view i nd = view i nd' → holds i (lock nd) → next nd' = next nd ∧ after nd' = after nd.
Proof.
  intros Hv Hh. pose proof (proj1 (view_holds _ _ _ Hv) Hh). unfold view in Hv. injection Hv as _ _ Hv.
  rewrite !decide_True in Hv by done. by simplify_eq.
Qed.

(** ** What a thread knows *)

(** The nodes thread [i] holds, for writing if [w], with their links *)
Record knows (w : bool) (i : tid) (M : gmap positive (ptr * ptr)) s : Prop := {
  kn_held : ∀ l p q, M !! l = Some (p, q) → ∃ nd, node_at s l = Some nd ∧ holds i (lock nd) ∧
    (w = true → rw_writer (lock nd) = Some i) ∧ next nd = p ∧ after nd = q;
  kn_only : ∀ l, holder i l s → is_Some (M !! l);
}.

Lemma knows_rely w i M s s' : knows w i M s → rely i s s' → knows w i M s'.
Proof.
  intros [Hh Ho] HR. split.
  - intros l p q Hl. destruct (Hh l p q Hl) as (nd & Hnd & Hhold & Hw & <- & <-).
    specialize (HR l). rewrite Hnd in HR. destruct (node_at s' l) as [nd'|]; [|done].
    apply (inj Some) in HR. exists nd'. split; [done|]. split; [by apply (view_holds i nd nd')|].
    split; [|by apply view_links with i].
    intros Hwt. specialize (Hw Hwt). injection HR as Hb _ _. apply bool_decide_inj in Hb. by apply Hb.
  - intros l (nd' & Hnd' & Hhold). apply Ho. specialize (HR l). rewrite Hnd' in HR.
    destruct (node_at s l) as [nd|] eqn:Hnd; [|done]. apply (inj Some) in HR.
    exists nd. split; [done|]. by apply (view_holds i nd nd').
Qed.

(** The nodes a thread knows are before those their links lead to. *)
Definition leads (M : gmap positive (ptr * ptr)) (l c : positive) : Prop := ∃ p, M !! l = Some (p, Some c).

Lemma order_NoDup s ls : order s ls → NoDup ls.
Proof. apply chain_NoDup. Qed.
Lemma order_mem s ls l : inv s → order s ls → l ∈ ls ↔ is_Some (node_at s l).
Proof.
  intros HI Ho. destruct (i_order _ HI) as (ls' & Ho' & Hp). rewrite (chain_det _ _ _ _ _ Ho Ho').
  unfold node_at. rewrite <-elem_of_dom, (i_nodes _ HI), elem_of_list_to_set. by rewrite Hp.
Qed.
Lemma order_succ s ls i l nd : order s ls → ls !! i = Some l → node_at s l = Some nd → after nd = ls !! (i + 1).
Proof. apply chain_succ. Qed.

Lemma before_irrefl s l : inv s → ¬ before s l l.
Proof.
  intros HI Hb. destruct (i_order _ HI) as (ls & Ho & _). destruct (Hb ls Ho) as (i & j & Hi & Hj & Hlt).
  pose proof (NoDup_lookup _ _ _ _ (order_NoDup _ _ Ho) Hi Hj). lia.
Qed.
Lemma leads_before w i M s l c : inv s → knows w i M s → tc (leads M) l c → before s l c.
Proof.
  intros HI HM Htc ls Ho. induction Htc as [l c [p Hp]|l e c [p Hp] _ IH].
  - destruct (kn_held _ _ _ _ HM l _ _ Hp) as (nd & Hnd & _ & _ & _ & Ha).
    assert (l ∈ ls) as [j Hj]%list_elem_of_lookup by (apply (order_mem s); [done..|by eexists]).
    exists j, (j + 1). split; [done|]. split; [|lia]. by rewrite <-(order_succ _ _ _ _ _ Ho Hj Hnd).
  - destruct (kn_held _ _ _ _ HM l _ _ Hp) as (nd & Hnd & _ & _ & _ & Ha).
    assert (l ∈ ls) as [j Hj]%list_elem_of_lookup by (apply (order_mem s); [done..|by eexists]).
    destruct IH as (a & b & Ha1 & Hb & Hlt). exists j, b. split; [done|]. split; [done|].
    pose proof (order_succ _ _ _ _ _ Ho Hj Hnd) as Hn. rewrite Ha in Hn.
    pose proof (NoDup_lookup _ _ _ _ (order_NoDup _ _ Ho) Ha1 (eq_sym Hn)). lia.
Qed.
Lemma leads_node w i M s l c : inv s → knows w i M s → leads M l c → is_Some (node_at s c).
Proof.
  intros HI HM Hl. destruct (i_order _ HI) as (ls & Ho & _).
  destruct (leads_before _ _ _ _ _ _ HI HM (tc_once _ _ _ Hl) ls Ho) as (a & b & _ & Hb & _).
  apply (order_mem s ls); [done..|]. by apply list_elem_of_lookup_2 in Hb.
Qed.

(** ** Steps *)

Definition put_node (l : positive) (nd : node_t) s : lstate := set_heap node_t (mem_set l nd (lnodes s)) s.

Lemma node_at_put l nd s k : node_at (put_node l nd s) k = if decide (k = l) then Some nd else node_at s k.
Proof.
  unfold node_at, put_node. simpl. case_decide as Hk; [subst; apply lookup_insert_eq|by rewrite lookup_insert_ne].
Qed.
Lemma order_put l nd nd' s ls : node_at s l = Some nd → after nd' = after nd → order s ls → order (put_node l nd' s) ls.
Proof. intros Hl Ha. unfold order, put_node. simpl. by apply chain_insert_same with nd. Qed.

(** A node that changes but for its place in the order *)
Lemma inv_put l nd nd' s : inv s → node_at s l = Some nd → after nd' = after nd → val nd' = val nd →
  lock_ok (lock nd') → (rw_writer (lock nd') = None → next nd' = after nd') → inv (put_node l nd' s).
Proof.
  intros HI Hl Ha Hv Hk Hn. split.
  - apply (i_list _ HI).
  - destruct (i_order _ HI) as (ls & Ho & Hp). exists ls. split; [|done]. by eapply order_put.
  - unfold put_node. simpl. rewrite dom_insert_L, (i_nodes _ HI).
    assert (l ∈ (list_to_set ls0 : gset positive)); [|set_solver].
    rewrite <-(i_nodes _ HI). apply elem_of_dom. by eexists.
  - intros k x. rewrite node_at_put. case_decide; [by intros [= <-]|]. apply (i_locks _ HI).
  - intros k x. rewrite node_at_put. case_decide; [by intros [= <-]|]. apply (i_next _ HI).
  - intros k. rewrite node_at_put. case_decide as Hkl; [|apply (i_vals _ HI)].
    subst. rewrite <-(i_vals _ HI), Hl. simpl. by f_equal.
Qed.
Lemma guarantee_put i l nd nd' s : node_at s l = Some nd → (∀ j, j ≠ i → view j nd' = view j nd) →
  G i s (put_node l nd' s).
Proof.
  intros Hl Hv j Hj k. rewrite node_at_put. case_decide as Hk; [|done]. subst. rewrite Hl. simpl.
  by rewrite Hv.
Qed.
Lemma view_locked j nd nd' : holds j (lock nd) ↔ holds j (lock nd') → rw_writer (lock nd) = Some j ↔ rw_writer (lock nd') = Some j →
  j ∈ rw_readers (lock nd) ↔ j ∈ rw_readers (lock nd') → next nd' = next nd → after nd' = after nd → view j nd' = view j nd.
Proof.
  intros Hh Hw Hr Hn Ha. unfold view. rewrite Hn, Ha.
  rewrite (bool_decide_ext _ _ Hw), (bool_decide_ext _ _ Hr). by rewrite (decide_ext _ _ _ _ Hh).
Qed.
(** A node another holds for writing looks the same. *)
Lemma view_not_held i j nd nd' : lock_ok (lock nd) → rw_writer (lock nd) = Some i → lock nd' = lock nd → j ≠ i →
  view j nd' = view j nd.
Proof.
  intros Hk Hw Hl Hj. assert (¬ holds j (lock nd)) as Hh.
  { intros [?|Hr]; [congruence|]. rewrite (k_exclusive _ Hk) in Hr by congruence. set_solver. }
  unfold view. rewrite Hl, !decide_False by done. done.
Qed.

(** What a lock operation on [k] by [i] leaves of it to the others *)
Definition same_others (i : tid) (k k' : rwlock) : Prop := ∀ j, j ≠ i →
  (rw_writer k = Some j ↔ rw_writer k' = Some j) ∧ (j ∈ rw_readers k ↔ j ∈ rw_readers k').

Lemma lock_cases (w : bool) op i k : i < N → lock_ok k → ¬ holds i k →
  op = rwlock_wrlock ∨ op = rwlock_rdlock ∧ w = false →
  match op i k with
  | Ok _ k' => rw_writer k = None ∧ lock_ok k' ∧ holds i k' ∧ (w = true → rw_writer k' = Some i) ∧ same_others i k k'
  | Blocked => ∃ j, j ≠ i ∧ holds j k
  | Fault _ => False
  end.
Proof.
  intros Hi [Hnd Hex Hth] Hno [->|[-> ->]].
  - unfold rwlock_wrlock. destruct (rw_writer k) as [j|] eqn:Hw.
    { exists j. split; [|by left]. intros ->. apply Hno. by left. }
    destruct (rw_readers k) as [|j r] eqn:Hr.
    + split; [done|]. split.
      { split; [constructor|done|]. intros j [[= ->]|Hj]; [done|]. set_solver. }
      split; [by left|]. split; [done|]. intros j Hj. rewrite Hw, Hr. simpl. split; [|done].
      split; [done|]. intros [= ->]. done.
    + exists j. split; [|right; rewrite Hr; set_solver]. intros ->. apply Hno. right. rewrite Hr. set_solver.
  - unfold rwlock_rdlock. destruct (rw_writer k) as [j|] eqn:Hw.
    { exists j. split; [|by left]. intros ->. apply Hno. by left. }
    assert (i ∉ rw_readers k) as Hni by (intros ?; apply Hno; by right).
    split; [done|]. split.
    { split; simpl; [by constructor|done|]. intros j [?|Hj]; [done|].
      apply elem_of_cons in Hj as [->|Hj]; [done|]. apply Hth. by right. }
    split; [right; simpl; set_solver|]. split; [done|]. intros j Hj. simpl. rewrite Hw. split; [done|]. set_solver.
Qed.

Lemma remove_reader_some i r : i ∈ r → ∃ r', remove_reader i r = Some r' ∧ r ≡ₚ i :: r'.
Proof.
  induction r as [|j r IH]; [set_solver|]. intros Hi. simpl. case_decide as Hj; [subst; by exists r|].
  destruct IH as (r' & -> & Hp); [set_solver|]. exists (j :: r'). split; [done|]. rewrite Hp. apply Permutation_swap.
Qed.
Lemma unlock_cases i k : lock_ok k → holds i k →
  ∃ k', rwlock_unlock i k = Ok tt k' ∧ lock_ok k' ∧ ¬ holds i k' ∧ same_others i k k'.
Proof.
  intros [Hnd Hex Hth] Hh. unfold rwlock_unlock. case_decide as Hw.
  - assert (rw_readers k = []) as Hr by (apply Hex; congruence). rewrite Hr.
    eexists. split; [done|]. split; [split; simpl; [constructor|done|]|].
    { intros j [?|?]; [done|]. set_solver. }
    split; [intros [?|?]; [done|set_solver]|]. intros j Hj. simpl. rewrite Hr, Hw. split; [|done]. split; [congruence|done].
  - destruct Hh as [?|Hi]; [done|]. destruct (remove_reader_some _ _ Hi) as (r' & -> & Hp).
    rewrite Hp in Hnd. apply NoDup_cons in Hnd as [Hn Hnd].
    eexists. split; [done|]. split; [split; simpl; [done| |]|].
    { intros Hne. specialize (Hex Hne). rewrite Hex in Hp. by apply Permutation_nil_l in Hp. }
    { intros j [?|Hj]; [apply Hth; by left|]. apply Hth. right. rewrite Hp. set_solver. }
    split; [intros [?|?]; done|]. intros j Hj. simpl. split; [done|]. rewrite Hp. set_solver.
Qed.

Lemma same_others_view i nd k' : same_others i (lock nd) k' → ∀ j, j ≠ i → view j (set_lock k' nd) = view j nd.
Proof.
  intros Hs j Hj. destruct (Hs j Hj) as [H1 H2]. apply view_locked; simpl; [unfold holds|..]; tauto.
Qed.

(** ** Rules for the accesses of a thread *)

Lemma safe_lock n i (w : bool) M c s (op : C rwlock unit) k :
  op = rwlock_wrlock ∨ op = rwlock_rdlock ∧ w = false → i < N → knows w i M s →
  (M = ∅ ∧ c = f) ∨ ((∀ l, is_Some (M !! l) → tc (leads M) l c) ∧ ∃ l, leads M l c) →
  (∀ m s1 p, m ≤ n → M !! c = None → knows w i (<[c := (p, p)]> M) s1 → safe m i (k tt) s1) →
  safe n i (atomic (on_node_lock (Some c) op) ≫= k) s.
Proof.
  intros Hop Hi HM Hc Hk. destruct n as [|n]; [done|]. apply safe_act. intros s1 HI HR.
  pose proof (knows_rely _ _ _ _ _ HM HR) as HM1.
  assert (∀ l, holder i l s1 → before s1 l c) as Hbefore.
  { intros l Hl. apply (kn_only _ _ _ _ HM1) in Hl. destruct Hc as [[-> _]|[Hc _]]; [by rewrite lookup_empty in Hl; destruct Hl|].
    by eapply leads_before, Hc. }
  assert (is_Some (node_at s1 c)) as [nd Hnd].
  { destruct Hc as [[_ ->]|[_ [l Hl]]]; [|by eapply leads_node].
    destruct (i_order _ HI) as (ls & Ho & _). apply (order_mem s1 ls); [done..|].
    destruct ls as [|l ls]; [done|]. destruct Ho as [[= ->] _]. set_solver. }
  assert (¬ holds i (lock nd)) as Hno.
  { intros Hh. apply (before_irrefl s1 c HI), Hbefore. by exists nd. }
  pose proof (lock_cases w op i (lock nd) Hi (i_locks _ HI _ _ Hnd) Hno Hop) as Hcase.
  unfold on_node_lock. unfold node_at in Hnd. rewrite Hnd. destruct (op i (lock nd)) as [[] k'| |e]; [| |done].
  - destruct Hcase as (Hfree & Hok & Hh & Hw & Hothers). pose proof (i_next _ HI _ _ Hnd Hfree) as Hnext.
    change (set_heap node_t _ s1) with (put_node c (set_lock k' nd) s1).
    split; [by eapply inv_put|]. split; [by eapply guarantee_put, same_others_view|].
    apply (Hk n _ (next nd)); [lia| |].
    { destruct (M !! c) as [[a b]|] eqn:Hmc; [|done].
      destruct (kn_held _ _ _ _ HM1 c a b Hmc) as (nd0 & Hnd0 & Hh0 & _). unfold node_at in Hnd0. by simplify_eq. }
    split.
    + intros l p q Hl. rewrite node_at_put. destruct (decide (l = c)) as [->|Hne].
      * rewrite lookup_insert_eq in Hl. simplify_eq. eexists. split; [done|]. by split_and!.
      * rewrite lookup_insert_ne in Hl by done. by apply (kn_held _ _ _ _ HM1).
    + intros l (nd' & Hnd' & Hh'). rewrite node_at_put in Hnd'. destruct (decide (l = c)) as [->|Hne].
      * rewrite lookup_insert_eq. by eexists.
      * rewrite lookup_insert_ne by done. apply (kn_only _ _ _ _ HM1). by exists nd'.
  - destruct Hcase as (j & Hj & Hh). exists c, j. split; [done|]. split; [by exists nd|done].
Qed.

Lemma safe_unlock n i w M l p s k : M !! l = Some (p, p) → knows w i M s →
  (∀ m s1, m ≤ n → knows w i (delete l M) s1 → safe m i (k tt) s1) →
  safe n i (unlock (Some l) ≫= k) s.
Proof.
  intros Hl HM Hk. destruct n as [|n]; [done|]. apply safe_act. intros s1 HI HR.
  pose proof (knows_rely _ _ _ _ _ HM HR) as HM1.
  destruct (kn_held _ _ _ _ HM1 l p p Hl) as (nd & Hnd & Hh & Hw & Hn & Ha).
  destruct (unlock_cases i (lock nd) (i_locks _ HI _ _ Hnd) Hh) as (k' & Hu & Hok & Hno & Hothers).
  unfold on_node_lock. unfold node_at in Hnd. rewrite Hnd, Hu.
  change (set_heap node_t _ s1) with (put_node l (set_lock k' nd) s1).
  split; [eapply inv_put; try done; simpl; congruence|]. split; [by eapply guarantee_put, same_others_view|].
  apply Hk; [lia|]. split.
  - intros l' p' q' Hl'. apply lookup_delete_Some in Hl' as [Hne Hl'].
    rewrite node_at_put, decide_False by done. by apply (kn_held _ _ _ _ HM1).
  - intros l' (nd' & Hnd' & Hh'). rewrite node_at_put in Hnd'. case_decide as Hne; [by simplify_eq|].
    rewrite lookup_delete_ne by done. apply (kn_only _ _ _ _ HM1). by exists nd'.
Qed.

Lemma safe_node_get {A} n i w M l p q s (field : node_t → A) k : M !! l = Some (p, q) → knows w i M s →
  (∀ m s1 nd, m ≤ n → knows w i M s1 → next nd = p → safe m i (k (field nd)) s1) →
  safe n i (node_get (Some l) field ≫= k) s.
Proof.
  intros Hl HM Hk. destruct n as [|n]; [done|]. apply safe_act. intros s1 HI HR.
  pose proof (knows_rely _ _ _ _ _ HM HR) as HM1.
  destruct (kn_held _ _ _ _ HM1 l p q Hl) as (nd & Hnd & _ & _ & Hn & _).
  rewrite (@load_ok _ _ lnodes_heap _ _ _ _ Hnd). split; [done|]. split; [intros j _; apply R_refl|].
  apply Hk; [lia|done|done].
Qed.

Lemma safe_strlen n i w M l p q s k : M !! l = Some (p, q) → knows w i M s →
  (∀ m s1 x, m ≤ n → knows w i M s1 → safe m i (k x) s1) →
  safe n i (strlen_val (Some l) ≫= k) s.
Proof.
  intros Hl HM Hk. destruct n as [|n]; [done|]. apply safe_act. intros s1 HI HR.
  pose proof (knows_rely _ _ _ _ _ HM HR) as HM1.
  destruct (kn_held _ _ _ _ HM1 l p q Hl) as (nd & Hnd & _).
  rewrite (bind_ok _ _ _ _ _ _ (@load_ok _ _ lnodes_heap _ _ _ _ Hnd)).
  assert (NUL ∈ val nd) as Hnul by (apply (vals_end l); by rewrite <-(i_vals _ HI), Hnd).
  unfold str_at. rewrite decide_True by done. split; [done|]. split; [intros j _; apply R_refl|].
  apply Hk; [lia|done].
Qed.

(** An access that touches neither the list nor a node *)
Lemma safe_quiet {B} n i w M (m : C lstate B) s k : knows w i M s →
  (∀ t s1, match m t s1 with
           | Ok _ s2 => lists s2 = lists s1 ∧ lnodes s2 = lnodes s1 | Blocked => False | Fault e => e = Overflow end) →
  (∀ n' b s1, n' ≤ n → knows w i M s1 → safe n' i (k b) s1) →
  safe n i (atomic m ≫= k) s.
Proof.
  intros HM Hm Hk. destruct n as [|n]; [done|]. apply safe_act. intros s1 HI HR.
  pose proof (knows_rely _ _ _ _ _ HM HR) as HM1. specialize (Hm i s1).
  destruct (m i s1) as [b s2| |e]; [|done..]. destruct Hm as [Hl Hn].
  assert (∀ l, node_at s2 l = node_at s1 l) as Hat by (intros l; unfold node_at; by rewrite Hn).
  split; [|split; [intros j _ l; by rewrite Hat|apply Hk; [lia|]]].
  - destruct HI. split; try (intros; rewrite ?Hat in *; by eauto); unfold order; rewrite ?Hl, ?Hn; done.
  - destruct HM1 as [Hh Ho]. split; [by setoid_rewrite Hat|]. intros l. unfold holder. rewrite Hat. apply Ho.
Qed.
Lemma safe_increment n i w M c s k : knows w i M s →
  (∀ m s1, m ≤ n → knows w i M s1 → safe m i (k tt) s1) → safe n i (increment c ≫= k) s.
Proof.
  intros HM Hk. unfold increment. rewrite !bind_assoc_prog.
  apply (safe_quiet n i w M); [done|done|]. intros n1 x s1 Hn1 HM1. rewrite bind_assoc_prog.
  apply (safe_quiet n1 i w M); [done| |].
  { intros t s2. unfold signed_add. by destruct (decide _). }
  intros n2 y s2 Hn2 HM2. apply (safe_quiet n2 i w M); [done|done|]. intros n3 [] s3 Hn3 HM3. apply Hk; [lia|done].
Qed.

Lemma safe_write n i M l p q p' s k : M !! l = Some (p, q) → knows true i M s →
  (∀ m s1, m ≤ n → knows true i (<[l := (p', q)]> M) s1 → safe m i (k tt) s1) →
  safe n i (atomic (update node_t (Some l) (set_next p')) ≫= k) s.
Proof.
  intros Hl HM Hk. destruct n as [|n]; [done|]. apply safe_act. intros s1 HI HR.
  pose proof (knows_rely _ _ _ _ _ HM HR) as HM1.
  destruct (kn_held _ _ _ _ HM1 l p q Hl) as (nd & Hnd & Hh & Hw & Hn & Ha). specialize (Hw eq_refl).
  rewrite (@update_ok _ _ lnodes_heap _ _ _ _ _ Hnd).
  change (set_heap node_t _ s1) with (put_node l (set_next p' nd) s1).
  pose proof (i_locks _ HI _ _ Hnd) as Hok.
  split; [eapply inv_put; try done; simpl; congruence|].
  split; [eapply guarantee_put; [done|]; intros j Hj; by apply view_not_held with i|].
  apply Hk; [lia|]. split.
  - intros l' a b Hl'. rewrite node_at_put. destruct (decide (l' = l)) as [->|Hne].
    + rewrite lookup_insert_eq in Hl'. simplify_eq. eexists. split; [done|]. by split_and!.
    + rewrite lookup_insert_ne in Hl' by done. by apply (kn_held _ _ _ _ HM1).
  - intros l' (nd' & Hnd' & Hh'). rewrite node_at_put in Hnd'. destruct (decide (l' = l)) as [->|Hne].
    + rewrite lookup_insert_eq. by eexists.
    + rewrite lookup_insert_ne by done. apply (kn_only _ _ _ _ HM1). by exists nd'.
Qed.

(** Exchanging [c] and the node [d] after it, behind [l] *)
Lemma chain_exchange (h h' : gmap positive node_t) p l1 l c d l2 nl nc nd nd0 :
  chain after h p (l1 ++ l :: c :: d :: l2) NULL →
  (∀ k, k ≠ l → k ≠ c → k ≠ d → h' !! k = h !! k) →
  h' !! l = Some nl → after nl = Some d → h' !! d = Some nd → after nd = Some c →
  h !! d = Some nd0 → h' !! c = Some nc → after nc = after nd0 →
  chain after h' p (l1 ++ l :: d :: c :: l2) NULL.
Proof.
  intros Hch Hsame Hl Hal Hd Had Hd0 Hc Hac. pose proof (chain_NoDup _ _ _ _ Hch) as Hnd.
  apply NoDup_app in Hnd as (_ & Hdis & Hnd).
  apply chain_app in Hch as (r & H1 & -> & x & _ & _ & y & _ & _ & z & Hz & H2).
  rewrite Hd0 in Hz. injection Hz as <-.
  apply chain_app. exists (Some l). split.
  { eapply chain_ext; [|exact H1]. intros k Hk. specialize (Hdis k Hk). rewrite Hsame; [done|set_solver..]. }
  split; [done|]. exists nl. split; [done|]. split; [done|]. exists nd. split; [done|]. split; [done|].
  exists nc. split; [done|]. rewrite Hac. eapply chain_ext; [|exact H2].
  intros k Hk. rewrite Hsame; [done|..]; intros ->; rewrite !NoDup_cons in Hnd; set_solver.
Qed.

Lemma order_split s ls l c d nl nc : inv s → order s ls → node_at s l = Some nl → after nl = Some c →
  node_at s c = Some nc → after nc = Some d → ∃ l1 l2, ls = l1 ++ l :: c :: d :: l2.
Proof.
  intros HI Ho Hl Hal Hc Hac.
  assert (l ∈ ls) as [i Hi]%list_elem_of_lookup by (apply (order_mem s); [done..|by eexists]).
  pose proof (order_succ _ _ _ _ _ Ho Hi Hl) as Hi1. rewrite Hal in Hi1.
  pose proof (order_succ _ _ _ _ _ Ho (eq_sym Hi1) Hc) as Hi2. rewrite Hac in Hi2.
  exists (take i ls), (drop (i + 1 + 1 + 1) ls).
  rewrite <-(take_drop_middle ls i l Hi) at 1. f_equal. f_equal.
  rewrite (drop_S ls c (Datatypes.S i)) by (rewrite <-Nat.add_1_r; done). f_equal.
  rewrite (drop_S ls d (Datatypes.S (Datatypes.S i))) by (replace (Datatypes.S (Datatypes.S i)) with (i + 1 + 1) by lia; done).
  f_equal. f_equal. lia.
Qed.

Lemma safe_relink n i M l c d q s k : M !! l = Some (Some c, Some c) → M !! c = Some (Some d, Some d) →
  M !! d = Some (q, q) → knows true i M s →
  (∀ m s1, m ≤ n →
     knows true i (<[c := (Some d, q)]> (<[d := (q, Some c)]> (<[l := (Some d, Some d)]> M))) s1 → safe m i (k tt) s1) →
  safe n i (atomic (relink (Some l) (Some c) (Some d)) ≫= k) s.
Proof.
  intros Hl Hc Hd HM Hk. destruct n as [|n]; [done|]. apply safe_act. intros s1 HI HR.
  pose proof (knows_rely _ _ _ _ _ HM HR) as HM1.
  destruct (kn_held _ _ _ _ HM1 l _ _ Hl) as (nl & Hnl & Hhl & Hwl & Hnxl & Hal). specialize (Hwl eq_refl).
  destruct (kn_held _ _ _ _ HM1 c _ _ Hc) as (nc & Hnc & Hhc & Hwc & Hnxc & Hac). specialize (Hwc eq_refl).
  destruct (kn_held _ _ _ _ HM1 d _ _ Hd) as (nd & Hnd & Hhd & Hwd & Hnxd & Had). specialize (Hwd eq_refl).
  assert (leads M l c ∧ leads M c d) as [Hlc Hcd] by (split; by eexists).
  assert (∀ a b, tc (leads M) a b → a ≠ b) as Hirr.
  { intros a b Hab ->. eapply before_irrefl; [exact HI|]. by eapply leads_before. }
  assert (l ≠ c) as Nlc by (apply Hirr; by apply tc_once).
  assert (c ≠ d) as Ncd by (apply Hirr; by apply tc_once).
  assert (l ≠ d) as Nld by (apply Hirr; eapply tc_l; [exact Hlc|by apply tc_once]).
  set (nl' := set_after (Some d) (set_next (Some d) nl)).
  set (nd' := set_after (Some c) nd). set (nc' := set_after q nc).
  set (s2 := put_node c nc' (put_node d nd' (put_node l nl' s1))).
  assert (relink (Some l) (Some c) (Some d) i s1 = Ok tt s2) as ->.
  { unfold relink, s2. unfold node_at in Hnl, Hnc, Hnd.
    rewrite (bind_ok _ _ _ _ _ _ (@load_ok _ _ lnodes_heap _ _ _ _ Hnd)), Had.
    rewrite (bind_ok _ _ _ _ _ _ (@update_ok _ _ lnodes_heap _ _ _ _ _ Hnl)).
    erewrite bind_ok; [|apply (@update_ok _ _ lnodes_heap d nd); cbn; by rewrite lookup_insert_ne].
    rewrite (@update_ok _ _ lnodes_heap c nc); [done|cbn; by rewrite !lookup_insert_ne]. }
  assert (∀ k, node_at s2 k = if decide (k = c) then Some nc' else if decide (k = d) then Some nd'
    else if decide (k = l) then Some nl' else node_at s1 k) as Hat by (intros; unfold s2; by rewrite !node_at_put).
  split; [|split].
  - destruct (i_order _ HI) as (ls & Ho & Hp).
    destruct (order_split _ _ _ _ _ _ _ HI Ho Hnl Hal Hnc Hac) as (l1 & l2 & ->). split.
    + apply (i_list _ HI).
    + exists (l1 ++ l :: d :: c :: l2). split; [|rewrite <-Hp; solve_Permutation].
      eapply (chain_exchange (cells (lnodes s1)) _ _ l1 l c d l2 nl' nc' nd' nd); try done.
      * intros k' ???. change (node_at s2 k' = node_at s1 k'). by rewrite Hat, !decide_False.
      * change (node_at s2 l = Some nl'). by rewrite Hat, !decide_False, decide_True by congruence.
      * change (node_at s2 d = Some nd'). by rewrite Hat, decide_False, decide_True by congruence.
      * change (node_at s2 c = Some nc'). by rewrite Hat, decide_True.
    + assert (is_Some (node_at s1 l) ∧ is_Some (node_at s1 c) ∧ is_Some (node_at s1 d)) as (H1 & H2 & H3) by eauto.
      unfold node_at in H1, H2, H3. apply elem_of_dom in H1, H2, H3. unfold s2, put_node. simpl. rewrite !dom_insert_L, <-(i_nodes _ HI). set_solver.
    + intros k' x. rewrite Hat. repeat case_decide; intros Hx; simplify_eq; try (by eapply (i_locks _ HI)); simpl.
      * exact (i_locks _ HI _ _ Hnc).
      * exact (i_locks _ HI _ _ Hnd).
      * exact (i_locks _ HI _ _ Hnl).
    + intros k' x. rewrite Hat. repeat case_decide; intros Hx Hw; simplify_eq; simpl in *; try congruence.
      by eapply (i_next _ HI).
    + intros k'. rewrite Hat, <-(i_vals _ HI). repeat case_decide; subst; simpl; [rewrite Hnc|rewrite Hnd|rewrite Hnl|]; done.
  - intros j Hj k'. rewrite Hat.
    pose proof (i_locks _ HI _ _ Hnl) as Kl. pose proof (i_locks _ HI _ _ Hnc) as Kc. pose proof (i_locks _ HI _ _ Hnd) as Kd.
    repeat case_decide; subst; [rewrite Hnc|rewrite Hnd|rewrite Hnl|done]; simpl; f_equal; symmetry;
      by apply view_not_held with i.
  - apply Hk; [lia|]. split.
    + intros k' a b. rewrite Hat. destruct (decide (k' = c)) as [->|Nc]; [rewrite lookup_insert_eq|rewrite lookup_insert_ne by done].
      { intros [= <- <-]. eexists. split; [done|]. by split_and!. }
      destruct (decide (k' = d)) as [->|Nd]; [rewrite lookup_insert_eq|rewrite lookup_insert_ne by done].
      { intros [= <- <-]. eexists. split; [done|]. by split_and!. }
      destruct (decide (k' = l)) as [->|Nl]; [rewrite lookup_insert_eq|rewrite lookup_insert_ne by done].
      { intros [= <- <-]. eexists. split; [done|]. by split_and!. }
      apply (kn_held _ _ _ _ HM1).
    + intros k' (x & Hx & Hh). rewrite Hat in Hx. rewrite !lookup_insert_is_Some.
      destruct (decide (c = k')); [by left|]. right. split; [done|].
      destruct (decide (d = k')); [by left|]. right. split; [done|].
      destruct (decide (l = k')); [by left|]. right. split; [done|].
      apply (kn_only _ _ _ _ HM1). exists x. split; [|done]. by rewrite !decide_False in Hx by congruence.
Qed.

(** ** The threads *)

Lemma safe_list_get {A} n i w M s (field : linked_list_t → A) k : knows w i M s →
  (∀ m s1 b, m ≤ n → knows w i M s1 → safe m i (k (field (LinkedList (Some f) b))) s1) →
  safe n i (list_get (Some ll) field ≫= k) s.
Proof.
  intros HM Hk. destruct n as [|n]; [done|]. apply safe_act. intros s1 HI HR.
  destruct (i_list _ HI) as [b Hb]. rewrite (@load_ok _ _ lists_heap _ _ _ _ Hb).
  split; [done|]. split; [intros j _; apply R_refl|]. apply Hk; [lia|]. by eapply knows_rely.
Qed.

Lemma leads_one (l c : positive) : let M := {[l := (Some c, Some c)]} : gmap positive (ptr * ptr) in
  (∀ l', is_Some (M !! l') → tc (leads M) l' c) ∧ ∃ l', leads M l' c.
Proof.
  cbv zeta. assert (leads {[l := (Some c, Some c)]} l c) as Hl by (exists (Some c); apply lookup_singleton_eq).
  split; [|by exists l]. intros l' [x Hx]. apply lookup_singleton_Some in Hx as [-> _]. by apply tc_once.
Qed.
Lemma leads_two (l c d : positive) : l ≠ c →
  let M := <[c := (Some d, Some d)]> {[l := (Some c, Some c)]} : gmap positive (ptr * ptr) in
  (∀ l', is_Some (M !! l') → tc (leads M) l' d) ∧ ∃ l', leads M l' d.
Proof.
  intros Hne M. assert (leads M c d) as Hcd by (exists (Some d); apply lookup_insert_eq).
  assert (leads M l c) as Hlc.
  { exists (Some c). unfold M. rewrite lookup_insert_ne by done. apply lookup_singleton_eq. }
  split; [|by exists c]. intros l' Hl'. apply lookup_insert_is_Some in Hl' as [<-|[_ [x Hx]]]; [by apply tc_once|].
  apply lookup_singleton_Some in Hx as [<- _]. eapply tc_l; [exact Hlc|by apply tc_once].
Qed.

Ltac map_cases := apply map_eq; intros ?k;
  repeat (rewrite lookup_insert || rewrite lookup_delete || rewrite lookup_singleton);
  repeat case_decide; congruence.

(** The three nodes of an exchange: from two of them locked to the third *)
Lemma safe_exchange n i l c d s k : i < N → l ≠ c →
  knows true i (<[c := (Some d, Some d)]> {[l := (Some c, Some c)]}) s →
  (∀ m s1, m ≤ n → knows true i {[d := (Some c, Some c)]} s1 → safe m i (k tt) s1) →
  safe n i (exchange (Some l) (Some c) (Some d) ≫= k) s.
Proof.
  intros Hi Hlc HM Hk. unfold exchange. assoc.
  eapply (safe_lock n i true); [by left|done|exact HM|right; by apply leads_two|].
  intros n7 s7 r Hn7 Hld HM7. apply lookup_insert_None in Hld as [Hld Ncd]. apply lookup_singleton_None in Hld. assoc.
  eapply (safe_relink n7 i _ l c d r); [..|exact HM7|].
  1-3: repeat (rewrite lookup_insert_ne by congruence); first [apply lookup_insert_eq|apply lookup_singleton_eq].
  intros n8 s8 Hn8 HM8. assoc.
  eapply (safe_unlock n8 i true _ l (Some d)); [|exact HM8|].
  { rewrite !(lookup_insert_ne _ _ l) by congruence. apply lookup_insert_eq. }
  intros n9 s9 Hn9 HM9. assoc.
  eapply (safe_node_get n9 i true _ d r (Some c)); [|exact HM9|].
  { rewrite lookup_delete_ne, lookup_insert_ne by congruence. apply lookup_insert_eq. }
  intros n10 s10 nd10 Hn10 HM10 ->. assoc.
  eapply (safe_write n10 i _ c (Some d) r); [|exact HM10|].
  { rewrite lookup_delete_ne by congruence. apply lookup_insert_eq. }
  intros n11 s11 Hn11 HM11. assoc.
  eapply (safe_unlock n11 i true _ c r); [apply lookup_insert_eq|exact HM11|].
  intros n12 s12 Hn12 HM12. assoc.
  eapply (safe_write n12 i _ d r (Some c)); [|exact HM12|].
  { rewrite !(lookup_delete_ne _ _ d), !(lookup_insert_ne _ c d) by congruence.
    rewrite lookup_delete_ne, lookup_insert_ne by congruence. apply lookup_insert_eq. }
  intros n13 s13 Hn13 HM13. assoc.
  eapply safe_increment; [exact HM13|]. intros n14 s14 Hn14 HM14. apply Hk; [lia|].
  match goal with H : knows _ _ ?M s14 |- knows _ _ ?M' s14 => replace M' with M; [done|map_cases] end.
Qed.

(** One thread holds one node and moves along the list. *)
Definition at_node (w : bool) (i : tid) (prev : ptr) s : Prop :=
  ∃ l p, prev = Some l ∧ knows w i {[l := (p, p)]} s.
Lemma at_node_rely w i prev s s' : at_node w i prev s → rely i s s' → at_node w i prev s'.
Proof. intros (l & p & -> & HM) HR. exists l, p. split; [done|]. by eapply knows_rely. Qed.

Lemma safe_swap_pass n i prev s k : i < N → at_node true i prev s →
  (∀ m prev' s1, m ≤ n → at_node true i prev' s1 → safe m i (k prev') s1) →
  safe n i (swap_pass prev ≫= k) s.
Proof.
  intros Hi Hat Hk. unfold swap_pass. cbn [mbind prog_bind pbind].
  apply (safe_loop (at_node true i)); [by intros; eapply at_node_rely| |done].
  clear s prev Hat. intros n1 prev s Hn1 (l & p & -> & HM) Hloop.
  assert (∀ A (q : prog lstate A) (g : A → prog lstate unit), pbind q g = q ≫= g) as Hb by done. rewrite !Hb. assoc.
  assert ({[l := (p, p)]} !! l = Some (p, p)) as Hl by apply lookup_singleton_eq.
  eapply safe_node_get; [exact Hl|exact HM|]. intros n2 s2 nd Hn2 HM2 ->. destruct p as [c|].
  2:{ cbn. apply Hk; [lia|]. by exists l, None. }
  assoc. eapply safe_quiet; [exact HM2|intros t s1; by destruct (rands s1)|]. intros n3 swap s3 Hn3 HM3.
  destruct (negb swap); assoc; (eapply safe_node_get; [exact Hl|exact HM3|]);
    intros n4 s4 nd4 Hn4 HM4 ->; assoc;
    (eapply (safe_lock n4 i true); [by left|done|exact HM4|right; apply leads_one|]);
    intros n5 s5 q Hn5 Hlc HM5; apply lookup_singleton_None in Hlc; assoc.
  - eapply safe_unlock; [by rewrite lookup_insert_ne|exact HM5|].
    intros n6 s6 Hn6 HM6. cbn. apply Hloop; [lia|]. exists c, q. split; [done|].
    replace ({[c := (q, q)]} : gmap positive (ptr * ptr)) with (delete l (<[c := (q, q)]> ({[l := (Some c, Some c)]} : gmap positive (ptr * ptr)))); [done|map_cases].
  - eapply safe_node_get; [apply lookup_insert_eq|exact HM5|]. intros n6 s6 nd6 Hn6 HM6 ->. destruct q as [d|]; assoc.
    2:{ eapply safe_unlock; [apply lookup_insert_eq|exact HM6|]. intros n7 s7 Hn7 HM7. cbn. apply Hk; [lia|].
        exists l, (Some c). split; [done|]. by rewrite delete_insert_id in HM7 by (by rewrite lookup_singleton_ne). }
    eapply safe_exchange; [done|done|exact HM6|]. intros n7 s7 Hn7 HM7. cbn. apply Hloop; [lia|].
    by exists d, (Some c).
Qed.

Lemma safe_compare_pass n i compare count prev s k : i < N → at_node false i prev s →
  (∀ m prev' s1, m ≤ n → at_node false i prev' s1 → safe m i (k prev') s1) →
  safe n i (compare_pass kind compare count prev ≫= k) s.
Proof.
  intros Hi Hat Hk. unfold compare_pass. cbn [mbind prog_bind pbind].
  apply (safe_loop (at_node false i)); [by intros; eapply at_node_rely| |done].
  clear s prev Hat. intros n1 prev s Hn1 (l & p & -> & HM) Hloop.
  assert (∀ A (q : prog lstate A) (g : A → prog lstate unit), pbind q g = q ≫= g) as Hb by done. rewrite !Hb. assoc.
  assert ({[l := (p, p)]} !! l = Some (p, p)) as Hl by apply lookup_singleton_eq.
  eapply safe_node_get; [exact Hl|exact HM|]. intros n2 s2 nd Hn2 HM2 ->. destruct p as [c|].
  2:{ cbn. apply Hk; [lia|]. by exists l, None. }
  assoc. eapply safe_node_get; [exact Hl|exact HM2|]. intros n3 s3 nd3 Hn3 HM3 ->. assoc.
  eapply safe_node_get; [exact Hl|exact HM3|]. intros n4 s4 nd4 Hn4 HM4 _. assoc.
  eapply (safe_lock n4 i false); [by destruct kind; auto|done|exact HM4|right; apply leads_one|].
  intros n5 s5 q Hn5 Hlc HM5. apply lookup_singleton_None in Hlc. assoc.
  eapply safe_unlock; [by rewrite lookup_insert_ne|exact HM5|]. intros n6 s6 Hn6 HM6. assoc.
  replace (delete l (<[c := (q, q)]> ({[l := (Some c, Some c)]} : gmap positive (ptr * ptr))))
    with ({[c := (q, q)]} : gmap positive (ptr * ptr)) in HM6 by map_cases.
  eapply safe_strlen; [apply lookup_singleton_eq|exact HM6|]. intros n7 len s7 Hn7 HM7.
  assert (∀ n' s', n' ≤ n7 → knows false i {[c := (q, q)]} s' → at_node false i (Some c) s') as Hnext
    by (intros; by exists c, q).
  match goal with |- context [if ?b then _ else _] => destruct b end.
  - eapply safe_increment; [exact HM7|]. intros n8 s8 Hn8 HM8. cbn. apply Hloop; [lia|by eapply Hnext].
  - cbn. apply Hloop; [lia|by eapply Hnext].
Qed.

Lemma safe_until n i w body s : knows w i ∅ s →
  (∀ m s1 k, m ≤ n → knows w i ∅ s1 → (∀ m' s2, m' ≤ m → knows w i ∅ s2 → safe m' i (k tt) s2) →
     safe m i (body ≫= k) s1) →
  safe n i (until_stopped (Some ll) body) s.
Proof.
  intros HM Hbody. unfold until_stopped.
  apply (safe_loop (λ _, knows w i ∅)); [by intros; eapply knows_rely| |done].
  clear s HM. intros n1 [] s Hn1 HM Hloop.
  assert (∀ A (q : prog lstate A) (g : A → prog lstate unit), pbind q g = q ≫= g) as Hb by done. rewrite !Hb. assoc.
  eapply safe_list_get; [exact HM|]. intros n2 s2 b Hn2 HM2. cbn [stop]. destruct b.
  - cbn. apply safe_ret. intros s3 HI HR l Hl. pose proof (knows_rely _ _ _ _ _ HM2 HR) as HM3.
    apply (kn_only _ _ _ _ HM3) in Hl as [x Hx]. by rewrite lookup_empty in Hx.
  - assoc. apply Hbody; [lia|done|]. intros n3 s3 Hn3 HM3. cbn. apply Hloop; [lia|done].
Qed.

(** The first node locked, a pass, the last node unlocked *)
Lemma safe_from_first n i w s op pass c k : op = rwlock_wrlock ∨ op = rwlock_rdlock ∧ w = false → i < N → knows w i ∅ s →
  (∀ m prev s1 k', m ≤ n → at_node w i prev s1 →
     (∀ m' prev' s2, m' ≤ m → at_node w i prev' s2 → safe m' i (k' prev') s2) → safe m i (pass prev ≫= k') s1) →
  (∀ m s1, m ≤ n → knows w i ∅ s1 → safe m i (k tt) s1) →
  safe n i ((f0 ← list_get (Some ll) first; atomic (on_node_lock f0 op);; start ← list_get (Some ll) first;
             prev ← pass start; unlock prev;; increment c) ≫= k) s.
Proof.
  intros Hop Hi HM Hpass Hk. assoc. eapply safe_list_get; [exact HM|]. intros n1 s1 b Hn1 HM1. cbn [first]. assoc.
  eapply safe_lock; [exact Hop|done|exact HM1|by left|]. intros n2 s2 p Hn2 _ HM2. assoc.
  eapply safe_list_get; [exact HM2|]. intros n3 s3 b3 Hn3 HM3. cbn [first]. assoc.
  apply Hpass; [lia|by exists f, p|]. intros n4 prev s4 Hn4 (l & q & -> & HM4). assoc.
  eapply safe_unlock; [apply lookup_singleton_eq|exact HM4|]. intros n5 s5 Hn5 HM5. rewrite delete_singleton_eq in HM5.
  eapply safe_increment; [exact HM5|]. intros n6 s6 Hn6 HM6. apply Hk; [lia|done].
Qed.

Lemma safe_swap_routine n i s : i < N → knows true i ∅ s → safe n i (swap_routine (Some ll)) s.
Proof.
  intros Hi HM. eapply safe_until; [exact HM|]. intros m s1 k Hm HM1 Hk.
  apply (safe_from_first m i true); [by left|done|done| |done].
  intros m' prev s2 k' Hm' Hat Hk'. by apply safe_swap_pass.
Qed.
Lemma safe_compare_routine n i compare iter count s : i < N → knows false i ∅ s →
  safe n i (__compare_routine kind (Some ll) compare iter count) s.
Proof.
  intros Hi HM. eapply safe_until; [exact HM|]. intros m s1 k Hm HM1 Hk.
  apply (safe_from_first m i false); [by destruct kind; auto|done|done| |done].
  intros m' prev s2 k' Hm' Hat Hk'. by apply safe_compare_pass.
Qed.
Lemma safe_print_routine n i s : knows true i ∅ s → safe n i (print_routine (Some ll)) s.
Proof.
  intros HM. eapply safe_until; [exact HM|]. intros m s1 k Hm HM1 Hk.
  generalize [asc_count; asc_iter; desc_count; desc_iter; eq_count; eq_iter; swap_count; swap_iter]. intros cs.
  revert m s1 Hm HM1 Hk. induction cs as [|c cs IH]; intros m s1 Hm HM1 Hk; [by apply Hk|].
  cbn [foldr]. assoc. eapply safe_quiet; [exact HM1|done|]. intros m' x s2 Hm' HM2. apply IH; [lia|done|].
  intros m2 s3 Hm2. apply Hk. lia.
Qed.
Lemma safe_main_stop n i s : knows true i ∅ s → safe n i (main_stop (Some ll)) s.
Proof.
  intros HM. destruct n as [|n]; [done|]. apply safe_act. intros s1 HI HR. destruct (i_list _ HI) as [b Hb].
  rewrite (@update_ok _ _ lists_heap _ _ _ _ _ Hb).
  split; [destruct HI; split; try done; exists true; apply lookup_insert_eq|]. split; [by intros j _ l|].
  apply safe_ret. intros s2 _ HR2 l Hl.
  assert (knows true i ∅ s2) as HM2 
    by (eapply knows_rely; [|exact HR2]; destruct (knows_rely _ _ _ _ _ HM HR) as [Hh Hon]; split; [exact Hh|exact Hon]).
  apply (kn_only _ _ _ _ HM2) in Hl as [x Hx]. by rewrite lookup_empty in Hx.
Qed.

(** ** No deadlock *)

(** Among waiting threads one holds the last node held. *)
Lemma waits_not_all s : inv s → (∀ i, i < N → waits i s ∨ ∀ l, ¬ holder i l s) → ∀ i, i < N → ¬ waits i s.
Proof.
  intros HI Hall. destruct (i_order _ HI) as (ls & Ho & _).
  assert (∀ d a c j, length ls - a ≤ d → ls !! a = Some c → ¬ holder j c s) as Hno.
  { induction d as [|d IH]; intros a c j Hd Hc Hj.
    { apply lookup_lt_Some in Hc. lia. }
    assert (j < N) as Hjn by (destruct Hj as (nd & Hnd & Hh); by apply (k_threads _ (i_locks _ HI _ _ Hnd))).
    destruct (Hall j Hjn) as [(c' & j' & _ & Hc' & Hbef)|Hn]; [|by apply (Hn c)].
    destruct (Hbef c Hj ls Ho) as (a1 & b & Ha1 & Hb & Hlt).
    pose proof (NoDup_lookup _ _ _ _ (order_NoDup _ _ Ho) Hc Ha1) as <-.
    eapply (IH b c' j'); [|done..]. lia. }
  intros i Hi (c & j & _ & Hc & _).
  assert (c ∈ ls) as [a Ha]%list_elem_of_lookup.
  { apply (order_mem s); [done..|]. destruct Hc as (nd & Hnd & _). by eexists. }
  apply (Hno (length ls) a c j); [lia|done|done].
Qed.
End invariant.

(** * The list before and after the threads *)

#[export] Instance lists_oom_indep : OomIndep lstate linked_list_t.
Proof. by split. Qed.
#[export] Instance lnodes_oom_indep : OomIndep lstate node_t.
Proof. by split. Qed.

Lemma chain_other {N} (nx nx' : N → ptr) (h : gmap positive N) p ls q :
  (∀ l n, h !! l = Some n → nx n = nx' n) → chain nx h p ls q → chain nx' h p ls q.
Proof.
  intros Hsame. revert p. induction ls as [|l ls IH]; intros p; simpl; [done|].
  intros [-> (n & Hn & Hc)]. split; [done|]. exists n. split; [done|]. rewrite <-(Hsame l n Hn). by apply IH.
Qed.

(** The nodes of the values [vs] from [f] on, none of them locked *)
Record listed (s : lstate) (f : positive) (ls : list positive) (vs : list (list Z)) : Prop := {
  l_chain : chain next (cells (lnodes s)) (Some f) ls NULL;
  l_dom : dom (cells (lnodes s)) = list_to_set ls;
  l_vals : val <$> nodes (cells (lnodes s)) ls = strncpy MAX_STRING_LENGTH <$> vs;
  l_free : ∀ l nd, node_at s l = Some nd → lock nd = RWLock None [] ∧ next nd = after nd;
}.

Definition put_nodes (m : mem node_t) (s : lstate) : lstate := LState (lists s) m (counters s) (lanswers s) (rands s).
Definition fresh_node (v : list Z) : node_t := Node NULL (RWLock None []) (strncpy MAX_STRING_LENGTH v) NULL.

Lemma create_node_run t v s : lanswers s = [] →
  create_node v t s = Ok (Some (fresh_loc (lnodes s))) (put_nodes (mem_alloc (fresh_node v) (lnodes s)) s).
Proof.
  intros Ho. destruct s as [li no co an ra]. simpl in Ho. subst an. unfold create_node.
  assert (∀ n, malloc node_t n t (LState li no co [] ra) =
    Ok (Some (fresh_loc no)) (LState li (mem_alloc n no) co [] ra)) as Hm by done.
  rewrite (bind_ok _ _ _ _ _ _ (Hm _)). cbn [put_nodes lists lnodes counters lanswers rands].
  assert (∀ n g, update node_t (Some (fresh_loc no)) g t (LState li (mem_alloc n no) co [] ra) =
    Ok tt (LState li (mem_alloc (g n) no) co [] ra)) as Hu.
  { intros n g. rewrite (@update_ok _ _ lnodes_heap _ n) by (cbn; apply lookup_insert_eq).
    cbn. by rewrite mem_set_alloc. }
  rewrite (bind_ok _ _ _ _ _ _ (Hu _ _)), (bind_ok _ _ _ _ _ _ (Hu _ _)).
  assert (on_node_lock (Some (fresh_loc no)) lock_init t (LState li (mem_alloc (fresh_node v) no) co [] ra) =
    Ok tt (LState li (mem_alloc (fresh_node v) no) co [] ra)) as Hl.
  { unfold on_node_lock. cbn. rewrite lookup_insert_eq. cbn. by rewrite mem_set_alloc. }
  by rewrite (bind_ok _ _ _ _ _ _ Hl).
Qed.

Lemma append_nodes_run t vals s f ls lst vs : lanswers s = [] → listed s f (ls ++ [lst]) vs →
  ∃ s' ls', append_nodes (Some lst) vals t s = Ok tt s' ∧ listed s' f ls' (vs ++ vals) ∧ lists s' = lists s.
Proof.
  revert s ls lst vs. induction vals as [|v vals IH]; intros s ls lst vs Ho HL.
  { exists s, (ls ++ [lst]). by rewrite app_nil_r. }
  cbn [append_nodes]. rewrite (bind_ok _ _ _ _ _ _ (create_node_run t v s Ho)).
  set (l := fresh_loc (lnodes s)). destruct HL as [Hch Hdom Hvals Hfree].
  apply chain_snoc in Hch as [Hch (nd & Hnd & Hnull)].
  pose proof (fresh_loc_none (lnodes s)) as Hfresh. fold l in Hfresh.
  assert (l ≠ lst) as Hne by (intros ->; congruence).
  set (nd' := set_after (Some l) (set_next (Some l) nd)).
  set (s1 := put_nodes (mem_set lst nd' (mem_alloc (fresh_node v) (lnodes s))) s).
  assert (update node_t (Some lst) (λ n, set_after (Some l) (set_next (Some l) n)) t
    (put_nodes (mem_alloc (fresh_node v) (lnodes s)) s) = Ok tt s1) as Hu.
  { rewrite (@update_ok _ _ lnodes_heap _ nd); [done|]. cbn. by rewrite lookup_insert_ne. }
  rewrite (bind_ok _ _ _ _ _ _ Hu).
  assert (∀ k, node_at s1 k = if decide (k = lst) then Some nd' else if decide (k = l) then Some (fresh_node v) else node_at s k) as Hat.
  { intros k. unfold node_at, s1. cbn. fold l. rewrite !lookup_insert. repeat case_decide; congruence. }
  assert (lst ∉ ls) as Hnin.
  { intros Hin. pose proof (chain_NoDup next (cells (lnodes s)) (Some f) (ls ++ [lst])) as Hnd2.
    assert (chain next (cells (lnodes s)) (Some f) (ls ++ [lst]) NULL) as Hc by (apply chain_snoc; eauto).
    specialize (Hnd2 Hc). apply NoDup_app in Hnd2 as (_ & Hd & _). apply (Hd lst Hin). set_solver. }
  assert (∀ k, k ∈ ls ++ [lst] → is_Some (node_at s k)) as Hmem.
  { intros k Hk. apply elem_of_dom. rewrite Hdom. by apply elem_of_list_to_set. }
  destruct (IH s1 (ls ++ [lst]) l (vs ++ [v])) as (s' & ls' & Hr & HL' & Hls).
  - done.
  - split.
    + apply chain_snoc. split; [apply chain_snoc; split|].
      * eapply chain_ext; [|exact Hch]. intros k Hk. change (next <$> node_at s1 k = next <$> node_at s k).
        rewrite Hat, decide_False by set_solver. case_decide as Hkl; [|done]. subst k.
        destruct (Hmem l) as [x Hx]; [set_solver|]. unfold node_at in Hx. congruence.
      * exists nd'. split; [|done]. change (node_at s1 lst = Some nd'). by rewrite Hat, decide_True.
      * exists (fresh_node v). split; [|done]. change (node_at s1 l = Some (fresh_node v)). by rewrite Hat, decide_False, decide_True.
    + unfold s1. cbn. fold l. rewrite !dom_insert_L, Hdom, !list_to_set_app_L. set_solver.
    + rewrite nodes_app, !fmap_app. f_equal.
      * rewrite <-Hvals. apply nodes_map_ext. intros k Hk. change (val <$> node_at s1 k = val <$> node_at s k).
        rewrite Hat. case_decide; [subst; unfold node_at; by rewrite Hnd|]. case_decide as Hkl; [|done]. subst k.
        destruct (Hmem l Hk) as [x Hx]. unfold node_at in Hx. congruence.
      * rewrite nodes_cons. change (val <$> match node_at s1 l with Some n => n :: nodes (cells (lnodes s1)) []
          | None => nodes (cells (lnodes s1)) [] end = strncpy MAX_STRING_LENGTH <$> [v]).
        by rewrite Hat, decide_False, decide_True.
    + intros k x. rewrite Hat. repeat case_decide; intros Hx; simplify_eq; [|done|by apply (Hfree k)].
      split; [|done]. exact (proj1 (Hfree lst nd Hnd)).
  - exists s', ls'. rewrite Hr. rewrite <-app_assoc in HL'. split; [done|]. split; [done|]. by rewrite Hls.
Qed.

Lemma build_list_run t v vals s : lanswers s = [] → cells (lnodes s) = ∅ →
  ∃ ll f s' ls, build_list v vals t s = Ok (Some ll) s' ∧ listed s' f ls (v :: vals) ∧
    cells (lists s') !! ll = Some (LinkedList (Some f) false).
Proof.
  intros Ho Hempty. destruct s as [li no co an ra]. simpl in Ho, Hempty. subst an. unfold build_list.
  set (ll := fresh_loc li). set (f := fresh_loc no).
  assert (malloc linked_list_t (LinkedList NULL false) t (LState li no co [] ra) =
    Ok (Some ll) (LState (mem_alloc (LinkedList NULL false) li) no co [] ra)) as Hm by done.
  rewrite (bind_ok _ _ _ _ _ _ Hm).
  assert (∀ L g no', update linked_list_t (Some ll) g t (LState (mem_alloc L li) no' co [] ra) =
    Ok tt (LState (mem_alloc (g L) li) no' co [] ra)) as Hu.
  { intros L g no'. rewrite (@update_ok _ _ lists_heap _ L) by (cbn; apply lookup_insert_eq). cbn.
    unfold ll. by rewrite mem_set_alloc. }
  rewrite (bind_ok _ _ _ _ _ _ (Hu _ _ _)).
  rewrite (bind_ok _ _ _ _ _ _ (create_node_run t v (LState (mem_alloc (set_stop false (LinkedList NULL false)) li) no co [] ra) eq_refl)).
  unfold put_nodes. cbn [lists lnodes counters lanswers rands]. fold f. rewrite (bind_ok _ _ _ _ _ _ (Hu _ _ _)).
  set (s1 := LState _ _ _ _ _).
  destruct (append_nodes_run t vals s1 f [] f [v]) as (s' & ls' & Hr & HL & Hls); [done| |].
  - assert (cells (lnodes s1) = {[f := fresh_node v]}) as Hcells by (unfold s1; cbn; by rewrite Hempty).
    split; unfold node_at; rewrite ?Hcells.
    + split; [done|]. exists (fresh_node v). split; [apply lookup_singleton_eq|done].
    + rewrite dom_singleton_L. set_solver.
    + cbn [app]. rewrite nodes_cons, lookup_singleton_eq. done.
    + intros l nd Hl. by apply lookup_singleton_Some in Hl as [_ <-].
  - rewrite (bind_ok _ _ _ _ _ _ Hr). exists ll, f, s', ls'. split; [done|]. split; [done|].
    rewrite Hls. unfold s1. cbn. apply lookup_insert_eq.
Qed.

Lemma destroy_from_run t ls s p fuel : chain next (cells (lnodes s)) (Some p) (p :: ls) NULL →
  dom (cells (lnodes s)) = list_to_set (p :: ls) → length ls < fuel →
  ∃ s', destroy_from fuel (Some p) t s = Ok tt s' ∧ cells (lnodes s') = ∅ ∧ lists s' = lists s.
Proof.
  revert s p fuel. induction ls as [|q ls IH]; intros s p fuel Hch Hdom Hf; (destruct fuel as [|fuel]; [simpl in Hf; lia|]);
    pose proof (chain_NoDup _ _ _ _ Hch) as Hnd; destruct Hch as [_ (nd & Hn & Hch)]; cbn [destroy_from];
    rewrite (bind_ok _ _ _ _ _ _ (@load_ok _ _ lnodes_heap _ _ _ _ Hn)).
  - simpl in Hch. rewrite Hch. rewrite (@free_ok _ _ lnodes_heap _ _ _ _ Hn).
    eexists. split; [done|]. split; [|done]. cbn. apply dom_empty_iff_L. rewrite dom_delete_L, Hdom. set_solver.
  - pose proof (chain_head _ _ _ _ Hch) as Hq. simpl in Hq. rewrite Hq in Hch |- *.
    rewrite (bind_ok _ _ _ _ _ _ (@free_ok _ _ lnodes_heap _ _ _ _ Hn)).
    apply NoDup_cons in Hnd as [Hp Hnd]. cbn.
    match goal with |- ∃ s', destroy_from _ _ _ ?s1 = _ ∧ _ => destruct (IH s1 q fuel) as (s' & Hr & Hc & Hl) end.
    + change (chain next (delete p (cells (lnodes s))) (Some q) (q :: ls) NULL). by apply chain_delete_notin.
    + cbn. rewrite dom_delete_L, Hdom. set_solver.
    + simpl in Hf. lia.
    + by exists s'.
Qed.

Section whole.
Context (kind : lock_kind) (ll f : positive) (ls0 : list positive) (vs : list (list Z)) (s0 : lstate) (b0 : bool).
Context (start_listed : listed s0 f ls0 vs) (start_list : cells (lists s0) !! ll = Some (LinkedList (Some f) b0)).
Context (short : Forall (λ w, length (cstr w) < MAX_STRING_LENGTH) vs).

Definition start_vals (l : positive) : option (list Z) := val <$> node_at s0 l.

Lemma start_mem l : l ∈ ls0 ↔ is_Some (node_at s0 l).
Proof. unfold node_at. rewrite <-elem_of_dom, (l_dom _ _ _ _ start_listed). symmetry. apply elem_of_list_to_set. Qed.

Lemma start_vals_end l v : start_vals l = Some v → NUL ∈ v.
Proof.
  unfold start_vals. intros (nd & Hnd & ->)%fmap_Some.
  assert (nd ∈ nodes (cells (lnodes s0)) ls0) as Hin.
  { apply list_elem_of_omap. exists l. split; [|done]. apply start_mem. by eexists. }
  apply (list_elem_of_fmap_2 val) in Hin. rewrite (l_vals _ _ _ _ start_listed) in Hin.
  apply list_elem_of_fmap in Hin as (w & -> & Hw). pose proof (proj1 (Forall_forall _ _) short w Hw) as Hl.
  unfold strncpy. apply elem_of_app. right. apply elem_of_replicate. split; [done|]. unfold MAX_STRING_LENGTH in *. lia.
Qed.

Lemma start_knows w i : knows w i ∅ s0.
Proof.
  split; [intros l p q; by rewrite lookup_empty|]. intros l (nd & Hnd & Hh).
  destruct (l_free _ _ _ _ start_listed l nd Hnd) as [Hk _]. rewrite Hk in Hh. destruct Hh as [?|Hr]; [done|]. simpl in Hr. set_solver.
Qed.

Lemma start_inv N : inv ll f ls0 start_vals N s0.
Proof.
  destruct start_listed as [Hch Hdom _ Hfree]. split.
  - by eexists.
  - exists ls0. split; [|done]. eapply chain_other; [|exact Hch]. intros l nd Hnd. by apply (Hfree l).
  - done.
  - intros l nd Hnd. destruct (Hfree l nd Hnd) as [-> _]. split; [constructor|done|]. intros i [?|?]; [done|]. set_solver.
  - intros l nd Hnd _. by apply (Hfree l).
  - done.
Qed.

(** Once no lock is held, the links are the order. *)
Lemma unlocked_list N s : inv ll f ls0 start_vals N s → (∀ i l, i < N → ¬ holder i l s) →
  ∃ b ls, cells (lists s) !! ll = Some (LinkedList (Some f) b) ∧
    chain next (cells (lnodes s)) (Some f) ls NULL ∧ ls ≡ₚ ls0 ∧
    val <$> nodes (cells (lnodes s)) ls ≡ₚ strncpy MAX_STRING_LENGTH <$> vs.
Proof.
  intros HI Hno. destruct (i_list _ _ _ _ _ _ HI) as [b Hb]. destruct (i_order _ _ _ _ _ _ HI) as (ls & Ho & Hp).
  exists b, ls. split; [done|]. split; [|split; [done|]].
  - eapply chain_other; [|exact Ho]. intros l nd Hnd. symmetry. apply (i_next _ _ _ _ _ _ HI l nd Hnd).
    destruct (rw_writer (lock nd)) as [j|] eqn:Hw; [|done]. exfalso. apply (Hno j l).
    + apply (k_threads _ _ (i_locks _ _ _ _ _ _ HI l nd Hnd)). by left.
    + exists nd. split; [done|]. by left.
  - rewrite <-(l_vals _ _ _ _ start_listed). rewrite (nodes_map_ext val (cells (lnodes s0))).
    + apply fmap_Permutation. unfold nodes. by rewrite Hp.
    + intros l _. exact (i_vals _ _ _ _ _ _ HI l).
Qed.

Lemma unlocked_destroy t s b ls : cells (lists s) !! ll = Some (LinkedList (Some f) b) →
  chain next (cells (lnodes s)) (Some f) ls NULL → dom (cells (lnodes s)) = list_to_set ls →
  ∃ s', linked_list_destroy (Some ll) t s = Ok tt s' ∧ cells (lnodes s') = ∅ ∧
    cells (lists s') !! ll = Some (LinkedList (Some f) b).
Proof.
  intros Hl Hch Hdom. unfold linked_list_destroy. rewrite (bind_ok _ _ _ _ _ _ (@load_ok _ _ lists_heap _ _ _ _ Hl)).
  unfold gets. erewrite bind_ok by reflexivity. cbv beta. cbn [first].
  pose proof (chain_head _ _ _ _ Hch) as Hhd. destruct ls as [|l ls]; [done|]. simpl in Hhd. injection Hhd as <-.
  pose proof (chain_length _ _ _ _ Hch) as Hlen. simpl in Hlen.
  destruct (destroy_from_run t ls s f (size (cells (lnodes s))) Hch Hdom) as (s' & Hr & Hc & Hls); [lia|].
  exists s'. rewrite Hls. done.
Qed.

#[local] Existing Instance list_rg.
#[local] Instance whole_rg : RG lstate := list_rg ll f ls0 start_vals 8.

Lemma threads_safe : all_safe (s0, threads kind (Some ll)).
Proof.
  split; [exact (start_inv 8)|]. intros n i p Hp. simpl in Hp |- *.
  assert (i < 8) as Hi by (by apply lookup_lt_Some in Hp).
  destruct i as [|[|[|[|[|[|[|[|i]]]]]]]]; [injection Hp as <-..|lia].
  - exact (safe_compare_routine kind ll f ls0 start_vals 8 start_vals_end n 0 ASC asc_iter asc_count s0 Hi (start_knows _ _)).
  - exact (safe_compare_routine kind ll f ls0 start_vals 8 start_vals_end n 1 DESC desc_iter desc_count s0 Hi (start_knows _ _)).
  - exact (safe_compare_routine kind ll f ls0 start_vals 8 start_vals_end n 2 EQ eq_iter eq_count s0 Hi (start_knows _ _)).
  - exact (safe_print_routine ll f ls0 start_vals 8 n 3 s0 (start_knows _ _)).
  - exact (safe_swap_routine ll f ls0 start_vals 8 start_vals_end n 4 s0 Hi (start_knows _ _)).
  - exact (safe_swap_routine ll f ls0 start_vals 8 start_vals_end n 5 s0 Hi (start_knows _ _)).
  - exact (safe_swap_routine ll f ls0 start_vals 8 start_vals_end n 6 s0 Hi (start_knows _ _)).
  - exact (safe_main_stop ll f ls0 start_vals 8 n 7 s0 (start_knows _ _)).
Qed.
End whole.

(** The start of [main]; [rand] gives the numbers [xs]. *)
Definition lstart (xs : list Z) : lstate := LState mem_empty mem_empty (λ _, 0%Z) [] xs.

(** C6: the list of lab2/src/3 with each of its three locks: whatever values it
    is built from and whatever [rand] gives, in every interleaving of the three
    comparing, the printing and the three swapping threads and main's stop, no
    thread faults (but for a counter's overflow) and there is no deadlock: some
    thread can always move until all have returned. Then the links lead from the
    first node, which stayed the same, through exactly the values the list was
    built from, in some order, and [linked_list_destroy] frees every node, but
    not the list itself. *)
Theorem hand_over_hand (kind : lock_kind) (v : list Z) (vals : list (list Z)) (xs : list Z)
    (Hshort : Forall (λ w, length (cstr w) < MAX_STRING_LENGTH) (v :: vals)) :
  ∃ ll f s0, build_list v vals 7 (lstart xs) = Ok (Some ll) s0 ∧
    ∀ s ths, steps (s0, threads kind (Some ll)) (s, ths) →
      (∀ e, faulty (s, ths) e → e = Overflow) ∧
      (can_move 8 (s, ths) ∨ finished 8 ths) ∧
      (finished 8 ths → ∃ b ls,
         cells (lists s) !! ll = Some (LinkedList (Some f) b) ∧
         chain next (cells (lnodes s)) (Some f) ls NULL ∧
         val <$> nodes (cells (lnodes s)) ls ≡ₚ strncpy MAX_STRING_LENGTH <$> v :: vals ∧
         ∃ s', linked_list_destroy (Some ll) 7 s = Ok tt s' ∧ cells (lnodes s') = ∅ ∧
           cells (lists s') !! ll = Some (LinkedList (Some f) b)).
Proof.
  destruct (build_list_run 7 v vals (lstart xs)) as (ll & f & s0 & ls0 & Hb & HL & Hl); [done|done|].
  exists ll, f, s0. split; [exact Hb|]. intros s ths Hsteps.
  destruct (rg_sound _ _ (threads_safe kind ll f ls0 _ s0 false HL Hl Hshort) Hsteps) as (HI & Hfault & Hblock).
  pose proof (steps_length _ _ Hsteps) as Hlen. cbn [fst snd] in *.
  change (length (threads kind (Some ll))) with 8 in Hlen.
  split; [exact Hfault|]. split.
  - destruct (can_move_or_blocked 8 (s, ths)) as [|Hall]; [cbn; lia|by left|right].
    assert (∀ i, i < 8 → ¬ waits f i s) as Hno.
    { eapply waits_not_all; [exact HI|]. intros i Hi.
      destruct (lookup_lt_is_Some_2 ths i) as [p Hp]; [rewrite Hlen; exact Hi|].
      specialize (Hblock i p Hp (Hall i p Hi Hp)). destruct p; [by right|by left..]. }
    intros i Hi. destruct (lookup_lt_is_Some_2 ths i) as [p Hp]; [rewrite Hlen; exact Hi|].
    specialize (Hblock i p Hp (Hall i p Hi Hp)). destruct p as [[]| |]; [done|by destruct (Hno i Hi)..].
  - intros Hfin. destruct (unlocked_list ll f ls0 (v :: vals) s0 HL 8 s HI) as (b & ls & Hb' & Hch & Hp & Hv).
    { intros i l Hi. exact (Hblock i (Ret tt) (Hfin i Hi) eq_refl l). }
    exists b, ls. split; [exact Hb'|]. split; [exact Hch|]. split; [exact Hv|].
    apply (unlocked_destroy ll f 7 s b ls Hb' Hch). rewrite (i_nodes _ _ _ _ _ _ HI). by rewrite Hp.
Qed.

Example hand_over_hand_witness :
  ∃ ll f s0, build_list (lit "xxx") [lit "x"; lit "xx"] 7 (lstart [100; 7; 200]%Z) = Ok (Some ll) s0 ∧
    ∀ s ths, steps (s0, threads USE_RWLOCK (Some ll)) (s, ths) →
      (∀ e, faulty (s, ths) e → e = Overflow) ∧
      (can_move 8 (s, ths) ∨ finished 8 ths) ∧
      (finished 8 ths → ∃ b ls,
         cells (lists s) !! ll = Some (LinkedList (Some f) b) ∧
         chain next (cells (lnodes s)) (Some f) ls NULL ∧
         val <$> nodes (cells (lnodes s)) ls ≡ₚ strncpy MAX_STRING_LENGTH <$> [lit "xxx"; lit "x"; lit "xx"] ∧
         ∃ s', linked_list_destroy (Some ll) 7 s = Ok tt s' ∧ cells (lnodes s') = ∅ ∧
           cells (lists s') !! ll = Some (LinkedList (Some f) b)).
Proof.
  apply (hand_over_hand USE_RWLOCK (lit "xxx") [lit "x"; lit "xx"] [100; 7; 200]%Z).
  apply (bool_decide_unpack _). vm_compute. exact Logic.I.
Defined.
