(* ===== verification/Threadpool.v ===== *)
(** Threadpool: the thread pool of lab3 (threadpool.c). Its workers wait under the
    pool's mutex for a task, take the one pushed last and run it; any thread may
    push; destroying the pool stops and joins the workers. *)
From S2P Require Import Prelude Links Threads Pthread.

(** * Data *)

Definition MAX_THREADS : nat := 10.

(** A call: which function, on which argument *)
Abbreviation job := (Z * Z)%type.

Record task_t := Task { id : Z; function : Z; argument : Z; next : ptr; prev : ptr }.
Record threadpool_t := Pool {
  queue_size : Z;
  stop : Z;
  id_sequence : Z;
  threads : ptr;
  last_task : ptr;
}.
(** [pthread_t *]: the ids of threads, none where nothing was written *)
Record pthreads := PThreads { slots : list (option tid) }.

Definition set_id x k := Task x (function k) (argument k) (next k) (prev k).
Definition set_function x k := Task (id k) x (argument k) (next k) (prev k).
Definition set_argument x k := Task (id k) (function k) x (next k) (prev k).
Definition set_next p k := Task (id k) (function k) (argument k) p (prev k).
Definition set_prev p k := Task (id k) (function k) (argument k) (next k) p.
Definition set_queue_size x p := Pool x (stop p) (id_sequence p) (threads p) (last_task p).
Definition set_stop x p := Pool (queue_size p) x (id_sequence p) (threads p) (last_task p).
Definition set_id_sequence x p := Pool (queue_size p) (stop p) x (threads p) (last_task p).
Definition set_threads x p := Pool (queue_size p) (stop p) (id_sequence p) x (last_task p).
Definition set_last_task x p := Pool (queue_size p) (stop p) (id_sequence p) (threads p) x.

Definition job_of (k : task_t) : job := (function k, argument k).

(** What threads do, in the order they do it: the two log lines around a task,
    the call itself, the join of a thread, and when a task is put into the pool
    and taken out, which the program does not record. *)
Inductive event :=
  | Pushed (j : job) | Popped (j : job)
  | Starting (task_id : Z) | Called (j : job) | Finished (task_id : Z)
  | Joined (w : tid).
#[export] Instance event_eq_dec : EqDecision event.
Proof. solve_decision. Defined.

(** The process: the structs, the mutex and the condition variable of each pool,
    the arguments of the threads that were created, those that returned, the
    trace, the answers of [malloc] and [pthread_create], and what is found in
    memory that was not written. *)
Record pstate := PState {
  pools : mem threadpool_t;
  tasks : mem task_t;
  arrays : mem pthreads;
  monitors : gmap positive monitor;
  created : list ptr;
  returned : list tid;
  trace : list (tid * event);
  panswers : list bool;
  creations : list bool;
  garbage : Z;
}.

Ltac pstate_instance := intros; repeat match goal with s : pstate |- _ => destruct s end; reflexivity.
#[export] Instance pools_heap : Heap pstate threadpool_t.
Proof.
  refine {| heap := pools; set_heap m s := PState m (tasks s) (arrays s) (monitors s) (created s)
    (returned s) (trace s) (panswers s) (creations s) (garbage s) |}; pstate_instance.
Defined.
#[export] Instance tasks_heap : Heap pstate task_t.
Proof.
  refine {| heap := tasks; set_heap m s := PState (pools s) m (arrays s) (monitors s) (created s)
    (returned s) (trace s) (panswers s) (creations s) (garbage s) |}; pstate_instance.
Defined.
#[export] Instance arrays_heap : Heap pstate pthreads.
Proof.
  refine {| heap := arrays; set_heap m s := PState (pools s) (tasks s) m (monitors s) (created s)
    (returned s) (trace s) (panswers s) (creations s) (garbage s) |}; pstate_instance.
Defined.
#[export] Instance pstate_oom : Oom pstate.
Proof.
  refine {| oom := panswers; set_oom o s := PState (pools s) (tasks s) (arrays s) (monitors s) (created s)
    (returned s) (trace s) o (creations s) (garbage s) |}; pstate_instance.
Defined.

Definition set_monitors y s := PState (pools s) (tasks s) (arrays s) y (created s)
  (returned s) (trace s) (panswers s) (creations s) (garbage s).
Definition set_trace y s := PState (pools s) (tasks s) (arrays s) (monitors s) (created s)
  (returned s) y (panswers s) (creations s) (garbage s).
Definition set_returned y s := PState (pools s) (tasks s) (arrays s) (monitors s) (created s)
  y (trace s) (panswers s) (creations s) (garbage s).

(** * Operations *)

Definition on_monitor (p : ptr) (m : C monitor unit) : C pstate unit :=
  lift_act monitors set_monitors (at_ptr p m).
Definition record (e : event) : C pstate unit := λ t s,
  Ok tt (set_trace (trace s ++ [(t, e)]) s).

Definition pthread_mutex_lock (pool : ptr) : prog pstate unit := atomic (on_monitor pool monitor_lock).
Definition pthread_mutex_unlock (pool : ptr) : prog pstate unit := atomic (on_monitor pool monitor_unlock).
Definition pthread_cond_wait (pool : ptr) : prog pstate unit :=
  atomic (on_monitor pool (cond_enter 0));;
  atomic (on_monitor pool (cond_block 0));;
  pthread_mutex_lock pool.
Definition pthread_cond_signal (pool : ptr) : prog pstate unit := atomic (on_monitor pool (cond_signal 0)).
Definition pthread_cond_broadcast (pool : ptr) : prog pstate unit := atomic (on_monitor pool (cond_broadcast 0)).

(** [p->field] *)
Definition pool_get {A} (p : ptr) (field : threadpool_t → A) : prog pstate A :=
  Act (load threadpool_t p) (λ n, Ret (field n)).
Definition pool_set (p : ptr) (f : threadpool_t → threadpool_t) : prog pstate unit :=
  atomic (update threadpool_t p f).
Definition task_get {A} (p : ptr) (field : task_t → A) : prog pstate A :=
  Act (load task_t p) (λ n, Ret (field n)).

(** [logssi ("POOL", ...)], and the call of a task's function *)
Definition logssi (e : event) : prog pstate unit := atomic (record e).
Definition call (j : job) : prog pstate unit := atomic (record (Called j)).

(** The end of a thread *)
Definition thread_return : prog pstate unit :=
  atomic (λ t s, Ok tt (set_returned (t :: returned s) s)).

(** [while (pool->queue_size == 0 && !pool->stop) pthread_cond_wait (...)] *)
Definition wait_task (pool : ptr) : prog pstate unit :=
  Loop (λ _ : unit,
    size ← pool_get pool queue_size;
    if decide (size = 0)%Z then
      st ← pool_get pool stop;
      if decide (st = 0)%Z then pthread_cond_wait pool;; mret (inl tt) else mret (inr tt)
    else mret (inr tt)) tt Ret.

(** [pool->last_task = task->prev] *)
Definition pop_task (pool task : ptr) (p : ptr) : C pstate unit :=
  update threadpool_t pool (set_last_task p);;
  k ← load task_t task;
  record (Popped (job_of k)).

(** One round of the worker's loop; right when it is to end *)
Definition worker_round (pool : ptr) : prog pstate (unit + unit) :=
  pthread_mutex_lock pool;;
  wait_task pool;;
  st ← pool_get pool stop;
  if decide (st ≠ 0)%Z then pthread_mutex_unlock pool;; mret (inr tt) else
  task ← pool_get pool last_task;
  size ← pool_get pool queue_size;
  size' ← atomic (signed_add INT_MAX size (-1));
  pool_set pool (set_queue_size size');;
  p ← task_get task prev;
  atomic (pop_task pool task p);;
  pthread_mutex_unlock pool;;
  i ← task_get task id;
  logssi (Starting i);;
  f ← task_get task function;
  a ← task_get task argument;
  call (f, a);;
  i' ← task_get task id;
  logssi (Finished i');;
  mret (inl tt).

Definition worker (pool : ptr) : prog pstate unit :=
  Loop (λ _ : unit, worker_round pool) tt (λ _ : unit, thread_return).

(** [pthread_create (&ths[i], NULL, worker, arg)]: whether it fails *)
Definition pthread_create (ths : ptr) (i : nat) (arg : ptr) : C pstate bool :=
  ok ← (λ _ s, Ok (default true (head (creations s)))
          (PState (pools s) (tasks s) (arrays s) (monitors s) (created s)
             (returned s) (trace s) (panswers s) (tl (creations s)) (garbage s)));
  if (ok : bool) then
    a ← load pthreads ths;
    w ← gets (λ s, length (created s));
    if decide (i < length (slots a)) then
      update pthreads ths (λ a, PThreads (<[i := Some w]> (slots a)));;
      modify (λ s, PState (pools s) (tasks s) (arrays s) (monitors s) (created s ++ [arg])
             (returned s) (trace s) (panswers s) (creations s) (garbage s));;
      mret false
    else fail OutOfBounds
  else mret true.

(** [for (i = 0; i < MAX_THREADS; i++)], a failure being reported only *)
Definition create_workers (pool : ptr) : C pstate unit :=
  foldr (λ i rest,
    p ← load threadpool_t pool;
    _ ← pthread_create (threads p) i pool;
    rest) (mret tt) (seq 0 MAX_THREADS).

(** [malloc (sizeof(pthread_t) * n)]; the size of a negative [n] is one no
    allocator has. *)
Definition malloc_threads (n : Z) : C pstate ptr :=
  if decide (n < 0)%Z then mret NULL
  else malloc pthreads (PThreads (replicate (Z.to_nat n) None)).

Definition init_threadpool (n : Z) : C pstate ptr :=
  g ← gets garbage;
  pool ← malloc threadpool_t (Pool g g g NULL NULL);
  match pool with
  | None => mret NULL
  | Some _ =>
      ths ← malloc_threads n;
      update threadpool_t pool (set_threads ths);;
      match ths with
      | None => free threadpool_t pool;; mret NULL
      | Some _ =>
          update threadpool_t pool (set_queue_size 0);;
          update threadpool_t pool (set_stop 0);;
          update threadpool_t pool (set_last_task NULL);;
          lift_act monitors set_monitors (init_at pool (Monitor None [[]]));;
          create_workers pool;;
          mret pool
      end
  end.

(** The new task; it is nobody else's yet and the mutex is held, so its
    assignments, and that of the sequence, are one action. *)
Definition new_task (pool : ptr) (f a : Z) : C pstate ptr :=
  new_last_task ← malloc task_t (Task 0 0 0 NULL NULL);
  update task_t new_last_task (set_function f);;
  update task_t new_last_task (set_argument a);;
  update task_t new_last_task (set_next NULL);;
  p ← load threadpool_t pool;
  update task_t new_last_task (set_prev (last_task p));;
  x ← signed_add INT_MAX (id_sequence p) 1;
  update threadpool_t pool (set_id_sequence x);;
  update task_t new_last_task (set_id (id_sequence p));;
  mret new_last_task.

(** [pool->last_task = new_last_task] *)
Definition put_task (pool new : ptr) (j : job) : C pstate unit :=
  update threadpool_t pool (set_last_task new);;
  record (Pushed j).

Definition threadpool_push_task (pool : ptr) (f a : Z) : prog pstate unit :=
  pthread_mutex_lock pool;;
  new_last_task ← atomic (new_task pool f a);
  lst ← pool_get pool last_task;
  match lst with
  | None => mret tt
  | Some _ => atomic (update task_t lst (set_next new_last_task))
  end;;
  atomic (put_task pool new_last_task (f, a));;
  size ← pool_get pool queue_size;
  size' ← atomic (signed_add INT_MAX size 1);
  pool_set pool (set_queue_size size');;
  pthread_cond_signal pool;;
  pthread_mutex_unlock pool.

(** [pthread_join (ths[i], NULL)] *)
Definition pthread_join (ths : ptr) (i : nat) : C pstate unit :=
  a ← load pthreads ths;
  match slots a !! i with
  | None => fail OutOfBounds
  | Some None => fail Uninit
  | Some (Some w) =>
      r ← gets returned;
      if decide (w ∈ r) then record (Joined w) else wait
  end.

Definition join_workers (pool : ptr) : prog pstate unit :=
  foldr (λ i rest,
    ths ← pool_get pool threads;
    atomic (pthread_join ths i);;
    rest) (mret tt) (seq 0 MAX_THREADS).

(** [while (current != NULL)] *)
Definition free_tasks (current : ptr) : prog pstate unit :=
  Loop (λ current : ptr,
    match current with
    | None => mret (inr tt)
    | Some _ =>
        tmp ← task_get current prev;
        atomic (free task_t current);;
        mret (inl tmp)
    end) current Ret.

(** The mutex and the condition variable are part of the pool. *)
Definition destroy_threadpool (pool : ptr) : prog pstate unit :=
  pthread_mutex_lock pool;;
  pool_set pool (set_stop 1);;
  pthread_cond_broadcast pool;;
  pthread_mutex_unlock pool;;
  join_workers pool;;
  current ← pool_get pool last_task;
  free_tasks current;;
  atomic (free threadpool_t pool;; lift_act monitors set_monitors (free_at pool)).

(** * The threads *)

(** A thread that pushes jobs one after the other *)
Definition push_all (pool : ptr) (js : list job) : prog pstate unit :=
  foldr (λ '(f, a) rest, threadpool_push_task pool f a;; rest) (mret tt) js.

(** The system may wake worker [w] for no reason, at any time. *)
Definition spurious_wakeup (pool : ptr) (w : tid) : prog pstate unit :=
  forever (λ _ : unit, atomic (λ _ s, Ok tt (set_monitors
    (match pool with
     | Some l => alter (λ m, Monitor (held m) (filter (λ i, i ≠ w) <$> waiting m)) l (monitors s)
     | None => monitors s
     end) s))) tt.

(** The threads created for the pool, [clients], and the system *)
Definition pool_threads (s : pstate) (pool : ptr) (clients : list (prog pstate unit)) : list (prog pstate unit) :=
  (worker <$> created s) ++ clients ++ (spurious_wakeup pool <$> seq 0 (length (created s))).

(** At the start: the script of malloc is empty, which is that it never fails. *)
Definition pstart (g : Z) : pstate := PState mem_empty mem_empty mem_empty ∅ [] [] [] [] [] g.

(** * What a trace says *)

Definition by_thread (i : tid) (tr : list (tid * event)) : list event :=
  omap (λ '(t, e), if decide (t = i) then Some e else None) tr.
Definition pushes (es : list event) : list job := omap (λ e, match e with Pushed j => Some j | _ => None end) es.
Definition pops (es : list event) : list job := omap (λ e, match e with Popped j => Some j | _ => None end) es.
Definition calls (es : list event) : list job := omap (λ e, match e with Called j => Some j | _ => None end) es.

(** The pool as a stack: what the pushes and pops leave of [st] *)
Fixpoint replay (es : list event) (st : list job) : option (list job) :=
  match es with
  | [] => Some st
  | Pushed j :: es' => replay es' (j :: st)
  | Popped j :: es' =>
      match st with
      | j' :: st' => if decide (j = j') then replay es' st' else None
      | [] => None
      end
  | _ :: es' => replay es' st
  end.
Definition stack (s : pstate) : option (list job) := replay (snd <$> trace s) [].

Definition on_stack (e : event) : Prop := match e with Pushed _ | Popped _ => True | _ => False end.
#[export] Instance on_stack_dec e : Decision (on_stack e).
Proof. destruct e; apply _. Defined.
Definition history (s : pstate) : list event := filter on_stack (snd <$> trace s).

Lemma replay_app es1 es2 st : replay (es1 ++ es2) st = replay es1 st ≫= replay es2.
Proof.
  revert st. induction es1 as [|e es1 IH]; intros st; [done|].
  destruct e; simpl; [apply IH|destruct st; [done|]; case_decide; [apply IH|done]|apply IH..].
Qed.
Lemma replay_filter es st : replay (filter on_stack es) st = replay es st.
Proof.
  revert st. induction es as [|e es IH]; intros st; [done|].
  destruct e; rewrite filter_cons; first [rewrite decide_True by done|rewrite decide_False by (by intros [])];
    simpl; [apply IH|destruct st; [done|]; case_decide; [apply IH|done]|apply IH..].
Qed.
Lemma pushes_app es1 es2 : pushes (es1 ++ es2) = pushes es1 ++ pushes es2.
Proof. apply omap_app. Qed.
Lemma pops_app es1 es2 : pops (es1 ++ es2) = pops es1 ++ pops es2.
Proof. apply omap_app. Qed.
Lemma calls_app es1 es2 : calls (es1 ++ es2) = calls es1 ++ calls es2.
Proof. apply omap_app. Qed.
Lemma pushes_filter es : pushes (filter on_stack es) = pushes es.
Proof.
  induction es as [|e es IH]; [done|]. unfold pushes in *. destruct e; rewrite filter_cons;
    first [rewrite decide_True by done|rewrite decide_False by (by intros [])]; simpl; first [exact IH|by f_equal].
Qed.
Lemma pops_filter es : pops (filter on_stack es) = pops es.
Proof.
  induction es as [|e es IH]; [done|]. unfold pops in *. destruct e; rewrite filter_cons;
    first [rewrite decide_True by done|rewrite decide_False by (by intros [])]; simpl; first [exact IH|by f_equal].
Qed.

(** What was pushed was popped or is still there. *)
Lemma replay_perm es st st' : replay es st = Some st' → pushes es ++ st ≡ₚ pops es ++ st'.
Proof.
  revert st. induction es as [|e es IH]; intros st; cbn; [by intros [= ->]|].
  destruct e as [j|j| | | |]; try exact (IH st).
  - intros Hr. specialize (IH _ Hr). fold (pushes es) (pops es). rewrite <-IH.
    apply Permutation_middle.
  - destruct st as [|j' st]; [done|]. case_decide; [subst j'|done]. intros Hr. specialize (IH _ Hr).
    fold (pushes es) (pops es). simpl. rewrite <-IH. symmetry. apply Permutation_middle.
Qed.

Lemma by_thread_app i tr1 tr2 : by_thread i (tr1 ++ tr2) = by_thread i tr1 ++ by_thread i tr2.
Proof. apply omap_app. Qed.
Lemma by_thread_own i es : by_thread i ((i,.) <$> es) = es.
Proof. induction es as [|e es IH]; [done|]. cbn. rewrite decide_True by done. f_equal. apply IH. Qed.
Lemma by_thread_other i j es : j ≠ i → by_thread i ((j,.) <$> es) = [].
Proof. intros Hj. induction es as [|e es IH]; [done|]. cbn. rewrite decide_False by done. apply IH. Qed.
Lemma elem_of_by_thread i e tr : e ∈ by_thread i tr ↔ (i, e) ∈ tr.
Proof.
  unfold by_thread. rewrite list_elem_of_omap. split.
  - intros ([t e'] & Hin & He). case_decide; simplify_eq. done.
  - intros Hin. exists (i, e). by rewrite decide_True.
Qed.

(** A trace is made of what its threads do. *)
Lemma by_thread_perm {A} (f : event → option A) tr N : Forall (λ p, fst p < N) tr →
  omap f (snd <$> tr) ≡ₚ mjoin ((λ i, omap f (by_thread i tr)) <$> seq 0 N).
Proof.
  induction 1 as [|[t e] tr Ht _ IH].
  { simpl. by induction (seq 0 N). }
  simpl in Ht. set (g es i := omap f (by_thread i es)).
  change (omap f (snd <$> tr) ≡ₚ mjoin (g tr <$> seq 0 N)) in IH.
  change (omap f ([e] ++ (snd <$> tr)) ≡ₚ mjoin (g ((t, e) :: tr) <$> seq 0 N)).
  assert (∀ ns : list nat, t ∉ ns → g ((t, e) :: tr) <$> ns = g tr <$> ns) as Hns.
  { intros ns Hns. apply list_fmap_ext. intros k i Hi. unfold g. cbn. rewrite decide_False; [done|].
    intros ->. apply Hns. by eapply list_elem_of_lookup_2. }
  replace N with (t + (1 + (N - t - 1))) in IH |- * by lia.
  rewrite !seq_app, !fmap_app, !join_app in IH |- *. rewrite (Hns (seq 0 t)), (Hns (seq (0 + t + 1) _)) by (rewrite elem_of_seq; lia).
  rewrite omap_app, IH. assert (g ((t, e) :: tr) <$> seq (0 + t) 1 = [omap f [e] ++ g tr t]) as ->.
  { unfold g. simpl. rewrite decide_True by done. simpl. by destruct (f e). }
  change (mjoin (g tr <$> seq (0 + t) 1)) with (g tr t ++ []).
  change (mjoin [omap f [e] ++ g tr t]) with ((omap f [e] ++ g tr t) ++ []).
  rewrite !app_nil_r, <-!app_assoc. generalize (omap f [e]) (g tr t). intros l1 l2. solve_Permutation.
Qed.

(** * Invariant, rely and guarantee *)

(** The tasks [ls] of the pool [P], the last one first, are what the history
    leaves on the stack; no task is freed. *)
Record consistent (P : threadpool_t) (T : mem task_t) (h : list event) (ls : list positive) : Prop := {
  c_chain : chain prev (cells T) (last_task P) ls NULL;
  c_size : queue_size P = Z.of_nat (length ls);
  c_stack : replay h [] = Some (job_of <$> nodes (cells T) ls);
  c_count : size (cells T) = length (pushes h);
}.

(** The pool at [l], its threads in the array [ar]: the workers are the threads
    below [n], those that push the ones from [n] to [N]; [D] is the thread that
    destroys the pool, if any: then it is the only one that pushes. Thread [i]
    pushes the jobs [jobs i]. *)
Section pool.
Context (l ar : positive) (n N : nat) (D : option tid) (jobs : tid → list job).
Context (n_pos : 0 < n) (n_le : n ≤ N) (only_client : ∀ d, D = Some d → d = n ∧ N = S n).
Context (no_jobs : ∀ w, w < n → jobs w = []).
Implicit Types (s : pstate) (es : list event) (i : tid).

Definition owner s : option tid := monitors s !! l ≫= held.
Definition waiters s : list tid :=
  match monitors s !! l with Some m => default [] (head (waiting m)) | None => [] end.
Definition own i s : list event := by_thread i (trace s).
Definition pool_at s : option threadpool_t := cells (pools s) !! l.
Definition all_returned s : Prop := ∀ w, w < n → w ∈ returned s.
(** All workers are joined: the pool is about to be freed. *)
Definition torn s : Prop := ∀ w, w < n → ∃ t, (t, Joined w) ∈ trace s.

(** Pending tasks have a worker that does not wait, and none waits once the pool
    is stopped. *)
Definition awake (P : threadpool_t) (ls : list positive) (W : list tid) : Prop :=
  (stop P = 0%Z → ls ≠ [] → ∃ w, w < n ∧ w ∉ W) ∧ (stop P ≠ 0%Z → W = []).

Record inv s : Prop := {
  i_pool : match pool_at s with
           | Some P => threads P = Some ar ∧ (stop P = 0%Z ∨ D ≠ None) ∧ ∃ h W, monitors s !! l = Some (Monitor h [W])
           | None => D ≠ None ∧ all_returned s ∧ monitors s !! l = None
           end;
  i_waiters : NoDup (waiters s) ∧ ∀ w, w ∈ waiters s → w < n;
  i_owner : ∀ j, owner s = Some j → j < N ∧ (j ∉ waiters s) ∧ j ∉ returned s;
  i_free : owner s = None → ¬ torn s → ∀ P, pool_at s = Some P →
    ∃ ls, consistent P (tasks s) (history s) ls ∧ awake P ls (waiters s);
  i_array : cells (arrays s) !! ar = Some (PThreads (Some <$> seq 0 n));
  i_oom : panswers s = [];
  i_joined : ∀ t w, (t, Joined w) ∈ trace s → D = Some t ∧ w ∈ returned s;
  i_threads : Forall (λ p, fst p < N) (trace s);
}.

Definition tasks_kept s s' : Prop := ∀ k nd, cells (tasks s) !! k = Some nd →
  ∃ nd', cells (tasks s') !! k = Some nd' ∧ job_of nd' = job_of nd.
Definition same_core s s' : Prop := pools s' = pools s ∧ tasks s' = tasks s ∧ history s' = history s.

Record rely (i : tid) s s' : Prop := {
  r_hold : owner s = Some i → owner s' = Some i ∧ same_core s s' ∧ waiters s' ⊆ waiters s;
  r_own : own i s' = own i s;
  r_owner : owner s' = Some i → owner s = Some i;
  r_run : i ∉ waiters s → i ∉ waiters s';
  r_mono : returned s ⊆ returned s';
  r_ret : i ∉ returned s → i ∉ returned s';
  r_tasks : i < n → i ∉ returned s → tasks_kept s s';
  r_done : D = Some i → all_returned s → same_core s s';
  r_stop : D = Some i → stop <$> pool_at s' = stop <$> pool_at s;
}.

(** Between two tasks: everything taken was called; a worker pushes nothing. *)
Definition resting i es : Prop := pops es = calls es ∧ (i < n → pushes es = []).
Definition idle i s : Prop := resting i (own i s).

(** Once the pool is gone: what is left of the tasks are those that were taken. *)
Definition destroyed s : Prop := pool_at s = None ∧ all_returned s ∧
  ∃ js, replay (history s) [] = Some js ∧ size (cells (tasks s)) + length js = length (pushes (history s)).

Definition waits i s : Prop := idle i s ∧
  ((∃ j, owner s = Some j ∧ j ≠ i) ∨ i ∈ waiters s ∨
   D = Some i ∧ owner s ≠ Some i ∧ (∃ w, w < n ∧ w ∉ returned s) ∧ ∀ P, pool_at s = Some P → stop P ≠ 0%Z).
Definition ends i s : Prop := i < N → idle i s ∧ owner s ≠ Some i ∧ pushes (own i s) = jobs i ∧
  (i < n → D ≠ None ∧ i ∈ returned s) ∧ (D = Some i → destroyed s).

Lemma tasks_kept_refl s : tasks_kept s s.
Proof. intros k nd Hk. by exists nd. Qed.
Lemma tasks_kept_trans s1 s2 s3 : tasks_kept s1 s2 → tasks_kept s2 s3 → tasks_kept s1 s3.
Proof.
  intros H1 H2 k nd Hk. destruct (H1 k nd Hk) as (nd' & Hk' & <-).
  destruct (H2 k nd' Hk') as (nd'' & Hk'' & <-). by exists nd''.
Qed.

#[local] Program Instance pool_rg : RG pstate := {|
  I := inv; R := rely; okf e := e = Overflow; wt := waits; fin := ends;
|}.
Next Obligation. intros i s. by split; try done; intros; apply tasks_kept_refl. Qed.
Next Obligation.
  intros i s1 s2 s3 [H1 H2 H3 H4 H5 H6 H7 H8 H9] [K1 K2 K3 K4 K5 K6 K7 K8 K9].
  split.
  - intros Ho. destruct (H1 Ho) as (Ho2 & (E1 & E2 & E3) & E4). destruct (K1 Ho2) as (Ho3 & (F1 & F2 & F3) & F4).
    split; [done|]. split; [|by etransitivity]. unfold same_core. by rewrite F1, F2, F3.
  - by rewrite K2.
  - auto.
  - auto.
  - by etransitivity.
  - auto.
  - intros Hi Hr. eapply tasks_kept_trans; [by apply H7|]. apply K7; auto.
  - intros HD Ha. destruct (H8 HD Ha) as (E1 & E2 & E3).
    destruct (K8 HD) as (F1 & F2 & F3); [intros w Hw; by apply H5, Ha|].
    unfold same_core. by rewrite F1, F2, F3.
  - intros HD. by rewrite K9, H9.
Qed.

(** ** What a thread knows *)

(** Thread [i] did [es] so far and holds the mutex: the pool is [P], the tasks
    [T], the history [h]; at most the threads [W] wait. *)
Record inside i es (P : threadpool_t) (T : mem task_t) (h : list event) (W : list tid) s : Prop := {
  in_owner : owner s = Some i;
  in_pool : pool_at s = Some P;
  in_tasks : tasks s = T;
  in_history : history s = h;
  in_waiters : waiters s ⊆ W;
  in_own : own i s = es;
  in_ret : i ∉ returned s;
}.
(** Thread [i] does not hold the mutex; if it is to destroy the pool, the pool is
    there and its [stop] is [x]. *)
Record outside i es (x : Z) s : Prop := {
  out_owner : owner s ≠ Some i;
  out_run : i ∉ waiters s;
  out_own : own i s = es;
  out_ret : i ∉ returned s;
  out_stop : D = Some i → stop <$> pool_at s = Some x;
}.

Lemma inside_rely i es P T h W s s' : inside i es P T h W s → rely i s s' → inside i es P T h W s'.
Proof.
  intros [H1 H2 H3 H4 H5 H6 H7] HR. destruct (r_hold _ _ _ HR H1) as (? & (Hp & Ht & Hh) & ?).
  split; [done| |congruence..| | |by apply (r_ret _ _ _ HR)].
  - unfold pool_at. by rewrite Hp.
  - by etransitivity.
  - by rewrite (r_own _ _ _ HR).
Qed.
Lemma outside_rely i es x s s' : outside i es x s → rely i s s' → outside i es x s'.
Proof.
  intros [H1 H2 H3 H4 H5] HR. split.
  - intros ?%(r_owner _ _ _ HR). done.
  - by apply (r_run _ _ _ HR).
  - by rewrite (r_own _ _ _ HR).
  - by apply (r_ret _ _ _ HR).
  - intros HD. rewrite (r_stop _ _ _ HR) by done. auto.
Qed.

(** The pool is there as long as thread [i] uses it. *)
Lemma outside_present i es x s : inv s → i < N → outside i es x s →
  ∃ P h W, pool_at s = Some P ∧ threads P = Some ar ∧ (D = Some i → stop P = x) ∧
    monitors s !! l = Some (Monitor h [W]).
Proof.
  intros HI Hi Hout. pose proof (i_pool _ HI) as Hp. pose proof (out_stop _ _ _ _ Hout) as Hs.
  destruct (pool_at s) as [P|].
  - destruct Hp as (? & _ & h & W & ?). exists P, h, W. split_and!; try done. intros HD. by injection (Hs HD).
  - destruct Hp as (HD & Hall & _). exfalso. destruct D as [d|]; [|done].
    destruct (only_client d eq_refl) as [-> HN]. destruct (decide (i = n)) as [->|]; [by specialize (Hs eq_refl)|].
    apply (out_ret _ _ _ _ Hout), Hall. lia.
Qed.

Lemma not_torn i s : inv s → i < N → i ∉ returned s → (∀ w, Joined w ∉ own i s) → ¬ torn s.
Proof.
  intros HI Hi Hr Hj Ht. destruct (Ht 0 n_pos) as [t Htr]. destruct (i_joined _ HI _ _ Htr) as [HD _].
  destruct (only_client t HD) as [-> HN]. destruct (decide (i = n)) as [->|].
  - apply (Hj 0). by apply elem_of_by_thread.
  - destruct (Ht i) as [t' Ht']; [lia|]. by destruct (i_joined _ HI _ _ Ht').
Qed.

Lemma joined_torn s : inv s → torn s → all_returned s.
Proof. intros HI Ht w Hw. destruct (Ht w Hw) as [t Htr]. by apply (i_joined _ HI t). Qed.

(** ** Steps of the thread that holds the mutex *)

Record frame i s s2 : Prop := {
  fr_monitors : monitors s2 = monitors s;
  fr_returned : returned s2 = returned s;
  fr_arrays : arrays s2 = arrays s;
  fr_oom : panswers s2 = panswers s;
  fr_trace : ∃ es, trace s2 = trace s ++ ((i,.) <$> es) ∧ ∀ w, Joined w ∉ es;
  fr_pool : ∃ P P2, pool_at s = Some P ∧ pool_at s2 = Some P2 ∧ threads P2 = threads P ∧
    (stop P2 = stop P ∨ D = Some i);
  fr_tasks : tasks_kept s s2;
}.

(** Events of thread [i] in a trace *)
Lemma no_event i s s2 : trace s2 = trace s → ∃ es, trace s2 = trace s ++ ((i,.) <$> es) ∧ ∀ w, Joined w ∉ es.
Proof. intros ->. exists []. split; [by rewrite app_nil_r|set_solver]. Qed.
Lemma trace_inv i s es tr : i < N → inv s → tr = trace s ++ ((i,.) <$> es) → (∀ w, Joined w ∉ es) →
  (∀ t w, (t, Joined w) ∈ tr → D = Some t ∧ w ∈ returned s) ∧ Forall (λ p, fst p < N) tr.
Proof.
  intros Hi HI -> Hj. split.
  - intros t w [?|Hin]%elem_of_app; [by apply (i_joined _ HI)|].
    apply list_elem_of_fmap in Hin as (e & [= _ <-] & Hin). by destruct (Hj w).
  - apply Forall_app. split; [apply (i_threads _ HI)|]. apply Forall_fmap. by apply Forall_true.
Qed.
Lemma own_other i j s s2 es : i ≠ j → trace s2 = trace s ++ ((i,.) <$> es) → own j s2 = own j s.
Proof. intros Hij Htr. unfold own. by rewrite Htr, by_thread_app, by_thread_other, app_nil_r by congruence. Qed.

Lemma frame_step i s s2 : i < N → inv s → owner s = Some i → i ∉ returned s → frame i s s2 →
  inv s2 ∧ ∀ j, j ≠ i → rely j s s2.
Proof.
  intros Hi HI Ho Hr [Hm Hret Har Hoom (es & Htr & Hj) (P & P2 & HP & HP2 & Hth & Hst) Htk].
  assert (owner s2 = owner s) as Ho2 by (unfold owner; by rewrite Hm).
  assert (waiters s2 = waiters s) as Hw2 by (unfold waiters; by rewrite Hm).
  destruct (trace_inv i s es _ Hi HI Htr Hj) as [Hj2 Hth2]. split.
  - pose proof (i_pool _ HI) as Hp. rewrite HP in Hp. destruct Hp as (? & Hs & ?). split.
    + rewrite HP2, Hm. split; [congruence|]. split; [|done]. destruct Hst as [->|HD]; [done|]. right. by rewrite HD.
    + rewrite Hw2. apply HI.
    + intros j. rewrite Ho2, Hw2, Hret. apply HI.
    + rewrite Ho2, Ho. done.
    + rewrite Har. apply HI.
    + rewrite Hoom. apply HI.
    + rewrite Hret. apply Hj2.
    + done.
  - intros j Hne. split; rewrite ?Ho2, ?Hw2, ?Hret; try done.
    + congruence.
    + by eapply own_other.
    + intros HD Hall. destruct (only_client j HD) as [-> HN]. destruct Hr. apply Hall. lia.
    + intros HD. rewrite HP, HP2. simpl. destruct Hst as [->|HDi]; [done|]. congruence.
Qed.

Lemma safe_inside {B} m0 i (m : C pstate B) k es P T h W s : i < N → inside i es P T h W s →
  (∀ s1, inside i es P T h W s1 → inv s1 →
    match m i s1 with
    | Ok b s2 => frame i s1 s2 ∧ safe m0 i (k b) s2
    | Blocked => False
    | Fault e => e = Overflow
    end) →
  safe (S m0) i (Act m k) s.
Proof.
  intros Hi Hin Hm. apply safe_act. intros s1 HI HR. pose proof (inside_rely _ _ _ _ _ _ _ _ Hin HR) as Hin1.
  specialize (Hm s1 Hin1 HI). destruct (m i s1) as [b s2| |e]; [|done..]. destruct Hm as [Hf Hs].
  destruct (frame_step i s1 s2 Hi HI (in_owner _ _ _ _ _ _ _ Hin1) (in_ret _ _ _ _ _ _ _ Hin1) Hf) as [HI2 HG].
  done.
Qed.

Lemma same_frame i s P : pool_at s = Some P → frame i s s.
Proof.
  intros HP. split; try done; [by apply no_event| |exact (tasks_kept_refl s)].
  exists P, P. auto.
Qed.

Lemma safe_pool_get {A} m0 i es P T h W s (field : threadpool_t → A) k : i < N → inside i es P T h W s →
  (∀ m s1, m ≤ m0 → inside i es P T h W s1 → safe m i (k (field P)) s1) →
  safe m0 i (pool_get (Some l) field ≫= k) s.
Proof.
  intros Hi Hin Hk. destruct m0 as [|m0]; [done|]. eapply safe_inside; [done|exact Hin|].
  intros s1 Hin1 _. rewrite (@load_ok _ _ pools_heap _ _ _ _ (in_pool _ _ _ _ _ _ _ Hin1)).
  split; [eapply same_frame, Hin1|]. apply Hk; [lia|done].
Qed.

Lemma safe_task_inside {A} m0 i es P T h W s (field : task_t → A) c nd k : i < N → inside i es P T h W s →
  cells T !! c = Some nd →
  (∀ m s1, m ≤ m0 → inside i es P T h W s1 → safe m i (k (field nd)) s1) →
  safe m0 i (task_get (Some c) field ≫= k) s.
Proof.
  intros Hi Hin Hc Hk. destruct m0 as [|m0]; [done|]. eapply safe_inside; [done|exact Hin|].
  intros s1 Hin1 _. rewrite <-(in_tasks _ _ _ _ _ _ _ Hin1) in Hc.
  rewrite (@load_ok _ _ tasks_heap _ _ _ _ Hc).
  split; [eapply same_frame, Hin1|]. apply Hk; [lia|done].
Qed.

Lemma safe_add_inside m0 i es P T h W s a b k : inside i es P T h W s →
  (∀ m s1, m ≤ m0 → inside i es P T h W s1 → safe m i (k (a + b)%Z) s1) →
  safe m0 i (atomic (signed_add INT_MAX a b) ≫= k) s.
Proof.
  intros Hin Hk. apply safe_signed_add; [done|]. intros m s1 Hm _ HR. apply Hk; [done|]. by eapply inside_rely.
Qed.

(** The state with other contents of the pool or of a task, and with one event
    more *)
Definition put_pool (P : threadpool_t) s : pstate := set_heap threadpool_t (mem_set l P (pools s)) s.
Definition put_task_at (c : positive) (nd : task_t) s : pstate := set_heap task_t (mem_set c nd (tasks s)) s.
Definition add_event i (e : event) s : pstate := set_trace (trace s ++ [(i, e)]) s.

Lemma own_event i e s : own i (add_event i e s) = own i s ++ [e].
Proof. unfold own. cbn [add_event set_trace trace]. rewrite by_thread_app. f_equal. exact (by_thread_own i [e]). Qed.
Lemma history_event i e s : history (add_event i e s) = history s ++ filter on_stack [e].
Proof. unfold history. cbn [add_event set_trace trace]. by rewrite fmap_app, filter_app. Qed.

Lemma inside_put_pool i es P P' T h W s : inside i es P T h W s → threads P' = threads P →
  stop P' = stop P ∨ D = Some i → inside i es P' T h W (put_pool P' s) ∧ frame i s (put_pool P' s).
Proof.
  intros [H1 H2 H3 H4 H5 H6 H7] Hth Hst.
  assert (pool_at (put_pool P' s) = Some P') as HP' by apply lookup_insert_eq. split; [by split|].
  split; try done; [by apply no_event| |exact (tasks_kept_refl s)].
  exists P, P'. done.
Qed.

Lemma safe_pool_set m0 i es P T h W s f k : i < N → inside i es P T h W s → threads (f P) = threads P →
  stop (f P) = stop P ∨ D = Some i →
  (∀ m s1, m ≤ m0 → inside i es (f P) T h W s1 → safe m i (k tt) s1) →
  safe m0 i (pool_set (Some l) f ≫= k) s.
Proof.
  intros Hi Hin Hth Hst Hk. destruct m0 as [|m0]; [done|]. eapply safe_inside; [done|exact Hin|].
  intros s1 Hin1 _. rewrite (@update_ok _ _ pools_heap _ _ _ _ _ (in_pool _ _ _ _ _ _ _ Hin1)).
  destruct (inside_put_pool _ _ _ _ _ _ _ _ Hin1 Hth Hst) as [Hin2 Hf]. split; [exact Hf|]. apply Hk; [lia|done].
Qed.

Lemma inside_put_task i es P T h W s c nd nd' : inside i es P T h W s → cells T !! c = Some nd →
  job_of nd' = job_of nd →
  inside i es P (mem_set c nd' T) h W (put_task_at c nd' s) ∧ frame i s (put_task_at c nd' s).
Proof.
  intros [H1 H2 H3 H4 H5 H6 H7] Hc Hj. subst T. split; [by split|].
  split; try done; [by apply no_event|by exists P, P; auto|].
  intros k x Hk. cbn. rewrite lookup_insert. case_decide as Hkc; [|by exists x]. subst k.
  exists nd'. split; [done|]. congruence.
Qed.

Lemma safe_task_set m0 i es P T h W s c nd f k : i < N → inside i es P T h W s → cells T !! c = Some nd →
  job_of (f nd) = job_of nd →
  (∀ m s1, m ≤ m0 → inside i es P (mem_set c (f nd) T) h W s1 → safe m i (k tt) s1) →
  safe m0 i (atomic (update task_t (Some c) f) ≫= k) s.
Proof.
  intros Hi Hin Hc Hj Hk. destruct m0 as [|m0]; [done|]. eapply safe_inside; [done|exact Hin|].
  intros s1 Hin1 _. assert (cells (tasks s1) !! c = Some nd) as Hc1 by (by rewrite (in_tasks _ _ _ _ _ _ _ Hin1)).
  rewrite (@update_ok _ _ tasks_heap _ _ _ _ _ Hc1).
  destruct (inside_put_task _ _ _ _ _ _ _ _ _ _ Hin1 Hc Hj) as [Hin2 Hf]. split; [exact Hf|]. apply Hk; [lia|done].
Qed.

Lemma inside_event i es P T h W s e : (∀ w, e ≠ Joined w) → inside i es P T h W s →
  inside i (es ++ [e]) P T (h ++ filter on_stack [e]) W (add_event i e s) ∧ frame i s (add_event i e s).
Proof.
  intros He [H1 H2 H3 H4 H5 H6 H7]. split.
  - split; try done; [by rewrite history_event, H4|by rewrite own_event, H6].
  - split; try done; [|by exists P, P; auto|exact (tasks_kept_refl s)].
    exists [e]. split; [done|]. intros w. rewrite list_elem_of_singleton. intros <-. by apply (He w).
Qed.

Lemma frame_trans i s1 s2 s3 : frame i s1 s2 → frame i s2 s3 → frame i s1 s3.
Proof.
  intros [A1 A2 A3 A4 (es & A5 & A6) (P & P2 & A7 & A8 & A9 & A10) A11]
    [B1 B2 B3 B4 (es' & B5 & B6) (Q & Q2 & B7 & B8 & B9 & B10) B11].
  split; [congruence..| | |by eapply tasks_kept_trans].
  - exists (es ++ es'). rewrite B5, A5, fmap_app, app_assoc. split; [done|]. set_solver.
  - exists P, Q2. assert (P2 = Q) as -> by congruence. split_and!; try done; [congruence|].
    destruct A10 as [<-|]; [|by right]. done.
Qed.

Lemma safe_put_task m0 i es P T h W s new j k : i < N → inside i es P T h W s →
  (∀ m s1, m ≤ m0 → inside i (es ++ [Pushed j]) (set_last_task new P) T (h ++ [Pushed j]) W s1 → safe m i (k tt) s1) →
  safe m0 i (atomic (put_task (Some l) new j) ≫= k) s.
Proof.
  intros Hi Hin Hk. destruct m0 as [|m0]; [done|]. eapply safe_inside; [done|exact Hin|].
  intros s1 Hin1 _. unfold put_task.
  rewrite (bind_ok _ _ _ _ _ _ (@update_ok _ _ pools_heap _ _ (set_last_task new) i _ (in_pool _ _ _ _ _ _ _ Hin1))).
  destruct (inside_put_pool _ _ _ (set_last_task new P) _ _ _ _ Hin1) as [Hin2 Hf2]; [done|by left|].
  destruct (inside_event _ _ _ _ _ _ _ (Pushed j) ltac:(done) Hin2) as [Hin3 Hf3].
  split; [exact (frame_trans _ _ _ _ Hf2 Hf3)|]. apply Hk; [lia|exact Hin3].
Qed.

Lemma safe_pop_task m0 i es P T h W s c nd p k : i < N → inside i es P T h W s → cells T !! c = Some nd →
  (∀ m s1, m ≤ m0 → inside i (es ++ [Popped (job_of nd)]) (set_last_task p P) T (h ++ [Popped (job_of nd)]) W s1 →
     safe m i (k tt) s1) →
  safe m0 i (atomic (pop_task (Some l) (Some c) p) ≫= k) s.
Proof.
  intros Hi Hin Hc Hk. destruct m0 as [|m0]; [done|]. eapply safe_inside; [done|exact Hin|].
  intros s1 Hin1 _. unfold pop_task.
  rewrite (bind_ok _ _ _ _ _ _ (@update_ok _ _ pools_heap _ _ (set_last_task p) i _ (in_pool _ _ _ _ _ _ _ Hin1))).
  destruct (inside_put_pool _ _ _ (set_last_task p P) _ _ _ _ Hin1) as [Hin2 Hf2]; [done|by left|].
  assert (cells (tasks (put_pool (set_last_task p P) s1)) !! c = Some nd) as Hc1
    by (by rewrite (in_tasks _ _ _ _ _ _ _ Hin2)).
  rewrite (bind_ok _ _ _ _ _ _ (@load_ok _ _ tasks_heap _ _ i _ Hc1)).
  destruct (inside_event _ _ _ _ _ _ _ (Popped (job_of nd)) ltac:(done) Hin2) as [Hin3 Hf3].
  split; [exact (frame_trans _ _ _ _ Hf2 Hf3)|]. apply Hk; [lia|exact Hin3].
Qed.

Lemma safe_new_task m0 i es P T h W s f a k : i < N → inside i es P T h W s →
  (∀ m s1, m ≤ m0 →
     inside i es (set_id_sequence (id_sequence P + 1) P)
       (mem_alloc (Task (id_sequence P) f a NULL (last_task P)) T) h W s1 →
     safe m i (k (Some (fresh_loc T))) s1) →
  safe m0 i (atomic (new_task (Some l) f a) ≫= k) s.
Proof.
  intros Hi Hin Hk. destruct m0 as [|m0]; [done|]. eapply safe_inside; [done|exact Hin|].
  intros s1 Hin1 HI. pose proof Hin1 as [H1 H2 H3 H4 H5 H6 H7]. unfold new_task.
  pose proof (i_oom _ HI) as Hoom. destruct s1 as [po ta ar1 mo cr re tr an cn g]. cbn in Hoom, H3. subst an ta.
  set (c := fresh_loc T).
  assert (∀ nd po1, malloc task_t nd i (PState po1 T ar1 mo cr re tr [] cn g) =
    Ok (Some c) (PState po1 (mem_alloc nd T) ar1 mo cr re tr [] cn g)) as Hmalloc by done.
  rewrite (bind_ok _ _ _ _ _ _ (Hmalloc _ _)).
  assert (∀ nd po1 g1, update task_t (Some c) g1 i (PState po1 (mem_alloc nd T) ar1 mo cr re tr [] cn g) =
    Ok tt (PState po1 (mem_alloc (g1 nd) T) ar1 mo cr re tr [] cn g)) as Hupd.
  { intros nd po1 g1. rewrite (@update_ok _ _ tasks_heap _ nd) by (cbn; apply lookup_insert_eq). cbn.
    unfold c. by rewrite mem_set_alloc. }
  do 3 rewrite (bind_ok _ _ _ _ _ _ (Hupd _ _ _)).
  erewrite bind_ok by (apply (@load_ok _ _ pools_heap l P); exact H2).
  rewrite (bind_ok _ _ _ _ _ _ (Hupd _ _ _)).
  unfold signed_add. case_decide as Hov; [|done]. erewrite bind_ok by reflexivity.
  erewrite bind_ok by (apply (@update_ok _ _ pools_heap l P); exact H2).
  cbn [set_heap pools_heap pools tasks arrays monitors created returned trace panswers creations garbage].
  rewrite (bind_ok _ _ _ _ _ _ (Hupd _ _ _)). unfold mret, C_ret. split.
  - split; try done; [by apply no_event| |].
    + exists P, (set_id_sequence (id_sequence P + 1) P). split; [done|]. split; [apply lookup_insert_eq|]. by auto.
    + intros k0 nd Hk0. exists nd. split; [|done]. cbn. fold c. rewrite lookup_insert_ne; [done|].
      intros <-. cbn in Hk0. pose proof (fresh_loc_none T). unfold c in Hk0. congruence.
  - apply Hk; [lia|]. split; try done. apply lookup_insert_eq.
Qed.

(** ** Steps on the mutex and the condition variable *)

Definition put_monitor (h : mutex) (W : list tid) s : pstate :=
  set_monitors (<[l := Monitor h [W]]> (monitors s)) s.

Lemma owner_put h W s : owner (put_monitor h W s) = h.
Proof. unfold owner. cbn. by rewrite lookup_insert_eq. Qed.
Lemma waiters_put h W s : waiters (put_monitor h W s) = W.
Proof. unfold waiters. cbn. by rewrite lookup_insert_eq. Qed.

Lemma monitor_step i s h W : inv s → is_Some (pool_at s) →
  NoDup W → (∀ w, w ∈ W → w < n) → (∀ j, h = Some j → j < N ∧ (j ∉ W) ∧ j ∉ returned s) →
  (h = None → ¬ torn s → ∀ P, pool_at s = Some P → ∃ ls, consistent P (tasks s) (history s) ls ∧ awake P ls W) →
  (∀ j, j ≠ i → owner s = Some j → h = Some j ∧ W ⊆ waiters s) →
  (∀ j, j ≠ i → h = Some j → owner s = Some j) →
  (∀ j, j ≠ i → j ∉ waiters s → j ∉ W) →
  inv (put_monitor h W s) ∧ ∀ j, j ≠ i → rely j s (put_monitor h W s).
Proof.
  intros HI [P HP] Hnd Hlt Ho Hfree Hh Hh2 Hw. split.
  - pose proof (i_pool _ HI) as Hp. rewrite HP in Hp. destruct Hp as (? & ? & _).
    split; rewrite ?owner_put, ?waiters_put; try done; try apply HI.
    change (pool_at (put_monitor h W s)) with (pool_at s). rewrite HP. split_and!; try done.
    exists h, W. apply lookup_insert_eq.
  - intros j Hj. split; rewrite ?owner_put, ?waiters_put; auto using tasks_kept_refl.
    + intros Ho'. destruct (Hh j Hj Ho'). done.
    + intros. exact (tasks_kept_refl s).
    + done.
Qed.

(** The thread between its critical sections and in one *)
Definition holding i es (x : Z) s : Prop := ∃ P T h ls W,
  inside i es P T h W s ∧ consistent P T h ls ∧ awake P ls W ∧ threads P = Some ar ∧ (D = Some i → stop P = x).

Lemma on_monitor_run m i s y y' : monitors s !! l = Some y → m i y = Ok tt y' →
  on_monitor (Some l) m i s = Ok tt (set_monitors (<[l := y']> (monitors s)) s).
Proof. intros Hy Hm. unfold on_monitor, lift_act, at_ptr. by rewrite Hy, Hm. Qed.
Lemma on_monitor_blocked m i s y : monitors s !! l = Some y → m i y = Blocked →
  on_monitor (Some l) m i s = Blocked.
Proof. intros Hy Hm. unfold on_monitor, lift_act, at_ptr. by rewrite Hy, Hm. Qed.

Lemma safe_pool_lock m0 i es x s k : i < N → outside i es x s → resting i es → (∀ w, Joined w ∉ es) →
  (∀ m s1, m ≤ m0 → holding i es x s1 → safe m i (k tt) s1) →
  safe m0 i (pthread_mutex_lock (Some l) ≫= k) s.
Proof.
  intros Hi Hout Hidle Hnj Hk. destruct m0 as [|m0]; [done|]. apply safe_act. intros s1 HI HR.
  pose proof (outside_rely _ _ _ _ _ Hout HR) as Hout1.
  destruct (outside_present _ _ _ _ HI Hi Hout1) as (P & h & W & HP & Har & Hx & Hmon).
  assert (owner s1 = h) as Ho by (unfold owner; by rewrite Hmon).
  assert (waiters s1 = W) as Hw by (unfold waiters; by rewrite Hmon).
  pose proof Hout1 as [O1 O2 O3 O4 O5].
  destruct h as [j|].
  - rewrite (on_monitor_blocked _ _ _ _ Hmon) by done. split; [unfold idle; by rewrite O3|].
    left. exists j. split; [done|]. congruence.
  - rewrite (on_monitor_run _ _ _ _ (Monitor (Some i) [W]) Hmon) by done.
    change (set_monitors _ s1) with (put_monitor (Some i) W s1).
    destruct (i_free _ HI Ho) with P as (ls & Hc & Haw); [|done|].
    { apply (not_torn i); [done..|]. by rewrite O3. }
    rewrite Hw in *. destruct (i_waiters _ HI) as [Hnd Hlt]. rewrite Hw in Hnd, Hlt.
    destruct (monitor_step i s1 (Some i) W HI) as [HI2 HG]; rewrite ?Hw, ?Ho; try done.
    + intros j [= <-]. done.
    + congruence.
    + split; [done|]. split; [done|]. apply Hk; [lia|]. exists P, (tasks s1), (history s1), ls, W.
      split; [|done]. split; try done; [by rewrite owner_put|by rewrite waiters_put].
Qed.

Lemma inside_monitor i es P T h W s : inv s → inside i es P T h W s →
  ∃ W1, monitors s !! l = Some (Monitor (Some i) [W1]) ∧ waiters s = W1 ∧ W1 ⊆ W ∧ NoDup W1 ∧
    (∀ w, w ∈ W1 → w < n) ∧ i ∉ W1.
Proof.
  intros HI [H1 H2 H3 H4 H5 H6 H7]. pose proof (i_pool _ HI) as Hp. rewrite H2 in Hp.
  destruct Hp as (_ & _ & h' & W1 & Hmon). exists W1. destruct (i_waiters _ HI) as [Hnd Hlt].
  destruct (i_owner _ HI _ H1) as (_ & Hni & _). unfold owner in H1. unfold waiters in *. rewrite Hmon in *.
  simpl in *. subst h'. done.
Qed.

Lemma awake_subset P ls W W' : W' ⊆ W → awake P ls W → awake P ls W'.
Proof.
  intros Hs [H1 H2]. split.
  - intros H0 Hls. destruct (H1 H0 Hls) as (w & ? & ?). exists w. split; [done|]. set_solver.
  - intros H0. specialize (H2 H0). subst W. destruct W' as [|w W']; [done|]. set_solver.
Qed.

Lemma safe_pool_unlock m0 i es P T h ls W s k : i < N → inside i es P T h W s → consistent P T h ls → awake P ls W →
  (∀ m s1, m ≤ m0 → outside i es (stop P) s1 → tasks s1 = T → safe m i (k tt) s1) →
  safe m0 i (pthread_mutex_unlock (Some l) ≫= k) s.
Proof.
  intros Hi Hin Hc Haw Hk. destruct m0 as [|m0]; [done|]. apply safe_act. intros s1 HI HR.
  pose proof (inside_rely _ _ _ _ _ _ _ _ Hin HR) as Hin1.
  destruct (inside_monitor _ _ _ _ _ _ _ HI Hin1) as (W1 & Hmon & Hw1 & Hsub & Hnd & Hlt & Hni).
  pose proof Hin1 as [H1 H2 H3 H4 H5 H6 H7].
  rewrite (on_monitor_run _ _ _ _ (Monitor None [W1]) Hmon) by (unfold monitor_unlock, mutex_unlock; simpl; by rewrite decide_True).
  change (set_monitors _ s1) with (put_monitor None W1 s1).
  destruct (monitor_step i s1 None W1 HI) as [HI2 HG]; rewrite ?Hw1, ?H1; try done.
  - intros _ _ P' HP'. assert (P' = P) as -> by congruence. exists ls. rewrite H3, H4. split; [done|].
    by eapply awake_subset.
  - congruence.
  - split; [done|]. split; [done|]. apply Hk; [lia| |done].
    split; rewrite ?owner_put, ?waiters_put; try done. intros _.
    change (pool_at (put_monitor None W1 s1)) with (pool_at s1). by rewrite H2.
Qed.

(** A signal or broadcast by the thread that holds the mutex leaves fewer threads
    waiting. *)
Lemma safe_wake m0 i es P T h W s (m : C monitor unit) (wake : list tid → list tid) k : i < N →
  inside i es P T h W s →
  (∀ t H W1, m t (Monitor H [W1]) = Ok tt (Monitor H [wake W1])) → (∀ W1, sublist (wake W1) W1) →
  (∀ m s1 W1, m ≤ m0 → NoDup W1 → (∀ w, w ∈ W1 → w < n) → W1 ⊆ W → inside i es P T h (wake W1) s1 → safe m i (k tt) s1) →
  safe m0 i (atomic (on_monitor (Some l) m) ≫= k) s.
Proof.
  intros Hi Hin Hm Hsub Hk. destruct m0 as [|m0]; [done|]. apply safe_act. intros s1 HI HR.
  pose proof (inside_rely _ _ _ _ _ _ _ _ Hin HR) as Hin1.
  destruct (inside_monitor _ _ _ _ _ _ _ HI Hin1) as (W1 & Hmon & Hw1 & HsubW & Hnd & Hlt & Hni).
  pose proof Hin1 as [H1 H2 H3 H4 H5 H6 H7].
  assert (∀ w, w ∈ wake W1 → w ∈ W1) as Hel by (intros w; by apply sublist_subseteq).
  rewrite (on_monitor_run _ _ _ _ _ Hmon (Hm i (Some i) W1)).
  change (set_monitors _ s1) with (put_monitor (Some i) (wake W1) s1).
  destruct (monitor_step i s1 (Some i) (wake W1) HI) as [HI2 HG]; rewrite ?Hw1, ?H1; try done; eauto.
  - by eapply sublist_NoDup.
  - intros j [= <-]. split_and!; eauto.
  - split; [done|]. split; [done|]. apply (Hk m0 _ W1); [lia|done..|].
    split; rewrite ?owner_put, ?waiters_put; done.
Qed.

Lemma worker_not_D i : i < n → D ≠ Some i.
Proof. intros Hi HD. destruct (only_client i HD). lia. Qed.

Lemma safe_cond_wait m0 i es x P T h ls W s k : i < n → inside i es P T h W s → consistent P T h ls →
  queue_size P = 0%Z → stop P = 0%Z → resting i es → (∀ w, Joined w ∉ es) →
  (∀ m s1, m ≤ m0 → holding i es x s1 → safe m i (k tt) s1) →
  safe m0 i (pthread_cond_wait (Some l) ≫= k) s.
Proof.
  intros Hi Hin Hc Hq Hs Hidle Hnj Hk. unfold pthread_cond_wait. assoc.
  destruct m0 as [|m0]; [done|]. apply safe_act. intros s1 HI HR.
  pose proof (inside_rely _ _ _ _ _ _ _ _ Hin HR) as Hin1.
  destruct (inside_monitor _ _ _ _ _ _ _ HI Hin1) as (W1 & Hmon & Hw1 & HsubW & Hnd & Hlt & Hni).
  pose proof Hin1 as [H1 H2 H3 H4 H5 H6 H7].
  assert (cond_enter 0 i (Monitor (Some i) [W1]) = Ok tt (Monitor None [W1 ++ [i]])) as Hrun
    by (unfold cond_enter; simpl; by rewrite decide_True).
  rewrite (on_monitor_run _ _ _ _ _ Hmon Hrun).
  change (set_monitors _ s1) with (put_monitor None (W1 ++ [i]) s1).
  destruct (monitor_step i s1 None (W1 ++ [i]) HI) as [HI2 HG]; rewrite ?Hw1, ?H1; try done.
  - apply NoDup_app. split_and!; [done|set_solver|apply NoDup_singleton].
  - intros w [?|Hw]%elem_of_app; [auto|]. apply list_elem_of_singleton in Hw. by subst.
  - intros _ _ P' HP'. assert (P' = P) as -> by congruence. exists ls. rewrite H3, H4. split; [done|].
    pose proof (c_size _ _ _ _ Hc) as Hlen. destruct ls; [by split|]. simpl in Hlen. lia.
  - congruence.
  - set_solver.
  - split; [done|]. split; [done|]. clear HI HR Hin1 HG HI2.
    set (s2 := put_monitor None (W1 ++ [i]) s1).
    assert (owner s2 ≠ Some i ∧ own i s2 = es ∧ i ∉ returned s2) as Hs2.
    { split; [by unfold s2; rewrite owner_put|]. done. }
    clearbody s2. cbn. assoc. destruct m0 as [|m0]; [done|]. apply safe_act. intros s3 HI HR.
    destruct Hs2 as (Ho2 & He2 & Hr2).
    assert (owner s3 ≠ Some i) as Ho3 by (by intros ?%(r_owner _ _ _ HR)).
    assert (own i s3 = es) as He3 by (by rewrite (r_own _ _ _ HR)).
    assert (i ∉ returned s3) as Hr3 by (by apply (r_ret _ _ _ HR)).
    pose proof (i_pool _ HI) as Hp. destruct (pool_at s3) as [P3|] eqn:HP3.
    2: { destruct Hp as (_ & Hall & _). by destruct (Hr3 (Hall i Hi)). }
    destruct Hp as (_ & _ & h3 & W3 & Hmon3).
    assert (waiters s3 = W3) as Hw3 by (unfold waiters; by rewrite Hmon3).
    destruct (decide (i ∈ W3)) as [Hin3|Hnin3].
    + rewrite (on_monitor_blocked _ _ _ _ Hmon3) by (unfold cond_block; simpl; by rewrite decide_True).
      split; [unfold idle; by rewrite He3|]. right. left. by rewrite Hw3.
    + rewrite (on_monitor_run _ _ _ _ (Monitor h3 [W3]) Hmon3) by (unfold cond_block; simpl; by rewrite decide_False).
      rewrite insert_id by done. replace (set_monitors (monitors s3) s3) with s3 by (by destruct s3).
      split; [done|]. split; [intros j _; apply R_refl|].
      apply (safe_pool_lock m0 i es x); [lia| |done|done|].
      * split; try done; [by rewrite Hw3|]. intros HD. by destruct (worker_not_D i Hi).
      * intros m s' Hm. apply Hk. lia.
Qed.

Lemma holding_rely i es x s s' : holding i es x s → rely i s s' → holding i es x s'.
Proof.
  intros (P & T & h & ls & W & Hin & Hrest) HR. exists P, T, h, ls, W.
  split; [by eapply inside_rely|done].
Qed.

(** The wait ends with a task there, or with the pool stopped. *)
Lemma safe_wait_task m0 i es x s k : i < n → holding i es x s → resting i es → (∀ w, Joined w ∉ es) →
  (∀ m s1 P T h ls W, m ≤ m0 → inside i es P T h W s1 → consistent P T h ls → awake P ls W →
     (stop P = 0%Z → queue_size P ≠ 0%Z) → (stop P ≠ 0%Z → D ≠ None) → safe m i (k tt) s1) →
  safe m0 i (wait_task (Some l) ≫= k) s.
Proof.
  intros Hi Hh Hidle Hnj Hk. unfold wait_task.
  apply (safe_loop (λ _ s', holding i es x s')); [by intros; eapply holding_rely| |done].
  clear s Hh. intros n' [] s Hn (P & T & h & ls & W & Hin & Hc & Haw & _) IH.
  change (pbind ?p ?f) with (p ≫= f). assoc.
  apply (safe_pool_get n' i es P T h W); [lia|done|]. intros m1 s1 Hm1 Hin1. cbn beta.
  destruct (decide (queue_size P = 0%Z)) as [Hq|Hq].
  - assoc. apply (safe_pool_get m1 i es P T h W); [lia|done|]. intros m2 s2 Hm2 Hin2. cbn beta.
    destruct (decide (stop P = 0%Z)) as [Hs|Hs].
    + assoc. apply (safe_cond_wait m2 i es x P T h ls W); [done..|].
      intros m3 s3 Hm3 Hh3. cbn. apply IH; [lia|done].
    + cbn. apply safe_here. intros s3 HI3 HR3. pose proof (inside_rely _ _ _ _ _ _ _ _ Hin2 HR3) as Hin3.
      apply (Hk m2 s3 P T h ls W); try done; [lia|]. intros _.
      pose proof (i_pool _ HI3) as Hp. rewrite (in_pool _ _ _ _ _ _ _ Hin3) in Hp. by destruct Hp as (_ & [|] & _).
  - cbn. apply safe_here. intros s3 HI3 HR3. pose proof (inside_rely _ _ _ _ _ _ _ _ Hin1 HR3) as Hin3.
    apply (Hk m1 s3 P T h ls W); try done; [lia|]. intros ?.
    pose proof (i_pool _ HI3) as Hp. rewrite (in_pool _ _ _ _ _ _ _ Hin3) in Hp. by destruct Hp as (_ & [|] & _).
Qed.

(** ** The workers *)

Definition has (c : positive) (j : job) s : Prop := ∃ nd, cells (tasks s) !! c = Some nd ∧ job_of nd = j.

Lemma has_rely i c j s s' : i < n → i ∉ returned s → has c j s → rely i s s' → has c j s'.
Proof.
  intros Hi Hr (nd & Hc & <-) HR. destruct (r_tasks _ _ _ HR Hi Hr c nd Hc) as (nd' & ? & ?). by exists nd'.
Qed.

Lemma safe_task_get {A} m0 i es x c j s (field : task_t → A) k : i < n → outside i es x s → has c j s →
  (∀ m s1 nd, m ≤ m0 → outside i es x s1 → has c j s1 → job_of nd = j → safe m i (k (field nd)) s1) →
  safe m0 i (task_get (Some c) field ≫= k) s.
Proof.
  intros Hi Hout Hhas Hk. destruct m0 as [|m0]; [done|]. apply safe_act. intros s1 HI HR.
  pose proof (has_rely i c j s s1 Hi (out_ret _ _ _ _ Hout) Hhas HR) as Hhas1.
  destruct Hhas1 as (nd & Hc & Hj). rewrite (@load_ok _ _ tasks_heap _ _ _ _ Hc). split; [done|].
  split; [intros j' _; apply R_refl|]. apply Hk; [lia|by eapply outside_rely|by exists nd|done].
Qed.

Lemma add_event_step i s e : i < N → inv s → ¬ on_stack e → (∀ w, e = Joined w → D = Some i ∧ w ∈ returned s) →
  inv (add_event i e s) ∧ ∀ j, j ≠ i → rely j s (add_event i e s).
Proof.
  intros Hi HI He Hj.
  assert (history (add_event i e s) = history s) as Hh.
  { rewrite history_event, filter_cons, decide_False by done. apply app_nil_r. }
  split.
  - split; try apply HI.
    + intros Ho Ht. rewrite Hh. apply (i_free _ HI Ho). intros Ht'. apply Ht. intros w Hw.
      destruct (Ht' w Hw) as [t ?]. exists t. cbn. apply elem_of_app. by left.
    + intros t w [?|Hin]%elem_of_app; [by apply (i_joined _ HI)|].
      apply list_elem_of_singleton in Hin as [= -> <-]. by apply Hj.
    + apply Forall_app. split; [apply HI|]. by apply Forall_singleton.
  - intros j Hne. split; try done.
    + by eapply (own_other i j _ _ [e]).
    + intros. exact (tasks_kept_refl s).
Qed.

Lemma safe_event m0 i es x c j s e k : i < n → outside i es x s → has c j s → ¬ on_stack e → (∀ w, e ≠ Joined w) →
  (∀ m s1, m ≤ m0 → outside i (es ++ [e]) x s1 → has c j s1 → safe m i (k tt) s1) →
  safe m0 i (atomic (record e) ≫= k) s.
Proof.
  intros Hi Hout Hhas He Hnj Hk. destruct m0 as [|m0]; [done|]. apply safe_act. intros s1 HI HR.
  pose proof (has_rely i c j s s1 Hi (out_ret _ _ _ _ Hout) Hhas HR) as Hhas1.
  pose proof (outside_rely _ _ _ _ _ Hout HR) as [O1 O2 O3 O4 O5].
  destruct (add_event_step i s1 e) as [HI2 HG]; [lia|done..|by intros w ->; destruct (Hnj w)|].
  change (record e i s1) with (Ok (S := pstate) tt (add_event i e s1)). split; [done|]. split; [done|].
  apply Hk; [lia| |done]. split; try done. by rewrite own_event, O3.
Qed.

Lemma return_safe m0 i es x s : i < n → outside i es x s → resting i es → D ≠ None →
  safe m0 i thread_return s.
Proof.
  intros Hi Hout [Hidle Hpush] HD. destruct m0 as [|m0]; [done|]. apply safe_act. intros s1 HI HR.
  pose proof (outside_rely _ _ _ _ _ Hout HR) as [O1 O2 O3 O4 O5]. split; [|split].
  - pose proof (i_pool _ HI) as Hp. split; try apply HI.
    + change (pool_at (set_returned (i :: returned s1) s1)) with (pool_at s1).
      destruct (pool_at s1); [done|]. destruct Hp as (? & Hall & ?). split_and!; try done.
      intros w Hw. right. by apply Hall.
    + intros j Ho. destruct (i_owner _ HI j Ho) as (? & ? & Hnr). split_and!; try done.
      intros [->|]%elem_of_cons; [|done]. by apply O1.
    + intros t w Hin. destruct (i_joined _ HI _ _ Hin). split; [done|]. by right.
  - intros j Hj. split; try done; [cbn; set_solver|cbn; set_solver|]. intros. exact (tasks_kept_refl s1).
  - apply safe_ret. intros s2 HI2 HR2 Hlt. unfold idle, resting. rewrite (r_own _ _ _ HR2).
    change (own i (set_returned (i :: returned s1) s1)) with (own i s1). rewrite O3, Hpush, no_jobs by done.
    split_and!; try done.
    + intros ?%(r_owner _ _ _ HR2). done.
    + intros _. split; [done|]. apply (r_mono _ _ _ HR2). cbn. set_solver.
    + intros HDi. by destruct (worker_not_D i Hi).
Qed.
Lemma consistent_pop P T h c nd ls : consistent P T h (c :: ls) → cells T !! c = Some nd →
  consistent (set_last_task (prev nd) (set_queue_size (queue_size P + -1) P)) T (h ++ [Popped (job_of nd)]) ls.
Proof.
  intros [Hch Hsz Hst Hct] Hc. destruct Hch as [_ (nd' & Hc' & Hch)].
  assert (nd' = nd) as -> by congruence. split.
  - done.
  - cbn. rewrite Hsz. simpl. lia.
  - rewrite replay_app, Hst, nodes_cons, Hc. cbn. by rewrite decide_True.
  - rewrite pushes_app, app_nil_r. done.
Qed.

Lemma worker_safe m0 i es s : i < n → outside i es 0 s → resting i es →
  (∀ w, Joined w ∉ es) → safe m0 i (worker (Some l)) s.
Proof.
  intros Hi Hout Hidle Hnj. unfold worker.
  apply (safe_loop (λ _ s', ∃ es, outside i es 0 s' ∧ resting i es ∧ ∀ w, Joined w ∉ es)).
  { intros _ s1 s2 (es1 & H1 & H2) HR _. exists es1. split; [by eapply outside_rely|done]. }
  2: by exists es.
  clear es Hout Hidle Hnj. intros m [] s' _ (es & Hout & Hidle & Hnj) IH.
  clear m0 s. rename m into m0, s' into s. change (pbind ?p ?f) with (p ≫= f). unfold worker_round. assoc.
  apply (safe_pool_lock m0 i es 0); [lia|done..|]. intros m1 s1 Hm1 Hh1. assoc.
  eapply safe_wait_task; [done|exact Hh1|done..|]. clear s1 Hh1.
  intros m2 s2 P T h ls W Hm2 Hin Hc Haw Hq HD. assoc.
  apply (safe_pool_get m2 i es P T h W); [lia|done|]. clear s2 Hin. intros m3 s2 Hm3 Hin. cbn beta.
  destruct (decide (stop P ≠ 0%Z)) as [Hs|Hs].
  { assoc. eapply safe_pool_unlock; [|exact Hin|exact Hc|exact Haw|]; [lia|]. intros m4 s4 Hm4 Hout4 _. cbn.
    eapply return_safe; eauto. }
  assert (stop P = 0%Z) as Hs0 by lia. specialize (Hq Hs0).
  pose proof (c_size _ _ _ _ Hc) as Hsz. pose proof (c_chain _ _ _ _ Hc) as Hch.
  destruct ls as [|c ls]; [simpl in Hsz; lia|]. pose proof Hch as [Hlast (nd & Hnd & _)].
  assoc. apply (safe_pool_get m3 i es P T h W); [lia|done|]. clear s2 Hin. intros m4 s2 Hm4 Hin. cbn beta. rewrite Hlast.
  assoc. apply (safe_pool_get m4 i es P T h W); [lia|done|]. clear s2 Hin. intros m5 s2 Hm5 Hin. cbn beta.
  assoc. apply (safe_add_inside m5 i es P T h W); [done|]. clear s2 Hin. intros m6 s2 Hm6 Hin. cbn beta.
  assoc. apply (safe_pool_set m6 i es P T h W); [lia|done|done|by left|]. clear s2 Hin. intros m7 s2 Hm7 Hin. cbn beta.
  assoc. eapply safe_task_inside; [|exact Hin|exact Hnd|]; [lia|]. clear s2 Hin. intros m8 s2 Hm8 Hin. cbn beta.
  assoc. eapply safe_pop_task; [|exact Hin|exact Hnd|]; [lia|]. clear s2 Hin. intros m9 s2 Hm9 Hin. cbn beta.
  assoc. eapply safe_pool_unlock; [|exact Hin|by eapply consistent_pop| |]; [lia| |].
  { destruct Haw as [Haw1 Haw2]. split; [|done]. intros _ _. by apply Haw1. }
  clear s2 Hin. intros m10 s2 Hm10 Hout2 HT. assert (has c (job_of nd) s2) as Hhas by (exists nd; by rewrite HT).
  clear HT. cbn [stop set_last_task set_queue_size] in Hout2. rewrite Hs0 in Hout2. assoc.
  eapply safe_task_get; [done|exact Hout2|exact Hhas|]. clear s2 Hout2 Hhas. intros m11 s2 nd1 Hm11 Hout2 Hhas _. cbn beta. assoc.
  eapply safe_event; [done|exact Hout2|exact Hhas|by intros []|done|]. clear s2 Hout2 Hhas. intros m12 s2 Hm12 Hout2 Hhas. assoc.
  eapply safe_task_get; [done|exact Hout2|exact Hhas|]. clear s2 Hout2 Hhas. intros m13 s2 nd2 Hm13 Hout2 Hhas Hf. cbn beta. assoc.
  eapply safe_task_get; [done|exact Hout2|exact Hhas|]. clear s2 Hout2 Hhas. intros m14 s2 nd3 Hm14 Hout2 Hhas Ha. cbn beta. assoc.
  eapply safe_event; [done|exact Hout2|exact Hhas|by intros []|done|]. clear s2 Hout2 Hhas. intros m15 s2 Hm15 Hout2 Hhas. assoc.
  eapply safe_task_get; [done|exact Hout2|exact Hhas|]. clear s2 Hout2 Hhas. intros m16 s2 nd4 Hm16 Hout2 Hhas _. cbn beta. assoc.
  eapply safe_event; [done|exact Hout2|exact Hhas|by intros []|done|]. clear s2 Hout2 Hhas. intros m17 s2 Hm17 Hout2 Hhas. cbn.
  apply IH; [lia|]. eexists. split; [exact Hout2|].
  assert ((function nd2, argument nd3) = job_of nd) as -> by (unfold job_of in *; congruence).
  destruct Hidle as [Hidle Hpush]. unfold resting. rewrite !pops_app, !calls_app, !pushes_app, Hidle, Hpush by done.
  cbn. rewrite !app_nil_r. split; [done|].
  intros w. specialize (Hnj w). set_solver.
Qed.

(** ** The threads that push *)

Lemma consistent_alloc P P' T h ls (x f a : Z) : consistent P T h ls →
  last_task P' = Some (fresh_loc T) → queue_size P' = (queue_size P + 1)%Z →
  consistent P' (mem_alloc (Task x f a NULL (last_task P)) T) (h ++ [Pushed (f, a)]) (fresh_loc T :: ls).
Proof.
  intros [Hch Hsz Hst Hct] HP1 HP2. pose proof (fresh_loc_none T) as Hnone.
  assert (fresh_loc T ∉ ls) as Hnin.
  { intros Hin. destruct (chain_lookup _ _ _ _ _ _ Hch Hin) as [? ?]. congruence. }
  split.
  - rewrite HP1. split; [done|]. exists (Task x f a NULL (last_task P)). split; [apply lookup_insert_eq|].
    by apply chain_insert_notin.
  - rewrite HP2, Hsz. simpl. lia.
  - rewrite replay_app, Hst, nodes_cons. cbn [mem_alloc cells]. rewrite lookup_insert_eq.
    assert (nodes (<[fresh_loc T:=Task x f a NULL (last_task P)]> (cells T)) ls = nodes (cells T) ls) as ->; [|done].
    apply nodes_ext. intros k Hk. rewrite lookup_insert_ne; [done|congruence].
  - cbn. rewrite map_size_insert_None by done. rewrite Hct, pushes_app, length_app. simpl. lia.
Qed.
Lemma consistent_relink P T h ls q nd p : consistent P T h ls → cells T !! q = Some nd →
  consistent P (mem_set q (set_next p nd) T) h ls.
Proof.
  intros [Hch Hsz Hst Hct] Hq. split; [|done| |].
  - by eapply chain_insert_same.
  - rewrite Hst. f_equal. apply nodes_map_ext. intros k _. cbn. rewrite lookup_insert.
    case_decide; [|done]. subst k. by rewrite Hq.
  - cbn. by rewrite map_size_insert_Some by eauto.
Qed.

(** A signal leaves a worker that does not wait. *)
Lemma signal_awake P ls W W1 : awake P ls W → W1 ⊆ W → NoDup W1 → (∀ w, w ∈ W1 → w < n) →
  awake P ls (tail W1) ∧ ∃ w, w < n ∧ w ∉ tail W1.
Proof.
  intros [Ha1 Ha2] Hsub Hnd Hlt. assert (∃ w, w < n ∧ w ∉ tail W1) as Hw.
  { destruct W1 as [|w W1]; [exists 0; split; [done|set_solver]|]. exists w.
    split; [apply Hlt; set_solver|]. simpl. by apply NoDup_cons in Hnd as [? _]. }
  split; [|done]. split; [done|]. intros Hs. rewrite (Ha2 Hs) in Hsub.
  destruct W1 as [|w W1]; [done|]. specialize (Hsub w). set_solver.
Qed.

Lemma outside_change i es x y s : outside i es x s → (D = Some i → x = y) → outside i es y s.
Proof. intros [H1 H2 H3 H4 H5] Hxy. split; try done. intros HD. rewrite H5 by done. by rewrite Hxy. Qed.

Lemma resting_client i es : n ≤ i → pops es = [] → calls es = [] → resting i es.
Proof. intros Hi Hp Hc. split; [by rewrite Hp, Hc|lia]. Qed.

Lemma push_safe m0 i es x f a s k : i < N → outside i es x s → resting i es → (∀ w, Joined w ∉ es) →
  (∀ m s1, m ≤ m0 → outside i (es ++ [Pushed (f, a)]) x s1 → safe m i (k tt) s1) →
  safe m0 i (threadpool_push_task (Some l) f a ≫= k) s.
Proof.
  intros Hi Hout Hidle Hnj Hk. unfold threadpool_push_task. assoc.
  apply (safe_pool_lock m0 i es x); [done..|]. clear s Hout.
  intros m1 s Hm1 (P & T & h & ls & W & Hin & Hc & Haw & _ & Hx). assoc.
  apply (safe_new_task m1 i es P T h W); [done|done|]. clear s Hin. intros m2 s Hm2 Hin. assoc.
  set (P1 := set_id_sequence (id_sequence P + 1) P) in *. set (c := fresh_loc T) in *.
  set (T1 := mem_alloc (Task (id_sequence P) f a NULL (last_task P)) T) in *.
  apply (safe_pool_get m2 i es P1 T1 h W); [done|done|]. clear s Hin. intros m3 s Hm3 Hin. cbn beta. assoc.
  set (P3 := set_queue_size (queue_size P + 1) (set_last_task (Some c) P1)).
  pose proof (consistent_alloc P P3 T h ls (id_sequence P) f a Hc eq_refl eq_refl) as Hc1. fold c T1 in Hc1.
  assert (∀ T2 m s, m ≤ m3 → inside i es P1 T2 h W s → consistent P3 T2 (h ++ [Pushed (f, a)]) (c :: ls) →
    safe m i (atomic (put_task (Some l) (Some c) (f, a)) ≫= λ _,
      pool_get (Some l) queue_size ≫= λ size, atomic (signed_add INT_MAX size 1) ≫= λ size',
      pool_set (Some l) (set_queue_size size') ≫= λ _, pthread_cond_signal (Some l) ≫= λ _,
      pthread_mutex_unlock (Some l) ≫= k) s) as Hrest.
  2: { change (last_task P1) with (last_task P) in Hin |- *. destruct (last_task P) as [q|] eqn:Hlast.
    - assert (∃ nd, cells T1 !! q = Some nd) as [nd Hnd].
      { pose proof (c_chain _ _ _ _ Hc) as Hch. rewrite Hlast in Hch.
        destruct ls as [|q' ls]; [done|]. destruct Hch as [[= <-] (nd & Hnd & _)].
        exists nd. cbn. rewrite lookup_insert_ne; [done|]. intros Heq.
        pose proof (fresh_loc_none T). unfold c in Heq. congruence. }
      eapply (safe_task_set m3 i es P1 T1 h W s q nd); [done|exact Hin|exact Hnd|done|].
      intros m4 s4 Hm4 Hin4. apply (Hrest _ _ _ Hm4 Hin4). by apply consistent_relink.
    - cbn. by apply (Hrest T1). }
  clear s Hin Hc1. intros T2 m s Hm Hin Hc2.
  eapply safe_put_task; [done|exact Hin|]. clear s Hin. intros m4 s Hm4 Hin.
  eapply safe_pool_get; [done|exact Hin|]. clear s Hin. intros m5 s Hm5 Hin. cbn beta.
  eapply safe_add_inside; [exact Hin|]. clear s Hin. intros m6 s Hm6 Hin. cbn beta.
  eapply safe_pool_set; [done|exact Hin|done|by left|]. clear s Hin. intros m7 s Hm7 Hin.
  eapply (safe_wake _ _ _ _ _ _ _ _ _ tail); [done|exact Hin|done| |]; [intros [|? ?]; [done|by apply sublist_cons]|].
  clear s Hin. intros m8 s W1 Hm8 Hnd Hlt Hsub Hin.
  destruct (signal_awake P ls W W1 Haw Hsub Hnd Hlt) as [[Ha1 Ha2] Hw].
  eapply (safe_pool_unlock _ _ _ _ _ _ (c :: ls)); [done|exact Hin|exact Hc2|by split|].
  intros m9 s9 Hm9 Hout9 _. apply Hk; [lia|]. eapply outside_change; [exact Hout9|]. intros HD. by apply Hx.
Qed.

Lemma push_all_safe m0 i es x js s k : n ≤ i < N → outside i es x s → pops es = [] → calls es = [] → (∀ w, Joined w ∉ es) →
  (∀ m s1 es1, m ≤ m0 → outside i es1 x s1 → pops es1 = [] → calls es1 = [] → (∀ w, Joined w ∉ es1) →
     pushes es1 = pushes es ++ js → safe m i (k tt) s1) →
  safe m0 i (push_all (Some l) js ≫= k) s.
Proof.
  intros Hi. revert m0 es s. induction js as [|[f a] js IH]; intros m0 es s Hout Hp Hc Hnj Hk.
  - cbn. apply (Hk m0 s es); try done. by rewrite app_nil_r.
  - cbn [push_all foldr]. assoc. eapply push_safe; [lia|exact Hout|apply resting_client; [lia|done..]|done|].
    intros m1 s1 Hm1 Hout1. apply (IH m1 (es ++ [Pushed (f, a)]) s1); [done|..].
    + by rewrite pops_app, Hp.
    + by rewrite calls_app, Hc.
    + intros w. specialize (Hnj w). set_solver.
    + intros m2 s2 es2 Hm2 Hout2 Hp2 Hc2 Hnj2 Hpush2. apply (Hk m2 s2 es2); try done; [lia|].
      rewrite Hpush2, pushes_app, <-app_assoc. done.
Qed.

Lemma pusher_safe m0 i s : n ≤ i < N → D ≠ Some i → outside i [] 0 s →
  safe m0 i (push_all (Some l) (jobs i)) s.
Proof.
  intros Hi HD Hout. rewrite <-(pbind_ret_r (push_all _ _)). change (pbind ?p ?f) with (p ≫= f).
  eapply push_all_safe; [lia|exact Hout|done|done|set_solver|].
  intros m1 s1 es1 Hm1 Hout1 Hp Hc _ Hpush. apply safe_ret. intros s2 HI2 HR2 _.
  destruct (outside_rely _ _ _ _ _ Hout1 HR2) as [O1 O2 O3 O4 O5]. unfold idle, resting. rewrite O3, Hp, Hc, Hpush.
  split_and!; try done; lia.
Qed.

(** ** The thread that destroys the pool *)

Lemma joins_quiet es ws : pops (es ++ (Joined <$> ws)) = pops es ∧ calls (es ++ (Joined <$> ws)) = calls es ∧
  pushes (es ++ (Joined <$> ws)) = pushes es.
Proof.
  rewrite pops_app, calls_app, pushes_app.
  assert (pops (Joined <$> ws) = [] ∧ calls (Joined <$> ws) = [] ∧ pushes (Joined <$> ws) = []) as (-> & -> & ->)
    by (by induction ws).
  by rewrite !app_nil_r.
Qed.

(** All workers are joined; from here on nothing changes but by the thread that
    destroys the pool [P], with the tasks [T] left. *)
Record tearing i es (P : threadpool_t) (T : mem task_t) (h : list event) s : Prop := {
  t_all : all_returned s;
  t_torn : ∀ w, w < n → Joined w ∈ es;
  t_pool : pool_at s = Some P;
  t_tasks : tasks s = T;
  t_history : history s = h;
  t_own : own i s = es;
  t_owner : owner s ≠ Some i;
}.

Lemma tearing_rely i es P T h s s' : D = Some i → tearing i es P T h s → rely i s s' → tearing i es P T h s'.
Proof.
  intros HD [H1 H2 H3 H4 H5 H6 H7] HR. destruct (r_done _ _ _ HR HD H1) as (E1 & E2 & E3). split.
  - intros w Hw. by apply (r_mono _ _ _ HR), H1.
  - done.
  - unfold pool_at. by rewrite E1.
  - congruence.
  - congruence.
  - by rewrite (r_own _ _ _ HR).
  - by intros ?%(r_owner _ _ _ HR).
Qed.

(** Nobody holds the mutex then. *)
Lemma all_returned_owner i s : D = Some i → inv s → all_returned s → owner s ≠ Some i → owner s = None.
Proof.
  intros HD HI Hall Ho. destruct (owner s) as [j|] eqn:Hj; [|done].
  destruct (i_owner _ HI j Hj) as (Hlt & _ & Hr). destruct (only_client i HD) as [-> HN].
  destruct Hr. apply Hall. assert (j ≠ n) by congruence. lia.
Qed.

(** What it does then concerns nobody else. *)
Lemma tear_step i s s2 es P T h : D = Some i → inv s → tearing i es P T h s →
  returned s2 = returned s → arrays s2 = arrays s → panswers s2 = panswers s → trace s2 = trace s →
  (pool_at s2 = Some P ∧ monitors s2 = monitors s ∨ pool_at s2 = None ∧ monitors s2 !! l = None) →
  inv s2 ∧ ∀ j, j ≠ i → rely j s s2.
Proof.
  intros HD HI [H1 H2 H3 H4 H5 H6 H7] Hret Har Hoom Htr Hp.
  pose proof (all_returned_owner i s HD HI H1 H7) as Ho.
  destruct (only_client i HD) as [-> HN].
  assert (owner s2 = None ∧ waiters s2 ⊆ waiters s ∧ NoDup (waiters s2)) as (Ho2 & Hw2 & Hnd2).
  { unfold owner, waiters in *. destruct Hp as [[_ ->]|[_ ->]].
    - split; [done|]. split; [done|]. apply (i_waiters _ HI).
    - split; [done|]. split; [apply list_subseteq_nil|constructor]. }
  split.
  - pose proof (i_pool _ HI) as Hpool. rewrite H3 in Hpool. split; try (rewrite ?Har, ?Hoom, ?Htr; apply HI).
    + destruct Hp as [[-> ->]|[-> ->]]; [done|]. split; [by rewrite HD|]. unfold all_returned. by rewrite Hret.
    + split; [done|]. intros w Hw. by apply (i_waiters _ HI), Hw2.
    + by rewrite Ho2.
    + intros _ Ht. destruct Ht. intros w Hw. exists n. rewrite Htr. apply elem_of_by_thread.
      change (Joined w ∈ own n s). rewrite H6. by apply H2.
    + rewrite Hret, Htr. apply HI.
  - intros j Hj. split.
    + by rewrite Ho.
    + unfold own. by rewrite Htr.
    + by rewrite Ho2.
    + auto.
    + by rewrite Hret.
    + by rewrite Hret.
    + intros Hlt Hr. destruct Hr. by apply H1.
    + intros HDj. congruence.
    + intros HDj. congruence.
Qed.

(** The first [j] workers are joined, by the thread that did [es] before. *)
Definition joins es (j : nat) : list event := es ++ (Joined <$> seq 0 j).
Record joined i es (j : nat) s : Prop := {
  j_outside : outside i (joins es j) 1 s;
  j_returned : ∀ w, w < j → w ∈ returned s;
  j_tearing : j = n → ∃ P T h ls, tearing i (joins es j) P T h s ∧ consistent P T h ls;
}.

Lemma joined_rely i es j s s' : D = Some i → joined i es j s → rely i s s' → joined i es j s'.
Proof.
  intros HD [H1 H2 H3] HR. split.
  - by eapply outside_rely.
  - intros w Hw. by apply (r_mono _ _ _ HR), H2.
  - intros Hj. destruct (H3 Hj) as (P & T & h & ls & Ht & Hc). exists P, T, h, ls.
    split; [by eapply tearing_rely|done].
Qed.

Lemma joins_S es j : joins es (S j) = joins es j ++ [Joined j].
Proof. unfold joins. by rewrite seq_S, fmap_app, app_assoc. Qed.
Lemma elem_of_joins es j w : (∀ w, Joined w ∉ es) → Joined w ∈ joins es j ↔ w < j.
Proof.
  intros Hnj. unfold joins. rewrite elem_of_app, list_elem_of_fmap. split.
  - intros [Hin|(w' & [= <-] & Hin)]; [by destruct (Hnj w)|]. apply elem_of_seq in Hin. lia.
  - intros Hw. right. exists w. split; [done|]. apply elem_of_seq. lia.
Qed.

(** A state where some worker is not joined *)
Lemma joins_not_torn i es j s : inv s → D = Some i → own i s = joins es j → (∀ w, Joined w ∉ es) → j < n → ¬ torn s.
Proof.
  intros HI HD Hown Hnj Hj Ht. destruct (Ht j Hj) as [t Htr]. destruct (i_joined _ HI _ _ Htr) as [HDt _].
  assert (t = i) as -> by congruence. apply elem_of_by_thread in Htr. change (Joined j ∈ own i s) in Htr.
  rewrite Hown, elem_of_joins in Htr by done. lia.
Qed.

Lemma safe_join m0 i es j s k : D = Some i → j < n → joined i es j s → resting i es → (∀ w, Joined w ∉ es) →
  (∀ m s1, m ≤ m0 → joined i es (S j) s1 → safe m i (k tt) s1) →
  safe m0 i (atomic (pthread_join (Some ar) j) ≫= k) s.
Proof.
  intros HD Hj Hjn Hidle Hnj Hk. destruct m0 as [|m0]; [done|]. apply safe_act. intros s1 HI HR.
  destruct (joined_rely _ _ _ _ _ HD Hjn HR) as [Hout Hret _]. pose proof Hout as [O1 O2 O3 O4 O5].
  destruct (only_client i HD) as [-> HN]. unfold pthread_join.
  rewrite (bind_ok _ _ _ _ _ _ (@load_ok _ _ arrays_heap _ _ n _ (i_array _ HI))). cbn [slots].
  rewrite list_lookup_fmap, lookup_seq_lt by done. rewrite Nat.add_0_l. cbn [fmap option_fmap option_map].
  unfold gets. erewrite bind_ok by reflexivity. cbv beta. destruct (decide (j ∈ returned s1)) as [Hin|Hnin].
  - destruct (add_event_step n s1 (Joined j)) as [HI2 HG]; [lia|done|exact (λ Hs, Hs)|intros w Hw; injection Hw as <-; done|].
    change (record (Joined j) n s1) with (Ok (S := pstate) tt (add_event n (Joined j) s1)). split; [done|]. split; [done|].
    assert (own n (add_event n (Joined j) s1) = joins es (S j)) as Hown2 by (by rewrite own_event, O3, joins_S).
    assert (∀ w, w < S j → w ∈ returned s1) as Hret2.
    { intros w Hw. destruct (decide (w = j)) as [->|]; [done|]. apply Hret. lia. }
    apply Hk; [lia|]. split; [by split|done|]. intros HSj.
    assert (all_returned s1) as Hall by (intros w Hw; apply Hret2; lia).
    destruct (outside_present n (joins es j) 1 s1 HI ltac:(lia) Hout) as (P & hh & W & HP & _).
    pose proof (all_returned_owner n s1 HD HI Hall O1) as Hown.
    destruct (i_free _ HI Hown (joins_not_torn n es j s1 HI HD O3 Hnj Hj) P HP) as (ls & Hc & _).
    assert (history (add_event n (Joined j) s1) = history s1) as Hh.
    { rewrite history_event. apply app_nil_r. }
    exists P, (tasks s1), (history s1), ls. split; [|done]. split; try done.
    intros w Hw. rewrite elem_of_joins by done. lia.
  - split; [|right; right].
    + unfold idle, resting. rewrite O3. unfold joins. destruct (joins_quiet es (seq 0 j)) as (-> & -> & ->). done.
    + split_and!; try done; [by exists j|]. intros P HP. specialize (O5 HD). rewrite HP in O5. by injection O5 as ->.
Qed.

Lemma safe_pool_get_out {A} m0 i es x s (field : threadpool_t → A) k : i < N → outside i es x s →
  (∀ m s1 P, m ≤ m0 → rely i s s1 → pool_at s1 = Some P → threads P = Some ar → safe m i (k (field P)) s1) →
  safe m0 i (pool_get (Some l) field ≫= k) s.
Proof.
  intros Hi Hout Hk. destruct m0 as [|m0]; [done|]. apply safe_act. intros s1 HI HR.
  pose proof (outside_rely _ _ _ _ _ Hout HR) as Hout1.
  destruct (outside_present _ _ _ _ HI Hi Hout1) as (P & h & W & HP & Har & _).
  rewrite (@load_ok _ _ pools_heap _ _ _ _ HP). split; [done|]. split; [intros j' _; apply R_refl|].
  apply Hk; [lia|done..].
Qed.

Lemma join_workers_safe m0 i es j s k r : D = Some i → j + r = n → joined i es j s → resting i es →
  (∀ w, Joined w ∉ es) → (∀ m s1, m ≤ m0 → joined i es n s1 → safe m i (k tt) s1) →
  safe m0 i (foldr (λ i rest, ths ← pool_get (Some l) threads; atomic (pthread_join ths i);; rest) (mret tt) (seq j r) ≫= k) s.
Proof.
  intros HD. revert m0 j s. induction r as [|r IH]; intros m0 j s Hjr Hjn Hidle Hnj Hk.
  - cbn. apply Hk; [done|]. by replace n with j by lia.
  - cbn [seq foldr]. assoc. eapply (safe_pool_get_out m0 i); [by destruct (only_client i HD); lia|apply Hjn|].
    intros m1 s1 P Hm1 HR HP Har. cbn beta. rewrite Har. assoc.
    eapply (safe_join m1 i es j); [done|lia|by eapply joined_rely|done|done|].
    intros m2 s2 Hm2 Hjn2. apply (IH m2 (S j)); [lia|done|done|done|].
    intros m3 s3 Hm3. apply Hk. lia.
Qed.

Lemma free_tasks_safe m0 i es P T h ls p s k : D = Some i → tearing i es P T h s →
  chain prev (cells T) p ls NULL →
  (∀ m s1 T', m ≤ m0 → tearing i es P T' h s1 → size (cells T') + length ls = size (cells T) → safe m i (k tt) s1) →
  safe m0 i (free_tasks p ≫= k) s.
Proof.
  intros HD Ht Hch Hk. unfold free_tasks.
  apply (safe_loop (λ p s', ∃ T' ls', tearing i es P T' h s' ∧ chain prev (cells T') p ls' NULL ∧
    size (cells T') + length ls = size (cells T) + length ls')); [| |by exists T, ls].
  { intros p' s1 s2 (T' & ls' & Ht' & Hrest) HR _. exists T', ls'. split; [by eapply (tearing_rely i)|done]. }
  clear s Ht Hch p. intros m p s Hm (T' & ls' & Ht & Hch & Hsz) IH. change (pbind ?p ?f) with (p ≫= f).
  destruct p as [c|].
  2: { apply chain_null in Hch as [-> _]. cbn. apply (Hk m s T'); [lia|done|]. simpl in Hsz. lia. }
  apply chain_some in Hch as (nd & ls2 & -> & Hc & Hch). assoc.
  destruct m as [|m]; [done|]. apply safe_act. intros s1 HI1 HR1.
  pose proof (tearing_rely _ _ _ _ _ _ _ HD Ht HR1) as Ht1.
  assert (cells (tasks s1) !! c = Some nd) as Hc1 by (by rewrite (t_tasks _ _ _ _ _ _ Ht1)).
  rewrite (@load_ok _ _ tasks_heap _ _ _ _ Hc1). split; [done|]. split; [intros j' _; apply R_refl|].
  cbn beta. assoc. destruct m as [|m]; [done|]. apply safe_act. intros s2 HI2 HR2.
  pose proof (tearing_rely _ _ _ _ _ _ _ HD Ht1 HR2) as Ht2. pose proof Ht2 as [T1 T2 T3 T4 T5 T6 T7].
  assert (cells (tasks s2) !! c = Some nd) as Hc2 by (by rewrite T4).
  rewrite (@free_ok _ _ tasks_heap _ _ _ _ Hc2). change (heap task_t s2) with (tasks s2). rewrite T4.
  destruct (tear_step i s2 (set_heap task_t (mem_del c T') s2) es P T' h HD HI2 Ht2) as [HI3 HG]; try done; [by left|].
  split; [done|]. split; [done|]. cbn. apply IH; [lia|]. exists (mem_del c T'), ls2. split_and!.
  - by split.
  - apply chain_delete_notin; [|done]. intros Hin.
    assert (chain prev (cells T') (Some c) (c :: ls2) NULL) as Hch' by (split; [done|by exists nd]).
    by apply chain_NoDup, NoDup_cons in Hch' as [? _].
  - cbn. rewrite map_size_delete_Some by eauto. simpl in Hsz.
    assert (size (cells T') ≠ 0) by (apply (map_size_ne_0_lookup_2 _ c); eauto). lia.
Qed.

Lemma destroy_safe m0 i es s : D = Some i → n = MAX_THREADS → outside i es 0 s → pops es = [] → calls es = [] →
  pushes es = jobs i → (∀ w, Joined w ∉ es) → safe m0 i (destroy_threadpool (Some l)) s.
Proof.
  intros HD Hn Hout Hp Hc Hpush Hnj. destruct (only_client i HD) as [Hi HN].
  unfold destroy_threadpool. assert (resting i es) as Hrest by (apply resting_client; [lia|done..]).
  eapply safe_pool_lock; [lia|exact Hout|done|done|]. clear s Hout.
  intros m1 s Hm1 (P & T & h & ls & W & Hin & Hcon & Haw & Har & Hx).
  eapply safe_pool_set; [lia|exact Hin|done|by right|]. clear s Hin. intros m2 s Hm2 Hin.
  eapply (safe_wake _ _ _ _ _ _ _ _ _ (λ _, [])); [lia|exact Hin|done|intros; apply sublist_nil_l|].
  clear s Hin. intros m3 s W1 Hm3 _ _ _ Hin.
  assert (consistent (set_stop 1 P) T h ls) as Hcon1 by (by destruct Hcon).
  eapply safe_pool_unlock; [lia|exact Hin|exact Hcon1|by split|]. clear s Hin.
  intros m4 s Hm4 Hout _. cbn [stop set_stop] in Hout. clear P T h ls W W1 Hcon Haw Har Hx Hcon1. unfold join_workers. rewrite <-Hn.
  apply (join_workers_safe m4 i es 0); [done|lia| |done|done|].
  { split; [|lia|lia]. unfold joins. simpl. by rewrite app_nil_r. }
  clear s Hout. intros m5 s Hm5 Hjn. destruct (j_tearing _ _ _ _ Hjn eq_refl) as (P & T & h & ls & Ht & Hcon).
  clear Hjn. destruct m5 as [|m5]; [done|]. apply safe_act. intros s1 HI1 HR1.
  pose proof (tearing_rely _ _ _ _ _ _ _ HD Ht HR1) as Ht1. clear s HR1 Ht.
  rewrite (@load_ok _ _ pools_heap _ _ _ _ (t_pool _ _ _ _ _ _ Ht1)). split; [done|]. split; [intros j' _; apply R_refl|].
  cbn beta. eapply free_tasks_safe; [done|exact Ht1|apply (c_chain _ _ _ _ Hcon)|]. clear s1 Ht1 HI1.
  intros m6 s T' Hm6 Ht Hsz. destruct m6 as [|m6]; [done|]. apply safe_act. intros s1 HI1 HR1.
  pose proof (tearing_rely _ _ _ _ _ _ _ HD Ht HR1) as Ht1. pose proof Ht1 as [T1 T2 T3 T4 T5 T6 T7].
  erewrite bind_ok by (apply (@free_ok _ _ pools_heap _ _ _ _ T3)).
  change (lift_act monitors set_monitors (free_at (Some l)) i ?s2) with
    (Ok (S := pstate) tt (set_monitors (delete l (monitors s2)) s2)).
  set (s2 := set_monitors _ _).
  assert (pool_at s2 = None) as HP2 by apply lookup_delete_eq.
  destruct (tear_step i s1 s2 _ P T' h HD HI1 Ht1) as [HI2 HG]; try done.
  { right. split; [done|]. apply lookup_delete_eq. }
  split; [done|]. split; [done|]. apply safe_ret. intros s3 HI3 HR3 _.
  assert (all_returned s2) as Hall by done.
  destruct (r_done _ _ _ HR3 HD Hall) as (E1 & E2 & E3).
  assert (own i s3 = joins es n) as Hown by (by rewrite (r_own _ _ _ HR3)).
  destruct (joins_quiet es (seq 0 n)) as (Q1 & Q2 & Q3). fold (joins es n) in Q1, Q2, Q3.
  split_and!.
  - unfold idle, resting. rewrite Hown, Q1, Q2, Q3, Hp, Hc. split; [done|lia].
  - intros Ho3%(r_owner _ _ _ HR3). unfold owner, s2 in Ho3. cbn in Ho3. by rewrite lookup_delete_eq in Ho3.
  - by rewrite Hown, Q3.
  - lia.
  - intros _. split; [unfold pool_at; by rewrite E1|]. split; [intros w Hw; by apply (r_mono _ _ _ HR3), Hall|].
    exists (job_of <$> nodes (cells T) ls). rewrite E2, E3. change (tasks s2) with (tasks s1). change (history s2) with (history s1).
    rewrite T4, T5. split; [apply (c_stack _ _ _ _ Hcon)|].
    rewrite length_fmap, nodes_length; [rewrite Hsz; apply (c_count _ _ _ _ Hcon)|].
    intros k. apply (chain_lookup _ _ _ _ _ _ (c_chain _ _ _ _ Hcon)).
Qed.

Lemma destroyer_safe m0 i s : D = Some i → n = MAX_THREADS → outside i [] 0 s →
  safe m0 i (push_all (Some l) (jobs i) ≫= λ _, destroy_threadpool (Some l)) s.
Proof.
  intros HD Hn Hout. destruct (only_client i HD) as [Hi HN].
  eapply push_all_safe; [lia|exact Hout|done|done|set_solver|].
  intros m1 s1 es1 Hm1 Hout1 Hp Hc Hnj Hpush. eapply destroy_safe; try done.
Qed.

(** ** The system *)

Lemma spurious_wakeup_safe m0 i w s : N ≤ i → safe m0 i (spurious_wakeup (Some l) w) s.
Proof.
  intros Hi. unfold spurious_wakeup, forever. apply (safe_loop (λ _ _, True)); [done| |done]. clear s.
  intros m [] s _ _ IH. change (pbind ?p ?f) with (p ≫= f). destruct m as [|m]; [done|]. apply safe_act.
  intros s1 HI HR. pose proof (i_pool _ HI) as Hp. destruct (pool_at s1) as [P|] eqn:HP.
  - destruct Hp as (_ & _ & h & W & Hmon). rewrite (alter_insert_some _ _ _ _ Hmon).
    assert (owner s1 = h) as Ho by (unfold owner; by rewrite Hmon).
    assert (waiters s1 = W) as Hw by (unfold waiters; by rewrite Hmon).
    set (W' := filter (λ i, i ≠ w) W). change (set_monitors _ s1) with (put_monitor h W' s1).
    assert (W' ⊆ W) as Hsub by (intros x; unfold W'; rewrite list_elem_of_filter; by intros [_ ?]).
    destruct (i_waiters _ HI) as [Hnd Hlt]. rewrite Hw in *.
    destruct (monitor_step i s1 h W' HI) as [HI2 HG]; rewrite ?Hw, ?Ho; try done; auto.
    + by apply NoDup_filter.
    + rewrite <-Ho. intros j Hj. destruct (i_owner _ HI j Hj) as (? & Hnw & ?). rewrite Hw in Hnw.
      split_and!; auto.
    + intros Hh Ht P' HP'. destruct (i_free _ HI) with P' as (ls & Hc & Haw); [congruence|done|done|].
      exists ls. split; [done|]. rewrite Hw in Haw. by eapply awake_subset.
  - destruct Hp as (_ & _ & Hmon). assert (∀ f, alter f l (monitors s1) = monitors s1) as Halt.
    { intros f. apply map_eq. intros k. destruct (decide (l = k)) as [<-|]; [|by rewrite lookup_alter_ne].
      by rewrite lookup_alter_eq, Hmon. }
    rewrite Halt. replace (set_monitors (monitors s1) s1) with s1 by (by destruct s1).
    split; [done|]. split; [intros j _; apply R_refl|]. cbn. apply IH; [lia|done].
Qed.

(** ** The whole *)

(** The state [init_threadpool] leaves *)
Record fresh_pool s : Prop := {
  fp_pool : ∃ g, pool_at s = Some (Pool 0 0 g (Some ar) NULL);
  fp_tasks : tasks s = mem_empty;
  fp_array : cells (arrays s) !! ar = Some (PThreads (Some <$> seq 0 n));
  fp_monitor : monitors s !! l = Some (Monitor None [[]]);
  fp_returned : returned s = [];
  fp_trace : trace s = [];
  fp_oom : panswers s = [];
}.

Lemma fresh_inv s : fresh_pool s → inv s.
Proof.
  intros [[g Hp] Ht Ha Hm Hr Htr Ho].
  assert (owner s = None) as How by (unfold owner; by rewrite Hm).
  assert (waiters s = []) as Hw by (unfold waiters; by rewrite Hm). split.
  - rewrite Hp. split; [done|]. split; [by left|]. eauto.
  - rewrite Hw. split; [constructor|set_solver].
  - rewrite How. done.
  - intros _ _ P HP. exists []. assert (P = Pool 0 0 g (Some ar) NULL) as -> by congruence.
    unfold history. rewrite Ht, Htr, Hw. split; [by split|]. by split.
  - done.
  - done.
  - rewrite Htr. set_solver.
  - rewrite Htr. constructor.
Qed.
Lemma fresh_outside i s : fresh_pool s → outside i [] 0 s.
Proof.
  intros [[g Hp] Ht Ha Hm Hr Htr Ho]. split.
  - unfold owner. by rewrite Hm.
  - unfold waiters. rewrite Hm. simpl. set_solver.
  - unfold own. by rewrite Htr.
  - rewrite Hr. set_solver.
  - intros _. by rewrite Hp.
Qed.

Lemma rest_owner s : inv s → (∀ i, i < N → waits i s ∨ ends i s) → owner s = None.
Proof.
  intros HI Hall. destruct (owner s) as [j|] eqn:Ho; [|done]. exfalso.
  destruct (i_owner _ HI j Ho) as (Hj & Hnw & _). destruct (Hall j Hj) as [[_ [(j' & Ho' & Hne)|[?|(_ & Hno & _)]]]|He].
  - congruence.
  - done.
  - done.
  - by destruct (He Hj) as (_ & Hno & _).
Qed.

Lemma rest_calls s js : inv s → (∀ i, i < N → idle i s ∧ pushes (own i s) = jobs i) →
  replay (history s) [] = Some js →
  calls (snd <$> trace s) ++ js ≡ₚ pushes (snd <$> trace s) ∧ pushes (snd <$> trace s) ≡ₚ mjoin (jobs <$> seq 0 N).
Proof.
  intros HI Hall Hr. apply replay_perm in Hr. unfold history in Hr. rewrite pushes_filter, pops_filter, app_nil_r in Hr.
  assert (∀ f g : nat → list job, (∀ i, i < N → f i = g i) → f <$> seq 0 N = g <$> seq 0 N) as Hext.
  { intros f g Hfg. apply list_fmap_ext. intros k i Hi. apply lookup_seq in Hi as [-> Hi]. apply Hfg. lia. }
  pose proof (i_threads _ HI) as Ht.
  assert (pushes (snd <$> trace s) ≡ₚ mjoin ((λ i, pushes (own i s)) <$> seq 0 N)) as E1 by exact (by_thread_perm _ _ _ Ht).
  assert (pops (snd <$> trace s) ≡ₚ mjoin ((λ i, pops (own i s)) <$> seq 0 N)) as E2 by exact (by_thread_perm _ _ _ Ht).
  assert (calls (snd <$> trace s) ≡ₚ mjoin ((λ i, calls (own i s)) <$> seq 0 N)) as E3 by exact (by_thread_perm _ _ _ Ht).
  rewrite (Hext _ jobs) in E1 by (intros i Hi; apply (Hall i Hi)).
  rewrite (Hext _ (λ i, calls (own i s))) in E2 by (intros i Hi; apply (Hall i Hi)).
  split; [|done]. by rewrite E3, <-E2, <-Hr.
Qed.

(** The workers, the threads that push and the system *)
Context (clients : list (prog pstate unit)) (clients_N : N = n + length clients).
Context (clients_safe : ∀ m i p s, n ≤ i < N → clients !! (i - n) = Some p → outside i [] 0 s → safe m i p s).

Lemma pool_threads_safe s : fresh_pool s → created s = replicate n (Some l) →
  all_safe (s, pool_threads s (Some l) clients).
Proof.
  intros Hf Hcr. split; [by apply fresh_inv|]. intros m i p Hp. unfold pool_threads in Hp. cbn [fst snd] in *.
  rewrite Hcr, length_replicate in Hp. pose proof (fresh_outside i s Hf) as Hout.
  apply lookup_app_Some in Hp as [Hp|[Hi Hp]].
  - rewrite list_lookup_fmap, fmap_Some in Hp. destruct Hp as (q & [-> Hi]%lookup_replicate & ->).
    eapply worker_safe; [done|exact Hout|by split|set_solver].
  - rewrite length_fmap, length_replicate in Hi, Hp. apply lookup_app_Some in Hp as [Hp|[Hi2 Hp]].
    + pose proof (lookup_lt_Some _ _ _ Hp). eapply clients_safe; [lia|exact Hp|exact Hout].
    + rewrite list_lookup_fmap, fmap_Some in Hp. destruct Hp as (w & _ & ->). apply spurious_wakeup_safe. lia.
Qed.
End pool.

(** * The pool in its program *)

Lemma init_state g t : ∃ s0, init_threadpool (Z.of_nat MAX_THREADS) t (pstart g) = Ok (Some 1%positive) s0 ∧
  fresh_pool 1 1 MAX_THREADS s0 ∧ created s0 = replicate MAX_THREADS (Some 1%positive).
Proof.
  eexists. split; [vm_compute; reflexivity|]. split; [|reflexivity].
  split; [by exists g|reflexivity..].
Qed.

(** What thread [i] pushes when the threads behind the workers push [jobss] *)
Definition jobs_of (jobss : list (list job)) (i : tid) : list job :=
  if decide (i < MAX_THREADS) then [] else default [] (jobss !! (i - MAX_THREADS)).

Lemma jobs_of_all jobss : mjoin (jobs_of jobss <$> seq 0 (MAX_THREADS + length jobss)) = mjoin jobss.
Proof.
  rewrite seq_app, fmap_app, join_app. change (jobs_of jobss <$> seq 0 MAX_THREADS) with (replicate MAX_THREADS ([] : list job)).
  assert (jobs_of jobss <$> seq (0 + MAX_THREADS) (length jobss) = jobss) as ->; [|done].
  apply list_eq. intros k. rewrite list_lookup_fmap.
  destruct (decide (k < length jobss)) as [Hk|Hk].
  - rewrite lookup_seq_lt by done. cbn [fmap option_fmap option_map]. unfold jobs_of. rewrite decide_False by lia.
    replace (0 + MAX_THREADS + k - MAX_THREADS) with k by lia.
    destruct (lookup_lt_is_Some_2 jobss k Hk) as [js ->]. done.
  - rewrite lookup_seq_ge by lia. simpl. symmetry. apply lookup_ge_None_2. lia.
Qed.

(** The pool's ten workers and one thread for each of [jobss] *)
Section program.
Context (D : option tid) (jobss : list (list job)).
#[local] Abbreviation total := (MAX_THREADS + length jobss).

(** When no worker and no client can move *)
Lemma program_rest s ths : inv 1 1 MAX_THREADS total D s → total ≤ length ths →
  (∀ i p, ths !! i = Some p → prog_step p i s = Blocked →
      match p with Ret _ => ends 1 MAX_THREADS total D (jobs_of jobss) i s | _ => waits 1 MAX_THREADS D i s end) →
  (∀ i p, i < total → ths !! i = Some p → prog_step p i s = Blocked) →
  owner 1 s = None ∧ ∀ i, i < total →
    (waits 1 MAX_THREADS D i s ∨ (ths !! i = Some (Ret tt) ∧ ends 1 MAX_THREADS total D (jobs_of jobss) i s)).
Proof.
  intros HI Hlen Hblock Hall.
  assert (∀ i, i < total →
    (waits 1 MAX_THREADS D i s ∨ (ths !! i = Some (Ret tt) ∧ ends 1 MAX_THREADS total D (jobs_of jobss) i s))) as Hst.
  { intros i Hi. destruct (lookup_lt_is_Some_2 ths i) as [p Hp]; [lia|].
    specialize (Hblock i p Hp (Hall i p Hi Hp)). destruct p as [[]| |]; [by right|by left..]. }
  split; [|exact Hst]. eapply rest_owner; [exact HI|]. intros i Hi. destruct (Hst i Hi) as [?|[_ ?]]; [by left|by right].
Qed.

Context (clients : list (prog pstate unit)) (clients_jobs : length clients = length jobss).
Context (only_client : ∀ d, D = Some d → d = MAX_THREADS ∧ length jobss = 1).
#[local] Instance program_rg : RG pstate := pool_rg 1 1 MAX_THREADS total D (jobs_of jobss).
Context (clients_safe : ∀ m i p s, MAX_THREADS ≤ i < total → clients !! (i - MAX_THREADS) = Some p →
  outside 1 D i [] 0 s → safe m i p s).

Lemma program_sound g t : ∃ s0, init_threadpool (Z.of_nat MAX_THREADS) t (pstart g) = Ok (Some 1%positive) s0 ∧
  ∀ s ths, steps (s0, pool_threads s0 (Some 1%positive) clients) (s, ths) →
    inv 1 1 MAX_THREADS total D s ∧ (∀ e, faulty (s, ths) e → e = Overflow) ∧ total ≤ length ths ∧
    ∀ i p, ths !! i = Some p → prog_step p i s = Blocked →
      match p with Ret _ => ends 1 MAX_THREADS total D (jobs_of jobss) i s | _ => waits 1 MAX_THREADS D i s end.
Proof.
  destruct (init_state g t) as (s0 & Hi & Hf & Hcr). exists s0. split; [exact Hi|]. intros s ths Hsteps.
  assert (all_safe (s0, pool_threads s0 (Some 1%positive) clients)) as Hsafe.
  { refine (pool_threads_safe 1 1 MAX_THREADS total D (jobs_of jobss) _ _ _ _ clients _ clients_safe s0 Hf Hcr).
    - unfold MAX_THREADS. lia.
    - lia.
    - intros d Hd. destruct (only_client d Hd). lia.
    - intros w Hw. unfold jobs_of. by rewrite decide_True.
    - by rewrite clients_jobs. }
  destruct (rg_sound _ _ Hsafe Hsteps) as (HI & Hfault & Hblock). split; [exact HI|]. split; [exact Hfault|].
  split; [|exact Hblock]. pose proof (steps_length _ _ Hsteps) as Hlen. cbn [fst snd] in Hlen. rewrite Hlen.
  unfold pool_threads. rewrite !length_app, !length_fmap, Hcr, length_replicate. lia.
Qed.
End program.

Lemma pushers_safe jobss m i p s : MAX_THREADS ≤ i < MAX_THREADS + length jobss →
  (push_all (Some 1%positive) <$> jobss) !! (i - MAX_THREADS) = Some p → outside 1 None i [] 0 s →
  @safe _ (program_rg None jobss) m i p s.
Proof.
  intros Hi Hp Hout. rewrite list_lookup_fmap, fmap_Some in Hp. destruct Hp as (js & Hjs & ->).
  assert (js = jobs_of jobss i) as -> by (unfold jobs_of; rewrite decide_False by lia; by rewrite Hjs).
  apply (pusher_safe 1 1 MAX_THREADS (MAX_THREADS + length jobss) None (jobs_of jobss)); try lia; try done.
  - unfold MAX_THREADS. lia.
  - intros w Hw. unfold jobs_of. by rewrite decide_True.
Qed.

Lemma destroyers_safe js m i p s : MAX_THREADS ≤ i < MAX_THREADS + length [js] →
  [push_all (Some 1%positive) js ≫= λ _, destroy_threadpool (Some 1%positive)] !! (i - MAX_THREADS) = Some p →
  outside 1 (Some MAX_THREADS) i [] 0 s → @safe _ (program_rg (Some MAX_THREADS) [js]) m i p s.
Proof.
  intros Hi Hp Hout. cbn [length] in Hi. assert (i = MAX_THREADS) as -> by lia. rewrite Nat.sub_diag in Hp.
  injection Hp as <-.
  apply (destroyer_safe 1 1 MAX_THREADS (MAX_THREADS + length [js]) (Some MAX_THREADS) (jobs_of [js])); try done.
  - unfold MAX_THREADS. lia.
  - lia.
  - intros d [= <-]. cbn [length]. split; [done|lia].
  - intros w Hw. unfold jobs_of. by rewrite decide_True.
Qed.

(** When nobody can move, all have returned. *)
Lemma joined_at_rest js s (ths : list (prog pstate unit)) : inv 1 1 MAX_THREADS (S MAX_THREADS) (Some MAX_THREADS) s → owner 1 s = None →
  (∀ i, i < S MAX_THREADS → waits 1 MAX_THREADS (Some MAX_THREADS) i s ∨
     (ths !! i = Some (Ret tt) ∧ ends 1 MAX_THREADS (S MAX_THREADS) (Some MAX_THREADS) (jobs_of [js]) i s)) →
  finished (S MAX_THREADS) ths ∧ ∀ i, i < S MAX_THREADS →
    idle MAX_THREADS i s ∧ owner 1 s ≠ Some i ∧ pushes (own i s) = jobs_of [js] i ∧
    (i < MAX_THREADS → Some MAX_THREADS ≠ None ∧ i ∈ returned s) ∧
    (Some MAX_THREADS = Some i → destroyed 1 MAX_THREADS s).
Proof.
  intros HI Hown Hst.
  assert (∀ i, i < S MAX_THREADS → waiters 1 s = [] → (∀ w, w < MAX_THREADS → w ∈ returned s) →
    ths !! i = Some (Ret tt) ∧ ends 1 MAX_THREADS (S MAX_THREADS) (Some MAX_THREADS) (jobs_of [js]) i s) as Hret.
  { intros i Hi Hw Hall. destruct (Hst i Hi) as [[_ [(j & Hj & _)|[Hin|(_ & _ & (w & Hw2 & Hnr) & _)]]]|?].
    - congruence.
    - rewrite Hw in Hin. set_solver.
    - destruct (Hnr (Hall w Hw2)).
    - done. }
  assert (waiters 1 s = [] ∧ all_returned MAX_THREADS s) as [Hw Hall].
  { destruct (Hst MAX_THREADS ltac:(lia)) as [[_ [(j & Hj & _)|[Hin|(_ & _ & (w & Hw2 & Hnr) & Hstop)]]]|[_ He]].
    - congruence.
    - apply (i_waiters _ _ _ _ _ _ HI) in Hin. lia.
    - exfalso. assert (waiters 1 s = []) as Hwt.
      { pose proof (i_pool _ _ _ _ _ _ HI) as Hp. destruct (pool_at 1 s) as [P|] eqn:HP.
        - destruct (i_free _ _ _ _ _ _ HI Hown) with P as (ls & _ & _ & Hnil); [|done|by apply Hnil, Hstop].
          intros Ht. apply Hnr. by apply (joined_torn _ _ _ _ _ _ HI Ht).
        - destruct Hp as (_ & _ & Hm). unfold waiters. by rewrite Hm. }
      destruct (Hst w ltac:(lia)) as [[_ [(j & Hj & _)|[Hin|(Hd & _)]]]|[_ He]].
      + congruence.
      + rewrite Hwt in Hin. set_solver.
      + injection Hd as <-. lia.
      + destruct (He ltac:(lia)) as (_ & _ & _ & Hr & _). by destruct (Hr Hw2).
    - destruct (He ltac:(lia)) as (_ & _ & _ & _ & Hd). destruct (Hd eq_refl) as (Hp & Hall & _). split; [|done].
      pose proof (i_pool _ _ _ _ _ _ HI) as Hpool. rewrite Hp in Hpool. destruct Hpool as (_ & _ & Hm).
      unfold waiters. by rewrite Hm. }
  split; intros i Hi; destruct (Hret i Hi Hw Hall) as [H1 H2]; [done|]. by apply H2.
Qed.

(** C7: the pool under any number of threads that push, the ten workers and a
    system that wakes waiting workers for no reason: in every interleaving no
    thread faults (but for the overflow of a counter), no wakeup is lost and there
    is no deadlock: some worker or pusher can move until all pushers have
    returned, the queue is empty and every job pushed was called exactly once.
    Assumed: malloc succeeds and the ten workers can be created. *)
Theorem threadpool_no_lost_wakeup (jobss : list (list job)) (g : Z) (t : tid) :
  ∃ l s0, init_threadpool (Z.of_nat MAX_THREADS) t (pstart g) = Ok (Some l) s0 ∧
    ∀ s ths, steps (s0, pool_threads s0 (Some l) (push_all (Some l) <$> jobss)) (s, ths) →
      (∀ e, faulty (s, ths) e → e = Overflow) ∧
      (can_move (MAX_THREADS + length jobss) (s, ths) ∨
       (∀ i, MAX_THREADS ≤ i < MAX_THREADS + length jobss → ths !! i = Some (Ret tt)) ∧
       calls (snd <$> trace s) ≡ₚ mjoin jobss ∧
       queue_size <$> cells (pools s) !! l = Some 0%Z).
Proof.
  destruct (program_sound None jobss (push_all (Some 1%positive) <$> jobss)) with g t as (s0 & Hi & Hs0);
    [apply length_fmap|done|apply pushers_safe|].
  exists 1%positive, s0. split; [exact Hi|]. clear Hi. intros s ths Hsteps.
  destruct (Hs0 s ths Hsteps) as (HI & Hfault & Hlen & Hblock). split; [exact Hfault|].
  destruct (can_move_or_blocked (MAX_THREADS + length jobss) (s, ths)) as [|Hall]; [exact Hlen|by left|right].
  destruct (program_rest None jobss s ths HI Hlen Hblock Hall) as [Hown Hst].
  assert (∀ i, MAX_THREADS ≤ i < MAX_THREADS + length jobss → ths !! i = Some (Ret tt) ∧
    ends 1 MAX_THREADS (MAX_THREADS + length jobss) None (jobs_of jobss) i s) as Hcl.
  { intros i Hi2. destruct (Hst i ltac:(lia)) as [[_ [(j & Hj & _)|[Hw|[Hd _]]]]|?]; [congruence| |done|done].
    apply (i_waiters _ _ _ _ _ _ HI) in Hw. lia. }
  assert (∀ w, w < MAX_THREADS → idle MAX_THREADS w s ∧ w ∈ waiters 1 s) as Hwk.
  { intros w Hw. assert (w < MAX_THREADS + length jobss) as Hw2 by lia.
    destruct (Hst w Hw2) as [[Hidle Hwt]|[_ He]].
    - split; [exact Hidle|]. destruct Hwt as [(j & Hj & _)|[?|[Hd _]]]; [congruence|assumption|discriminate Hd].
    - destruct (He Hw2) as (_ & _ & _ & Hn & _). destruct (Hn Hw) as [Hnn _]. destruct Hnn. reflexivity. }
  pose proof (i_pool _ _ _ _ _ _ HI) as Hp. destruct (pool_at 1 s) as [P|] eqn:HP; [|by destruct Hp].
  destruct Hp as (_ & [Hstop|?] & _); [|done].
  destruct (i_free _ _ _ _ _ _ HI Hown) with P as (ls & Hc & Hawake & _); [|done|].
  { intros Ht. destruct (Ht 0) as [? Hj]; [unfold MAX_THREADS; lia|]. by apply (i_joined _ _ _ _ _ _ HI) in Hj as [? _]. }
  assert (ls = []) as ->.
  { destruct ls as [|c ls]; [done|]. destruct (Hawake Hstop) as (w & Hw & Hnw); [done|]. by destruct Hnw, (Hwk w Hw). }
  split; [intros i Hi2; apply (Hcl i Hi2)|]. split.
  - pose proof (rest_calls 1 1 MAX_THREADS (MAX_THREADS + length jobss) None (jobs_of jobss)
      ltac:(unfold MAX_THREADS; lia) ltac:(lia) s [] HI) as Hcalls.
    rewrite app_nil_r, jobs_of_all in Hcalls. destruct Hcalls as [Hcalls <-]; [|apply (c_stack _ _ _ _ Hc)|exact Hcalls].
    intros i Hi2. destruct (decide (i < MAX_THREADS)) as [Hlt|Hge].
    + destruct (Hwk i Hlt) as [[Hidle Hpush] _]. split; [by split|]. rewrite Hpush by done.
      unfold jobs_of. by rewrite decide_True.
    + destruct (Hcl i ltac:(lia)) as [_ He]. by destruct (He Hi2) as (? & _ & ? & _).
  - unfold pool_at in HP. rewrite HP. simpl. f_equal. exact (c_size _ _ _ _ Hc).
Qed.

(** C16: the pool is a stack of tasks, shared by any number of threads that push
    and the ten workers: whenever the mutex is free, the chain from [last_task]
    holds the jobs that the pushes and pops so far, done one after the other on a
    stack, leave, the last one first; [queue_size] counts them, and no task taken
    was freed. Assumed: malloc succeeds and the ten workers can be created. *)
Theorem threadpool_stack (jobss : list (list job)) (g : Z) (t : tid) :
  ∃ l s0, init_threadpool (Z.of_nat MAX_THREADS) t (pstart g) = Ok (Some l) s0 ∧
    ∀ s ths, steps (s0, pool_threads s0 (Some l) (push_all (Some l) <$> jobss)) (s, ths) → owner l s = None →
      ∃ P ls, cells (pools s) !! l = Some P ∧
        chain prev (cells (tasks s)) (last_task P) ls NULL ∧
        stack s = Some (job_of <$> nodes (cells (tasks s)) ls) ∧
        queue_size P = Z.of_nat (length ls) ∧
        size (cells (tasks s)) = length ls + length (pops (snd <$> trace s)).
Proof.
  destruct (program_sound None jobss (push_all (Some 1%positive) <$> jobss)) with g t as (s0 & Hi & Hs0);
    [apply length_fmap|done|apply pushers_safe|].
  exists 1%positive, s0. split; [exact Hi|]. clear Hi. intros s ths Hsteps Hown.
  destruct (Hs0 s ths Hsteps) as (HI & _).
  pose proof (i_pool _ _ _ _ _ _ HI) as Hp. destruct (pool_at 1 s) as [P|] eqn:HP; [|by destruct Hp].
  destruct (i_free _ _ _ _ _ _ HI Hown) with P as (ls & [Hch Hsz Hst Hct] & _); [|done|].
  { intros Ht. destruct (Ht 0) as [? Hj]; [unfold MAX_THREADS; lia|]. by apply (i_joined _ _ _ _ _ _ HI) in Hj as [? _]. }
  exists P, ls. split; [exact HP|]. split; [exact Hch|].
  pose proof (replay_perm _ _ _ Hst) as Hperm. apply Permutation_length in Hperm.
  rewrite app_nil_r, !length_app, length_fmap, nodes_length in Hperm.
  2: { intros k. apply (chain_lookup _ _ _ _ _ _ Hch). }
  unfold stack. unfold history in *. rewrite replay_filter in Hst. rewrite pushes_filter, ?pops_filter in *.
  split; [exact Hst|]. split; [exact Hsz|]. lia.
Qed.

(** C8: one thread pushes jobs and then destroys the pool, whatever the workers
    do meanwhile: no thread faults (but for the overflow of a counter), none uses
    the pool after it is freed, and there is no deadlock: some thread can move
    until all have returned. Then the pool is freed; every job was called or was
    still in the queue, and dropped, when the workers stopped; the tasks called
    and the array of threads are never freed. Assumed: malloc succeeds and the
    ten workers can be created. *)
Theorem threadpool_destroyed (js : list job) (g : Z) (t : tid) :
  ∃ l s0, init_threadpool (Z.of_nat MAX_THREADS) t (pstart g) = Ok (Some l) s0 ∧
    ∀ s ths, steps (s0, pool_threads s0 (Some l) [push_all (Some l) js ≫= λ _, destroy_threadpool (Some l)]) (s, ths) →
      (∀ e, faulty (s, ths) e → e = Overflow) ∧
      (can_move (S MAX_THREADS) (s, ths) ∨
       finished (S MAX_THREADS) ths ∧ cells (pools s) !! l = None ∧
       ∃ dropped, calls (snd <$> trace s) ++ dropped ≡ₚ js ∧
         size (cells (tasks s)) = length (calls (snd <$> trace s)) ∧
         ∃ ar, is_Some (cells (arrays s) !! ar)).
Proof.
  destruct (program_sound (Some MAX_THREADS) [js] [push_all (Some 1%positive) js ≫= λ _, destroy_threadpool (Some 1%positive)])
    with g t as (s0 & Hi & Hs0); [done|by intros d [= <-]|apply destroyers_safe|].
  exists 1%positive, s0. split; [exact Hi|]. clear Hi. intros s ths Hsteps.
  destruct (Hs0 s ths Hsteps) as (HI & Hfault & Hlen & Hblock). split; [exact Hfault|].
  change (MAX_THREADS + length [js]) with (S MAX_THREADS) in *.
  destruct (can_move_or_blocked (S MAX_THREADS) (s, ths)) as [|Hall]; [exact Hlen|by left|right].
  destruct (program_rest (Some MAX_THREADS) [js] s ths HI Hlen Hblock Hall) as [Hown Hst].
  change (MAX_THREADS + length [js]) with (S MAX_THREADS) in *.
  destruct (joined_at_rest js s ths HI Hown Hst) as [Hfin He].
  split; [exact Hfin|].
  destruct (He MAX_THREADS ltac:(lia)) as (_ & _ & _ & _ & Hd).
  destruct (Hd eq_refl) as (Hpool & _ & dropped & Hr & Hsz). split; [exact Hpool|]. exists dropped.
  destruct (rest_calls 1 1 MAX_THREADS (S MAX_THREADS) (Some MAX_THREADS) (jobs_of [js])
    ltac:(unfold MAX_THREADS; lia) ltac:(lia) s dropped HI) as [Hcalls Hpushes];
    [intros i Hi; by destruct (He i Hi) as (? & _ & ? & _)|exact Hr|].
  pose proof (jobs_of_all [js]) as Hjobs. change (MAX_THREADS + length [js]) with (S MAX_THREADS) in Hjobs.
  rewrite Hjobs in Hpushes. cbn in Hpushes. rewrite app_nil_r in Hpushes.
  split; [by rewrite Hcalls|]. split; [|exists 1%positive; eexists; apply (i_array _ _ _ _ _ _ HI)].
  unfold history in Hsz. rewrite pushes_filter in Hsz. apply Permutation_length in Hcalls.
  rewrite length_app in Hcalls. lia.
Qed.

(** * Creating the pool *)

Definition put_created (ar : positive) (a : list (option tid)) (c : list ptr) s : pstate :=
  PState (pools s) (tasks s) (mem_set ar (PThreads a) (arrays s)) (monitors s) c
    (returned s) (trace s) (panswers s) (creations s) (garbage s).

(** Creating one thread, and none where the array ends *)
Lemma create_one ar a j p t s : creations s = [] → cells (arrays s) !! ar = Some (PThreads a) →
  pthread_create (Some ar) j p t s =
    if decide (j < length a)
    then Ok false (put_created ar (<[j := Some (length (created s))]> a) (created s ++ [p]) s)
    else Fault OutOfBounds.
Proof.
  intros Hcr Ha. destruct s as [po ta arr mo cr re tr an cn g]. simpl in Hcr, Ha. subst cn.
  unfold pthread_create. erewrite bind_ok by reflexivity. cbv iota beta.
  cbn [creations default head].
  erewrite bind_ok by (apply (@load_ok _ _ arrays_heap ar (PThreads a)); exact Ha). cbn [slots].
  unfold gets. erewrite bind_ok by reflexivity. cbv beta. destruct (decide (j < length a)) as [Hj|Hj]; [|done].
  erewrite bind_ok by (apply (@update_ok _ _ arrays_heap ar (PThreads a)); exact Ha). done.
Qed.

Lemma take_insert_drop {A} (a ls : list A) j r x : j < length a →
  take (S j) (<[j := x]> a) ++ ls ++ drop (S j + r) (<[j := x]> a) = take j a ++ (x :: ls) ++ drop (j + S r) a.
Proof.
  intros Hj. rewrite drop_insert_lt by lia. replace (S j + r) with (j + S r) by lia.
  assert (take (S j) (<[j := x]> a) = take j a ++ [x]) as ->; [|by rewrite <-app_assoc].
  rewrite insert_take_drop by done. change (x :: drop (S j) a) with ([x] ++ drop (S j) a). rewrite app_assoc.
  apply take_app_length'. rewrite length_app, length_take. simpl. lia.
Qed.

Lemma create_workers_run r j l ar g a t s : creations s = [] → cells (arrays s) !! ar = Some (PThreads a) →
  cells (pools s) !! l = Some g → threads g = Some ar →
  foldr (λ i rest, p ← load threadpool_t (Some l); _ ← pthread_create (threads p) i (Some l); rest) (mret tt) (seq j r) t s =
  if decide (j + r ≤ length a ∨ r = 0)
  then Ok tt (if decide (r = 0) then s else
    put_created ar (take j a ++ (Some <$> seq (length (created s)) r) ++ drop (j + r) a) (created s ++ replicate r (Some l)) s)
  else Fault OutOfBounds.
Proof.
  revert j a s. induction r as [|r IH]; intros j a s Hcr Ha Hl Har.
  { rewrite decide_True by (by right). done. }
  cbn [seq foldr]. rewrite (bind_ok _ _ _ _ _ _ (@load_ok _ _ pools_heap _ _ t _ Hl)), Har.
  unfold mbind at 1, C_bind at 1. rewrite (create_one ar a j _ t s Hcr Ha).
  destruct (decide (j < length a)) as [Hj|Hj].
  2: { by rewrite decide_False by lia. }
  set (s1 := put_created _ _ _ _).
  rewrite (IH (S j) (<[j := Some (length (created s))]> a) s1); [|done|apply lookup_insert_eq|done|done].
  rewrite length_insert. unfold s1. cbn [put_created created]. rewrite length_app. cbn [length].
  destruct r as [|r].
  - rewrite !decide_True by (by first [left; lia|right; lia|lia]). f_equal. rewrite decide_False by lia.
    unfold put_created. f_equal. f_equal. f_equal. cbn [seq replicate fmap list_fmap app].
    rewrite insert_take_drop by done. by replace (j + 1) with (S j) by lia.
  - destruct (decide (S j + S r ≤ length a ∨ S r = 0)) as [[Hle|]|Hgt]; [|done|].
    + rewrite !decide_False by lia. rewrite decide_True by (left; lia). f_equal.
      rewrite take_insert_drop by done. rewrite Nat.add_1_r. unfold put_created. cbn. rewrite mem_set_set.
      by rewrite <-app_assoc.
    + by rewrite decide_False by lia.
Qed.

(** [init_threadpool (n)], when threads can be created: without memory, or
    with a negative [n], it returns NULL and leaves no object behind; with [n]
    from [MAX_THREADS] on, a pool with an empty queue, ten workers, their ids in
    the array, and the sequence of ids starting at whatever the memory held; with
    a smaller [n], as the program's 5, it writes behind the end of the array, of
    [n] elements, since it always creates [MAX_THREADS] workers. *)
Theorem init_threadpool_spec (n : Z) t s (Hcr : creations s = []) :
  let s1 := set_oom (tl (oom s)) s in
  let oom_2 := negb (bool_decide (n < 0)%Z) && bool_decide (malloc_fails s1) in
  if bool_decide (malloc_fails s) then init_threadpool n t s = Ok NULL s1
  else if bool_decide (n < 0)%Z || oom_2 then
    ∃ s', init_threadpool n t s = Ok NULL s' ∧ cells (pools s') = cells (pools s) ∧ arrays s' = arrays s ∧
      created s' = created s ∧ monitors s' = monitors s
  else if bool_decide (n < Z.of_nat MAX_THREADS)%Z then init_threadpool n t s = Fault OutOfBounds
  else ∃ l ar s', init_threadpool n t s = Ok (Some l) s' ∧
    cells (pools s) !! l = None ∧
    cells (pools s') = <[l := Pool 0 0 (garbage s) (Some ar) NULL]> (cells (pools s)) ∧
    monitors s' = <[l := Monitor None [[]]]> (monitors s) ∧
    creations s' = [] ∧ panswers s' = tl (tl (panswers s)) ∧ garbage s' = garbage s ∧
    cells (arrays s') !! ar = Some (PThreads ((Some <$> seq (length (created s)) MAX_THREADS) ++
      replicate (Z.to_nat n - MAX_THREADS) None)) ∧
    created s' = created s ++ replicate MAX_THREADS (Some l).
Proof.
  intros s1 oom_2. unfold init_threadpool. rewrite (bind_ok _ _ _ _ _ _ (eq_refl : gets garbage t s = Ok (garbage s) s)).
  set (g := garbage s). case_bool_decide as Hf1.
  { rewrite (bind_ok _ _ _ _ _ _ (malloc_null _ t s Hf1)). done. }
  destruct s as [po ta arr mo cr re tr an cn gb]. simpl in Hcr. subst cn g.
  set (s0 := PState _ _ _ _ _ _ _ _ _ _) in *. set (l := fresh_loc po).
  assert (∀ G, malloc threadpool_t G t s0 = Ok (Some l) (PState (mem_alloc G po) ta arr mo cr re tr (tl an) [] gb)) as Hm1
    by (intros G; by rewrite malloc_ok).
  rewrite (bind_ok _ _ _ _ _ _ (Hm1 _)). cbv iota.
  assert (∀ G h ar1 m1 a1, update threadpool_t (Some l) h t (PState (mem_alloc G po) ta ar1 m1 cr re tr a1 [] gb) =
    Ok tt (PState (mem_alloc (h G) po) ta ar1 m1 cr re tr a1 [] gb)) as Hu.
  { intros G h ar1 m1 a1. rewrite (@update_ok _ _ pools_heap _ G) by (cbn; apply lookup_insert_eq). cbn.
    unfold l. by rewrite mem_set_alloc. }
  assert (∀ G ar1 m1 a1, free threadpool_t (Some l) t (PState (mem_alloc G po) ta ar1 m1 cr re tr a1 [] gb) =
    Ok tt (PState (mem_del l (mem_alloc G po)) ta ar1 m1 cr re tr a1 [] gb)) as Hfree.
  { intros G ar1 m1 a1. by rewrite (@free_ok _ _ pools_heap _ G) by (cbn; apply lookup_insert_eq). }
  assert (∀ G, cells (mem_del l (mem_alloc G po)) = cells po) as Hdel.
  { intros G. cbn. fold l. rewrite delete_insert_id; [done|]. apply fresh_loc_none. }
  unfold malloc_threads, oom_2. destruct (decide (n < 0)%Z) as [Hn|Hn].
  { rewrite (bool_decide_true (n < 0)%Z) by done. cbn [orb].
    erewrite bind_ok by reflexivity. rewrite (bind_ok _ _ _ _ _ _ (Hu _ _ _ _ _)).
    rewrite (bind_ok _ _ _ _ _ _ (Hfree _ _ _ _)). eexists. split; [done|]. split; [apply Hdel|done]. }
  rewrite (bool_decide_false (n < 0)%Z) by done. cbn [orb negb andb].
  case_bool_decide as Hf2.
  { assert (∀ A G, malloc pthreads A t (PState (mem_alloc G po) ta arr mo cr re tr (tl an) [] gb) =
      Ok NULL (PState (mem_alloc G po) ta arr mo cr re tr (tl (tl an)) [] gb)) as Hm2
      by (intros A G; by rewrite malloc_null).
    rewrite (bind_ok _ _ _ _ _ _ (Hm2 _ _)). cbv iota. rewrite (bind_ok _ _ _ _ _ _ (Hu _ _ _ _ _)).
    rewrite (bind_ok _ _ _ _ _ _ (Hfree _ _ _ _)). eexists. split; [done|]. split; [apply Hdel|done]. }
  set (ar := fresh_loc arr).
  assert (∀ A G, malloc pthreads A t (PState (mem_alloc G po) ta arr mo cr re tr (tl an) [] gb) =
    Ok (Some ar) (PState (mem_alloc G po) ta (mem_alloc A arr) mo cr re tr (tl (tl an)) [] gb)) as Hm2
    by (intros A G; by rewrite malloc_ok).
  rewrite (bind_ok _ _ _ _ _ _ (Hm2 _ _)). cbv iota. do 4 rewrite (bind_ok _ _ _ _ _ _ (Hu _ _ _ _ _)).
  erewrite bind_ok by reflexivity. unfold create_workers.
  set (m := Z.to_nat n). set (s2 := set_monitors _ _).
  assert (cells (pools s2) !! l = Some (Pool 0 0 gb (Some ar) NULL)) as Hl2 by (cbn; apply lookup_insert_eq).
  pose proof (create_workers_run MAX_THREADS 0 l ar _ (replicate m None) t s2 eq_refl ltac:(cbn; apply lookup_insert_eq) Hl2 eq_refl) as Hrun.
  rewrite length_replicate in Hrun. cbn [Nat.add] in Hrun.
  case_bool_decide as Hmax.
  { rewrite decide_False in Hrun by (unfold MAX_THREADS in *; lia). unfold mbind, C_bind in Hrun |- *. by rewrite Hrun. }
  rewrite decide_True in Hrun by (unfold MAX_THREADS in *; lia). rewrite decide_False in Hrun by done.
  rewrite (bind_ok _ _ _ _ _ _ Hrun).
  exists l, ar. eexists. split; [done|]. split; [apply fresh_loc_none|]. do 5 (split; [done|]).
  split; [|done]. cbn [put_created arrays mem_set cells]. rewrite lookup_insert_eq. f_equal. f_equal.
  by rewrite drop_replicate.
Qed.

Example init_threadpool_spec_witness :
  creations (pstart 42) = [] ∧ init_threadpool 5 0 (pstart 42) = Fault OutOfBounds.
Proof. split; [reflexivity|]. exact (init_threadpool_spec 5 0 (pstart 42) eq_refl). Defined.
