(* ===== verification/Context.v ===== *)
(** Context: the proxy's context (lab3/src/context/context.c), which creates and
    destroys the table of managers and the two thread pools. *)
From S2P Require Import Prelude Threads Pthread Hashmap Threadpool.

#[local] Open Scope Z_scope.

(** * Data *)

(** The pointers are [None] as long as nothing was written to them. *)
Record proxy_context_t := ProxyContext {
  stop : Z;
  port : Z;
  map : option ptr;
  handler_pool : option ptr;
  upload_pool : option ptr;
}.
Definition set_map p c := ProxyContext (stop c) (port c) (Some p) (handler_pool c) (upload_pool c).
Definition set_handler_pool p c := ProxyContext (stop c) (port c) (map c) (Some p) (upload_pool c).
Definition set_upload_pool p c := ProxyContext (stop c) (port c) (map c) (handler_pool c) (Some p).

(** The contexts, what hashmap.c works on, what threadpool.c works on, and the
    answers of [malloc] for contexts *)
Record cstate := CState {
  contexts : mem proxy_context_t;
  maps : table_store;
  pool_state : pstate;
  context_answers : list bool;
}.
#[export] Instance contexts_heap : Heap cstate proxy_context_t.
Proof.
  refine {| heap := contexts; set_heap m s := CState m (maps s) (pool_state s) (context_answers s) |};
    by intros; destruct s.
Defined.
#[export] Instance cstate_oom : Oom cstate.
Proof.
  refine {| oom := context_answers; set_oom o s := CState (contexts s) (maps s) (pool_state s) o |};
    by intros; destruct s.
Defined.
#[export] Instance cstate_oom_indep : OomIndep cstate proxy_context_t.
Proof. done. Qed.

Definition set_maps x s := CState (contexts s) x (pool_state s) (context_answers s).
Definition set_pool_state x s := CState (contexts s) (maps s) x (context_answers s).

(** A call into hashmap.c, and one into threadpool.c *)
Definition on_map {A} (op : C table_store A) : C cstate A := lift_act maps set_maps op.
Definition on_pool {A} (op : C pstate A) : C cstate A := lift_act pool_state set_pool_state op.

Definition assigned_ptr (p : option ptr) : C cstate ptr :=
  match p with Some x => mret x | None => fail Uninit end.

(** [free(pool)]: the pool's mutex and condition variable go with it. *)
Definition free_pool (pool : ptr) : C pstate unit :=
  free threadpool_t pool;; lift_act monitors set_monitors (free_at pool).

(** * Operations *)

Definition init_context (port upload_threads handler_threads : Z) : C cstate ptr :=
  context ← malloc proxy_context_t (ProxyContext 0 port None None None);
  match context with
  | None => mret NULL
  | Some _ =>
      m ← on_map HashMap.create_table;
      update proxy_context_t context (set_map m);;
      match m with
      | None => free proxy_context_t context;; mret NULL
      | Some _ =>
          hp ← on_pool (init_threadpool handler_threads);
          update proxy_context_t context (set_handler_pool hp);;
          match hp with
          | None => free proxy_context_t context;; mret NULL
          | Some _ =>
              up ← on_pool (init_threadpool upload_threads);
              update proxy_context_t context (set_upload_pool up);;
              match up with
              | None =>
                  on_pool (free_pool hp);;
                  free proxy_context_t context;;
                  mret NULL
              | Some _ => mret context
              end
          end
      end
  end.

(** The caller's pointer becomes NULL: the result is its new value. *)
Definition destroy_context (context : ptr) : prog cstate ptr :=
  match context with
  | None => mret NULL
  | Some _ =>
      c ← atomic (load proxy_context_t context);
      m ← atomic (assigned_ptr (map c));
      m' ← atomic (on_map (HashMap.destroy_hashmap m));
      atomic (update proxy_context_t context (set_map m'));;
      hp ← atomic (assigned_ptr (handler_pool c));
      lift pool_state set_pool_state (destroy_threadpool hp);;
      atomic (free proxy_context_t context);;
      mret NULL
  end.

(** * Creating a pool, by case *)

(** What [init_threadpool (n)] comes to: no pool, a pool, or ([None]) a write
    behind the end of the array *)
Definition pool_outcome (n : Z) (answers : list bool) : option bool :=
  if decide (head answers = Some false ∨ n < 0 ∨ head (tl answers) = Some false) then Some false
  else if decide (n < Z.of_nat MAX_THREADS) then None
  else Some true.

Lemma pool_cases n t s : creations s = [] →
  match pool_outcome n (panswers s) with
  | None => init_threadpool n t s = Fault OutOfBounds
  | Some false => ∃ s', init_threadpool n t s = Ok NULL s' ∧ cells (pools s') = cells (pools s) ∧
      created s' = created s ∧ monitors s' = monitors s
  | Some true => ∃ l ar s', init_threadpool n t s = Ok (Some l) s' ∧ cells (pools s) !! l = None ∧
      cells (pools s') = <[l := Pool 0 0 (garbage s) (Some ar) NULL]> (cells (pools s)) ∧
      monitors s' = <[l := Monitor None [[]]]> (monitors s) ∧
      creations s' = [] ∧ panswers s' = tl (tl (panswers s)) ∧ garbage s' = garbage s ∧
      created s' = created s ++ replicate MAX_THREADS (Some l)
  end.
Proof.
  intros Hcr. pose proof (init_threadpool_spec n t s Hcr) as H. cbn zeta in H.
  unfold pool_outcome. unfold malloc_fails in H. cbn [oom set_oom pstate_oom panswers] in H.
  destruct (decide (head (panswers s) = Some false)) as [H1|H1].
  { rewrite bool_decide_true in H by done. rewrite decide_True by auto. by eexists. }
  rewrite bool_decide_false in H by done.
  destruct (decide (n < 0)) as [H2|H2].
  { rewrite bool_decide_true in H by done. rewrite decide_True by auto. simpl in H.
    destruct H as (s' & ? & ? & _ & ? & ?). by exists s'. }
  rewrite (bool_decide_false (n < 0)) in H by done. cbn [negb orb andb] in H.
  destruct (decide (head (tl (panswers s)) = Some false)) as [H3|H3].
  { rewrite bool_decide_true in H by done. rewrite decide_True by auto.
    destruct H as (s' & ? & ? & _ & ? & ?). by exists s'. }
  rewrite bool_decide_false in H by done. rewrite decide_False by tauto.
  destruct (decide (n < Z.of_nat MAX_THREADS)) as [H4|H4].
  - by rewrite bool_decide_true in H.
  - rewrite bool_decide_false in H by done. destruct H as (l & ar & s' & ? & ? & ? & ? & ? & ? & ? & _ & ?).
    by exists l, ar, s'.
Qed.

(** A worker of a pool whose struct is gone *)
Lemma worker_faults pool fuel w s : monitors s !! pool = None →
  run (Datatypes.S fuel) (worker (Some pool)) w s = Fault Segv.
Proof.
  intros Hm. unfold worker, worker_round. cbn. unfold mbind, C_bind, on_monitor, lift_act, at_ptr.
  by rewrite Hm.
Qed.

(** * Creating a context *)

Section init.
Context (pt up hd : Z) (t : tid) (s : cstate).
Hypothesis Hcr : creations (pool_state s) = [].

Definition fresh_context : positive := fresh_loc (contexts s).
(** The state with the context at its place, and those of table and pools *)
Definition with_context (c : proxy_context_t) (m : table_store) (p : pstate) : cstate :=
  CState (mem_alloc c (contexts s)) m p (tl (context_answers s)).

Lemma update_context f c m p : update proxy_context_t (Some fresh_context) f t (with_context c m p) =
  Ok tt (with_context (f c) m p).
Proof.
  erewrite (update_ok fresh_context c) by (cbn; apply lookup_insert_eq).
  unfold with_context, fresh_context. cbn. by rewrite mem_set_alloc.
Qed.
Lemma free_context c m p : ∃ s', free proxy_context_t (Some fresh_context) t (with_context c m p) = Ok tt s' ∧
  cells (contexts s') = cells (contexts s) ∧ maps s' = m ∧ pool_state s' = p.
Proof.
  erewrite (free_ok fresh_context c) by (cbn; apply lookup_insert_eq). eexists. split; [done|].
  split; [|done]. cbn. rewrite delete_insert_id; [done|]. apply fresh_loc_none.
Qed.
Lemma on_map_ok {A} (op : C table_store A) c m p a m' : op t m = Ok a m' →
  on_map op t (with_context c m p) = Ok a (with_context c m' p).
Proof. intros H. unfold on_map, lift_act. cbn. by rewrite H. Qed.
Lemma on_pool_ok {A} (op : C pstate A) c m p a p' : op t p = Ok a p' →
  on_pool op t (with_context c m p) = Ok a (with_context c m p').
Proof. intros H. unfold on_pool, lift_act. cbn. by rewrite H. Qed.

Lemma free_pool_ok l P p : cells (pools p) !! l = Some P →
  ∃ p', free_pool (Some l) t p = Ok tt p' ∧ created p' = created p ∧ monitors p' !! l = None ∧
    cells (pools p') !! l = None.
Proof.
  intros Hl. unfold free_pool. rewrite (bind_ok _ _ _ _ _ _ (@free_ok _ _ pools_heap l P t p Hl)).
  eexists. split; [done|]. cbn. by rewrite !lookup_delete_eq.
Qed.

(** C26: [init_context], when threads can be created, by what memory there is and
    the numbers of threads asked for. Without memory for the context, the table
    or a pool the result is NULL and the context is given back. But the table
    stays allocated when a pool fails; and when the upload pool fails, the
    handler pool is freed under its ten workers, each of which faults when it
    runs. With fewer than ten threads asked for, as the 5 of main.c, the ids are
    written behind the end of an array. Otherwise the context has a fresh table
    and two fresh pools of ten workers each. *)
Theorem init_context_spec :
  if decide (malloc_fails s) then init_context pt up hd t s = Ok NULL (set_oom (tl (oom s)) s)
  else if decide (malloc_fails (maps s)) then
    ∃ s', init_context pt up hd t s = Ok NULL s' ∧ cells (contexts s') = cells (contexts s) ∧
      pool_state s' = pool_state s
  else ∃ ht m', HashMap.create_table t (maps s) = Ok (Some ht) m' ∧ repr m' ht (λ _, []) ∧
    match pool_outcome hd (panswers (pool_state s)) with
    | None => init_context pt up hd t s = Fault OutOfBounds
    | Some false => ∃ s', init_context pt up hd t s = Ok NULL s' ∧
        cells (contexts s') = cells (contexts s) ∧ maps s' = m' ∧ created (pool_state s') = created (pool_state s)
    | Some true => ∃ lh, cells (pools (pool_state s)) !! lh = None ∧
        match pool_outcome up (tl (tl (panswers (pool_state s)))) with
        | None => init_context pt up hd t s = Fault OutOfBounds
        | Some false => ∃ s', init_context pt up hd t s = Ok NULL s' ∧
            cells (contexts s') = cells (contexts s) ∧ maps s' = m' ∧
            created (pool_state s') = created (pool_state s) ++ replicate MAX_THREADS (Some lh) ∧
            ∀ fuel w, run (Datatypes.S fuel) (worker (Some lh)) w (pool_state s') = Fault Segv
        | Some true => ∃ l lu s', init_context pt up hd t s = Ok (Some l) s' ∧
            contexts s' = mem_alloc (ProxyContext 0 pt (Some (Some ht)) (Some (Some lh)) (Some (Some lu))) (contexts s) ∧
            l = fresh_loc (contexts s) ∧ maps s' = m' ∧ lh ≠ lu ∧
            (∃ ah au, cells (pools (pool_state s')) =
               <[lu := Pool 0 0 (garbage (pool_state s)) (Some au) NULL]>
               (<[lh := Pool 0 0 (garbage (pool_state s)) (Some ah) NULL]> (cells (pools (pool_state s))))) ∧
            created (pool_state s') = created (pool_state s) ++
              replicate MAX_THREADS (Some lh) ++ replicate MAX_THREADS (Some lu)
        end
    end.
Proof.
  unfold init_context. destruct (decide (malloc_fails s)) as [Hf|Hf].
  { by rewrite (bind_ok _ _ _ _ _ _ (malloc_null _ t s Hf)). }
  rewrite (bind_ok _ _ _ _ _ _ (malloc_ok _ t s Hf)).
  change (set_heap _ _ _) with (with_context (ProxyContext 0 pt None None None) (maps s) (pool_state s)).
  fold fresh_context. cbv beta iota.
  destruct (decide (malloc_fails (maps s))) as [Hm|Hm].
  { assert (HashMap.create_table t (maps s) = Ok NULL (set_oom (tl (oom (maps s))) (maps s))) as Hn by (by apply malloc_null).
    rewrite (bind_ok _ _ _ _ _ _ (on_map_ok _ _ _ _ _ _ Hn)).
    rewrite (bind_ok _ _ _ _ _ _ (update_context _ _ _ _)).
    edestruct free_context as (s' & Hfr & ? & ? & ?). rewrite (bind_ok _ _ _ _ _ _ Hfr). by exists s'. }
  destruct (create_run t (maps s) Hm) as (ht & m' & Hc & Hrepr & _). exists ht, m'. split; [done|]. split; [done|].
  rewrite (bind_ok _ _ _ _ _ _ (on_map_ok _ _ _ _ _ _ Hc)).
  rewrite (bind_ok _ _ _ _ _ _ (update_context _ _ _ _)).
  pose proof (pool_cases hd t (pool_state s) Hcr) as H1. destruct (pool_outcome hd _) as [[]|].
  2: { destruct H1 as (p' & Hp & _ & ? & _). rewrite (bind_ok _ _ _ _ _ _ (on_pool_ok _ _ _ _ _ _ Hp)).
       rewrite (bind_ok _ _ _ _ _ _ (update_context _ _ _ _)).
       edestruct free_context as (s' & Hfr & ? & ? & Hp'). rewrite (bind_ok _ _ _ _ _ _ Hfr).
       exists s'. by rewrite Hp'. }
  2: { unfold mbind, C_bind, on_pool, lift_act. cbn [with_context pool_state]. by rewrite H1. }
  destruct H1 as (lh & ah & p1 & Hp1 & Hlh & Hpools1 & _ & Hcr1 & Ha1 & Hg1 & Hc1).
  exists lh. split; [done|]. rewrite (bind_ok _ _ _ _ _ _ (on_pool_ok _ _ _ _ _ _ Hp1)).
  rewrite (bind_ok _ _ _ _ _ _ (update_context _ _ _ _)). cbv beta iota.
  rewrite <-Ha1. pose proof (pool_cases up t p1 Hcr1) as H2. destruct (pool_outcome up _) as [[]|].
  - destruct H2 as (lu & au & p2 & Hp2 & Hlu & Hpools2 & _ & _ & _ & _ & Hc2).
    rewrite (bind_ok _ _ _ _ _ _ (on_pool_ok _ _ _ _ _ _ Hp2)).
    rewrite (bind_ok _ _ _ _ _ _ (update_context _ _ _ _)).
    eexists fresh_context, lu, _. split; [done|]. split; [done|]. split; [done|]. split; [done|].
    split; [intros ->; by rewrite Hpools1, lookup_insert_eq in Hlu|]. cbn. split.
    + exists ah, au. by rewrite Hpools2, Hpools1, Hg1.
    + by rewrite Hc2, Hc1, <-app_assoc.
  - destruct H2 as (p2 & Hp2 & Hpools2 & Hc2 & _).
    rewrite (bind_ok _ _ _ _ _ _ (on_pool_ok _ _ _ _ _ _ Hp2)).
    rewrite (bind_ok _ _ _ _ _ _ (update_context _ _ _ _)). cbv beta iota.
    edestruct (free_pool_ok lh) as (p3 & Hp3 & Hc3 & Hm3 & _); [rewrite Hpools2, Hpools1; apply lookup_insert_eq|].
    rewrite (bind_ok _ _ _ _ _ _ (on_pool_ok _ _ _ _ _ _ Hp3)).
    edestruct free_context as (s' & Hfr & ? & ? & Hp'). rewrite (bind_ok _ _ _ _ _ _ Hfr).
    exists s'. split; [done|]. split; [done|]. split; [done|]. rewrite Hp'. split; [congruence|].
    intros fuel w. by apply worker_faults.
  - unfold mbind at 1, C_bind at 1, on_pool at 1, lift_act at 1. cbn [with_context pool_state]. by rewrite H2.
Qed.
End init.

(** The context of main.c, which asks for 5 upload threads *)
Example init_context_spec_witness :
  let s := CState mem_empty (ts_empty []) (pstart 42) [] in
  creations (pool_state s) = [] ∧ init_context 8080 5 10 0%nat s = Fault OutOfBounds.
Proof.
  intros s. split; [done|].
  destruct (init_context_spec 8080 5 10 0%nat s eq_refl) as (ht & m' & _ & _ & lh & _ & H). exact H.
Defined.
