(* ===== verification/Subscription.v ===== *)
(** Subscription: the clients that wait for the same URL in lab3
    (subscription.c): a manager with its list of subscribers and the chunks
    downloaded so far, which one session thread adds and the workers of the upload
    pool send to every subscriber. *)
From S2P Require Import Prelude Links Threads Pthread Common Chunk.

#[local] Open Scope Z_scope.

(** * Data *)

(** The mutex of a subscriber is the thread that holds it. *)
Record subscriber_t := Subscriber { fd : Z; chunk_loaded : Z; sub_next : ptr; sub_prev : ptr; lock : mutex }.
Record subscription_manager_t := Manager {
  is_busy : Z;
  flag : Z;
  subscribers_count : Z;
  first_subscriber : ptr;
  last_subscriber : ptr;
  container : ptr;
}.
Record subscription_info_t := Info { subscriber : ptr; manager : ptr }.

Definition set_chunk_loaded x b := Subscriber (fd b) x (sub_next b) (sub_prev b) (lock b).
Definition set_sub_next p b := Subscriber (fd b) (chunk_loaded b) p (sub_prev b) (lock b).
Definition set_sub_prev p b := Subscriber (fd b) (chunk_loaded b) (sub_next b) p (lock b).
Definition set_sub_lock k b := Subscriber (fd b) (chunk_loaded b) (sub_next b) (sub_prev b) k.
Definition set_is_busy x m := Manager x (flag m) (subscribers_count m) (first_subscriber m) (last_subscriber m) (container m).
Definition set_flag x m := Manager (is_busy m) x (subscribers_count m) (first_subscriber m) (last_subscriber m) (container m).
Definition set_subscribers_count x m := Manager (is_busy m) (flag m) x (first_subscriber m) (last_subscriber m) (container m).
Definition set_first_subscriber p m := Manager (is_busy m) (flag m) (subscribers_count m) p (last_subscriber m) (container m).
Definition set_last_subscriber p m := Manager (is_busy m) (flag m) (subscribers_count m) (first_subscriber m) p (container m).
Definition set_container p m := Manager (is_busy m) (flag m) (subscribers_count m) (first_subscriber m) (last_subscriber m) p.

#[export] Instance subscriber_linked : Linked subscriber_t.
Proof.
  refine {| next := sub_next; prev := sub_prev; set_next := set_sub_next; set_prev := set_sub_prev |}; done.
Defined.

(** The directory of the cache: its files, each a name and its bytes; [writable]
    is whether files can be created in it. *)
Record disk_t := Disk { writable : bool; stored : gmap (list Z) (list Z) }.

(** The process: the structs, the mutex and the condition variable of each
    manager, the sockets and those that are closed, the tasks pushed to the upload
    pool and not yet taken, the answers of [malloc] and the cache. [hand] is auxiliary: the
    task each worker has taken, and whether it still has to count it off. *)
Record mstate := MState {
  managers : mem subscription_manager_t;
  subscribers : mem subscriber_t;
  infos : mem subscription_info_t;
  containers : mem chunk_container_t;
  chunks : mem chunk_t;
  mlocks : gmap positive monitor;
  sockets : net;
  closed : list Z;
  uploads : list positive;
  hand : gmap tid (positive * bool);
  manswers : list bool;
  disk : disk_t;
}.

Ltac mstate_instance := intros; repeat match goal with s : mstate |- _ => destruct s end; reflexivity.
#[export] Instance managers_heap : Heap mstate subscription_manager_t.
Proof.
  refine {| heap := managers; set_heap x s := MState x (subscribers s) (infos s) (containers s) (chunks s)
    (mlocks s) (sockets s) (closed s) (uploads s) (hand s) (manswers s) (disk s) |}; mstate_instance.
Defined.
#[export] Instance subscribers_heap : Heap mstate subscriber_t.
Proof.
  refine {| heap := subscribers; set_heap x s := MState (managers s) x (infos s) (containers s) (chunks s)
    (mlocks s) (sockets s) (closed s) (uploads s) (hand s) (manswers s) (disk s) |}; mstate_instance.
Defined.
#[export] Instance infos_heap : Heap mstate subscription_info_t.
Proof.
  refine {| heap := infos; set_heap x s := MState (managers s) (subscribers s) x (containers s) (chunks s)
    (mlocks s) (sockets s) (closed s) (uploads s) (hand s) (manswers s) (disk s) |}; mstate_instance.
Defined.
#[export] Instance containers_heap : Heap mstate chunk_container_t.
Proof.
  refine {| heap := containers; set_heap x s := MState (managers s) (subscribers s) (infos s) x (chunks s)
    (mlocks s) (sockets s) (closed s) (uploads s) (hand s) (manswers s) (disk s) |}; mstate_instance.
Defined.
#[export] Instance chunks_heap : Heap mstate chunk_t.
Proof.
  refine {| heap := chunks; set_heap x s := MState (managers s) (subscribers s) (infos s) (containers s) x
    (mlocks s) (sockets s) (closed s) (uploads s) (hand s) (manswers s) (disk s) |}; mstate_instance.
Defined.
#[export] Instance mstate_sockets : Sockets mstate.
Proof.
  refine {| net_of := sockets; set_net x s := MState (managers s) (subscribers s) (infos s) (containers s) (chunks s)
    (mlocks s) x (closed s) (uploads s) (hand s) (manswers s) (disk s) |}; mstate_instance.
Defined.
#[export] Instance mstate_oom : Oom mstate.
Proof.
  refine {| oom := manswers; set_oom x s := MState (managers s) (subscribers s) (infos s) (containers s) (chunks s)
    (mlocks s) (sockets s) (closed s) (uploads s) (hand s) x (disk s) |}; mstate_instance.
Defined.
#[export] Instance chunks_containers : HeapIndep mstate chunk_t chunk_container_t.
Proof. intros x s. by destruct s. Qed.
#[export] Instance containers_chunks : HeapIndep mstate chunk_container_t chunk_t.
Proof. intros x s. by destruct s. Qed.
#[export] Instance oom_chunks : OomIndep mstate chunk_t.
Proof. split; intros x s; by destruct s. Qed.
#[export] Instance oom_containers : OomIndep mstate chunk_container_t.
Proof. split; intros x s; by destruct s. Qed.

Definition set_mlocks x s := MState (managers s) (subscribers s) (infos s) (containers s) (chunks s)
  x (sockets s) (closed s) (uploads s) (hand s) (manswers s) (disk s).
Definition set_closed x s := MState (managers s) (subscribers s) (infos s) (containers s) (chunks s)
  (mlocks s) (sockets s) x (uploads s) (hand s) (manswers s) (disk s).
Definition set_disk d s := MState (managers s) (subscribers s) (infos s) (containers s) (chunks s)
  (mlocks s) (sockets s) (closed s) (uploads s) (hand s) (manswers s) d.
Definition set_tasks x h s := MState (managers s) (subscribers s) (infos s) (containers s) (chunks s)
  (mlocks s) (sockets s) (closed s) x h (manswers s) (disk s).

(** * Access *)

Definition manager_get {A} (m : ptr) (field : subscription_manager_t → A) : prog mstate A :=
  Act (load subscription_manager_t m) (λ n, Ret (field n)).
Definition manager_set (m : ptr) (f : subscription_manager_t → subscription_manager_t) : prog mstate unit :=
  atomic (update subscription_manager_t m f).
Definition sub_get {A} (p : ptr) (field : subscriber_t → A) : prog mstate A :=
  Act (load subscriber_t p) (λ n, Ret (field n)).
Definition sub_set (p : ptr) (f : subscriber_t → subscriber_t) : prog mstate unit :=
  atomic (update subscriber_t p f).
Definition info_get {A} (p : ptr) (field : subscription_info_t → A) : prog mstate A :=
  Act (load subscription_info_t p) (λ n, Ret (field n)).

Definition on_manager (m : ptr) (op : C monitor unit) : prog mstate unit :=
  atomic (lift_act mlocks set_mlocks (at_ptr m op)).
Definition manager_lock (m : ptr) : prog mstate unit := on_manager m monitor_lock.
Definition manager_unlock (m : ptr) : prog mstate unit := on_manager m monitor_unlock.
Definition manager_wait (m : ptr) : prog mstate unit :=
  on_manager m (cond_enter 0);;
  on_manager m (cond_block 0);;
  manager_lock m.
Definition manager_signal (m : ptr) : prog mstate unit := on_manager m (cond_signal 0).

(** The mutex of the subscriber at [p] *)
Definition on_sub_lock (p : ptr) (op : C mutex unit) : prog mstate unit :=
  atomic (λ t s,
    match p with
    | Some l =>
        match cells (subscribers s) !! l with
        | Some b =>
            match op t (lock b) with
            | Ok _ k => Ok tt (set_heap subscriber_t (mem_set l (set_sub_lock k b) (subscribers s)) s)
            | Blocked => Blocked
            | Fault e => Fault e
            end
        | None => Fault Segv
        end
    | None => Fault Segv
    end).
Definition sub_lock (p : ptr) : prog mstate unit := on_sub_lock p mutex_lock.
Definition sub_unlock (p : ptr) : prog mstate unit := on_sub_lock p mutex_unlock.

Definition close (f : Z) : prog mstate unit := atomic (modify (λ s, set_closed (closed s ++ [f]) s)).

(** The upload pool, as threadpool.c has it: a stack of tasks *)
Definition threadpool_push_task (info : ptr) : prog mstate unit :=
  atomic (λ _ s, match info with
    | Some i => Ok tt (set_tasks (i :: uploads s) (hand s) s)
    | None => Fault Segv
    end).
Definition pop_upload : prog mstate ptr :=
  atomic (λ t s, match uploads s with
    | [] => Blocked
    | i :: r => Ok (Some i) (set_tasks r (<[t := (i, true)]> (hand s)) s)
    end).

(** * Operations *)

(** The links of the neighbours of [sub], and the ends of the list *)
Definition unlink_subscriber (m sub : ptr) : prog mstate unit :=
  nx ← sub_get sub sub_next;
  pv ← sub_get sub sub_prev;
  match nx, pv with
  | None, None =>
      manager_set m (set_first_subscriber NULL);;
      manager_set m (set_last_subscriber NULL)
  | _, _ =>
      match nx with
      | None =>
          manager_set m (set_last_subscriber pv);;
          sub_set pv (set_sub_next NULL)
      | Some _ => sub_set nx (set_sub_prev pv)
      end;;
      match pv with
      | None =>
          manager_set m (set_first_subscriber nx);;
          sub_set nx (set_sub_prev NULL)
      | Some _ => sub_set pv (set_sub_next nx)
      end
  end.

(** From the label [end] on *)
Definition close_subscriber (m sub : ptr) : prog mstate unit :=
  sub_lock sub;;
  f ← sub_get sub fd;
  close f;;
  sub_unlock sub;;
  _ ← sub_get sub fd;
  atomic (free subscriber_t sub);;
  n ← manager_get m subscribers_count;
  manager_set m (set_subscribers_count (u64 (n - 1))).

Definition unsubscribe (m sub : ptr) : prog mstate unit :=
  manager_lock m;;
  unlink_subscriber m sub;;
  close_subscriber m sub;;
  manager_unlock m.

Definition create_subscription_manager : prog mstate ptr :=
  m ← atomic (malloc subscription_manager_t (Manager 0 0 0 NULL NULL NULL));
  match m with
  | None => mret NULL
  | Some _ =>
      atomic (lift_act mlocks set_mlocks (init_at m (Monitor None [[]])));;
      c ← atomic ChunkOps.create_chunk_container;
      manager_set m (set_container c);;
      match c with
      | None =>
          atomic (free subscription_manager_t m;; lift_act mlocks set_mlocks (free_at m));;
          mret NULL
      | Some _ =>
          manager_set m (set_flag 0);;
          manager_set m (set_subscribers_count 0);;
          manager_set m (set_is_busy 0);;
          manager_set m (set_first_subscriber NULL);;
          manager_set m (set_last_subscriber NULL);;
          mret m
      end
  end.

(** The subscribers from [sub] on, one after the other *)
Definition unsubscribe_all (m sub : ptr) : prog mstate unit :=
  Loop (λ sub : ptr,
    match sub with
    | None => mret (inr tt)
    | Some _ =>
        tmp ← sub_get sub sub_next;
        unsubscribe m sub;;
        mret (inl tmp)
    end) sub Ret.

Definition destroy_subscription_manager (m : ptr) : prog mstate unit :=
  manager_lock m;;
  c ← manager_get m container;
  c' ← atomic (ChunkOps.free_chunk_container c);
  manager_set m (set_container c');;
  sub ← manager_get m first_subscriber;
  unsubscribe_all m sub;;
  manager_unlock m;;
  atomic (free subscription_manager_t m;; lift_act mlocks set_mlocks (free_at m)).

Definition subscribe (m : ptr) (f : Z) : prog mstate Z :=
  manager_lock m;;
  sub ← atomic (malloc subscriber_t (Subscriber 0 0 NULL NULL None));
  match sub with
  | None => mret (-1)
  | Some _ =>
      sub_set sub (set_sub_lock None);;
      sub_set sub (λ b, Subscriber f (chunk_loaded b) (sub_next b) (sub_prev b) (lock b));;
      sub_set sub (set_chunk_loaded 0);;
      sub_set sub (set_sub_next NULL);;
      lst ← manager_get m last_subscriber;
      sub_set sub (set_sub_prev lst);;
      fst ← manager_get m first_subscriber;
      match fst with
      | None => manager_set m (set_first_subscriber sub)
      | Some _ => lst' ← manager_get m last_subscriber; sub_set lst' (set_sub_next sub)
      end;;
      manager_set m (set_last_subscriber sub);;
      n ← manager_get m subscribers_count;
      manager_set m (set_subscribers_count (u64 (n + 1)));;
      manager_unlock m;;
      mret 0
  end.

Definition finish_pending_chunks (m : ptr) : prog mstate unit :=
  sub ← manager_get m first_subscriber;
  unsubscribe_all m sub.

(** The auxiliary part of counting a task off, and of the end of a task *)
Definition mark_counted : C mstate unit := λ t s,
  Ok tt (set_tasks (uploads s) (alter (λ p, (p.1, false)) t (hand s)) s).
Definition mark_done : C mstate unit := λ t s,
  Ok tt (set_tasks (uploads s) (delete t (hand s)) s).

(** [manager->flag--], on a [char] *)
Definition count_off (m : ptr) : prog mstate unit :=
  x ← manager_get m flag;
  atomic (update subscription_manager_t m (set_flag (s8 (x - 1)));; mark_counted).

Definition count_of (m : ptr) : prog mstate Z :=
  c ← manager_get m container;
  Act (load chunk_container_t c) (λ c, Ret (count c)).

(** One subscriber of [__send_chunks] that has nothing to be sent, or for which
    there is no memory *)
Definition skip_subscriber (m cur : ptr) : prog mstate unit :=
  manager_lock m;;
  _ ← sub_get cur fd;
  count_off m;;
  manager_signal m;;
  manager_unlock m.

(** With [PARALLEL], as the program is built *)
Definition __send_chunks (m : ptr) : prog mstate unit :=
  first ← manager_get m first_subscriber;
  n ← manager_get m subscribers_count;
  manager_set m (set_flag (s8 n));;
  Loop (λ cur : ptr,
    match cur with
    | None => mret (inr tt)
    | Some _ =>
        loaded ← sub_get cur chunk_loaded;
        n ← count_of m;
        (if decide (loaded = n) then skip_subscriber m cur
         else
           info ← atomic (malloc subscription_info_t (Info cur m));
           match info with
           | None => skip_subscriber m cur
           | Some _ => threadpool_push_task info
           end);;
        nx ← sub_get cur sub_next;
        mret (inl nx)
    end) first Ret.

(** The subscriber whose descriptor is logged *)
Definition log_first (m : ptr) : prog mstate unit :=
  f ← manager_get m first_subscriber;
  _ ← sub_get f fd;
  mret tt.

Definition wait_sent (m : ptr) : prog mstate unit :=
  Loop (λ _ : unit,
    x ← manager_get m flag;
    if decide (0 < x) then manager_wait m;; mret (inl tt) else mret (inr tt)) tt Ret.

Definition add_chunk (m : ptr) (data : list Z) (element_size size : Z) : prog mstate unit :=
  log_first m;;
  manager_lock m;;
  log_first m;;
  log_first m;;
  c ← manager_get m container;
  atomic (ChunkOps.__add_chunk c (Some data) element_size size);;
  log_first m;;
  log_first m;;
  __send_chunks m;;
  log_first m;;
  log_first m;;
  wait_sent m;;
  log_first m;;
  manager_unlock m;;
  log_first m.

(** [send_data_to_fd] of the first [n] bytes of a buffer *)
Definition send_bytes (f : Z) (buf : list Z) (n : Z) : C mstate Z :=
  if decide (n <= Z.of_nat (length buf)) then send_data_to_fd f (take (Z.to_nat n) buf) else fail OutOfBounds.

(** [for (i = start_chunk; i < last_chunk; i++)]; it stops when a chunk could not
    be sent. *)
Definition send_from (sub chunk : ptr) (i last_chunk : Z) : prog mstate unit :=
  Loop (λ '(cur, i),
    if decide (i < last_chunk) then
      f ← sub_get sub fd;
      c ← Act (load chunk_t cur) Ret;
      r ← atomic (send_bytes f (data c) (u64 (size c * element_size c)));
      if decide (r ≠ 0) then _ ← sub_get sub fd; mret (inr tt) else
      nx ← Act (load chunk_t cur) (λ c, Ret (chunk_next c));
      x ← sub_get sub chunk_loaded;
      sub_set sub (set_chunk_loaded (u64 (x + 1)));;
      mret (inl (nx, i + 1))
    else mret (inr tt)) (chunk, i) Ret.

(** [(int)] of a [size_t] *)
Definition __send_chunks_to_subscriber (info : ptr) : prog mstate unit :=
  m ← info_get info manager;
  sub ← info_get info subscriber;
  sub' ← info_get info subscriber;
  f ← sub_get sub' fd;
  sub_lock sub;;
  start ← sub_get sub chunk_loaded;
  last ← count_of m;
  c ← manager_get m container;
  current_chunk ← atomic (ChunkOps.get_chunk c (u64 (s32 start)));
  match current_chunk with
  | None => mret tt
  | Some _ => send_from sub current_chunk (s32 start) (s32 last)
  end;;
  manager_lock m;;
  count_off m;;
  manager_signal m;;
  manager_unlock m;;
  sub_unlock sub;;
  atomic (free subscription_info_t info;; mark_done).

(** A worker of the upload pool *)
Definition upload_worker : prog mstate unit :=
  forever (λ _ : unit, info ← pop_upload; __send_chunks_to_subscriber info) tt.

(** The scripts of malloc and send are empty here, which is: every allocation
    succeeds and every send takes all it is given. *)
Definition mstart : mstate :=
  MState mem_empty mem_empty mem_empty mem_empty mem_empty ∅ (Net ∅ []) [] [] ∅ [] (Disk true ∅).
(** A process that starts with the files [d] in its cache *)
Definition mstart_with (d : disk_t) : mstate := set_disk d mstart.

(** Clients that join and leave one after the other, each named by its place in
    the list *)
Inductive client_op := Join (f : Z) | Leave (i : nat).
Fixpoint nth_subscriber (i : nat) (sub : ptr) : prog mstate ptr :=
  match i with
  | O => mret sub
  | Datatypes.S i' => sub_get sub sub_next ≫= nth_subscriber i'
  end.
Fixpoint clients (m : ptr) (ops : list client_op) : prog mstate unit :=
  match ops with
  | [] => mret tt
  | Join f :: r => _ ← subscribe m f; clients m r
  | Leave i :: r =>
      first ← manager_get m first_subscriber;
      sub ← nth_subscriber i first;
      unsubscribe m sub;;
      clients m r
  end.

(** What they ask for: the descriptors that stay, in order, and those closed. *)
Fixpoint members (ops : list client_op) (fs cl : list Z) : option (list Z * list Z) :=
  match ops with
  | [] => Some (fs, cl)
  | Join f :: r => members r (fs ++ [f]) cl
  | Leave i :: r => f ← fs !! i; members r (delete i fs) (cl ++ [f])
  end.

(** * What the chunk container's operations leave alone *)

(** The state with other chunks, containers and answers of [malloc] *)
Definition with_chunks (x : mem chunk_t) (y : mem chunk_container_t) (o : list bool) (s : mstate) : mstate :=
  MState (managers s) (subscribers s) (infos s) y x (mlocks s) (sockets s) (closed s) (uploads s) (hand s) o (disk s).
Definition only_chunks (s s' : mstate) : Prop :=
  s' = with_chunks (chunks s') (containers s') (manswers s') s ∧ (manswers s = [] → manswers s' = []) ∧
  ∀ q, is_Some (cells (containers s') !! q) → is_Some (cells (containers s) !! q).

Lemma only_chunks_refl s : only_chunks s s.
Proof. by destruct s. Qed.
Lemma only_chunks_trans s1 s2 s3 : only_chunks s1 s2 → only_chunks s2 s3 → only_chunks s1 s3.
Proof.
  intros (H1 & O1 & D1) (H2 & O2 & D2). split; [|auto]. rewrite H2 at 1. rewrite H1. by destruct s1.
Qed.

Definition chunk_op {A} (p : C mstate A) : Prop := ∀ t s a s', p t s = Ok a s' → only_chunks s s'.

Lemma chunk_op_bind {A B} (p : C mstate A) (f : A → C mstate B) :
  chunk_op p → (∀ a, chunk_op (f a)) → chunk_op (p ≫= f).
Proof.
  intros Hp Hf t s b s' (a & s1 & Ha & Hb)%bind_ok_inv.
  eapply only_chunks_trans; [by eapply Hp|by eapply Hf].
Qed.
Lemma chunk_op_ret {A} (a : A) : chunk_op (mret a).
Proof. intros t s b s' [= _ <-]. apply only_chunks_refl. Qed.
Lemma chunk_op_fail {A} e : chunk_op (fail e : C mstate A).
Proof. done. Qed.
Lemma chunk_op_gets {A} (f : mstate → A) : chunk_op (gets f).
Proof. intros t s b s' [= _ <-]. apply only_chunks_refl. Qed.
Lemma chunk_op_load {X} `{Heap mstate X} p : chunk_op (load X p).
Proof.
  intros t s b s'. unfold load. destruct p; [|done]. destruct (_ !! _); [|done].
  intros [= _ <-]. apply only_chunks_refl.
Qed.
Lemma chunk_op_update_chunk p f : chunk_op (update chunk_t p f).
Proof.
  intros t s b s'. unfold update. destruct p; [|done]. destruct (_ !! _); [|done]. by intros [= _ <-].
Qed.
Lemma chunk_op_update_container p f : chunk_op (update chunk_container_t p f).
Proof.
  intros t s b s'. unfold update. destruct p as [l|]; [|done]. destruct (_ !! _) as [x|] eqn:E; [|done].
  intros [= _ <-]. split; [done|]. split; [done|]. intros q. cbn. rewrite lookup_insert. case_decide; [subst; by exists x|done].
Qed.
Lemma chunk_op_free_chunk p : chunk_op (free chunk_t p).
Proof.
  intros t s b s'. unfold free. destruct p; [|intros [= _ <-]; apply only_chunks_refl].
  destruct (_ !! _); [|done]. by intros [= _ <-].
Qed.
Lemma chunk_op_free_container p : chunk_op (free chunk_container_t p).
Proof.
  intros t s b s'. unfold free. destruct p; [|intros [= _ <-]; apply only_chunks_refl].
  destruct (_ !! _); [|done]. intros [= _ <-]. split; [done|]. split; [done|]. intros q. cbn.
  rewrite lookup_delete. case_decide; [by intros []|done].
Qed.
Lemma chunk_op_answer : chunk_op malloc_answer.
Proof.
  intros t s b s'. rewrite malloc_answer_run. intros [= _ <-]. split; [done|]. split; [by cbn; intros ->|done].
Qed.
Lemma chunk_op_malloc c : chunk_op (malloc chunk_t c).
Proof.
  apply chunk_op_bind; [apply chunk_op_answer|]. intros []; [|apply chunk_op_ret].
  intros t s b s'. unfold new_cell. by intros [= _ <-].
Qed.

Ltac chunk_op_solve := repeat (first
  [ apply chunk_op_ret | apply chunk_op_fail | apply chunk_op_gets | apply chunk_op_load
  | apply chunk_op_update_chunk | apply chunk_op_update_container | apply chunk_op_free_chunk
  | apply chunk_op_free_container | apply chunk_op_answer | apply chunk_op_malloc
  | apply chunk_op_bind; [|intros ?] | case_match ]).

Lemma chunk_op_add c d e n : chunk_op (ChunkOps.__add_chunk c d e n).
Proof. unfold ChunkOps.__add_chunk, ChunkOps.memcpy, ChunkOps.link_chunk. chunk_op_solve. Qed.
Lemma chunk_op_free_container_all c : chunk_op (ChunkOps.free_chunk_container c).
Proof.
  unfold ChunkOps.free_chunk_container. chunk_op_solve.
  match goal with |- chunk_op (ChunkOps.free_chunks ?n ?p) => generalize n p end.
  intros n. induction n as [|n IH]; intros p; simpl; chunk_op_solve. apply IH.
Qed.

(** * Running alone *)

#[local] Abbreviation last := list_basics.list.last.

(** [rstep] runs the first operation of a program that only loads and stores. *)
Definition put_sub (l : positive) (b : subscriber_t) (s : mstate) : mstate :=
  set_heap subscriber_t (mem_set l b (subscribers s)) s.
Definition put_manager (m : positive) (M : subscription_manager_t) (s : mstate) : mstate :=
  set_heap subscription_manager_t (mem_set m M (managers s)) s.
Definition put_lock (m : positive) (y : monitor) (s : mstate) : mstate := set_mlocks (<[m := y]> (mlocks s)) s.

Lemma run_manager_get {A} n m M (g : subscription_manager_t → A) t s : cells (managers s) !! m = Some M →
  run n (manager_get (Some m) g) t s = Ok (g M) s.
Proof. intros HM. unfold manager_get. cbn [run]. by rewrite (bind_ok _ _ _ _ _ _ (@load_ok _ _ managers_heap m M t s HM)). Qed.
Lemma run_manager_set n m M f t s : cells (managers s) !! m = Some M →
  run n (manager_set (Some m) f) t s = Ok tt (put_manager m (f M) s).
Proof. intros HM. unfold manager_set. rewrite run_atomic. exact (@update_ok _ _ managers_heap m M f t s HM). Qed.
Lemma run_sub_get {A} n l b (g : subscriber_t → A) t s : cells (subscribers s) !! l = Some b →
  run n (sub_get (Some l) g) t s = Ok (g b) s.
Proof. intros Hb. unfold sub_get. cbn [run]. by rewrite (bind_ok _ _ _ _ _ _ (@load_ok _ _ subscribers_heap l b t s Hb)). Qed.
Lemma run_sub_set n l b f t s : cells (subscribers s) !! l = Some b →
  run n (sub_set (Some l) f) t s = Ok tt (put_sub l (f b) s).
Proof. intros Hb. unfold sub_set. rewrite run_atomic. exact (@update_ok _ _ subscribers_heap l b f t s Hb). Qed.
Lemma run_lock n m W t s : mlocks s !! m = Some (Monitor None W) →
  run n (manager_lock (Some m)) t s = Ok tt (put_lock m (Monitor (Some t) W) s).
Proof. intros Hm. unfold manager_lock, on_manager. rewrite run_atomic. unfold lift_act, at_ptr. by rewrite Hm. Qed.
Lemma run_lock_held n m k W t s : mlocks s !! m = Some (Monitor (Some k) W) →
  run n (manager_lock (Some m)) t s = Blocked.
Proof. intros Hm. unfold manager_lock, on_manager. rewrite run_atomic. unfold lift_act, at_ptr. by rewrite Hm. Qed.
Lemma run_unlock n m W t s : mlocks s !! m = Some (Monitor (Some t) W) →
  run n (manager_unlock (Some m)) t s = Ok tt (put_lock m (Monitor None W) s).
Proof.
  intros Hm. unfold manager_unlock, on_manager. rewrite run_atomic. unfold lift_act, at_ptr. rewrite Hm.
  unfold monitor_unlock, mutex_unlock. cbn [held]. by rewrite decide_True.
Qed.
Lemma run_sub_lock n l b t s : cells (subscribers s) !! l = Some b → lock b = None →
  run n (sub_lock (Some l)) t s = Ok tt (put_sub l (set_sub_lock (Some t) b) s).
Proof. intros Hb Hk. unfold sub_lock, on_sub_lock. rewrite run_atomic. rewrite Hb, Hk. done. Qed.
Lemma run_sub_unlock n l b t s : cells (subscribers s) !! l = Some b → lock b = Some t →
  run n (sub_unlock (Some l)) t s = Ok tt (put_sub l (set_sub_lock None b) s).
Proof.
  intros Hb Hk. unfold sub_unlock, on_sub_lock. rewrite run_atomic. rewrite Hb, Hk.
  unfold mutex_unlock. by rewrite decide_True.
Qed.

Lemma run_sub_free n l b t s : cells (subscribers s) !! l = Some b →
  run n (atomic (free subscriber_t (Some l))) t s = Ok tt (set_heap subscriber_t (mem_del l (subscribers s)) s).
Proof. intros Hb. rewrite run_atomic. exact (@free_ok _ _ subscribers_heap l b t s Hb). Qed.

Ltac rfind := cbn [cells mem_set mem_del put_sub put_manager put_lock set_mlocks set_closed set_oom mstate_oom managers subscribers mlocks lock set_sub_lock
    set_heap managers_heap subscribers_heap];
  repeat (rewrite lookup_insert_eq || rewrite lookup_insert_ne by congruence); first [eassumption|reflexivity|idtac].
Ltac rstep := erewrite run_bind_ok; [|first
  [ eapply run_manager_get | eapply run_manager_set | eapply run_sub_get | eapply run_sub_set | eapply run_lock
  | eapply run_unlock | eapply run_sub_lock | eapply run_sub_unlock | eapply run_sub_free | unfold close; rewrite run_atomic; reflexivity]; rfind]; cbv beta iota.

(** The ends of the list once the subscriber between [l1] and [l2] has left it,
    and its neighbours' links *)
Definition ends_without (l1 l2 : list positive) (M : subscription_manager_t) : subscription_manager_t :=
  Manager (is_busy M) (flag M) (subscribers_count M)
    (match last l1 with Some _ => first_subscriber M | None => head l2 end)
    (match head l2 with Some _ => last_subscriber M | None => last l1 end) (container M).
Definition link_over (p q : ptr) (h : gmap positive subscriber_t) : gmap positive subscriber_t :=
  let h1 := match p with Some a => alter (set_sub_next q) a h | None => h end in
  match q with Some b => alter (set_sub_prev p) b h1 | None => h1 end.
Definition set_subs (h : gmap positive subscriber_t) (s : mstate) : mstate :=
  set_heap subscriber_t (Mem h (brk (subscribers s))) s.

(** Two states built by writes are the same. *)
Ltac subs_eq := unfold set_subs, put_sub, put_manager, ends_without, link_over, mem_set;
  cbn [managers subscribers infos containers chunks mlocks sockets closed uploads hand manswers set_heap
       managers_heap subscribers_heap cells brk is_busy flag subscribers_count first_subscriber last_subscriber container
       set_first_subscriber set_last_subscriber];
  lazymatch goal with |- Ok tt (MState (Mem _ ?d) (Mem _ ?b) ?inf ?ct ?ch ?ml ?so ?cl ?up ?hd ?an ?dk) = _ =>
    refine (f_equal2 (λ x y, Ok tt (MState (Mem x d) (Mem y b) inf ct ch ml so cl up hd an dk)) _ _) end;
  apply map_eq; intros k;
  repeat (rewrite lookup_insert || rewrite lookup_alter); repeat case_decide; simplify_eq;
  repeat match goal with E : _ !! _ = Some _ |- _ => rewrite E end.

Lemma unlink_subscriber_run n s m x l1 l2 M t :
  cells (managers s) !! m = Some M →
  dll (cells (subscribers s)) (first_subscriber M) (last_subscriber M) (l1 ++ x :: l2) →
  run n (unlink_subscriber (Some m) (Some x)) t s = Ok tt
    (set_subs (link_over (last l1) (head l2) (cells (subscribers s))) (put_manager m (ends_without l1 l2 M) s)).
Proof.
  intros HM Hd. destruct (dll_links _ _ _ _ _ _ Hd) as (b & Hb & Hp & Hn). cbn [prev subscriber_linked next] in Hp, Hn.
  assert (∀ p, last l1 = Some p → ∃ c, cells (subscribers s) !! p = Some c ∧ head l2 ≠ Some p) as Hl1.
  { intros p Hpl%last_elem. destruct (dll_lookup _ _ _ _ p Hd) as [c Hc]; [set_solver|]. exists c. split; [done|].
    intros Hq%head_elem. apply dll_NoDup, NoDup_app in Hd as (_ & Hd & _). apply (Hd p Hpl). set_solver. }
  assert (∀ q, head l2 = Some q → ∃ c, cells (subscribers s) !! q = Some c) as Hl2.
  { intros q Hq%head_elem. apply (dll_lookup _ _ _ _ q Hd). set_solver. }
  unfold unlink_subscriber. rstep. rstep. rewrite Hp, Hn. clear Hd.
  destruct s as [[mg bm] [sb bs] inf ct ch ml so cl up hd an dk], M as [bz fl ct0 fs ls co].
  destruct (head l2) as [q|] eqn:Eq, (last l1) as [p|] eqn:Ep.
  - destruct (Hl2 q eq_refl) as [cq Hq]. destruct (Hl1 p eq_refl) as (cp & Hpc & Hne). cbn in Hq, Hpc, HM, Hne.
    rstep. erewrite run_sub_set by rfind. subs_eq; rewrite ?Ep, ?Eq; done.
  - destruct (Hl2 q eq_refl) as [cq Hq]. cbn in Hq, HM.
    rstep. rstep. erewrite run_sub_set by rfind. subs_eq; rewrite ?Ep, ?Eq; done.
  - destruct (Hl1 p eq_refl) as (cp & Hpc & _). cbn in Hpc, HM.
    assoc. rstep. rstep. erewrite run_sub_set by rfind. subs_eq; rewrite ?Ep, ?Eq; done.
  - rstep. erewrite run_manager_set by rfind. subs_eq; rewrite ?Ep, ?Eq; done.
Qed.

Lemma close_subscriber_run n s m x M b t :
  cells (managers s) !! m = Some M → cells (subscribers s) !! x = Some b → lock b = None →
  run n (close_subscriber (Some m) (Some x)) t s = Ok tt
    (set_closed (closed s ++ [fd b]) (set_heap subscriber_t (mem_del x (subscribers s))
      (put_manager m (set_subscribers_count (u64 (subscribers_count M - 1)) M) s))).
Proof.
  intros HM Hb Hk. unfold close_subscriber. do 6 rstep.
  rstep. erewrite run_manager_set by rfind.
  destruct s as [mg [sb bs] inf ct ch ml so cl up hd an dk]. cbn. unfold set_closed, mem_del, mem_set. cbn.
  by rewrite !delete_insert_eq.
Qed.

(** What [unsubscribe] keeps of the other subscribers *)
Definition account (b : subscriber_t) : Z * Z * mutex := (fd b, chunk_loaded b, lock b).

Lemma link_over_account p q h k : account <$> link_over p q h !! k = account <$> h !! k.
Proof.
  assert (∀ f p h, (∀ b, account (f b) = account b) → account <$> alter f p h !! k = account <$> (h : gmap positive _) !! k) as Ha.
  { intros f p0 h0 Hf. rewrite lookup_alter. case_decide; [subst|done]. destruct (h0 !! k); simpl; by rewrite ?Hf. }
  unfold link_over. destruct q, p; rewrite ?Ha by done; done.
Qed.

Lemma unsubscribe_run n s m x l1 l2 M W b t :
  cells (managers s) !! m = Some M → mlocks s !! m = Some (Monitor None W) →
  dll (cells (subscribers s)) (first_subscriber M) (last_subscriber M) (l1 ++ x :: l2) →
  cells (subscribers s) !! x = Some b → lock b = None →
  run n (unsubscribe (Some m) (Some x)) t s = Ok tt
    (set_closed (closed s ++ [fd b]) (set_subs (unlink (cells (subscribers s)) x (last l1) (head l2))
      (put_manager m (set_subscribers_count (u64 (subscribers_count M - 1)) (ends_without l1 l2 M)) s))).
Proof.
  intros HM Hm Hd Hb Hk. unfold unsubscribe. rstep.
  erewrite run_bind_ok by (eapply unlink_subscriber_run; [exact HM|exact Hd]). cbv beta.
  set (s1 := set_subs _ _).
  assert (∃ b1, cells (subscribers s1) !! x = Some b1 ∧ account b1 = account b) as (b1 & Hb1 & [= Hf _ Hk1]).
  { pose proof (link_over_account (last l1) (head l2) (cells (subscribers s)) x) as Ha. rewrite Hb in Ha.
    apply fmap_Some in Ha as (b1 & Hb1 & Ha). by exists b1. }
  erewrite run_bind_ok by (eapply close_subscriber_run; [apply lookup_insert_eq|exact Hb1|congruence]). cbv beta.
  erewrite run_unlock by apply lookup_insert_eq. rewrite Hf.
  destruct s as [[mg bm] [sb bs] inf ct ch ml so cl up hd an dk]. unfold put_lock, set_subs, s1. cbn in *.
  rewrite mem_set_set, insert_insert_eq, insert_id by exact Hm. done.
Qed.

(** The manager at [m], idle, with the subscribers of the descriptors [fs]; there
    are no others. *)
Record manager_repr (s : mstate) (m : positive) (fs : list Z) : Prop := {
  mr_lock : mlocks s !! m = Some (Monitor None [[]]);
  mr_list : ∃ M ls, cells (managers s) !! m = Some M ∧ is_Some (container M) ∧
    subscribers_count M = u64 (Z.of_nat (length fs)) ∧
    dll (cells (subscribers s)) (first_subscriber M) (last_subscriber M) ls ∧
    ((λ l, account <$> cells (subscribers s) !! l) <$> ls) = ((λ f, Some (f, 0, None)) <$> fs) ∧
    ∀ l, is_Some (cells (subscribers s) !! l) → l ∈ ls;
  mr_oom : manswers s = [];
}.

Lemma u64_shift a d : u64 (u64 a + d) = u64 (a + d).
Proof. unfold u_wrap. by rewrite Zplus_mod_idemp_l. Qed.

Lemma run_malloc_sub n b k t s : head (manswers s) ≠ Some false → k = fresh_loc (subscribers s) →
  run n (atomic (malloc subscriber_t b)) t s =
    Ok (Some k) (set_heap subscriber_t (Mem (<[k := b]> (cells (subscribers s))) (Pos.succ k)) (set_oom (tl (manswers s)) s)).
Proof. intros Ho ->. rewrite run_atomic. by destruct s as [? ? ? ? ? ? ? ? ? ? [|[] ?] ?]. Qed.

Definition joined (f : Z) (p : ptr) : subscriber_t := Subscriber f 0 NULL p None.
Definition append_sub (k : positive) (n : subscriber_t) (p : ptr) (h : gmap positive subscriber_t) : gmap positive subscriber_t :=
  match p with Some a => <[k := n]> (alter (set_sub_next (Some k)) a h) | None => <[k := n]> h end.

Ltac put_eq :=
  match goal with s : mstate |- _ => destruct s as [[? ?] [? ?] ? ? ? ? ? ? ? ? ? ?] end;
  unfold put_lock, put_manager, put_sub, set_mlocks, mem_set in *;
  cbn -[append_sub insert] in *; rewrite ?insert_insert_eq; do 3 f_equal; try (by apply insert_id).

(** Two writes to the same struct are the last one. *)
Lemma put_sub_put l b b' s : put_sub l b' (put_sub l b s) = put_sub l b' s.
Proof. unfold put_sub. cbn. by rewrite mem_set_set. Qed.
Lemma put_sub_alloc l b b' h k s :
  put_sub l b' (set_heap subscriber_t (Mem (<[l := b]> h) k) s) = set_heap subscriber_t (Mem (<[l := b']> h) k) s.
Proof. unfold put_sub, mem_set. cbn. by rewrite insert_insert_eq. Qed.
Lemma put_manager_put l M M' s : put_manager l M' (put_manager l M s) = put_manager l M' s.
Proof. unfold put_manager. cbn. by rewrite mem_set_set. Qed.
Ltac rstep1 := rstep; rewrite ?put_sub_put, ?put_sub_alloc, ?put_manager_put.

Lemma subscribe_steps n s m M f W t (k := fresh_loc (subscribers s)) (p := last_subscriber M) :
  cells (managers s) !! m = Some M → mlocks s !! m = Some (Monitor None W) → head (manswers s) ≠ Some false →
  match p with
  | Some a => is_Some (first_subscriber M) ∧ is_Some (cells (subscribers s) !! a)
  | None => first_subscriber M = None
  end →
  run n (subscribe (Some m) f) t s = Ok 0
    (set_heap subscriber_t (Mem (append_sub k (joined f p) p (cells (subscribers s))) (Pos.succ k))
      (put_manager m (Manager (is_busy M) (flag M) (u64 (subscribers_count M + 1))
         (match p with Some _ => first_subscriber M | None => Some k end) (Some k) (container M))
        (set_oom (tl (manswers s)) s))).
Proof.
  intros HM Hm Ho Hp. assert (cells (subscribers s) !! k = None) as Hk by apply fresh_loc_none.
  unfold subscribe. rstep. erewrite run_bind_ok by (by apply run_malloc_sub with (k := k)). cbv beta iota.
  clearbody k. do 7 rstep1. fold p. destruct M as [bz fl ct0 fs ls co]. cbn in p. subst p.
  destruct ls as [a|].
  - destruct Hp as [[fst Hfst] [ba Ha]]. cbn in Hfst. subst fs. assert (a ≠ k) as Hak by congruence.
    cbn [first_subscriber]. assoc. do 6 rstep1. cbn [run mret prog_ret C_ret]. put_eq.
    apply map_eq. intros j. unfold append_sub. rewrite !lookup_insert, lookup_alter.
    repeat case_decide; simplify_eq; by rewrite ?Ha.
  - cbn in Hp. subst fs. cbn [first_subscriber]. do 5 rstep1. cbn [run mret prog_ret C_ret]. put_eq.
Qed.

(** What [subscribe] leaves alone *)
Definition others (m : positive) (s : mstate) :=
  (disk s, infos s, containers s, chunks s, sockets s, uploads s, hand s,
   (λ M, (container M, flag M)) <$> cells (managers s) !! m).

(** The manager at [m] during a session, or before: its mutex is free, its
    subscribers are at [ls] in this order, and [acc] says of each its descriptor,
    how many chunks it was sent, and who has its mutex. Nothing is said of the rest
    of the process: threads that wait for the condition ([W]), chunks, uploads under
    way, other managers and their subscribers. *)
Record session_repr (s : mstate) (m : positive) (W : list (list tid)) (ls : list positive) (acc : list (Z * Z * mutex)) : Prop := {
  se_lock : mlocks s !! m = Some (Monitor None W);
  se_list : ∃ M, cells (managers s) !! m = Some M ∧ subscribers_count M = u64 (Z.of_nat (length acc)) ∧
    dll (cells (subscribers s)) (first_subscriber M) (last_subscriber M) ls ∧
    ((λ l, account <$> cells (subscribers s) !! l) <$> ls) = (Some <$> acc);
}.

(** Between [s] and [s'] the subscriber at [k] joined those at [ls]; otherwise
    the process is the same. *)
Record only_joined (m : positive) (ls : list positive) (k : positive) (s s' : mstate) : Prop := {
  oj_new : cells (subscribers s) !! k = None;
  oj_subscribers l : l ∉ ls → l ≠ k → cells (subscribers s') !! l = cells (subscribers s) !! l;
  oj_managers m' : m' ≠ m → cells (managers s') !! m' = cells (managers s) !! m';
  oj_busy : is_busy <$> cells (managers s') !! m = is_busy <$> cells (managers s) !! m;
  oj_others : others m s' = others m s;
  oj_locks : mlocks s' = mlocks s;
  oj_closed : closed s' = closed s;
  oj_answers : manswers s' = tl (manswers s);
}.

Lemma append_sub_other k n p h l : l ≠ k → p ≠ Some l → append_sub k n p h !! l = h !! l.
Proof.
  intros Hk Hp. unfold append_sub. destruct p as [a|]; rewrite lookup_insert_ne by done; [|done].
  apply lookup_alter_ne. congruence.
Qed.
Lemma append_sub_account k n p h l : l ≠ k → account <$> append_sub k n p h !! l = account <$> h !! l.
Proof.
  intros Hk. unfold append_sub. destruct p; rewrite lookup_insert_ne by done; [|done].
  rewrite lookup_alter. case_decide; [subst|done]. by destruct (_ !! l).
Qed.
Lemma append_sub_new k n p h : append_sub k n p h !! k = Some n.
Proof. unfold append_sub. destruct p; apply lookup_insert_eq. Qed.

Lemma subscribe_session n s m W ls acc f t (k := fresh_loc (subscribers s)) :
  session_repr s m W ls acc → head (manswers s) ≠ Some false →
  ∃ s', run n (subscribe (Some m) f) t s = Ok 0 s' ∧ session_repr s' m W (ls ++ [k]) (acc ++ [(f, 0, None)]) ∧
    only_joined m ls k s s'.
Proof.
  intros [Hm (M & HM & Hn & Hd & Hacc)] Ho.
  pose proof (dll_last _ _ _ _ Hd) as El. pose proof (dll_first _ _ _ _ Hd) as Ef. rewrite El, Ef in Hd.
  assert (cells (subscribers s) !! k = None) as Hk by apply fresh_loc_none.
  assert (∀ l, l ∈ ls → l ≠ k) as Hne.
  { intros l Hl ->. destruct (dll_lookup _ _ _ _ _ Hd Hl); congruence. }
  eexists. split; [eapply (subscribe_steps n s m M); try eassumption|].
  { rewrite El, Ef. destruct (last ls) as [a|] eqn:Ea.
    - split; [destruct ls; [done|by eexists]|]. by apply (dll_lookup _ _ _ _ _ Hd), last_elem.
    - by apply last_None in Ea as ->. }
  fold k. split; [split; [exact Hm|]|].
  - eexists. split; [apply lookup_insert_eq|]. cbn -[append_sub]. split; [|split].
    + rewrite Hn, u64_shift, length_app. f_equal. cbn. lia.
    + rewrite El, Ef. pose proof (dll_append _ _ _ _ k (joined f (last ls)) Hd Hk eq_refl eq_refl) as Ha.
      unfold append_sub. by destruct (last ls).
    + rewrite !fmap_app, <-Hacc. f_equal.
      * apply list_fmap_ext. intros j l Hl%list_elem_of_lookup_2. by apply append_sub_account, Hne.
      * cbn. by rewrite append_sub_new.
  - split; try done; cbn -[append_sub].
    + intros l Hl Hlk. apply append_sub_other; [done|]. rewrite El. intros Hla%last_elem. done.
    + intros m' Hm'. by apply lookup_insert_ne.
    + by rewrite lookup_insert_eq, HM.
    + unfold others. cbn. by rewrite lookup_insert_eq, HM.
Qed.

Lemma subscribe_run n s m fs f t : manager_repr s m fs →
  ∃ s', run n (subscribe (Some m) f) t s = Ok 0 s' ∧ manager_repr s' m (fs ++ [f]) ∧ closed s' = closed s ∧
    others m s' = others m s ∧ is_busy <$> cells (managers s') !! m = is_busy <$> cells (managers s) !! m.
Proof.
  intros [Hm (M & ls & HM & Hc & Hn & Hd & Hfs & Hall) Ho].
  destruct (subscribe_session n s m [[]] ls ((λ f, (f, 0, None)) <$> fs) f t) as (s' & Hs & [Hm' (M' & HM' & Hn' & Hd' & Hacc')] & Hj).
  { split; [done|]. exists M. split; [done|]. rewrite length_fmap. split; [done|]. split; [done|].
    by rewrite Hfs, <-list_fmap_compose. }
  { by rewrite Ho. }
  set (k := fresh_loc (subscribers s)) in *. exists s'. split; [done|].
  split; [split|split; [apply Hj|split; apply Hj]]; [done| |by rewrite (oj_answers _ _ _ _ _ Hj), Ho].
  exists M', (ls ++ [k]). split; [done|]. split.
  { pose proof (oj_others _ _ _ _ _ Hj) as Hoth. unfold others in Hoth. rewrite HM, HM' in Hoth.
    injection Hoth as _ _ _ _ _ _ _ Hcont _. by rewrite Hcont. }
  split; [rewrite Hn', !length_app, length_fmap; done|]. split; [done|]. split.
  - rewrite Hacc', fmap_app, <-list_fmap_compose, fmap_app. done.
  - intros l Hl. apply elem_of_app. destruct (decide (l ∈ ls)) as [|Hn1]; [by left|].
    destruct (decide (l = k)) as [->|Hlk]; [right; set_solver|]. left. apply Hall.
    by rewrite (oj_subscribers _ _ _ _ _ Hj) in Hl.
Qed.

Lemma nth_subscriber_run n s l1 x l2 t p :
  chain sub_next (cells (subscribers s)) p (l1 ++ x :: l2) NULL →
  run n (nth_subscriber (length l1) p) t s = Ok (Some x) s.
Proof.
  revert p. induction l1 as [|l l1 IH]; intros p; [intros [-> _]; done|].
  intros [-> (b & Hb & Hc)]. cbn [length nth_subscriber]. rstep. by apply IH.
Qed.

Lemma leave_run n s m fs i f r t : manager_repr s m fs → fs !! i = Some f →
  ∃ s', run n (clients (Some m) (Leave i :: r)) t s = run n (clients (Some m) r) t s' ∧
    manager_repr s' m (delete i fs) ∧ closed s' = closed s ++ [f].
Proof.
  intros [Hm (M & ls & HM & Hc & Hn & Hd & Hfs & Hall) Ho] Hi.
  assert (∃ x, ls !! i = Some x ∧ account <$> cells (subscribers s) !! x = Some (f, 0, None)) as (x & Hx & Hax).
  { pose proof (list_lookup_fmap (λ f, Some (f, 0, @None tid)) fs i) as Hl. rewrite Hi, <-Hfs, list_lookup_fmap in Hl.
    destruct (ls !! i) as [x|]; [|done]. injection Hl as Hl. by exists x. }
  pose proof (list_elem_of_split_length _ _ _ Hx) as (l1 & l2 & -> & ->).
  apply fmap_Some in Hax as (b & Hb & [= Hf _ Hk]).
  cbn [clients]. rstep. pose proof (proj1 Hd) as Hch.
  erewrite run_bind_ok by (eapply nth_subscriber_run; exact Hch). cbv beta.
  erewrite run_bind_ok by (eapply unsubscribe_run; eauto). cbv beta. eexists. split; [done|].
  split; [|cbn; congruence]. split; [exact Hm| |exact Ho].
  assert (∀ k, k ≠ x → account <$> unlink (cells (subscribers s)) x (last l1) (head l2) !! k = account <$> cells (subscribers s) !! k) as Hacc.
  { intros k Hk2. change (unlink ?h x ?p ?q) with (delete x (link_over p q h)). rewrite lookup_delete_ne by done.
    apply link_over_account. }
  assert (∀ k, k ∈ l1 ++ l2 → k ≠ x) as Hx2.
  { apply dll_NoDup in Hd. rewrite <-Permutation_middle, NoDup_cons in Hd. intros k Hk2 ->. by apply Hd. }
  eexists _, (l1 ++ l2). split; [apply lookup_insert_eq|]. split; [exact Hc|]. cbn -[unlink].
  split; [|split; [by apply dll_remove|split]].
  - apply lookup_lt_Some in Hi as Hlt. rewrite Hn, length_delete by (by eexists).
    unfold Z.sub. rewrite u64_shift. f_equal. lia.
  - rewrite list_fmap_delete, <-Hfs, <-list_fmap_delete, delete_middle.
    apply list_fmap_ext. intros j l Hl%list_elem_of_lookup_2. by apply Hacc, Hx2.
  - intros l Hl. destruct (decide (l = x)) as [->|Hlx].
    { exfalso. revert Hl. unfold unlink. rewrite lookup_delete_eq. by intros [? ?]. }
    assert (is_Some (cells (subscribers s) !! l)) as Hl2%Hall.
    { apply (fmap_is_Some account). rewrite <-Hacc by done. by apply fmap_is_Some. }
    set_solver.
Qed.

Lemma clients_run n ops : ∀ s m fs cl fs' t, manager_repr s m fs → members ops fs (closed s) = Some (fs', cl) →
  ∃ s', run n (clients (Some m) ops) t s = Ok tt s' ∧ manager_repr s' m fs' ∧ closed s' = cl.
Proof.
  induction ops as [|[f|i] ops IH]; intros s m fs cl fs' t Hr Hm; cbn [members] in Hm.
  - injection Hm as <- <-. by exists s.
  - destruct (subscribe_run n s m fs f t Hr) as (s1 & Hs & Hr1 & Hc & _). cbn [clients].
    rewrite (run_bind_ok _ _ _ _ _ _ _ Hs). apply (IH _ _ _ _ _ _ Hr1). by rewrite Hc.
  - destruct (fs !! i) as [f|] eqn:Hi; [|done].
    destruct (leave_run n s m fs i f ops t Hr Hi) as (s1 & -> & Hr1 & Hc). apply (IH _ _ _ _ _ _ Hr1). by rewrite Hc.
Qed.

(** A new manager *)
Definition created (d : disk_t) : mstate :=
  match run 1 create_subscription_manager 0%nat (mstart_with d) with Ok _ s => s | _ => mstart end.
Lemma manager_create_run n d t : (0 < n)%nat →
  run n create_subscription_manager t (mstart_with d) = Ok (Some 1%positive) (created d).
Proof. intros _. vm_compute. reflexivity. Qed.

Lemma created_repr d : manager_repr (created d) 1 [].
Proof.
  split; [done| |done]. eexists _, []. split; [reflexivity|]. split; [by eexists|]. split; [done|]. split; [done|].
  split; [done|]. intros l [b Hb]. discriminate Hb.
Qed.

(** What there is in the process, but for the descriptors that are closed, the
    answers of [malloc] to come and the addresses it gave *)
Definition process_of (s : mstate) :=
  (cells (managers s), cells (subscribers s), cells (infos s), cells (containers s), cells (chunks s),
   mlocks s, sockets s, uploads s, hand s, disk s).

(** There is no memory for a manager or for its container. *)
Definition no_manager_memory (s : mstate) : Prop :=
  head (manswers s) = Some false ∨ ∃ o, manswers s = true :: false :: o.

Lemma create_manager_fails n t s : no_manager_memory s → mlocks s !! fresh_loc (managers s) = None →
  ∃ s', run n create_subscription_manager t s = Ok NULL s' ∧ process_of s' = process_of s ∧ closed s' = closed s.
Proof.
  pose proof (fresh_loc_none (managers s)) as Hk. intros Hno Hl.
  unfold no_manager_memory in Hno. destruct s as [mg sb inf ct ch ml so cl up hd an dk]. cbn in Hno, Hl, Hk. destruct Hno as [Hno|[o ->]].
  - destruct an as [|[] o]; [done..|]. eexists. split; [reflexivity|done].
  - set (k := fresh_loc mg) in *. unfold create_subscription_manager.
    erewrite run_bind_ok by (rewrite run_atomic; reflexivity). cbn [run mret prog_ret C_ret fst snd]. fold k.
    erewrite run_bind_ok by (rewrite run_atomic; reflexivity). cbv beta.
    erewrite run_bind_ok by (rewrite run_atomic; reflexivity). cbv beta.
    erewrite run_bind_ok by (apply (run_manager_set n k (Manager 0 0 0 NULL NULL NULL)), lookup_insert_eq). cbv beta iota.
    erewrite run_bind_ok; [eexists; split; [reflexivity|]|].
    2: { rewrite run_atomic. unfold put_manager. erewrite bind_ok by (apply (@free_ok _ _ managers_heap k (Manager 0 0 0 NULL NULL NULL)), lookup_insert_eq). reflexivity. }
    unfold process_of. cbn. by rewrite insert_insert_eq, !delete_insert_id.
Qed.

(** * The theorems *)

(** C33: the subscribers refine a list: on a fresh manager, whichever sequence of
    clients joins and leaves, each in any place, the clients that stay are linked
    in the order in which they joined, with nothing else allocated, those that
    left had their descriptors closed, once each and in order, and no call waits
    or faults. Assumed: malloc succeeds. *)
Theorem subscribers_refine_list n ops fs cl t : (0 < n)%nat → members ops [] [] = Some (fs, cl) →
  ∃ s0 s, run n create_subscription_manager t mstart = Ok (Some 1%positive) s0 ∧
    run n (clients (Some 1%positive) ops) t s0 = Ok tt s ∧ manager_repr s 1 fs ∧ closed s = cl.
Proof.
  intros Hn Hops.
  assert (∃ s0, run n create_subscription_manager t mstart = Ok (Some 1%positive) s0 ∧
    manager_repr s0 1 [] ∧ closed s0 = []) as (s0 & H0 & Hr & Hc).
  { eexists. split; [vm_compute; reflexivity|]. split; [|done]. split; [done| |done].
    eexists _, []. split; [reflexivity|]. split; [by eexists|]. split; [done|]. split; [done|]. split; [done|].
    intros l [b Hb]. discriminate Hb. }
  destruct (clients_run n ops s0 1 [] cl fs t Hr) as (s & Hs & Hr' & Hc'); [by rewrite Hc|]. by exists s0, s.
Qed.

(** The thread arrives at a point where it waits while it holds the mutex of [m]. *)
Definition self_locked {A} (m : positive) (t : tid) (p : prog mstate A) (s : mstate) : Prop :=
  ∃ p' s' W, alone t p s p' s' ∧ prog_step p' t s' = Blocked ∧ (∀ a, p' ≠ Ret a) ∧
    mlocks s' !! m = Some (Monitor (Some t) W).

Lemma self_locked_run {A B} n m t (p : prog mstate A) (k : A → prog mstate B) s a s' :
  run n p t s = Ok a s' → self_locked m t (k a) s' → self_locked m t (p ≫= k) s.
Proof.
  intros Hp (p' & s2 & W & Hk & Hb). exists p', s2, W. split; [|done].
  eapply alone_trans; [by eapply run_alone|done].
Qed.
Lemma lock_self_locked {A} m t W s (k : unit → prog mstate A) :
  mlocks s !! m = Some (Monitor (Some t) W) → self_locked m t (manager_lock (Some m) ≫= k) s.
Proof.
  intros Hm. exists (manager_lock (Some m) ≫= k), s, W. split; [constructor|]. split; [|split; [|done]].
  - cbn. unfold lift_act, at_ptr. by rewrite Hm.
  - done.
Qed.
(** A loop that stops in its first round *)
Lemma self_locked_loop {A X Y} m t (body : X → prog mstate (X + Y)) (k : Y → prog mstate A) x s :
  self_locked m t (body x ≫= (λ r, match r with inl x' => Loop body x' k | inr y => k y end)) s →
  self_locked m t (Loop body x k) s.
Proof.
  intros (p' & s2 & W & Hk & Hb). exists p', s2, W. split; [|done]. eapply alone_step; [done|exact Hk].
Qed.

(** A client that has nothing to be sent, or for whom there is no memory *)
Lemma skip_self_locked m x W t s A (k : unit → prog mstate A) :
  mlocks s !! m = Some (Monitor (Some t) W) →
  self_locked m t (skip_subscriber (Some m) (Some x) ≫= k) s.
Proof. intros Hm. unfold skip_subscriber. assoc. by eapply lock_self_locked. Qed.

(** C34: the calls that lock the manager's mutex a second time, or leave it locked:
    destroying a manager that still has a subscriber, sending to a subscriber that
    has all chunks or for which there is no memory, and subscribing without
    memory. The mutex is not recursive, so the thread waits for itself. *)
Theorem manager_locks_itself n s m t : 
  (∀ f fs M c ls xs, manager_repr s m (f :: fs) → cells (managers s) !! m = Some M → container M = Some c →
     container_repr s c ls xs → self_locked m t (destroy_subscription_manager (Some m)) s) ∧
  (∀ M x b c cc W, cells (managers s) !! m = Some M → mlocks s !! m = Some (Monitor (Some t) W) →
     first_subscriber M = Some x → cells (subscribers s) !! x = Some b →
     container M = Some c → cells (containers s) !! c = Some cc → chunk_loaded b = count cc ∨ malloc_fails s →
     self_locked m t (__send_chunks (Some m)) s) ∧
  (∀ f W, mlocks s !! m = Some (Monitor None W) → malloc_fails s →
     ∃ s', run n (subscribe (Some m) f) t s = Ok (-1) s' ∧ mlocks s' !! m = Some (Monitor (Some t) W)).
Proof.
  split; [|split].
  - intros f fs M c ls xs [Hm (M' & ls' & HM' & _ & _ & Hd & Hfs & _) _] HM Hc Hr.
    assert (M' = M) as -> by congruence. destruct ls' as [|x ls']; [done|].
    assert (first_subscriber M = Some x) as Hx by (by apply dll_first in Hd).
    unfold destroy_subscription_manager. eapply self_locked_run; [by apply (run_lock 1)|].
    eapply self_locked_run; [by apply (run_manager_get 1)|]. rewrite Hc.
    destruct (free_container_run (put_lock m (Monitor (Some t) [[]]) s) c ls xs t) as (s1 & Hs1 & _); [exact Hr|].
    eapply self_locked_run; [rewrite (run_atomic 1); exact Hs1|].
    destruct (chunk_op_free_container_all _ _ _ _ _ Hs1) as [Hs2 _]. rewrite Hs2. clear Hs2 Hs1. assoc.
    eapply self_locked_run; [by apply (run_manager_set 1)|].
    eapply self_locked_run; [apply (run_manager_get 1), lookup_insert_eq|]. cbn [first_subscriber set_container].
    rewrite Hx. destruct (dll_lookup _ _ _ _ x Hd) as [b Hb]; [apply dll_first in Hd; set_solver|].
    unfold unsubscribe_all. apply self_locked_loop. assoc.
    eapply self_locked_run; [by apply (run_sub_get 1)|]. assoc. unfold unsubscribe. assoc.
    eapply lock_self_locked, lookup_insert_eq.
  - intros M x b c cc W HM Hm Hx Hb Hc Hcc Hor. unfold __send_chunks.
    eapply self_locked_run; [by apply (run_manager_get 1)|].
    eapply self_locked_run; [by apply (run_manager_get 1)|].
    eapply self_locked_run; [by apply (run_manager_set 1)|]. rewrite Hx.
    apply self_locked_loop. assoc.
    eapply self_locked_run; [by apply (run_sub_get 1)|]. unfold count_of. assoc.
    eapply self_locked_run; [apply (run_manager_get 1), lookup_insert_eq|]. cbn [container set_flag]. rewrite Hc.
    eapply (self_locked_run 1 _ _ (Act (load chunk_container_t (Some c)) (λ c, Ret (count c)))).
    { cbn [run]. erewrite bind_ok by (by apply load_ok). done. }
    case_decide as Hd; [by eapply skip_self_locked|]. destruct Hor as [?|Ho]; [done|]. assoc.
    eapply self_locked_run; [rewrite (run_atomic 1); by apply malloc_null|].
    by eapply skip_self_locked.
  - intros f W Hm Ho. unfold subscribe. eexists. split.
    + rstep. erewrite run_bind_ok by (rewrite run_atomic; by apply malloc_null). cbv beta iota. done.
    + apply lookup_insert_eq.
Qed.

Example subscribers_refine_list_witness :
  let ops := [Join 4; Join 5; Join 6; Leave 1%nat; Join 7; Leave 0%nat] in
  (0 < 1)%nat ∧ members ops [] [] = Some ([6; 7], [5; 4]) ∧
  ∃ s0 s, run 1 create_subscription_manager 0%nat mstart = Ok (Some 1%positive) s0 ∧
    run 1 (clients (Some 1%positive) ops) 0%nat s0 = Ok tt s ∧ manager_repr s 1 [6; 7] ∧ closed s = [5; 4].
Proof.
  intros ops. split; [lia|]. split; [reflexivity|].
  apply (subscribers_refine_list 1 ops [6; 7] [5; 4] 0%nat); [lia|reflexivity].
Defined.

(** A manager with one subscriber *)
Definition one_client : mstate :=
  match run 1 (m ← create_subscription_manager; subscribe m 4) 0%nat mstart with Ok _ s => s | _ => mstart end.

Example manager_locks_itself_witness :
  self_locked 1 0%nat (destroy_subscription_manager (Some 1%positive)) one_client ∧
  ∃ s', run 1 (subscribe (Some 1%positive) 5) 0%nat (set_oom [false] one_client) = Ok (-1) s' ∧
    mlocks s' !! 1%positive = Some (Monitor (Some 0%nat) [[]]).
Proof.
  destruct (manager_locks_itself 1 one_client 1 0%nat) as [H _].
  destruct (manager_locks_itself 1 (set_oom [false] one_client) 1 0%nat) as (_ & _ & H').
  split; [|apply H'; reflexivity].
  apply (H 4 [] (Manager 0 0 1 (Some 1%positive) (Some 1%positive) (Some 1%positive)) 1%positive [] []); try reflexivity.
  - split; [reflexivity| |reflexivity].
    exists (Manager 0 0 1 (Some 1%positive) (Some 1%positive) (Some 1%positive)), [1%positive].
    split_and!; try reflexivity; [by eexists| |].
    + split; cbn; by eexists; eexists.
    + change (cells (subscribers one_client)) with ({[1%positive := Subscriber 4 0 NULL NULL None]} : gmap positive subscriber_t).
      intros l [b Hb]. apply lookup_singleton_Some in Hb as [<- _]. by apply list_elem_of_singleton.
  - eexists. split; [reflexivity|]. cbn. split_and!; done.
Defined.
