(* ===== verification/Cache.v ===== *)
(** Cache: the files that hold complete responses (lab3/src/chunk/cache.c), and
    the part of a session in which one is read or a download is saved to one
    (lab3/src/handler/handler.c). *)
From stdpp Require Import pretty.
From S2P Require Import Prelude CString Threads Pthread Common Chunk HttpUtils Subscription.

#[local] Open Scope Z_scope.

Definition CACHENAME_LEN : nat := 512.
Definition CACHE_BUFFER_SIZE : nat := 4048.
Definition HTTP_PATH_LEN : nat := 512.

(** [sprintf] into an array of [n] characters *)
Definition sprintf {S} (n : nat) (s : list Z) : C S (list Z) :=
  if decide (length s < n)%nat then mret s else fail OutOfBounds.
(** An argument of [%s] that must not be NULL *)
Definition str_arg {S} (s : option (list Z)) : C S (list Z) :=
  match s with Some x => mret x | None => fail Segv end.

(** * Names *)

(** The string of a request's array *)
Definition assigned {S} (field : option (list Z)) : C S (list Z) :=
  match field with Some x => mret x | None => fail Uninit end.

Definition parse_request_to_cachename {S} `{Heap S http_request_t, Oom S} (request : ptr) : C S (option (list Z)) :=
  cachename ← malloc_answer;
  if negb cachename then mret None else
  r ← load http_request_t request;
  url ← assigned (path r);
  host ← parse_host url;
  match host with
  | None => mret None
  | Some host =>
      let hash := hashn url HTTP_PATH_LEN in
      method ← assigned (method r);
      cachename ← sprintf CACHENAME_LEN (method ++ lit "_" ++ host ++ lit "_" ++ print_dec hash ++ lit ".cch");
      mret (Some cachename)
  end.

Definition full_cachename {S} (cachename : option (list Z)) : C S (list Z) :=
  name ← str_arg cachename;
  sprintf (CACHENAME_LEN + 10) (lit "../cache/" ++ name).

(** * Files *)

Definition fopen_rb (name : list Z) : C mstate bool := gets (λ s, bool_decide (is_Some (stored (disk s) !! name))).
(** Up to [n] bytes from [pos] on; none at the end of the file *)
Definition fread (name : list Z) (pos n : nat) : C mstate (list Z) :=
  gets (λ s, take n (drop pos (default [] (stored (disk s) !! name)))).
Definition put_file (name bytes : list Z) (d : disk_t) : disk_t := Disk (writable d) (<[name := bytes]> (stored d)).
(** The file is created, or made empty. *)
Definition fopen_wb (name : list Z) : C mstate bool := λ _ s,
  if writable (disk s) then Ok true (set_disk (put_file name [] (disk s)) s) else Ok false s.
Definition fwrite (name buf : list Z) (n : Z) : C mstate unit := λ _ s,
  if decide (n <= Z.of_nat (length buf))
  then Ok tt (set_disk (put_file name (default [] (stored (disk s) !! name) ++ take (Z.to_nat n) buf) (disk s)) s)
  else Fault OutOfBounds.
(** [stat] *)
Definition stat (name : list Z) : C mstate Z :=
  gets (λ s, if decide (is_Some (stored (disk s) !! name)) then 0 else -1).

(** * Operations *)

Definition cache_exists (cachename : option (list Z)) : prog mstate Z :=
  full ← atomic (full_cachename cachename);
  atomic (stat full).

Definition share_cache (m : ptr) (cachename : option (list Z)) : prog mstate unit :=
  full ← atomic (full_cachename cachename);
  file ← atomic (fopen_rb full);
  if negb file then mret tt else
  Loop (λ pos : nat,
    buffer ← atomic (fread full pos CACHE_BUFFER_SIZE);
    if decide (length buffer = 0%nat) then mret (inr tt) else
    add_chunk m buffer (Z.of_nat (length buffer)) 1;;
    mret (inl (pos + length buffer)%nat)) 0%nat Ret.

Definition save_cache (m : ptr) (cachename : option (list Z)) : prog mstate unit :=
  full ← atomic (full_cachename cachename);
  file ← atomic (fopen_wb full);
  if negb file then mret tt else
  c ← manager_get m container;
  current ← Act (load chunk_container_t c) (λ c, Ret (first c));
  Loop (λ current : ptr,
    match current with
    | None => mret (inr tt)
    | Some _ =>
        c ← Act (load chunk_t current) Ret;
        atomic (fwrite full (data c) (element_size c * size c));;
        nx ← Act (load chunk_t current) (λ c, Ret (chunk_next c));
        mret (inl nx)
    end) current Ret.

(** * A session *)

(** The data callback of a download: each block is one call of [add_chunk]. *)
Definition add_blocks (m : ptr) (blocks : list (list Z)) : prog mstate unit :=
  foldr (λ d rest, add_chunk m d (Z.of_nat (length d)) 1;; rest) (mret tt) blocks.

(** From [__check_cache] on: the response is read from the cache, or downloaded in
    [blocks] and saved, if it is a success; then the manager is destroyed. *)
Definition session (m : ptr) (cachename : option (list Z)) (blocks : list (list Z)) (success : bool) : prog mstate unit :=
  missing ← cache_exists cachename;
  (if decide (missing ≠ 0)
   then add_blocks m blocks;; (if success then save_cache m cachename else mret tt)
   else share_cache m cachename);;
  finish_pending_chunks m;;
  destroy_subscription_manager m.

(** * Facts *)

Definition full_of (name : list Z) : list Z := lit "../cache/" ++ name.

Lemma full_cachename_run {S} name t (s : S) : (length name < CACHENAME_LEN)%nat →
  full_cachename (Some name) t s = Ok (full_of name) s.
Proof.
  intros Hn. unfold full_cachename, str_arg, sprintf, full_of, CACHENAME_LEN in *. cbn [mbind C_bind mret C_ret].
  unfold mbind, C_bind, mret, C_ret. rewrite decide_True; [done|]. rewrite length_app. change (length (lit "../cache/")) with 9%nat. lia.
Qed.

Lemma put_file_put name a b d : put_file name b (put_file name a d) = put_file name b d.
Proof. unfold put_file. cbn. by rewrite insert_insert_eq. Qed.
Lemma put_file_stored name a d : stored (put_file name a d) !! name = Some a.
Proof. apply lookup_insert_eq. Qed.

(** A hash has at most 10 digits. *)
Lemma print_hash_length z : 0 ≤ z < 2 ^ 32 → (length (print_dec z) ≤ 10)%nat.
Proof. intros Hz. apply print_dec_length; lia. Qed.

(** The name under which the response for a method and a URL is kept *)
Definition cachename_of (m p : list Z) : list Z :=
  m ++ lit "_" ++ host_of p ++ lit "_" ++ print_dec (hashn p HTTP_PATH_LEN) ++ lit ".cch".

Lemma cachename_length m p : (length m ≤ 7)%nat → (length p ≤ 255)%nat → (length (cachename_of m p) < CACHENAME_LEN)%nat.
Proof.
  intros Hm Hp. unfold cachename_of, CACHENAME_LEN. rewrite !length_app, !lit_length. cbn [String.length].
  pose proof (host_of_length p). pose proof (print_hash_length _ (hashn_bound p HTTP_PATH_LEN)). lia.
Qed.

Lemma cachename_run {S} `{Heap S http_request_t, Oom S} (s : S) l r m p t :
  oom s = [] → cells (heap http_request_t s) !! l = Some r → path r = Some p → method r = Some m →
  (length m ≤ 7)%nat → (length p ≤ 255)%nat →
  parse_request_to_cachename (Some l) t s = Ok (Some (cachename_of m p)) s.
Proof.
  intros Ho Hr Hp Hm Hlm Hlp. unfold parse_request_to_cachename.
  assert (malloc_answer t s = Ok true s) as Ha by (unfold malloc_answer; by rewrite Ho).
  rewrite (bind_ok _ _ _ _ _ _ Ha). cbn [negb]. rewrite (bind_ok _ _ _ _ _ _ (load_ok _ _ _ _ Hr)), Hp. unfold assigned at 1.
  erewrite bind_ok by reflexivity. erewrite bind_ok by (rewrite parse_host_run, Ho; reflexivity). cbv zeta. rewrite Hm.
  erewrite bind_ok by reflexivity. unfold sprintf. fold (cachename_of m p).
  rewrite decide_True by (by apply cachename_length). done.
Qed.
