(* ===== verification/Broadcast.v ===== *)
(** Broadcast: in every interleaving of a session with the workers of the upload
    pool (lab3, subscription.c), every subscriber is sent all that was added, in
    order, and the session ends with everything freed. *)
From S2P Require Import Prelude Links CString Threads Pthread Common Chunk Subscription Cache.

#[local] Open Scope Z_scope.

Lemma s32_small z : 0 ≤ z < 2 ^ 31 → s32 z = z.
Proof. intros Hz. unfold s_wrap. rewrite Z.mod_small by lia. by rewrite decide_True by lia. Qed.
Lemma s8_small z : 0 ≤ z < 128 → s8 z = z.
Proof. intros Hz. unfold s_wrap. rewrite Z.mod_small by lia. by rewrite decide_True by lia. Qed.

(** No chunk is allocated. *)
Definition no_new_chunk {A} (p : C mstate A) : Prop :=
  ∀ t s a s', p t s = Ok a s' → ∀ q, is_Some (cells (chunks s') !! q) → is_Some (cells (chunks s) !! q).

Lemma no_new_bind {A B} (p : C mstate A) (f : A → C mstate B) :
  no_new_chunk p → (∀ a, no_new_chunk (f a)) → no_new_chunk (p ≫= f).
Proof. intros Hp Hf t s b s' (a & s1 & Ha & Hb)%bind_ok_inv q Hq. eapply Hp; [done|]. by eapply Hf. Qed.
Lemma no_new_same {A} (p : C mstate A) : (∀ t s a s', p t s = Ok a s' → chunks s' = chunks s) → no_new_chunk p.
Proof. intros Hp t s a s' Ha q. by rewrite (Hp _ _ _ _ Ha). Qed.
Lemma no_new_ret {A} (a : A) : no_new_chunk (mret a).
Proof. by intros t s b s' [= _ <-]. Qed.
Lemma no_new_load {X} `{Heap mstate X} p : no_new_chunk (load X p).
Proof.
  apply no_new_same. intros t s a s'. unfold load. destruct p; [|done]. destruct (_ !! _); [|done]. by intros [= _ <-].
Qed.
Lemma no_new_update_container p f : no_new_chunk (update chunk_container_t p f).
Proof.
  apply no_new_same. intros t s a s'. unfold update. destruct p; [|done]. destruct (_ !! _); [|done]. by intros [= _ <-].
Qed.
Lemma no_new_update_chunk p f : no_new_chunk (update chunk_t p f).
Proof.
  intros t s a s'. unfold update. destruct p as [l|]; [|done]. destruct (_ !! _) as [x|] eqn:E; [|done].
  intros [= _ <-] q. cbn. rewrite lookup_insert. case_decide; [subst; by exists x|done].
Qed.
Lemma no_new_free_chunk p : no_new_chunk (free chunk_t p).
Proof.
  intros t s a s'. unfold free. destruct p as [l|]; [|by intros [= _ <-]]. destruct (_ !! _) as [x|] eqn:E; [|done].
  intros [= _ <-] q. cbn. rewrite lookup_delete. case_decide; [by intros []|done].
Qed.
Lemma no_new_answer : no_new_chunk malloc_answer.
Proof. apply no_new_same. intros t s a s'. rewrite malloc_answer_run. by intros [= _ <-]. Qed.

Ltac no_new_solve := repeat (first
  [ apply no_new_ret | apply no_new_load | apply no_new_update_container | apply no_new_update_chunk
  | apply no_new_free_chunk | apply no_new_answer | done | apply no_new_bind; [|intros ?] | case_match ]).

(** [__add_chunk] allocates at most one chunk. *)
Lemma add_chunk_new c d e n t s a s' : ChunkOps.__add_chunk (Some c) (Some d) e n t s = Ok a s' →
  ∀ q, is_Some (cells (chunks s') !! q) → is_Some (cells (chunks s) !! q) ∨ q = fresh_loc (chunks s).
Proof.
  unfold ChunkOps.__add_chunk. case_decide; [intros [= _ <-]; by left|].
  intros (p & s1 & Hp & Hr)%bind_ok_inv q Hq.
  assert (is_Some (cells (chunks s1) !! q)) as Hq1.
  { match type of Hr with ?f t s1 = _ => assert (no_new_chunk f) as Hf end; [|by eapply Hf].
    unfold ChunkOps.memcpy, ChunkOps.link_chunk. no_new_solve. }
  revert Hp. unfold malloc. intros (b & s2 & Hb & Hn)%bind_ok_inv. rewrite malloc_answer_run in Hb.
  injection Hb as Hb <-. destruct b.
  - injection Hn as _ <-. cbn in Hq1. rewrite lookup_insert in Hq1. case_decide as Hf; [by right|by left].
  - injection Hn as _ <-. by left.
Qed.

(** With no answers left in its script the kernel takes everything. *)
Lemma send_all f d t (s : mstate) : answers (sockets s) = [] →
  ∃ n, send_data_to_fd f d t s = Ok 0 (set_net n s) ∧ answers n = [] ∧
    log_of n f = log_of (sockets s) f ++ d ∧ ∀ f', f' ≠ f → log_of n f' = log_of (sockets s) f'.
Proof.
  intros Ha. destruct s as [mg sb inf ct ch ml so cl up hd an dk]. cbn in Ha |- *. unfold send_data_to_fd, gets.
  unfold mbind at 1, C_bind. cbn [net_of mstate_sockets sockets]. rewrite Ha. cbn [length send_loop].
  case_decide as Hd.
  - unfold mbind, C_bind, send, send_step, next_answer. cbn. rewrite Ha, drop_0.
    rewrite (decide_False (P := Z.of_nat (length d) = -1)) by lia.
    rewrite Nat2Z.id, firstn_all, decide_False, decide_True by lia.
    rewrite (decide_False (P := Z.of_nat (length d) < 0)) by lia. eexists. split; [done|]. split; [done|]. split; [apply log_of_insert|]. intros f' Hf'. by apply log_of_insert_ne.
  - assert (d = []) as -> by (destruct d; [done|cbn in Hd; lia]). exists so. rewrite app_nil_r. done.
Qed.

(** * The threads *)

(** The system may wake the threads that wait at the manager, at any time. *)
Definition spurious_wakeups (m : positive) : prog mstate unit :=
  forever (λ _ : unit, atomic (λ _ s, Ok tt
    (set_mlocks (alter (λ y, Monitor (held y) ((λ _, []) <$> waiting y)) m (mlocks s)) s))) tt.

(** A session, the workers of the upload pool, and the system *)
Definition upload_threads (m : positive) (cachename : option (list Z)) (blocks : list (list Z)) (success : bool)
    (workers : nat) : list (prog mstate unit) :=
  session (Some m) cachename blocks success :: replicate workers upload_worker ++ [spurious_wakeups m].

(** * Invariant, rely and guarantee *)

(** The manager at [m]; thread 0 is the session, the threads up to [N] are the
    workers of the upload pool. *)
Section broadcast.
Context (m : positive) (N : nat) (N_workers : (1 < N)%nat).
Implicit Types (s : mstate) (w j t : tid) (l i : positive).

Definition manager_at s : option subscription_manager_t := cells (managers s) !! m.
Definition sub_at s l : option subscriber_t := cells (subscribers s) !! l.
Definition info_at s i : option subscription_info_t := cells (infos s) !! i.
Definition owner s : option tid := mlocks s !! m ≫= held.
Definition waiters s : list tid :=
  match mlocks s !! m with Some y => default [] (head (waiting y)) | None => [] end.

(** The task [i] is not counted off yet; the subscriber [l] has such a task. *)
Definition owes s i : Prop := i ∈ uploads s ∨ ∃ w, hand s !! w = Some (i, true).
Definition target s i : ptr := info_at s i ≫= subscriber.
Definition busy s l : Prop := ∃ i, owes s i ∧ target s i = Some l.

(** The task [i] waits in the pool or is in the hands of a worker; the struct of
    [i] is allocated, but is no task. *)
Definition tasked s i : Prop := i ∈ uploads s ∨ ∃ w b, hand s !! w = Some (i, b).
Definition stray s i : Prop := is_Some (info_at s i) ∧ ¬ tasked s i.

(** What the descriptor [f] was sent, and what subscriber [b] is to be sent *)
Definition log s (f : Z) : list Z := log_of (sockets s) f.
Definition sane (x : payload) : Prop :=
  p_element_size x * p_size x = Z.of_nat (length (p_data x)) ∧ p_element_size x * p_size x < 2 ^ 64.
Definition sent (b : subscriber_t) (xs : list payload) : list Z := content (take (Z.to_nat (chunk_loaded b)) xs).

(** The data of the manager [M] *)
Definition holds_chunks s (M : subscription_manager_t) (xs : list payload) : Prop :=
  ∃ c cls, container M = Some c ∧ container_repr s c cls xs ∧ Forall sane xs ∧ Z.of_nat (length xs) < 2 ^ 31.

(** [flag] counts the tasks [os] that are owed. *)
Definition flagged s (os : list positive) : Prop := NoDup os ∧ (∀ i, i ∈ os ↔ owes s i) ∧
  flag <$> manager_at s = Some (Z.of_nat (length os)) ∧ Z.of_nat (length os) < 128.

(** The subscriber [b] at [l] was sent what it has loaded, unless a worker is at
    it, and all of the chunks [xs] of the manager [M], unless a task is owed to it
    or the session is at work. *)
Record sub_ok s l (b : subscriber_t) (M : subscription_manager_t) (xs : list payload) : Prop := {
  o_manager : manager_at s = Some M;
  o_chunks : holds_chunks s M xs;
  o_loaded : 0 ≤ chunk_loaded b ≤ Z.of_nat (length xs);
  o_log : (∀ w i, lock b = Some w → hand s !! w ≠ Some (i, true)) → log s (fd b) = sent b xs;
  o_done : owner s ≠ Some 0%nat → ¬ busy s l → chunk_loaded b = Z.of_nat (length xs);
}.

Record inv s : Prop := {
  v_manager : match manager_at s with
    | Some M => ∃ H W, mlocks s !! m = Some (Monitor H [W]) ∧ (W = [] ∨ W = [0%nat])
    | None => mlocks s !! m = None ∧ (∀ l, sub_at s l = None) ∧ ∀ i, ¬ owes s i
    end;
  v_owner : ∀ j, owner s = Some j → (j < N)%nat ∧ j ∉ waiters s;
  v_lock : ∀ l b j, sub_at s l = Some b → lock b = Some j → (j < N)%nat;
  v_hand : ∀ w i b, hand s !! w = Some (i, b) → (1 ≤ w < N)%nat ∧ (i ∉ uploads s);
  v_hand_inj : ∀ w w' i b b', hand s !! w = Some (i, b) → hand s !! w' = Some (i, b') → w = w';
  v_uploads : NoDup (uploads s);
  v_task : ∀ i, tasked s i → ∃ l, info_at s i = Some (Info (Some l) (Some m));
  v_targets : ∀ i i' l, owes s i → owes s i' → target s i = Some l → target s i' = Some l → i = i';
  v_busy : ∀ l, busy s l → is_Some (sub_at s l);
  v_data : ∀ l b, sub_at s l = Some b → ∃ M xs, sub_ok s l b M xs;
  v_fds : ∀ l l' b b', sub_at s l = Some b → sub_at s l' = Some b' → fd b = fd b' → l = l';
  v_flag : owner s = None → is_Some (manager_at s) → ∃ os, flagged s os ∧ (0%nat ∈ waiters s → os ≠ []);
  v_infos : owner s ≠ Some 0%nat → ∀ i, ¬ stray s i;
  v_oom : manswers s = [];
  v_net : answers (sockets s) = [];
}.

(** What worker [j] has of its task: the descriptor, the manager's container *)
Definition store_kept s s' : Prop :=
  container <$> manager_at s' = container <$> manager_at s ∧ containers s' = containers s ∧ chunks s' = chunks s.
Definition lock_kept j s s' : Prop := ∀ l b, sub_at s l = Some b → lock b = Some j →
  ∃ b', sub_at s' l = Some b' ∧ lock b' = Some j ∧ fd b' = fd b ∧ chunk_loaded b' = chunk_loaded b ∧
    log s' (fd b) = log s (fd b).

(** What the session relies on besides: the others only touch what they have a
    task for, and [flag]. *)
Record session_rely s s' : Prop := {
  z_manager : set_flag 0 <$> manager_at s' = set_flag 0 <$> manager_at s;
  z_store : containers s' = containers s ∧ chunks s' = chunks s ∧ closed s' = closed s;
  z_links : ∀ l, (λ b, (fd b, sub_next b, sub_prev b)) <$> sub_at s' l =
                 (λ b, (fd b, sub_next b, sub_prev b)) <$> sub_at s l;
  z_quiet : ∀ l b, sub_at s l = Some b → ¬ busy s l →
    ∃ b', sub_at s' l = Some b' ∧ chunk_loaded b' = chunk_loaded b ∧ log s' (fd b) = log s (fd b) ∧
      (lock b = None ∨ lock b = Some 0%nat → lock b' = lock b);
  z_owes : ∀ i, owes s' i → owes s i ∧ info_at s' i = info_at s i;
  z_stray : ∀ i, (stray s' i ↔ stray s i) ∧ (stray s i → info_at s' i = info_at s i);
  z_owner : (∀ i, ¬ owes s i) → owner s = None → owner s' = None;
  z_disk : disk s' = disk s;
  z_gone : ∀ f, (∀ l b, sub_at s l = Some b → fd b ≠ f) → log s' f = log s f;
}.

Record rely j s s' : Prop := {
  r_owner : owner s' = Some j → owner s = Some j;
  r_hold : owner s = Some j → owner s' = Some j ∧ waiters s' ⊆ waiters s ∧
    flag <$> manager_at s' = flag <$> manager_at s ∧ ∀ i, owes s' i ↔ owes s i;
  r_run : j ∉ waiters s → j ∉ waiters s';
  r_hand : hand s' !! j = hand s !! j;
  r_info : ∀ i b, hand s !! j = Some (i, b) → info_at s' i = info_at s i;
  r_store : ∀ i, hand s !! j = Some (i, true) → store_kept s s' ∧
    ∀ l, target s i = Some l → fd <$> sub_at s' l = fd <$> sub_at s l;
  r_lock : lock_kept j s s';
  r_locked : ∀ l b', sub_at s' l = Some b' → lock b' = Some j → ∃ b, sub_at s l = Some b ∧ lock b = Some j;
  r_session : j = 0%nat → session_rely s s';
}.

Lemma session_rely_refl s : session_rely s s.
Proof. split; try done. intros l b Hb _. by exists b. Qed.
Lemma session_rely_busy s s' l : session_rely s s' → busy s' l → busy s l.
Proof.
  intros HR (i & Ho & Ht). destruct (z_owes _ _ HR i Ho) as [Ho' Hi]. exists i. split; [done|].
  unfold target in *. by rewrite <-Hi.
Qed.
Lemma session_rely_trans s1 s2 s3 : session_rely s1 s2 → session_rely s2 s3 → session_rely s1 s3.
Proof.
  intros A B. pose proof A as [A1 (A2 & A3 & A4) A5 A6 A7 A8 A10 Ad A9]. pose proof B as [B1 (B2 & B3 & B4) B5 B6 B7 B8 B10 Bd B9]. split.
  - by rewrite B1, A1.
  - by rewrite B2, B3, B4, A2, A3, A4.
  - intros l. by rewrite B5, A5.
  - intros l b Hb Hq. destruct (A6 l b Hb Hq) as (b2 & Hb2 & Hl2 & Hg2 & Hk2).
    destruct (B6 l b2 Hb2) as (b3 & Hb3 & Hl3 & Hg3 & Hk3); [intros Hbusy; by apply Hq, (session_rely_busy _ _ _ A)|].
    exists b3. split; [done|]. split; [congruence|].
    assert (fd b2 = fd b) as Hfd by (specialize (A5 l); rewrite Hb, Hb2 in A5; by injection A5).
    rewrite Hfd in Hg3. split; [congruence|]. intros Hk. specialize (Hk2 Hk). rewrite <-Hk2. apply Hk3. by rewrite Hk2.
  - intros i Ho. destruct (B7 i Ho) as [Ho2 ->]. by apply A7.
  - intros i. destruct (A8 i) as [As Ai], (B8 i) as [Bs Bi]. split; [by rewrite Bs|].
    intros Hs. rewrite Bi by (by apply As). by apply Ai.
  - intros Hno Ho. apply B10; [|by apply A10]. intros i Hi. by destruct (Hno i), (A7 i Hi).
  - by rewrite Bd.
  - intros f Hf. rewrite B9; [by apply A9|]. intros l b Hb. specialize (A5 l). rewrite Hb in A5.
    destruct (sub_at s1 l) as [b1|] eqn:Hb1; [|done]. injection A5 as E _ _. rewrite E. by apply (Hf l b1).
Qed.

Lemma lock_kept_trans j s1 s2 s3 : lock_kept j s1 s2 → lock_kept j s2 s3 → lock_kept j s1 s3.
Proof.
  intros A B l b Hb Hk. destruct (A l b Hb Hk) as (b2 & Hb2 & Hk2 & Hf2 & Hl2 & Hg2).
  destruct (B l b2 Hb2 Hk2) as (b3 & Hb3 & Hk3 & Hf3 & Hl3 & Hg3). exists b3. rewrite Hf2 in Hg3.
  split_and!; congruence.
Qed.

(** * Steps *)

(** The thread [j] holds no subscriber's mutex. *)
Definition locks_none j s : Prop := ∀ l b, sub_at s l = Some b → lock b ≠ Some j.

(** A step of thread [t] keeps the invariant and is one the others expect. *)
Definition good (t : tid) s s' : Prop := inv s' ∧ ∀ j, j ≠ t → rely j s s'.

(** Every subscriber that no task is owed to has all chunks. *)
Definition settled s : Prop := ∀ l b M xs, sub_at s l = Some b → ¬ busy s l → manager_at s = Some M →
  holds_chunks s M xs → chunk_loaded b = Z.of_nat (length xs).

Lemma holds_chunks_det s M xs xs' : holds_chunks s M xs → holds_chunks s M xs' → xs = xs'.
Proof.
  intros (c & ls & Hc & (cc & Hcc & [[Hch _] Hp _] & _) & _) (c' & ls' & Hc' & (cc' & Hcc' & [[Hch' _] Hp' _] & _) & _).
  assert (c' = c) as -> by congruence. assert (cc' = cc) as -> by congruence.
  assert (ls' = ls) as -> by (by eapply chain_det). congruence.
Qed.

Lemma owner_lock s H W : mlocks s !! m = Some (Monitor H W) → owner s = H.
Proof. unfold owner. by intros ->. Qed.
Lemma waiters_lock s H W : mlocks s !! m = Some (Monitor H [W]) → waiters s = W.
Proof. unfold waiters. by intros ->. Qed.
Lemma owner_put_lock s H W : owner (put_lock m (Monitor H W) s) = H.
Proof. eapply owner_lock, lookup_insert_eq. Qed.
Lemma waiters_put_lock s H W : waiters (put_lock m (Monitor H [W]) s) = W.
Proof. eapply waiters_lock, lookup_insert_eq. Qed.

(** The steps on the manager's mutex and condition variable *)
Lemma good_lock t s H W H' W' : inv s → mlocks s !! m = Some (Monitor H [W]) → (W' = [] ∨ W' = [0%nat]) →
  (H' = H ∨ (H = None ∧ H' = Some t ∧ (t < N)%nat) ∨ (H = Some t ∧ H' = None)) →
  (∀ j, H' = Some j → j ∉ W') → (H ≠ None → H ≠ Some t → W' ⊆ W) → (∀ j, j ≠ t → j ∉ W → j ∉ W') →
  (H' = None → is_Some (manager_at s) → ∃ os, flagged s os ∧ (0%nat ∈ W' → os ≠ [])) →
  (H = None → H' = Some t → t ≠ 0%nat → ∃ i, owes s i) →
  (H = Some 0%nat → H' = None → settled s ∧ ∀ i, ¬ stray s i) →
  good t s (put_lock m (Monitor H' [W']) s).
Proof.
  intros HI Hm HW HH Hown Hsub Hrun Hfl Hacq Hset.
  pose proof (owner_lock _ _ _ Hm) as Ho. pose proof (waiters_lock _ _ _ Hm) as Hw.
  pose proof (owner_put_lock s H' [W']) as Ho'. pose proof (waiters_put_lock s H' W') as Hw'.
  set (s' := put_lock m (Monitor H' [W']) s) in *. split.
  - destruct HI. split; try assumption.
    + change (manager_at s') with (manager_at s). destruct (manager_at s); [|destruct v_manager0; congruence].
      exists H', W'. split; [apply lookup_insert_eq|done].
    + intros j. rewrite Ho', Hw'. intros Hj. split; [|by apply Hown].
      destruct HH as [->|[(_ & -> & ?)|(_ & ->)]]; [|congruence|done]. by apply v_owner0; rewrite Ho.
    + intros l b Hb. destruct (v_data0 l b Hb) as (M & xs & [HM Hx Hr Hs Hd]). exists M, xs.
      split; try assumption. rewrite Ho'. intros HH0 Hq.
      destruct (decide (H = Some 0%nat)) as [E|E]; [|apply Hd; [by rewrite Ho|done]].
      destruct HH as [->|[(? & ? & ?)|(_ & ->)]]; [done|congruence|]. destruct (Hset E eq_refl) as [Hse _].
      by apply (Hse l b M xs).
    + rewrite Ho', Hw'. exact Hfl.
    + rewrite Ho'. intros HH0. destruct (decide (H = Some 0%nat)) as [E|E]; [|apply v_infos0; by rewrite Ho].
      destruct HH as [->|[(? & ? & ?)|(_ & ->)]]; [done|congruence|]. by destruct (Hset E eq_refl).
  - intros j Hj. split; try done; rewrite ?Ho', ?Ho, ?Hw', ?Hw.
    + destruct HH as [->|[(-> & -> & _)|(-> & ->)]]; [done|congruence|done].
    + intros E. destruct HH as [->|[(-> & -> & _)|(-> & ->)]]; [|done|congruence].
      split_and!; [done|apply Hsub; congruence|done|done].
    + by apply Hrun.
    + intros l b Hb Hk. by exists b.
    + intros l b Hb Hk. by exists b.
    + intros ->. split; try done; [intros l b Hb _; by exists b|]. rewrite Ho, Ho'. intros Hno ->.
      destruct HH as [->|[(_ & -> & _)|(? & _)]]; [done| |congruence].
      destruct Hacq as [i Hi]; [done..|]. by destruct (Hno i).
Qed.

Lemma sub_at_put s l b k : sub_at (put_sub l b s) k = if decide (l = k) then Some b else sub_at s k.
Proof. unfold sub_at. cbn. by rewrite lookup_insert. Qed.

(** The steps on the struct of one subscriber *)
Lemma good_sub t s l b b' : inv s → sub_at s l = Some b → fd b' = fd b → (t < N)%nat →
  (lock b' = lock b ∨ (lock b = None ∧ lock b' = Some t) ∨ (lock b = Some t ∧ lock b' = None)) →
  ((sub_next b' = sub_next b ∧ sub_prev b' = sub_prev b) ∨ t = 0%nat) →
  (chunk_loaded b' = chunk_loaded b ∨ (lock b = Some t ∧ t ≠ 0%nat ∧ busy s l)) →
  (t ≠ 0%nat → lock b = None → lock b' ≠ None → busy s l) →
  (∀ M xs, sub_ok s l b M xs → sub_ok (put_sub l b' s) l b' M xs) →
  good t s (put_sub l b' s).
Proof.
  intros HI Hb Hfd Ht Hlk Hln Hld Hq Hok. set (s' := put_sub l b' s) in *.
  assert (∀ k, sub_at s' k = if decide (l = k) then Some b' else sub_at s k) as Hs' by apply sub_at_put. split.
  - destruct HI. split; try assumption.
    + change (manager_at s') with (manager_at s). change (mlocks s') with (mlocks s).
      destruct (manager_at s); [done|]. destruct v_manager0 as (? & Hn & ?). by rewrite Hn in Hb.
    + intros k c j. rewrite Hs'. case_decide as Hk; [|apply v_lock0]. intros [= <-] Hj.
      destruct Hlk as [E|[[_ E]|[_ E]]]; rewrite E in Hj; [by eapply v_lock0|congruence|done].
    + intros k Hk%v_busy0. rewrite Hs'. by case_decide.
    + intros k c. rewrite Hs'. case_decide as Hk.
      * intros [= <-]. subst k. destruct (v_data0 l b Hb) as (M & xs & Hx). exists M, xs. by apply Hok.
      * intros Hc. destruct (v_data0 k c Hc) as (M & xs & [HM Hx Hr Hs Hd]). exists M, xs. by split.
    + intros k k' c c'. rewrite !Hs'. repeat case_decide; subst; [done|..|apply v_fds0].
      * intros [= <-] Hc. rewrite Hfd. by apply (v_fds0 k k' b c').
      * intros Hc [= <-]. rewrite Hfd. by apply (v_fds0 k k' c b).
  - intros j Hj. split; try done.
    + intros i Hi. split; [done|]. intros k _. rewrite Hs'. case_decide; [subst|done]. by rewrite Hb; simpl; rewrite Hfd.
    + intros k c Hc Hk. destruct (decide (l = k)) as [<-|Hlk2].
      * assert (c = b) as -> by congruence. exists b'. rewrite Hs', decide_True by done.
        destruct Hlk as [->|[[? ?]|[? ?]]]; [|congruence..]. destruct Hld as [->|[? _]]; [|congruence].
        by rewrite Hfd.
      * exists c. by rewrite Hs', decide_False.
    + intros k c. rewrite Hs'. case_decide as Hk; [|by eauto]. intros [= <-] Hc. subst k. exists b. split; [done|].
      destruct Hlk as [E|[[_ E]|[_ E]]]; congruence.
    + intros ->. split; try done.
      * intros k. rewrite Hs'. case_decide as Hk; [|done]. subst k. rewrite Hb. simpl.
        destruct Hln as [[-> ->]|?]; [by rewrite Hfd|done].
      * intros k c Hc Hk. destruct (decide (l = k)) as [<-|Hlk2].
        -- assert (c = b) as -> by congruence. exists b'. rewrite Hs', decide_True by done.
           destruct Hld as [->|(_ & _ & ?)]; [|done]. split_and!; [done..|].
           intros HNone. destruct Hlk as [?|[[HN E]|[E _]]]; [done| |destruct HNone; congruence].
           destruct Hk. apply Hq; [done..|congruence].
        -- exists c. by rewrite Hs', decide_False.
Qed.

(** A worker sends to the subscriber it has locked. *)
Lemma good_send w s l b i n : inv s → w ≠ 0%nat → sub_at s l = Some b → lock b = Some w →
  hand s !! w = Some (i, true) → target s i = Some l → answers n = [] →
  (∀ f, f ≠ fd b → log_of n f = log s f) →
  good w s (set_net n s).
Proof.
  intros HI Hw Hb Hk Hh Ht Hn Hlog. assert (busy s l) as Hbusy by (exists i; split; [right; by exists w|done]). split.
  - destruct HI. split; try assumption. intros k c Hc. change (sub_at s k = Some c) in Hc. destruct (v_data0 k c Hc) as (M & xs & [HM Hx Hr Hs Hd]).
    exists M, xs. split; try assumption. intros Hlk. change (log (set_net n s) ?f) with (log_of n f).
    rewrite Hlog; [by apply Hs|]. intros E. assert (k = l) as -> by (by eapply v_fds0).
    assert (c = b) as -> by congruence. by apply (Hlk w i).
  - intros j Hj. split; try done.
    + intros k c Hc Hkj. exists c. split_and!; try done. change (log (set_net n s) ?f) with (log_of n f).
      apply Hlog. intros E. assert (k = l) as -> by (by eapply (v_fds _ HI)). congruence.
    + intros k c Hc Hkj. by exists c.
    + intros ->. split; try done.
      * intros k c Hc Hq. exists c. split_and!; try done. change (log (set_net n s) ?f) with (log_of n f).
        apply Hlog. intros E. assert (k = l) as -> by (by eapply (v_fds _ HI)). done.
      * intros f Hf. apply Hlog. intros ->. by apply (Hf l b).
Qed.

(** What the session does while it owns the mutex, in the structs that no worker
    looks at *)
Lemma owes_tasked s i : owes s i → tasked s i.
Proof. intros [Hi|[w Hw]]; [by left|right; by exists w, true]. Qed.

Lemma good_malloc_info s k x mm : inv s → owner s = Some 0%nat → info_at s k = None →
  cells mm = <[k := x]> (cells (infos s)) → good 0 s (set_heap subscription_info_t mm s).
Proof.
  intros HI Ho Hk Hmm. set (s' := set_heap _ _ _).
  assert (∀ i, i ≠ k → info_at s' i = info_at s i) as Hs'.
  { intros i Hi. unfold info_at. cbn. by rewrite Hmm, lookup_insert_ne. }
  assert (∀ i, tasked s i → i ≠ k) as Hne.
  { intros i Hi ->. destruct (v_task _ HI k Hi) as [l Hl]. congruence. }
  assert (∀ i, owes s i → target s' i = target s i) as Ht.
  { intros i Hi%owes_tasked. unfold target. by rewrite Hs' by auto. }
  split.
  - destruct HI. split; try assumption.
    + intros i Hi. rewrite Hs' by auto. by apply v_task0.
    + intros i i' l Hi Hi'. rewrite !Ht by done. by apply v_targets0.
    + intros l (i & Hi & Hl). apply v_busy0. exists i. by rewrite <-Ht.
    + intros l b Hb. destruct (v_data0 l b Hb) as (M & xs & [HM Hx Hr Hs Hd]). by exists M, xs.
    + by intros [].
  - intros j Hj. split; try done.
    + intros i b Hh. apply Hs', Hne. right. by exists j, b.
    + intros l b Hb Hl. by exists b.
    + intros l b Hb Hl. by exists b.
Qed.

Lemma good_push s k l : inv s → owner s = Some 0%nat → info_at s k = Some (Info (Some l) (Some m)) → ¬ tasked s k →
  is_Some (sub_at s l) → ¬ busy s l → good 0 s (set_tasks (k :: uploads s) (hand s) s).
Proof.
  intros HI Ho Hk Hnt Hl Hq. set (s' := set_tasks _ _ _).
  assert (∀ i, owes s' i ↔ i = k ∨ owes s i) as Hs'.
  { intros i. unfold owes. cbn. rewrite elem_of_cons. tauto. }
  assert (∀ i, tasked s' i ↔ i = k ∨ tasked s i) as Ht'.
  { intros i. unfold tasked. cbn. rewrite elem_of_cons. tauto. }
  assert (target s k = Some l) as Htk by (unfold target; by rewrite Hk).
  split.
  - destruct HI. split; try assumption.
    + change (manager_at s') with (manager_at s). destruct (manager_at s); [done|].
      destruct v_manager0 as (_ & Hn & _). destruct Hl. congruence.
    + intros w i b Hh. destruct (v_hand0 w i b Hh) as [Hw Hi]. split; [done|]. cbn. rewrite elem_of_cons.
      intros [->|?]; [|done]. apply Hnt. right. by exists w, b.
    + cbn. apply NoDup_cons. split; [|done]. intros Hi. apply Hnt. by left.
    + intros i [->|Hi]%Ht'; [by exists l|by apply v_task0].
    + intros i i' l' Hi Hi' Hl1 Hl2. apply Hs' in Hi as [->|Hi], Hi' as [->|Hi']; [done|..|by eapply v_targets0].
      * destruct Hq. exists i'. split; [done|]. change (target s k = Some l') in Hl1.
        change (target s i' = Some l') in Hl2. congruence.
      * destruct Hq. exists i. split; [done|]. change (target s k = Some l') in Hl2.
        change (target s i = Some l') in Hl1. congruence.
    + intros l' (i & [->|Hi]%Hs' & Hl'); [|apply v_busy0; by exists i].
      change (target s k = Some l') in Hl'. change (is_Some (sub_at s l')). congruence.
    + intros l' b Hb. destruct (v_data0 l' b Hb) as (M & xs & [HM Hx Hr Hs Hd]). by exists M, xs.
    + intros E. change (owner s = None) in E. congruence.
    + by intros [].
  - intros j Hj. split; try done.
    + intros E. congruence.
    + intros l' b Hb Hk'. by exists b.
    + intros l' b Hb Hk'. by exists b.
Qed.

Lemma good_pop w s i r : inv s → (1 ≤ w < N)%nat → uploads s = i :: r → hand s !! w = None → locks_none w s →
  good w s (set_tasks r (<[w := (i, true)]> (hand s)) s).
Proof.
  intros HI Hw Hu Hh Hl. set (s' := set_tasks _ _ _).
  assert (NoDup (i :: r)) as [Hir Hr]%NoDup_cons by (rewrite <-Hu; apply HI).
  assert (∀ v x b, hand s' !! v = Some (x, b) ↔ (v = w ∧ x = i ∧ b = true) ∨ (v ≠ w ∧ hand s !! v = Some (x, b))) as Hh'.
  { intros v x b. cbn. rewrite lookup_insert. case_decide as Hv; [|by naive_solver]. subst v. naive_solver. }
  assert (∀ v x b, hand s !! v = Some (x, b) → v ≠ w) as Hne by congruence.
  assert (∀ v b, hand s !! v ≠ Some (i, b)) as Hni.
  { intros v b Hv. destruct (v_hand _ HI v i b Hv) as [_ Hi]. rewrite Hu in Hi. set_solver. }
  assert (∀ x, owes s' x ↔ owes s x) as Ho.
  { intros x. unfold owes. rewrite Hu. cbn [uploads s' set_tasks]. rewrite elem_of_cons. setoid_rewrite Hh'. naive_solver. }
  assert (∀ x, tasked s' x ↔ tasked s x) as Ht.
  { intros x. unfold tasked. rewrite Hu. cbn [uploads s' set_tasks]. rewrite elem_of_cons. setoid_rewrite Hh'. naive_solver. }
  assert (∀ x, stray s' x ↔ stray s x) as Hst.
  { intros x. unfold stray. by rewrite Ht. }
  assert (∀ l, busy s' l ↔ busy s l) as Hb.
  { intros l. unfold busy. by setoid_rewrite Ho. }
  split.
  - destruct HI. split; try assumption.
    + change (manager_at s') with (manager_at s). destruct (manager_at s); [done|].
      destruct v_manager0 as (? & ? & Hno). split_and!; [done..|]. intros x. by rewrite Ho.
    + intros v x b [(-> & -> & _)|[Hv Hx]]%Hh'; [done|]. destruct (v_hand0 v x b Hx) as [? Hi]. split; [done|].
      rewrite Hu in Hi. set_solver.
    + intros v v' x b b' [(-> & -> & _)|[Hv Hx]]%Hh' [(-> & E & _)|[Hv' Hx']]%Hh'; [done|..].
      * by destruct (Hni v' b').
      * subst x. by destruct (Hni v b).
      * by eapply v_hand_inj0.
    + intros x Hx%Ht. by apply v_task0.
    + intros x x' l Hx%Ho Hx'%Ho. by apply v_targets0.
    + intros l Hl'%Hb. by apply v_busy0.
    + intros l b Hb1. destruct (v_data0 l b Hb1) as (M & xs & [HM Hx Hrr Hs Hd]). exists M, xs. split; try assumption.
      * intros Hlk. apply Hs. intros v x Hv Hx2. apply (Hlk v x Hv). rewrite Hh'. right. split; [|done].
        by eapply Hne.
      * rewrite Hb. exact Hd.
    + intros E Hm. destruct (v_flag0 E Hm) as (os & (H1 & H2 & H3) & Hos). exists os. split; [|done]. split; [done|].
      split; [|done]. intros x. by rewrite H2, Ho.
    + intros E x. rewrite Hst. by apply v_infos0.
  - intros j Hj. split; try done.
    + cbn. by rewrite lookup_insert_ne by done.
    + intros l b Hb1 Hk'. by exists b.
    + intros l b Hb1 Hk'. by exists b.
    + intros ->. split; try done.
      * intros l b Hb1 _. by exists b.
      * intros x Hx%Ho. done.
Qed.

Lemma manager_at_put s M : manager_at (put_manager m M s) = Some M.
Proof. apply lookup_insert_eq. Qed.

Lemma good_count_off w s l b M xs i x : inv s → owner s = Some w → manager_at s = Some M → holds_chunks s M xs →
  sub_at s l = Some b → (∀ k c, sub_at s k = Some c → lock c = Some w → k = l) →
  hand s !! w = Some (i, true) → target s i = Some l →
  chunk_loaded b = Z.of_nat (length xs) → log s (fd b) = sent b xs →
  good w s (set_tasks (uploads s) (<[w := (i, false)]> (hand s)) (put_manager m (set_flag x M) s)).
Proof.
  intros HI How HM Hx Hb Hlk Hh Ht Hld Hlog. set (s' := set_tasks _ _ _).
  assert (w ≠ 0%nat) as Hw0 by (destruct (v_hand _ HI w i true Hh); lia).
  assert (manager_at s' = Some (set_flag x M)) as HM' by apply lookup_insert_eq.
  assert (∀ v y, hand s !! v = Some (i, y) → v = w) as Hinj by (intros v y Hv; by eapply (v_hand_inj _ HI)).
  assert (i ∉ uploads s) as Hiu by apply (v_hand _ HI w i true Hh).
  assert (∀ y, owes s' y ↔ owes s y ∧ y ≠ i) as Ho.
  { intros y. unfold owes. cbn. setoid_rewrite lookup_insert. split.
    - intros [Hu|(v & Hv)]; [split; [by left|congruence]|]. case_decide; [by simplify_eq|].
      split; [right; by exists v|]. intros ->. by destruct (Hinj v true Hv).
    - intros [[Hu|(v & Hv)] Hne]; [by left|right]. exists v. rewrite decide_False; congruence. }
  assert (∀ y, tasked s' y ↔ tasked s y) as Htk.
  { intros y. unfold tasked. cbn. setoid_rewrite lookup_insert. split.
    - intros [Hu|(v & c & Hv)]; [by left|right]. case_decide; [|by exists v, c]. simplify_eq. by exists v, true.
    - intros [Hu|(v & c & Hv)]; [by left|right]. destruct (decide (w = v)) as [<-|Hne].
      + exists w, false. rewrite decide_True by done. congruence.
      + exists v, c. by rewrite decide_False. }
  assert (owes s i) as Hoi by (right; by exists w).
  assert (∀ k, busy s' k ↔ busy s k ∧ k ≠ l) as Hbs.
  { intros k. unfold busy. setoid_rewrite Ho. change (target s') with (target s). split.
    - intros (y & [Hy Hne] & Hk). split; [by exists y|]. intros ->. apply Hne. by eapply (v_targets _ HI).
    - intros [(y & Hy & Hk) Hne]. exists y. split; [|done]. split; [done|]. intros ->. congruence. }
  split.
  - destruct HI. split; try assumption.
    + rewrite HM'. change (mlocks s') with (mlocks s). by rewrite HM in v_manager0.
    + intros v y c. cbn. rewrite lookup_insert. case_decide; [intros [= <- <-]; subst; by eapply v_hand0|apply v_hand0].
    + intros v v' y c c' Hv Hv'. cbn in Hv, Hv'. rewrite lookup_insert in Hv, Hv'. repeat case_decide; simplify_eq;
        first [done|by eapply Hinj|symmetry; by eapply Hinj|by eapply v_hand_inj0].
    + intros y Hy%Htk. by apply v_task0.
    + intros y y' k [Hy _]%Ho [Hy' _]%Ho. by apply v_targets0.
    + intros k [Hk _]%Hbs. by apply v_busy0.
    + intros k c Hc. change (sub_at s k = Some c) in Hc. destruct (v_data0 k c Hc) as (M1 & xs1 & [HM1 Hx1 Hr Hs Hd]).
      assert (M1 = M) as -> by congruence. assert (xs1 = xs) as -> by (by eapply holds_chunks_det).
      exists (set_flag x M), xs. split; [done|exact Hx|exact Hr| |].
      * intros Hl. change (log s (fd c) = sent c xs). destruct (decide (k = l)) as [->|Hne]; [congruence|].
        apply Hs. intros v y Hv Hv2. destruct (decide (v = w)) as [->|Hvw]; [by apply Hne, (Hlk k c)|].
        apply (Hl v y Hv). cbn. by rewrite lookup_insert_ne by done.
      * intros _ Hnb. destruct (decide (k = l)) as [->|Hne]; [congruence|]. apply Hd; [congruence|].
        intros Hbk. apply Hnb, Hbs. done.
    + intros E. change (owner s = None) in E. congruence.
    + intros E y Hy. apply (v_infos0 E y). destruct Hy as [Hy1 Hy2]. split; [done|]. by rewrite <-Htk.
  - intros j Hj. split; try done.
    + intros E. congruence.
    + cbn. by rewrite lookup_insert_ne by done.
    + intros y _. split; [|done]. split; [|done]. by rewrite HM', HM.
    + intros k c Hc Hk'. by exists c.
    + intros k c Hc Hk'. by exists c.
    + intros ->. split; try done.
      * by rewrite HM', HM.
      * intros k c Hc _. by exists c.
      * intros y [Hy _]%Ho. done.
      * intros y. split; [|done]. unfold stray. by rewrite Htk.
Qed.

Lemma good_done w s i : inv s → hand s !! w = Some (i, false) →
  good w s (set_tasks (uploads s) (delete w (hand s)) (set_heap subscription_info_t (mem_del i (infos s)) s)).
Proof.
  intros HI Hh. set (s' := set_tasks _ _ _).
  assert (w ≠ 0%nat) as Hw0 by (destruct (v_hand _ HI w i false Hh); lia).
  assert (∀ v y, hand s !! v = Some (i, y) → v = w) as Hinj by (intros v y Hv; by eapply (v_hand_inj _ HI)).
  assert (i ∉ uploads s) as Hiu by apply (v_hand _ HI w i false Hh).
  assert (∀ v y c, hand s' !! v = Some (y, c) ↔ v ≠ w ∧ hand s !! v = Some (y, c)) as Hh'.
  { intros v y c. cbn. rewrite lookup_delete. case_decide; naive_solver. }
  assert (∀ y, y ≠ i → info_at s' y = info_at s y) as Hi'.
  { intros y Hy. unfold info_at. cbn. by rewrite lookup_delete_ne. }
  assert (∀ y, owes s' y ↔ owes s y) as Ho.
  { intros y. unfold owes. setoid_rewrite Hh'. split; [naive_solver|]. intros [?|[v Hv]]; [by left|right].
    exists v. split; [congruence|done]. }
  assert (∀ y, tasked s' y ↔ tasked s y ∧ y ≠ i) as Htk.
  { intros y. unfold tasked. setoid_rewrite Hh'. split.
    - intros [Hu|(v & c & Hv & Hv2)]; (split; [naive_solver|]); intros ->; [done|]. by destruct Hv, (Hinj v c).
    - intros [[Hu|(v & c & Hv)] Hne]; [by left|right]. exists v, c. split; [congruence|done]. }
  assert (∀ y, owes s y → y ≠ i) as Hoi.
  { intros y [Hu|[v Hv]] ->; [done|]. assert (v = w) as -> by by eapply Hinj. congruence. }
  assert (∀ y, stray s' y ↔ stray s y) as Hst.
  { intros y. unfold stray. rewrite Htk. destruct (decide (y = i)) as [->|Hne]; [|rewrite Hi' by done; tauto].
    split; [|].
    - intros [[x Hx] _]. unfold info_at in Hx. cbn in Hx. by rewrite lookup_delete_eq in Hx.
    - intros [_ Hn]. destruct Hn. right. by exists w, false. }
  assert (∀ y, owes s y → target s' y = target s y) as Htg.
  { intros y Hy. unfold target. by rewrite Hi' by auto. }
  assert (∀ k, busy s' k ↔ busy s k) as Hbs.
  { intros k. unfold busy. split; intros (y & Hy & Hk).
    - apply Ho in Hy as Hy2. exists y. by rewrite <-Htg.
    - exists y. rewrite Ho, Htg by done. done. }
  split.
  - destruct HI. split; try assumption.
    + change (manager_at s') with (manager_at s). destruct (manager_at s); [done|].
      destruct v_manager0 as (? & ? & Hno). split_and!; [done..|]. intros y. by rewrite Ho.
    + intros v y c [_ Hv]%Hh'. by eapply v_hand0.
    + intros v v' y c c' [_ Hv]%Hh' [_ Hv']%Hh'. by eapply v_hand_inj0.
    + intros y [Hy Hne]%Htk. rewrite Hi' by done. by apply v_task0.
    + intros y y' k Hy%Ho Hy'%Ho. rewrite !Htg by done. by apply v_targets0.
    + intros k Hk%Hbs. by apply v_busy0.
    + intros k c Hc. destruct (v_data0 k c Hc) as (M & xs & [HM Hx Hr Hs Hd]). exists M, xs. split; try assumption.
      * intros Hl. apply Hs. intros v y Hv Hv2. apply (Hl v y Hv), Hh'. split; [congruence|done].
      * rewrite Hbs. exact Hd.
    + intros E Hm. destruct (v_flag0 E Hm) as (os & (H1 & H2 & H3) & Hos). exists os. split; [|done]. split; [done|].
      split; [|done]. intros y. by rewrite H2, Ho.
    + intros E y. rewrite Hst. by apply v_infos0.
  - intros j Hj. split; try done.
    + cbn. by rewrite lookup_delete_ne by done.
    + intros y c Hy. apply Hi'. intros ->. by destruct Hj, (Hinj j c).
    + intros k c Hc Hk'. by exists c.
    + intros k c Hc Hk'. by exists c.
    + intros ->. split; try done.
      * intros k c Hc _. by exists c.
      * intros y Hy%Ho. split; [done|]. apply Hi'. by apply Hoi.
      * intros y. split; [apply Hst|]. intros [_ Hn]. apply Hi'. intros ->. apply Hn. right. by exists w, false.
Qed.

(** The session adds a chunk, or frees the container. *)
Lemma good_chunks s s' : inv s → owner s = Some 0%nat → (∀ i, ¬ owes s i) → only_chunks s s' →
  (∀ l b M xs, sub_at s l = Some b → manager_at s = Some M → holds_chunks s M xs →
     ∃ ys, holds_chunks s' M (xs ++ ys)) →
  good 0 s s'.
Proof.
  intros HI How Hno (Heq & Hoom & _) Hx. rewrite (Hoom (v_oom _ HI)) in Heq. revert Heq Hx. clear Hoom.
  generalize (chunks s') (containers s'). intros x y -> Hx. set (s' := with_chunks x y [] s) in *. split.
  - destruct HI. split; try assumption.
    + intros l b Hb. destruct (v_data0 l b Hb) as (M & xs & [HM Hx' Hr Hs Hd]).
      destruct (Hx l b M xs Hb HM Hx') as [ys Hys]. exists M, (xs ++ ys). split; try assumption.
      * rewrite length_app. lia.
      * intros Hl. change (log s (fd b) = sent b (xs ++ ys)). rewrite Hs by done. unfold sent.
        rewrite take_app_le; [done|lia].
      * by intros [].
    + done.
  - intros j Hj. split; try done.
    + intros i Hi. destruct (Hno i). right. by exists j.
    + intros k c Hc Hk'. by exists c.
    + intros k c Hc Hk'. by exists c.
Qed.

(** The session writes a field of the manager. *)
Lemma good_manager s M M' : inv s → owner s = Some 0%nat → manager_at s = Some M →
  (container M' = container M ∨ ((∀ i, ¬ owes s i) ∧ ∀ l, sub_at s l = None)) →
  good 0 s (put_manager m M' s).
Proof.
  intros HI How HM Hc. set (s' := put_manager m M' s). assert (manager_at s' = Some M') as HM' by apply manager_at_put. split.
  - destruct HI. split; try assumption.
    + rewrite HM'. by rewrite HM in v_manager0.
    + intros l b Hb. change (sub_at s l = Some b) in Hb. destruct (v_data0 l b Hb) as (M1 & xs & [HM1 Hx Hr Hs Hd]).
      assert (M1 = M) as -> by congruence. destruct Hc as [Hc|[_ Hn]]; [|congruence].
      exists M', xs. split; try assumption. destruct Hx as (c & ls & Hx1 & Hx2). exists c, ls. split; [congruence|exact Hx2].
    + intros E. change (owner s = None) in E. congruence.
  - intros j Hj. split; try done.
    + intros E. congruence.
    + intros i Hi. split; [|done]. split; [|done]. rewrite HM', HM. simpl.
      destruct Hc as [->|[Hn _]]; [done|]. destruct (Hn i). right. by exists j.
    + intros k c Hc' Hk'. by exists c.
    + intros k c Hc' Hk'. by exists c.
Qed.

Lemma good_closed s c : inv s → good 0 s (set_closed c s).
Proof.
  intros HI. split.
  - destruct HI. split; try assumption. intros l b Hb. destruct (v_data0 l b Hb) as (M & xs & [HM Hx Hr Hs Hd]).
    by exists M, xs.
  - intros j Hj. split; try done.
    + intros k b Hb Hk. by exists b.
    + intros k b Hb Hk. by exists b.
Qed.

Lemma good_disk s d : inv s → good 0 s (set_disk d s).
Proof.
  intros HI. split.
  - destruct HI. split; try assumption. intros l b Hb. destruct (v_data0 l b Hb) as (M & xs & [HM Hx Hr Hs Hd]).
    by exists M, xs.
  - intros j Hj. split; try done.
    + intros k b Hb Hk. by exists b.
    + intros k b Hb Hk. by exists b.
Qed.

Lemma good_free_sub s l b : inv s → sub_at s l = Some b → (lock b = None ∨ lock b = Some 0%nat) → ¬ busy s l →
  good 0 s (set_heap subscriber_t (mem_del l (subscribers s)) s).
Proof.
  intros HI Hb Hk Hq. set (s' := set_heap _ _ s).
  assert (∀ k, k ≠ l → sub_at s' k = sub_at s k) as Hs'.
  { intros k Hne. unfold sub_at. cbn. by rewrite lookup_delete_ne. }
  assert (∀ k c, sub_at s' k = Some c → sub_at s k = Some c ∧ k ≠ l) as Hs2.
  { intros k c. unfold sub_at. cbn. rewrite lookup_delete. by case_decide. }
  split.
  - destruct HI. split; try assumption.
    + change (manager_at s') with (manager_at s). destruct (manager_at s); [done|].
      destruct v_manager0 as (_ & Hn & _). by rewrite Hn in Hb.
    + intros k c j [Hc _]%Hs2. by apply v_lock0 with k.
    + intros k Hk'. rewrite Hs'; [by apply v_busy0|]. by intros ->.
    + intros k c [Hc _]%Hs2. destruct (v_data0 k c Hc) as (M & xs & [HM Hx Hr Hs Hd]). by exists M, xs.
    + intros k k' c c' [Hc _]%Hs2 [Hc' _]%Hs2. by apply v_fds0.
  - intros j Hj. split; try done.
    + intros i Hi. split; [done|]. intros k Hk'. rewrite Hs'; [done|]. intros ->. apply Hq. exists i. split; [right; by exists j|done].
    + intros k c Hc Hkj. exists c. rewrite Hs'; [done|]. intros ->. assert (c = b) as -> by congruence.
      destruct Hk; congruence.
    + intros k c [Hc _]%Hs2 Hkj. by exists c.
Qed.

Definition free_manager s : mstate :=
  set_mlocks (delete m (mlocks s)) (set_heap subscription_manager_t (mem_del m (managers s)) s).
Lemma good_free_manager s : inv s → owner s = None → (∀ l, sub_at s l = None) → (∀ i, ¬ owes s i) →
  good 0 s (free_manager s).
Proof.
  intros HI How Hn Hno. set (s' := free_manager s).
  assert (manager_at s' = None) as HM' by apply lookup_delete_eq.
  assert (mlocks s' !! m = None) as Hm' by apply lookup_delete_eq.
  assert (owner s' = None) as How' by (unfold owner; by rewrite Hm').
  assert (waiters s' = []) as Hw' by (unfold waiters; by rewrite Hm').
  split.
  - destruct HI. split; try assumption.
    + rewrite HM'. done.
    + intros j. by rewrite How'.
    + intros l b Hb. change (sub_at s l = Some b) in Hb. by rewrite Hn in Hb.
    + rewrite HM'. by intros _ [].
    + intros _. apply v_infos0. by rewrite How.
  - intros j Hj. split; rewrite ?How', ?Hw'; try done.
    + intros E. congruence.
    + intros _. apply not_elem_of_nil.
    + intros i Hi. destruct (Hno i). right. by exists j.
    + intros k c Hc Hk'. by exists c.
    + intros k c Hc Hk'. by exists c.
Qed.


(** Where a thread may wait, and how the session ends *)
Definition locked_elsewhere j s : Prop := ∃ l b k, sub_at s l = Some b ∧ lock b = Some k ∧ k ≠ j.
Definition session_waits s : Prop := locks_none 0 s ∧
  (owner s ≠ Some 0%nat ∧ ((∃ k, owner s = Some k) ∨ 0%nat ∈ waiters s) ∨
   owner s = Some 0%nat ∧ (∀ i, ¬ owes s i) ∧ locked_elsewhere 0 s).
Definition worker_waits w s : Prop := owner s ≠ Some w ∧
  (hand s !! w = None ∧ uploads s = [] ∧ locks_none w s ∨
   (∃ i, hand s !! w = Some (i, true)) ∧ ((∃ k, owner s = Some k) ∨ locks_none w s ∧ locked_elsewhere w s)).
Definition waits j s : Prop := if decide (j = 0%nat) then session_waits s else worker_waits j s.

Context (fds : list Z) (stream : list Z) (saved : disk_t).
(** The session has returned: all is freed but for tasks the workers still have
    to free, and every descriptor was sent the stream and closed. *)
Definition ended s : Prop := manager_at s = None ∧ (∀ l, sub_at s l = None) ∧
  base.size (cells (chunks s)) = 0%nat ∧ base.size (cells (containers s)) = 0%nat ∧
  closed s = fds ∧ (∀ f, f ∈ fds → log s f = stream) ∧ disk s = saved.

#[local] Program Instance upload_rg : RG mstate := {|
  I := inv; R := rely; okf _ := False; wt := waits;
  fin j s := j = 0%nat ∧ owner s ≠ Some 0%nat ∧ ended s;
|}.
Next Obligation.
  intros j s. split; try done; [intros l b Hb Hk; by exists b|intros l b Hb Hk; by exists b|].
  intros _. apply session_rely_refl.
Qed.
Next Obligation.
  intros j s1 s2 s3 [A1 A2 A3 A4 A5 A6 A7 A8 A9] [B1 B2 B3 B4 B5 B6 B7 B8 B9]. split.
  - auto.
  - intros Ho. destruct (A2 Ho) as (Ho2 & Hw2 & Hf2 & He2). destruct (B2 Ho2) as (Ho3 & Hw3 & Hf3 & He3).
    split_and!; [done|by etransitivity|congruence|]. intros i. by rewrite He3.
  - auto.
  - congruence.
  - intros i b Hh. rewrite (B5 i b) by congruence. by eapply A5.
  - intros i Hh. destruct (A6 i Hh) as [(S1 & S2 & S3) F]. destruct (B6 i) as [(T1 & T2 & T3) G]; [congruence|].
    split; [unfold store_kept; split_and!; congruence|]. intros l Ht. rewrite G; [by apply F|].
    unfold target in *. by rewrite (A5 i true).
  - by eapply lock_kept_trans.
  - intros l b3 Hb3 Hk3. destruct (B8 l b3 Hb3 Hk3) as (b2 & Hb2 & Hk2). by eapply A8.
  - intros Hj. eapply session_rely_trans; [by apply A9|by apply B9].
Qed.

(** * Proof rules *)

(** What a thread knows stays true under the steps of the others. *)
Definition stable (t : tid) (P : mstate → Prop) : Prop := ∀ s s', inv s' → rely t s s' → P s → P s'.

Lemma safe_do {B} n t (c : C mstate B) k s (P : mstate → Prop) : stable t P → P s →
  (∀ s1, inv s1 → P s1 → match c t s1 with
     | Ok b s2 => good t s1 s2 ∧ (∀ n', (n' < n)%nat → safe n' t (k b) s2)
     | Blocked => waits t s1
     | Fault _ => False
     end) →
  safe n t (Act c k) s.
Proof.
  intros HP Hs Hc. destruct n as [|n]; [done|]. apply safe_act. intros s1 HI HR.
  specialize (Hc s1 HI (HP s s1 HI HR Hs)). destruct (c t s1); try done.
  destruct Hc as [[HI' HG] Hk]. split; [done|]. split; [done|]. apply Hk. lia.
Qed.

Lemma good_refl t s : inv s → good t s s.
Proof. intros HI. split; [done|]. intros j _. apply (@R_refl mstate upload_rg j s). Qed.

(** An action that only reads *)
Lemma safe_read {B} n t (c : C mstate B) k s (P : mstate → Prop) (Q : B → Prop) : stable t P → P s →
  (∀ s1, inv s1 → P s1 → ∃ b, c t s1 = Ok b s1 ∧ Q b) →
  (∀ n' s1 b, (n' < n)%nat → P s1 → Q b → safe n' t (k b) s1) →
  safe n t (Act c k) s.
Proof.
  intros HP Hs Hc Hk. eapply safe_do; [exact HP|exact Hs|]. intros s1 HI HP1.
  destruct (Hc s1 HI HP1) as (b & -> & Hb). split; [by apply good_refl|]. intros n' Hn'. by apply Hk.
Qed.

(** ** What a worker knows *)

(** Whether worker [w] owns the manager's mutex, the task in its hands, and the
    subscriber it has locked, with its descriptor, its chunks loaded and what it
    was sent *)
Record know w (own : bool) (h : option (positive * bool)) (lk : option (positive * Z * nat * list Z)) s : Prop := {
  w_own : if own then owner s = Some w else owner s ≠ Some w;
  w_hand : hand s !! w = h;
  w_lock : match lk with
    | None => locks_none w s
    | Some (l, f, x, g) =>
        (∃ b, sub_at s l = Some b ∧ lock b = Some w ∧ fd b = f ∧ chunk_loaded b = Z.of_nat x ∧ log s f = g) ∧
        ∀ k c, sub_at s k = Some c → lock c = Some w → k = l
    end;
}.
(** The subscriber of its task, and the chunks there are *)
Definition know_task w i l s : Prop := info_at s i = Some (Info (Some l) (Some m)).
Definition know_store c cls xs s : Prop :=
  ∃ M, manager_at s = Some M ∧ container M = Some c ∧ container_repr s c cls xs ∧ Forall sane xs ∧
    Z.of_nat (length xs) < 2 ^ 31.

Lemma know_stable w own h lk : stable w (know w own h lk).
Proof.
  intros s s' HI HR [Ho Hh Hl]. split.
  - destruct own; [by apply HR|]. intros E. by apply Ho, (r_owner _ _ _ HR).
  - rewrite <-Hh. apply HR.
  - destruct lk as [[[[l f] x] g]|].
    + destruct Hl as [(b & Hb & Hk & <- & Hx0 & <-) Hone].
      destruct (r_lock _ _ _ HR l b Hb Hk) as (b' & Hb' & Hk' & Hf & Hx & Hg). split; [exists b'|].
      * rewrite Hf, Hx. done.
      * intros k c Hc Hk2. destruct (r_locked _ _ _ HR k c Hc Hk2) as (c0 & Hc0 & Hk0). by eapply Hone.
    + intros k c Hc Hk. destruct (r_locked _ _ _ HR k c Hc Hk) as (c0 & Hc0 & Hk0). by apply (Hl k c0).
Qed.

Lemma container_repr_ext s s' c cls xs : containers s' = containers s → chunks s' = chunks s →
  container_repr s c cls xs → container_repr s' c cls xs.
Proof. intros E1 E2 (cc & H1 & H2 & H3). exists cc. cbn in *. by rewrite E1, E2. Qed.

Lemma know_task_stable w own i b l lk : stable w (λ s, know w own (Some (i, b)) lk s ∧ know_task w i l s).
Proof.
  intros s s' HI HR [Hk Ht]. split; [by eapply know_stable|]. unfold know_task.
  rewrite (r_info _ _ _ HR i b); [done|apply Hk].
Qed.

Definition know_all w own i l lk c cls xs s : Prop :=
  know w own (Some (i, true)) lk s ∧ know_task w i l s ∧ know_store c cls xs s.
Lemma know_all_stable w own i l lk c cls xs : stable w (know_all w own i l lk c cls xs).
Proof.
  intros s s' HI HR (Hk & Ht & M & HM & HC & Hr & Hx).
  destruct (know_task_stable w own i true l lk s s' HI HR (conj Hk Ht)) as [Hk' Ht']. split; [done|]. split; [done|].
  destruct (r_store _ _ _ HR i (w_hand _ _ _ _ _ Hk)) as [(E1 & E2 & E3) _]. rewrite HM in E1.
  destruct (manager_at s') as [M'|] eqn:HM'; [|done]. injection E1 as E1. exists M'. split; [done|]. split; [congruence|].
  split; [by eapply container_repr_ext|done].
Qed.
(** ** A worker's task *)

Section worker.
Context (w : tid) (w_worker : (1 ≤ w < N)%nat) (i l : positive).

Lemma wait_worker s : worker_waits w s → waits w s.
Proof. unfold waits. by rewrite decide_False by lia. Qed.

Lemma know_busy own lk b s : inv s → know w own (Some (i, true)) lk s → know_task w i l s →
  busy s l ∧ is_Some (sub_at s l) ∧ (b = true → owes s i).
Proof.
  intros HI Hk Ht. assert (busy s l) as Hb.
  { exists i. split; [right; exists w; apply Hk|]. unfold target. by rewrite Ht. }
  split; [done|]. split; [by apply (v_busy _ HI)|]. intros _. right. exists w. apply Hk.
Qed.

Lemma safe_info_get {A} n own b lk (field : subscription_info_t → A) k s :
  know w own (Some (i, b)) lk s → know_task w i l s →
  (∀ n' s', (n' < n)%nat → know w own (Some (i, b)) lk s' → know_task w i l s' →
     safe n' w (k (field (Info (Some l) (Some m)))) s') →
  safe n w (info_get (Some i) field ≫= k) s.
Proof.
  intros Hk Ht Hn. eapply (safe_read _ _ _ _ _ _ (λ x, x = Info (Some l) (Some m)));
    [apply know_task_stable|by split|..].
  - intros s1 _ [Hk1 Ht1]. exists (Info (Some l) (Some m)). split; [|done]. by apply (@load_ok _ _ infos_heap).
  - intros n' s1 x Hn' [Hk1 Ht1] ->. by apply Hn.
Qed.

(** A field of the subscriber that is not locked yet *)
Lemma safe_sub_peek {A} n (field : subscriber_t → A) k s :
  know w false (Some (i, true)) None s → know_task w i l s →
  (∀ n' s' x, (n' < n)%nat → know w false (Some (i, true)) None s' → know_task w i l s' → safe n' w (k x) s') →
  safe n w (sub_get (Some l) field ≫= k) s.
Proof.
  intros Hk Ht Hn. eapply (safe_read _ _ _ _ _ _ (λ _, True));
    [apply (know_task_stable w false i true)|by split|..].
  - intros s1 HI [Hk1 Ht1]. destruct (know_busy false None true s1 HI Hk1 Ht1) as (_ & [b Hb] & _).
    exists b. split; [|done]. by apply (@load_ok _ _ subscribers_heap).
  - intros n' s1 x Hn' [Hk1 Ht1] _. by apply Hn.
Qed.

Lemma safe_sub_lock n k s : know w false (Some (i, true)) None s → know_task w i l s →
  (∀ n' s' f x c cls xs, (n' < n)%nat → (x ≤ length xs)%nat →
     know_all w false i l (Some (l, f, x, content (take x xs))) c cls xs s' → safe n' w (k tt) s') →
  safe n w (sub_lock (Some l) ≫= k) s.
Proof.
  intros Hk Ht Hn. eapply safe_do; [apply (know_task_stable w false i true)|by split|].
  intros s1 HI [Hk1 Ht1]. destruct (know_busy false None true s1 HI Hk1 Ht1) as (Hbusy & [b Hb] & _).
  pose proof Hb as Hb'. unfold sub_at in Hb'. rewrite Hb'. pose proof (w_lock _ _ _ _ _ Hk1) as Hnone. cbn in Hnone.
  destruct (lock b) as [j|] eqn:Hlk; cbn [mutex_lock].
  - apply wait_worker. split; [apply Hk1|]. right. split; [exists i; apply Hk1|]. right. split; [done|].
    exists l, b, j. split_and!; try done. intros ->. by apply (Hnone l b).
  - change (set_heap subscriber_t _ s1) with (put_sub l (set_sub_lock (Some w) b) s1).
    destruct (v_data _ HI l b Hb) as (M & xs & [HM Hx Hr Hs Hd]).
    split.
    + apply (good_sub w s1 l b); try done; [lia|by right; left|by left; split|by left|].
      intros M1 xs1 [HM1 Hx1 Hr1 Hs1 Hd1]. split; try assumption. intros Hlk1. destruct (Hlk1 w i eq_refl). apply Hk1.
    + intros n' Hn'. destruct Hx as (c & cls & Hc & Hrepr & Hsane & Hlen).
      assert (∀ q, sub_at (put_sub l (set_sub_lock (Some w) b) s1) q = if decide (l = q) then Some (set_sub_lock (Some w) b) else sub_at s1 q)
        as Hput by apply sub_at_put.
      apply (Hn n' _ (fd b) (Z.to_nat (chunk_loaded b)) c cls xs); [done|lia|]. split; [|split; [done|]].
      * destruct Hk1 as [Hk11 Hk12 Hk13]. split; [done|done|]. split.
        -- exists (set_sub_lock (Some w) b). rewrite Hput, decide_True by done. split_and!; try done; [cbn; lia|].
           change (log s1 (fd b) = content (take (Z.to_nat (chunk_loaded b)) xs)). apply Hs. congruence.
        -- intros q c0. rewrite Hput. case_decide; [done|]. intros Hc0 Hc1. by destruct (Hnone q c0).
      * exists M. done.
Qed.
(** *** With the subscriber locked *)

Lemma safe_store {B} n own f x g c cls xs s (a : C mstate B) (r : B) k :
  know_all w own i l (Some (l, f, x, g)) c cls xs s →
  (∀ s1, know_all w own i l (Some (l, f, x, g)) c cls xs s1 → a w s1 = Ok r s1) →
  (∀ n' s', (n' < n)%nat → know_all w own i l (Some (l, f, x, g)) c cls xs s' → safe n' w (k r) s') →
  safe n w (Act a k) s.
Proof.
  intros HK Ha Hn. eapply (safe_read _ _ _ _ _ _ (λ y, y = r)); [apply know_all_stable|exact HK|..].
  - intros s1 _ HK1. exists r. split; [by apply Ha|done].
  - intros n' s1 y Hn' HK1 ->. by apply Hn.
Qed.

Lemma safe_loaded n own f x g c cls xs s k : know_all w own i l (Some (l, f, x, g)) c cls xs s →
  (∀ n' s', (n' < n)%nat → know_all w own i l (Some (l, f, x, g)) c cls xs s' → safe n' w (k (Z.of_nat x)) s') →
  safe n w (sub_get (Some l) chunk_loaded ≫= k) s.
Proof.
  intros HK Hn. eapply (safe_read _ _ _ _ _ _ (λ b, chunk_loaded b = Z.of_nat x)); [apply know_all_stable|exact HK|..].
  - intros s1 _ ([_ _ [(b & Hb & _ & _ & Hx & _) _]] & _). exists b. split; [|done]. by apply (@load_ok _ _ subscribers_heap).
  - intros n' s1 b Hn' HK1 Hx. cbn. rewrite Hx. by apply Hn.
Qed.

Lemma safe_fd n own f x g c cls xs s k : know_all w own i l (Some (l, f, x, g)) c cls xs s →
  (∀ n' s', (n' < n)%nat → know_all w own i l (Some (l, f, x, g)) c cls xs s' → safe n' w (k f) s') →
  safe n w (sub_get (Some l) fd ≫= k) s.
Proof.
  intros HK Hn. eapply (safe_read _ _ _ _ _ _ (λ b, fd b = f)); [apply know_all_stable|exact HK|..].
  - intros s1 _ ([_ _ [(b & Hb & _ & Hf & _) _]] & _). exists b. split; [|done]. by apply (@load_ok _ _ subscribers_heap).
  - intros n' s1 b Hn' HK1 Hf. cbn. rewrite Hf. by apply Hn.
Qed.

Lemma safe_container n own f x g c cls xs s k : know_all w own i l (Some (l, f, x, g)) c cls xs s →
  (∀ n' s', (n' < n)%nat → know_all w own i l (Some (l, f, x, g)) c cls xs s' → safe n' w (k (Some c)) s') →
  safe n w (manager_get (Some m) container ≫= k) s.
Proof.
  intros HK Hn. eapply (safe_read _ _ _ _ _ _ (λ M, container M = Some c)); [apply know_all_stable|exact HK|..].
  - intros s1 _ (_ & _ & M & HM & Hc & _). exists M. split; [|done]. by apply (@load_ok _ _ managers_heap).
  - intros n' s1 M Hn' HK1 Hc. cbn. rewrite Hc. by apply Hn.
Qed.

Lemma safe_count_of n own f x g c cls xs s k : know_all w own i l (Some (l, f, x, g)) c cls xs s →
  (∀ n' s', (n' < n)%nat → know_all w own i l (Some (l, f, x, g)) c cls xs s' → safe n' w (k (Z.of_nat (length xs))) s') →
  safe n w (count_of (Some m) ≫= k) s.
Proof.
  intros HK Hn. unfold count_of. assoc. eapply safe_container; [exact HK|]. intros n1 s1 Hn1 HK1.
  eapply (safe_read _ _ _ _ _ _ (λ cc, count cc = Z.of_nat (length xs))); [apply know_all_stable|exact HK1|..].
  - intros s2 _ (_ & _ & M & _ & _ & (cc & Hcc & Hat & Hcount & _) & _). exists cc.
    split; [by apply (@load_ok _ _ containers_heap)|]. by rewrite Hcount, (chunks_length _ _ _ _ _ Hat).
  - intros n2 s2 cc Hn2 HK2 Hc. cbn. rewrite Hc. apply Hn; [lia|done].
Qed.

(** The chunk at the index [x], and what it leads to *)
Lemma safe_chunk {A} n own f y g c cls xs s (field : chunk_t → A) x q k :
  know_all w own i l (Some (l, f, y, g)) c cls xs s → cls !! x = Some q →
  (∀ n' s' ck, (n' < n)%nat → know_all w own i l (Some (l, f, y, g)) c cls xs s' →
     xs !! x = Some (payload_of ck) → chunk_next ck = cls !! Datatypes.S x → safe n' w (k (field ck)) s') →
  safe n w (Act (load chunk_t (Some q)) (λ ck, Ret (field ck)) ≫= k) s.
Proof.
  intros HK Hq Hn. eapply (safe_read _ _ _ _ _ _ (λ ck, xs !! x = Some (payload_of ck) ∧ chunk_next ck = cls !! Datatypes.S x));
    [apply know_all_stable|exact HK|..].
  - intros s1 _ (_ & _ & M & _ & _ & (cc & Hcc & Hat & _) & _).
    destruct (chunks_lookup _ _ _ _ _ _ _ Hat Hq) as (ck & Hck & _ & Hx & Hnx & _). exists ck.
    split; [by apply (@load_ok _ _ chunks_heap)|]. split; [done|]. rewrite Hnx. f_equal. lia.
  - intros n' s1 ck Hn' HK1 [Hx Hnx]. by apply Hn.
Qed.

Lemma safe_send n f x g c cls xs s d k :
  know_all w false i l (Some (l, f, x, g)) c cls xs s →
  (∀ n' s', (n' < n)%nat → know_all w false i l (Some (l, f, x, g ++ d)) c cls xs s' → safe n' w (k 0) s') →
  safe n w (Act (send_data_to_fd f d) k) s.
Proof.
  intros HK Hn. eapply safe_do; [apply know_all_stable|exact HK|].
  intros s1 HI ([Ho Hh [(b & Hb & Hk & Hf & Hx & Hg) Hone]] & Ht & Hs).
  destruct (send_all f d w s1 (v_net _ HI)) as (nt & -> & Ha & Hl & Hoth). split.
  - apply (good_send w s1 l b i); [done|lia|done..| |done|by rewrite Hf]. unfold target. by rewrite Ht.
  - intros n' Hn'. apply Hn; [done|]. split; [|split; [done|exact Hs]].
    split; [done|done|]. split; [|exact Hone]. exists b. split_and!; try done.
    change (log_of nt f = g ++ d). rewrite Hl. by rewrite <-Hg.
Qed.

Lemma safe_set_loaded n f x c cls xs s k :
  know_all w false i l (Some (l, f, x, content (take (Datatypes.S x) xs))) c cls xs s → (x < length xs)%nat →
  (∀ n' s', (n' < n)%nat → know_all w false i l (Some (l, f, Datatypes.S x, content (take (Datatypes.S x) xs))) c cls xs s' →
     safe n' w (k tt) s') →
  safe n w (sub_set (Some l) (set_chunk_loaded (u64 (Z.of_nat x + 1))) ≫= k) s.
Proof.
  intros HK Hlt Hn. eapply safe_do; [apply know_all_stable|exact HK|].
  intros s1 HI ([Ho Hh [(b & Hb & Hk & Hf & Hx & Hg) Hone]] & Ht & M & HM & HC & Hr & Hs & Hlen).
  rewrite (@update_ok _ _ subscribers_heap l b _ w s1 Hb). change (set_heap subscriber_t _ s1) with
    (put_sub l (set_chunk_loaded (u64 (Z.of_nat x + 1)) b) s1).
  set (b' := set_chunk_loaded _ b).
  assert (∀ q, sub_at (put_sub l b' s1) q = if decide (l = q) then Some b' else sub_at s1 q) as Hput by apply sub_at_put.
  assert (chunk_loaded b' = Z.of_nat (Datatypes.S x)) as Hx' by (cbn; rewrite u64_small; lia).
  assert (holds_chunks s1 M xs) as Hxs by (by exists c, cls).
  assert (busy s1 l) as Hbusy.
  { exists i. split; [right; by exists w|]. unfold target. by rewrite Ht. }
  split.
  - apply (good_sub w s1 l b b'); try done; [lia|by left|by left; split|right; split_and!; [done|lia|done]|].
    intros M1 xs1 [HM1 Hx1 Hr1 Hs1 Hd1]. assert (M1 = M) as -> by congruence.
    assert (xs1 = xs) as -> by (by eapply holds_chunks_det). split; try assumption.
    + rewrite Hx'. lia.
    + intros Hno. by destruct (Hno w i).
    + intros _ Hq. by destruct Hq.
  - intros n' Hn'. apply Hn; [done|]. split; [|split; [done|by exists M]]. split; [done|done|]. split.
    + exists b'. by rewrite Hput, decide_True.
    + intros q c0. rewrite Hput. case_decide; [done|]. apply Hone.
Qed.

Definition sending f c cls xs (r : ptr * Z) s : Prop := ∃ x, (x ≤ length xs)%nat ∧ r = (cls !! x, Z.of_nat x) ∧
  know_all w false i l (Some (l, f, x, content (take x xs))) c cls xs s.

Lemma content_snoc x xs p : xs !! x = Some p → content (take (Datatypes.S x) xs) = content (take x xs) ++ p_data p.
Proof.
  intros Hx. rewrite (take_S_r _ _ _ Hx). unfold content. rewrite fmap_app, concat_app. cbn. by rewrite app_nil_r.
Qed.

Lemma know_all_length own lk c cls xs s : know_all w own i l lk c cls xs s → length cls = length xs ∧ Forall sane xs ∧ Z.of_nat (length xs) < 2 ^ 31.
Proof.
  intros (_ & _ & M & _ & _ & (cc & _ & Hat & _) & Hs & Hl). split; [|done]. symmetry. by apply (chunks_length _ _ _ _ _ Hat).
Qed.

Lemma safe_send_from n f x c cls xs s k : (x ≤ length xs)%nat →
  know_all w false i l (Some (l, f, x, content (take x xs))) c cls xs s →
  (∀ n' s', (n' < n)%nat → know_all w false i l (Some (l, f, length xs, content xs)) c cls xs s' → safe n' w (k tt) s') →
  safe n w (send_from (Some l) (cls !! x) (Z.of_nat x) (Z.of_nat (length xs)) ≫= k) s.
Proof.
  intros Hx HK Hn. unfold send_from.
  apply (safe_loop (sending f c cls xs)); [| |by exists x].
  { intros r s1 s2 (y & Hy & -> & HK1) HR HI. exists y. split; [done|]. split; [done|]. by eapply know_all_stable. }
  clear x Hx s HK. intros n1 r s Hn1 (x & Hx & -> & HK) IH. change (pbind ?p ?f) with (p ≫= f).
  destruct (know_all_length _ _ _ _ _ _ HK) as (Hlen & Hsane & Hmax).
  case_decide as Hlt.
  - destruct (lookup_lt_is_Some_2 cls x) as [q Hq]; [lia|]. rewrite Hq. assoc.
    eapply safe_fd; [exact HK|]. intros n2 s2 Hn2 HK2. assoc.
    eapply (safe_chunk _ _ _ _ _ _ _ _ _ (λ ck, ck)); [exact HK2|exact Hq|]. intros n3 s3 ck Hn3 HK3 Hxk Hnx.
    pose proof (proj1 (Forall_lookup _ _) Hsane _ _ Hxk) as [Hsz Hb]. cbn in Hsz, Hb.
    unfold send_bytes. rewrite (Z.mul_comm (size ck)), u64_small by lia. rewrite Hsz, decide_True by lia.
    rewrite Nat2Z.id, firstn_all. assoc.
    eapply safe_send; [exact HK3|]. intros n4 s4 Hn4 HK4. cbn [pbind]. rewrite decide_False by (intros E; by destruct E).
    change (content (take x xs) ++ data ck) with (content (take x xs) ++ p_data (payload_of ck)) in HK4.
    rewrite <-(content_snoc _ _ _ Hxk) in HK4. assoc.
    eapply (safe_chunk _ _ _ _ _ _ _ _ _ chunk_next); [exact HK4|exact Hq|].
    intros n5 s5 ck' Hn5 HK5 Hxk' Hnx'. assoc. eapply safe_loaded; [exact HK5|]. intros n6 s6 Hn6 HK6. assoc.
    eapply safe_set_loaded; [exact HK6|lia|]. intros n7 s7 Hn7 HK7. cbn. apply IH; [lia|].
    exists (Datatypes.S x). split; [lia|]. split; [|done]. f_equal; [done|lia].
  - assert (x = length xs) as -> by lia. cbn. eapply safe_mono; [apply (Hn n1 s)|]; [lia| |done].
    by rewrite firstn_all in HK.
Qed.

(** *** Counting the task off *)

Lemma on_lock (op : C monitor unit) j y s : mlocks s !! m = Some y →
  lift_act mlocks set_mlocks (at_ptr (Some m) op) j s =
    match op j y with Ok _ y' => Ok tt (put_lock m y' s) | Blocked => Blocked | Fault e => Fault e end.
Proof. intros Hm. unfold lift_act, at_ptr. rewrite Hm. by destruct (op j y) as [[]| |]. Qed.

Lemma manager_monitor s M : inv s → manager_at s = Some M →
  ∃ H W, mlocks s !! m = Some (Monitor H [W]) ∧ (W = [] ∨ W = [0%nat]) ∧ owner s = H ∧ waiters s = W.
Proof.
  intros HI HM. pose proof (v_manager _ HI) as Hv. rewrite HM in Hv. destruct Hv as (H & W & Hm & HW). exists H, W.
  split; [done|]. split; [done|]. split; [by eapply owner_lock|by eapply waiters_lock].
Qed.

Lemma know_put_lock (own own' : bool) lk c cls xs s (H : mutex) (W : list (list tid)) : know_all w own i l lk c cls xs s →
  (if own' then H = Some w else H ≠ Some w) →
  know_all w own' i l lk c cls xs (put_lock m (Monitor H W) s).
Proof.
  intros ([Ho Hh Hl] & Ht & Hs) HH. split; [|by split]. split; [|done|done].
  rewrite owner_put_lock. done.
Qed.

Definition counting lk c cls xs os s : Prop := know_all w true i l lk c cls xs s ∧ flagged s os.
Lemma flagged_rely j s s' os : rely j s s' → owner s = Some j → flagged s os → flagged s' os.
Proof.
  intros HR Ho (H1 & H2 & H3 & H4). destruct (r_hold _ _ _ HR Ho) as (_ & _ & E & He).
  split; [done|]. split; [intros x; by rewrite H2, He|]. by rewrite E.
Qed.
Lemma counting_stable lk c cls xs os : stable w (counting lk c cls xs os).
Proof.
  intros s s' HI HR [HK Hf]. split; [by eapply know_all_stable|]. eapply flagged_rely; [done| |done].
  apply (w_own _ _ _ _ _ (proj1 HK)).
Qed.

Lemma safe_worker_lock n lk c cls xs s k : know_all w false i l lk c cls xs s →
  (∀ n' s' os, (n' < n)%nat → counting lk c cls xs os s' → safe n' w (k tt) s') →
  safe n w (manager_lock (Some m) ≫= k) s.
Proof.
  intros HK Hn. eapply safe_do; [apply know_all_stable|exact HK|]. intros s1 HI HK1.
  pose proof HK1 as (Hk & Ht & M & HM & _). destruct (manager_monitor s1 M HI HM) as (H & W & Hm & HW & Ho & HWs).
  rewrite (on_lock _ _ _ _ Hm). unfold monitor_lock, mutex_lock. cbn [held waiting]. destruct H as [j|].
  - apply wait_worker. split; [apply Hk|]. right. split; [exists i; apply Hk|]. left. by exists j.
  - destruct (v_flag _ HI Ho) as (os & Hos & _); [by rewrite HM|].
    split.
    + apply (good_lock w s1 None W (Some w) W); try done.
      * right. left. split_and!; [done..|lia].
      * intros j [= <-]. destruct HW as [->| ->]; [apply not_elem_of_nil|]. rewrite list_elem_of_singleton. lia.
      * intros _ _ _. exists i. right. exists w. apply Hk.
    + intros n' Hn'. apply (Hn n' _ os); [done|]. split; [by apply (know_put_lock false true)|]. exact Hos.
Qed.

(** The task is counted off, and the mutex still held. *)
Definition counted lk os W s : Prop := know w true (Some (i, false)) lk s ∧ flagged s os ∧ waiters s ⊆ W.
Lemma counted_stable lk os W : stable w (counted lk os W).
Proof.
  intros s s' HI HR (HK & Hf & HW). pose proof (w_own _ _ _ _ _ HK) as Ho. cbn in Ho. split; [by eapply know_stable|].
  split; [by eapply flagged_rely|]. etransitivity; [|exact HW]. apply (r_hold _ _ _ HR Ho).
Qed.

Lemma safe_count_off n f c cls xs os s k :
  counting (Some (l, f, length xs, content xs)) c cls xs os s →
  (∀ n' s' os', (n' < n)%nat → counted (Some (l, f, length xs, content xs)) os' [0%nat] s' → safe n' w (k tt) s') →
  safe n w (count_off (Some m) ≫= k) s.
Proof.
  intros HK Hn. unfold count_off. assoc.
  eapply (safe_read _ _ _ _ _ _ (λ M, flag M = Z.of_nat (length os))); [apply counting_stable|exact HK|..].
  { intros s1 _ [(_ & _ & M & HM & _) (_ & _ & Hf & _)]. rewrite HM in Hf. injection Hf as Hf. exists M. split; [|done].
    by apply (@load_ok _ _ managers_heap). }
  intros n1 s1 M0 Hn1 HK1 Hx. cbn [pbind]. rewrite Hx. clear M0 Hx.
  eapply safe_do; [apply counting_stable|exact HK1|].
  intros s2 HI [([Ho Hh [(b & Hb & Hk & Hf & Hxl & Hg) Hone]] & Ht & M & HM & HC & Hr & Hs & Hlen) (F1 & F2 & F3 & F4)].
  assert (i ∈ os) as Hi by (apply F2; right; by exists w). destruct (proj1 (elem_of_Permutation _ _) Hi) as [os' Hos].
  assert (length os = Datatypes.S (length os')) as Hlo by (by rewrite Hos).
  unfold mbind at 1, C_bind. rewrite (@update_ok _ _ managers_heap m M _ w s2 HM). unfold mark_counted.
  rewrite s8_small by lia. set (x := Z.of_nat (length os) - 1).
  change (set_heap subscription_manager_t _ s2) with (put_manager m (set_flag x M) s2).
  change (hand (put_manager m (set_flag x M) s2)) with (hand s2).
  rewrite (alter_insert_some _ _ _ _ Hh). cbn [fst].
  assert (holds_chunks s2 M xs) as Hxs by (by exists c, cls).
  set (s3 := set_tasks _ _ _).
  assert (good w s2 s3) as Hgood.
  { apply (good_count_off w s2 l b M xs i x); try done; [by unfold target; rewrite Ht|].
    unfold sent. rewrite Hf, Hg, Hxl, Nat2Z.id, firstn_all. done. }
  split; [done|]. intros n' Hn'. apply (Hn n' _ os'); [lia|]. split; [|split].
  - split; [done|cbn; by rewrite lookup_insert_eq|]. split; [|done]. by exists b.
  - rewrite Hos in F1. apply NoDup_cons in F1 as [Hni Hnd]. split; [done|]. split; [|split; [|lia]].
    + intros y. assert (y ∈ os ↔ y = i ∨ y ∈ os') as Hy by (rewrite Hos; set_solver).
      unfold owes. cbn. split.
      * intros Hy'. destruct (proj1 (F2 y)) as [Hu|[v Hv]]; [set_solver|by left|right]. exists v.
        rewrite lookup_insert_ne; [done|]. intros <-. congruence.
      * intros Hy'. assert (y ≠ i) as Hne.
        { intros ->. destruct Hy' as [Hu|[v Hv]]; [by destruct (v_hand _ HI w i true Hh)|].
          rewrite lookup_insert in Hv. case_decide; [done|]. by pose proof (v_hand_inj _ HI _ _ _ _ _ Hh Hv). }
        assert (owes s2 y) as Hy2; [|apply F2 in Hy2; tauto].
        destruct Hy' as [Hu|[v Hv]]; [by left|right]. exists v. rewrite lookup_insert in Hv. by case_decide; [simplify_eq|].
    + unfold s3. change (manager_at (set_tasks _ _ ?q)) with (manager_at q). rewrite manager_at_put. cbn. f_equal. lia.
  - destruct (manager_monitor s2 M HI HM) as (H & W & _ & HW & _ & HWs). change (waiters s3) with (waiters s2).
    rewrite HWs. destruct HW as [->| ->]; [set_solver|done].
Qed.

Lemma safe_signal n lk os s k : counted lk os [0%nat] s →
  (∀ n' s', (n' < n)%nat → counted lk os [] s' → safe n' w (k tt) s') →
  safe n w (manager_signal (Some m) ≫= k) s.
Proof.
  intros HK Hn. eapply safe_do; [apply counted_stable|exact HK|]. intros s1 HI ([Ho Hh Hl] & Hf & HW). cbn in Ho.
  destruct (manager_at s1) as [M|] eqn:HM; [|by destruct Hf as (_ & _ & Hf & _); rewrite HM in Hf].
  destruct (manager_monitor s1 M HI HM) as (H & W & Hm & HW2 & Ho2 & HWs). assert (H = Some w) as -> by congruence.
  rewrite (on_lock _ _ _ _ Hm). unfold cond_signal. cbn [held waiting alter list_alter].
  assert (tail W = []) as -> by (by destruct HW2 as [->| ->]). split.
  - apply (good_lock w s1 (Some w) W (Some w) []); try done; [by left|by left|set_solver|set_solver].
  - intros n' Hn'. apply Hn; [done|]. split; [|split].
    + split; [apply owner_put_lock|done|done].
    + exact Hf.
    + by rewrite waiters_put_lock.
Qed.

Lemma safe_worker_unlock n lk os s k : counted lk os [] s →
  (∀ n' s', (n' < n)%nat → know w false (Some (i, false)) lk s' → safe n' w (k tt) s') →
  safe n w (manager_unlock (Some m) ≫= k) s.
Proof.
  intros HK Hn. eapply safe_do; [apply counted_stable|exact HK|]. intros s1 HI ([Ho Hh Hl] & Hf & HW). cbn in Ho.
  destruct (manager_at s1) as [M|] eqn:HM; [|by destruct Hf as (_ & _ & Hf & _); rewrite HM in Hf].
  destruct (manager_monitor s1 M HI HM) as (H & W & Hm & HW2 & Ho2 & HWs). assert (H = Some w) as -> by congruence.
  assert (W = []) as -> by (rewrite HWs in HW; destruct W; [done|set_solver]).
  rewrite (on_lock _ _ _ _ Hm). unfold monitor_unlock, mutex_unlock. cbn [held waiting]. rewrite decide_True by done.
  split.
  - apply (good_lock w s1 (Some w) [] None []); try done; [by right; right|intros _ _; exists os; split; [done|by intros ?%not_elem_of_nil]|].
    intros [= ->]. lia.
  - intros n' Hn'. apply Hn; [done|]. split; [by rewrite owner_put_lock|done|done].
Qed.

Lemma safe_sub_unlock n f x g s k : know w false (Some (i, false)) (Some (l, f, x, g)) s →
  (∀ n' s', (n' < n)%nat → know w false (Some (i, false)) None s' → safe n' w (k tt) s') →
  safe n w (sub_unlock (Some l) ≫= k) s.
Proof.
  intros HK Hn. eapply safe_do; [apply know_stable|exact HK|].
  intros s1 HI [Ho Hh [(b & Hb & Hk & _) Hone]]. pose proof Hb as Hb'. unfold sub_at in Hb'. rewrite Hb'.
  unfold mutex_unlock. rewrite decide_True by done.
  change (set_heap subscriber_t _ s1) with (put_sub l (set_sub_lock None b) s1). split.
  - apply (good_sub w s1 l b); try done; [lia|by right; right|by left; split|by left|].
    intros M xs [HM Hx Hr Hs Hd]. split; try assumption. intros _. apply Hs. intros v y Hv. congruence.
  - intros n' Hn'. apply Hn; [done|]. split; [done|done|]. intros q c0. rewrite sub_at_put.
    case_decide as Hq; [by intros [= <-]|]. intros Hc Hc2. by destruct Hq, (Hone q c0).
Qed.

Lemma safe_finish n s k : know w false (Some (i, false)) None s →
  (∀ n' s', (n' < n)%nat → know w false None None s' → safe n' w (k tt) s') →
  safe n w (atomic (free subscription_info_t (Some i);; mark_done) ≫= k) s.
Proof.
  intros HK Hn. eapply safe_do; [apply know_stable|exact HK|]. intros s1 HI [Ho Hh Hl].
  destruct (v_task _ HI i) as [l' Hi]; [by right; exists w, false|].
  unfold mbind, C_bind. rewrite (@free_ok _ _ infos_heap i _ w s1 Hi). unfold mark_done. split.
  - by apply (good_done w s1 i).
  - intros n' Hn'. apply Hn; [done|]. split; [done|cbn; by rewrite lookup_delete_eq|done].
Qed.

End worker.
Lemma safe_task n w i l s k : (1 ≤ w < N)%nat → know w false (Some (i, true)) None s → know_task w i l s →
  (∀ n' s', (n' < n)%nat → know w false None None s' → safe n' w (k tt) s') →
  safe n w (__send_chunks_to_subscriber (Some i) ≫= k) s.
Proof.
  intros Hw HK Ht Hn. unfold __send_chunks_to_subscriber. assoc.
  eapply safe_info_get; [exact HK|exact Ht|]. intros n1 s1 Hn1 HK1 Ht1. cbn [manager]. assoc.
  eapply safe_info_get; [exact HK1|exact Ht1|]. intros n2 s2 Hn2 HK2 Ht2. cbn [subscriber]. assoc.
  eapply safe_info_get; [exact HK2|exact Ht2|]. intros n3 s3 Hn3 HK3 Ht3. cbn [subscriber]. assoc.
  eapply safe_sub_peek; [exact HK3|exact Ht3|]. intros n4 s4 _ Hn4 HK4 Ht4. assoc.
  eapply (safe_sub_lock w Hw); [exact HK4|exact Ht4|]. intros n5 s5 f x c cls xs Hn5 Hx HK5. assoc.
  eapply safe_loaded; [exact HK5|]. intros n6 s6 Hn6 HK6. assoc.
  eapply (safe_count_of w Hw); [exact HK6|]. intros n7 s7 Hn7 HK7. assoc.
  eapply safe_container; [exact HK7|]. intros n8 s8 Hn8 HK8. assoc.
  destruct (know_all_length _ _ _ _ _ _ _ _ _ HK8) as (Hlen & Hsane & Hmax).
  rewrite !s32_small, u64_small by lia.
  eapply (safe_store w i l _ _ _ _ _ _ _ _ _ _ (cls !! x)); [exact HK8| |].
  { intros s9 (_ & _ & M & _ & _ & Hr & _). by apply get_chunk_run with xs. }
  intros n9 s9 Hn9 HK9.
  assert (∀ n0 s0, (n0 ≤ n9)%nat → know_all w false i l (Some (l, f, length xs, content xs)) c cls xs s0 →
    safe n0 w (manager_lock (Some m) ≫= (λ _, count_off (Some m) ≫= (λ _, manager_signal (Some m) ≫= (λ _,
      manager_unlock (Some m) ≫= (λ _, sub_unlock (Some l) ≫= (λ _,
      atomic (free subscription_info_t (Some i);; mark_done) ≫= k)))))) s0) as Hend.
  { clear s9 HK9. intros n0 s0 Hn0 HK0. eapply (safe_worker_lock w Hw); [exact HK0|]. intros n10 s10 os Hn10 HK10.
    eapply (safe_count_off w Hw); [exact HK10|]. intros n11 s11 os' Hn11 HK11.
    eapply (safe_signal w Hw); [exact HK11|]. intros n12 s12 Hn12 HK12.
    eapply (safe_worker_unlock w Hw); [exact HK12|]. intros n13 s13 Hn13 HK13.
    eapply (safe_sub_unlock w Hw); [exact HK13|]. intros n14 s14 Hn14 HK14.
    eapply (safe_finish w); [exact HK14|]. intros n15 s15 Hn15 HK15. apply Hn; [lia|done]. }
  cbn [pbind]. destruct (cls !! x) as [q|] eqn:Hq.
  - rewrite <-Hq. assoc. eapply (safe_send_from w Hw); [exact Hx|exact HK9|]. intros n10 s10 Hn10 HK10. apply Hend; [lia|done].
  - apply lookup_ge_None in Hq. assert (x = length xs) as -> by lia. rewrite firstn_all in HK9.
    apply Hend; [lia|done].
Qed.

Lemma safe_pop n w s k : (1 ≤ w < N)%nat → know w false None None s →
  (∀ n' s' i l, (n' < n)%nat → know w false (Some (i, true)) None s' → know_task w i l s' → safe n' w (k (Some i)) s') →
  safe n w (pop_upload ≫= k) s.
Proof.
  intros Hw HK Hn. eapply safe_do; [apply know_stable|exact HK|]. intros s1 HI [Ho Hh Hl].
  destruct (uploads s1) as [|i r] eqn:Hu.
  - apply wait_worker; [done|]. split; [done|]. by left.
  - destruct (v_task _ HI i) as [l Hi]; [left; rewrite Hu; set_solver|]. split.
    + by apply good_pop.
    + intros n' Hn'. apply (Hn n' _ i l); [done| |exact Hi]. split; [done|cbn; by rewrite lookup_insert_eq|done].
Qed.

Lemma upload_worker_safe n w s : (1 ≤ w < N)%nat → know w false None None s → safe n w upload_worker s.
Proof.
  intros Hw HK. apply (safe_loop (λ _, know w false None None)); [|clear s HK|done].
  { intros _ s1 s2 HK1 HR HI. by eapply know_stable. }
  intros n1 [] s Hn1 HK IH. repeat change (pbind ?p ?f) with (p ≫= f). assoc.
  eapply safe_pop; [done|exact HK|]. intros n2 s2 i l Hn2 HK2 Ht2. assoc.
  eapply safe_task; [done|exact HK2|exact Ht2|]. intros n3 s3 Hn3 HK3. cbn. apply IH; [lia|done].
Qed.

(** ** What the session knows *)

Section session.
Context (c : positive) (dk : disk_t).

Definition link_of (b : subscriber_t) : ptr * ptr := (sub_next b, sub_prev b).

(** The subscriber it has locked, the manager [M] but for [flag], the links [h],
    the subscribers [ls] with their descriptors [fs], and the chunks *)
Record base (lk : option positive) (M : subscription_manager_t) (h : gmap positive subscriber_t) (fs : list Z)
    (ls cls : list positive) (xs : list payload) s : Prop := {
  b_lock : match lk with
    | None => locks_none 0 s
    | Some l => lock <$> sub_at s l = Some (Some 0%nat) ∧
        ∀ k b, sub_at s k = Some b → lock b = Some 0%nat → k = l
    end;
  b_mgr : set_flag 0 <$> manager_at s = Some (set_flag 0 M);
  b_links : ∀ k, link_of <$> sub_at s k = link_of <$> h !! k;
  b_fds : (λ l, fd <$> sub_at s l) <$> ls = Some <$> fs;
  b_dom : ∀ l, is_Some (sub_at s l) → l ∈ ls;
  b_container : container M = Some c;
  b_repr : container_repr s c cls xs;
  b_sane : Forall sane xs ∧ Z.of_nat (length xs) < 2 ^ 31;
  b_chunks : ∀ q, is_Some (cells (chunks s) !! q) → q ∈ cls;
  b_containers : ∀ q, is_Some (cells (containers s) !! q) → q = c;
  b_disk : disk s = dk;
}.

Lemma rely_fd s s' k : session_rely s s' → fd <$> sub_at s' k = fd <$> sub_at s k ∧ link_of <$> sub_at s' k = link_of <$> sub_at s k.
Proof.
  intros HR. pose proof (z_links _ _ HR k) as Hk. unfold link_of.
  destruct (sub_at s' k), (sub_at s k); cbn in *; try done. by injection Hk as -> -> ->.
Qed.

Lemma base_stable lk M h fs ls cls xs : stable 0 (base lk M h fs ls cls xs).
Proof.
  intros s s' HI HR [Bl Bm Bk Bf Bd Bc Br Bs Bx By Bdk]. pose proof (r_session _ _ _ HR eq_refl) as Z.
  destruct (z_store _ _ Z) as (Z1 & Z2 & _). split; try done.
  - destruct lk as [l|].
    + destruct Bl as [Hl Hone]. apply fmap_Some in Hl as (b & Hb & Hk).
      destruct (r_lock _ _ _ HR l b Hb (eq_sym Hk)) as (b' & Hb' & Hk' & _). split; [by rewrite Hb'; cbn; rewrite Hk'|].
      intros k b0 Hb0 Hk0. destruct (r_locked _ _ _ HR k b0 Hb0 Hk0) as (b1 & Hb1 & Hk1). by eapply Hone.
    + intros k b0 Hb0 Hk0. destruct (r_locked _ _ _ HR k b0 Hb0 Hk0) as (b1 & Hb1 & Hk1). by apply (Bl k b1).
  - by rewrite (z_manager _ _ Z).
  - intros k. destruct (rely_fd s s' k Z) as [_ ->]. apply Bk.
  - rewrite <-Bf. apply list_fmap_ext. intros j l _. apply (rely_fd s s' l Z).
  - intros l Hl. apply Bd. apply (fmap_is_Some fd). destruct (rely_fd s s' l Z) as [<- _]. by apply fmap_is_Some.
  - by eapply container_repr_ext.
  - by rewrite Z2.
  - by rewrite Z1.
  - by rewrite (z_disk _ _ Z).
Qed.

(** The subscriber at a place of the list *)
Lemma base_sub lk M h fs ls cls xs s k l : base lk M h fs ls cls xs s → ls !! k = Some l →
  ∃ b, sub_at s l = Some b ∧ fs !! k = Some (fd b).
Proof.
  intros B Hk. pose proof (f_equal (λ q, q !! k) (b_fds _ _ _ _ _ _ _ _ B)) as E. cbn in E.
  rewrite !list_lookup_fmap, Hk in E. cbn in E. destruct (sub_at s l) as [b|]; [|by destruct (fs !! k)].
  exists b. split; [done|]. destruct (fs !! k); [|done]. cbn in E. congruence.
Qed.
Lemma base_first lk M h fs ls cls xs s l ls' : base lk M h fs ls cls xs s → ls = l :: ls' → is_Some (sub_at s l).
Proof. intros B ->. destruct (base_sub _ _ _ _ _ _ _ _ 0%nat l B eq_refl) as (b & -> & _). done. Qed.
Lemma base_manager lk M h fs ls cls xs s : base lk M h fs ls cls xs s → ∃ x, manager_at s = Some (set_flag x M).
Proof.
  intros B. pose proof (b_mgr _ _ _ _ _ _ _ _ B) as E. apply fmap_Some in E as (M' & -> & E). exists (flag M').
  f_equal. destruct M', M. by injection E as -> -> -> -> ->.
Qed.

Lemma wait_session s : session_waits s → waits 0 s.
Proof. done. Qed.

(** *** At rest: no task is owed *)
Record rest (own : bool) lk M h fs ls cls xs n done_ s : Prop := {
  q_base : base lk M h fs ls cls xs s;
  q_own : if own then owner s = Some 0%nat else owner s ≠ Some 0%nat;
  q_idle : ∀ i, ¬ owes s i;
  q_loaded : ∀ l b, sub_at s l = Some b → chunk_loaded b = n;
  q_stray : ∀ i, ¬ stray s i;
  q_flag : own = true → flag <$> manager_at s = Some 0;
  q_closed : closed s = done_;
  q_log : ∀ f, f ∈ done_ → log s f = stream;
  q_wait : 0%nat ∉ waiters s;
}.

Lemma idle_quiet s l : (∀ i, ¬ owes s i) → ¬ busy s l.
Proof. intros Hi (i & Ho & _). by apply (Hi i). Qed.

Lemma rest_stable own lk M h fs ls cls xs n done_ : stable 0 (rest own lk M h fs ls cls xs n done_).
Proof.
  intros s s' HI HR [Bb Bo Bi Bl Bs Bf Bc Bg Bw]. pose proof (r_session _ _ _ HR eq_refl) as Z. split.
  - by eapply base_stable.
  - destruct own; [by apply HR|]. intros E. by apply Bo, (r_owner _ _ _ HR).
  - intros i Hi. by destruct (Bi i), (z_owes _ _ Z i Hi).
  - intros l b' Hb'. assert (is_Some (sub_at s l)) as [b Hb].
    { apply (fmap_is_Some fd). destruct (rely_fd s s' l Z) as [<- _]. rewrite Hb'. done. }
    destruct (z_quiet _ _ Z l b Hb (idle_quiet _ _ Bi)) as (b1 & Hb1 & Hl & _). rewrite <-(Bl l b Hb). congruence.
  - intros i Hi. by destruct (Bs i), (z_stray _ _ Z i) as [<- _].
  - intros ->. destruct (r_hold _ _ _ HR Bo) as (_ & _ & -> & _). by apply Bf.
  - by destruct (z_store _ _ Z) as (_ & _ & ->).
  - intros f Hf. rewrite <-(Bg f Hf). destruct (decide (map_Exists (λ _ b, fd b = f) (cells (subscribers s)))) as [(l & b & Hb & <-)|Hn].
    + destruct (z_quiet _ _ Z l b Hb (idle_quiet _ _ Bi)) as (_ & _ & _ & Hg & _). done.
    + apply (z_gone _ _ Z). intros l b Hb Hfd. apply Hn. by exists l, b.
  - by apply HR.
Qed.

Lemma rest_settled own lk M h fs ls cls xs done_ s : rest own lk M h fs ls cls xs (Z.of_nat (length xs)) done_ s → settled s.
Proof.
  intros [B _ _ Hl _ _ _ _ _] l b M1 xs1 Hb _ HM Hx. rewrite (Hl l b Hb). do 2 f_equal.
  destruct (base_manager _ _ _ _ _ _ _ _ B) as [x HM2]. assert (M1 = set_flag x M) as -> by congruence.
  eapply holds_chunks_det; [|exact Hx]. exists c, cls. split; [apply B|]. split; [apply B|apply B].
Qed.

Lemma rest_flagged own lk M h fs ls cls xs n done_ s : rest own lk M h fs ls cls xs n done_ s → own = true → flagged s [].
Proof.
  intros [B _ Hi _ _ Hf _ _ _] Ho. split; [by apply NoDup_nil|]. split; [|split; [by apply Hf|done]].
  intros i. split; [by intros ?%not_elem_of_nil|]. by intros ?%Hi.
Qed.

Lemma base_put_lock lk M h fs ls cls xs s y : base lk M h fs ls cls xs s →
  base lk M h fs ls cls xs (put_lock m y s).
Proof. by intros []. Qed.

Lemma safe_rest_lock n M h fs ls cls xs p done_ s k : rest false None M h fs ls cls xs p done_ s →
  (∀ n' s', (n' < n)%nat → rest true None M h fs ls cls xs p done_ s' → safe n' 0 (k tt) s') →
  safe n 0 (manager_lock (Some m) ≫= k) s.
Proof.
  intros HK Hn. eapply safe_do; [apply rest_stable|exact HK|]. intros s1 HI HK1. pose proof HK1 as [B Ho Hi Hl Hs Hf Hc Hg Hw0].
  destruct (base_manager _ _ _ _ _ _ _ _ B) as [x HM].
  destruct (manager_monitor s1 _ HI HM) as (H & W & Hm & HW & HH & HWs).
  rewrite (on_lock _ _ _ _ Hm). unfold monitor_lock, mutex_lock. cbn [held waiting].
  rewrite HWs in Hw0. destruct H as [j|].
  - apply wait_session. split; [apply (b_lock _ _ _ _ _ _ _ _ B)|]. left. split; [done|]. left. by exists j.
  - destruct (v_flag _ HI HH) as (os & (F1 & F2 & F3 & F4) & _); [by rewrite HM|].
    assert (os = []) as -> by (destruct os as [|i os]; [done|]; destruct (Hi i); apply F2; set_solver). split.
    + apply (good_lock 0 s1 None W (Some 0%nat) W); try done; [right; left; split_and!; [done..|lia]|].
      by intros j [= <-].
    + intros n' Hn'. apply Hn; [done|]. split; try done; [by apply base_put_lock|by rewrite owner_put_lock|by rewrite waiters_put_lock].
Qed.

Lemma safe_rest_unlock n M h fs ls cls xs done_ s k :
  rest true None M h fs ls cls xs (Z.of_nat (length xs)) done_ s →
  (∀ n' s', (n' < n)%nat → owner s' = None → rest false None M h fs ls cls xs (Z.of_nat (length xs)) done_ s' → safe n' 0 (k tt) s') →
  safe n 0 (manager_unlock (Some m) ≫= k) s.
Proof.
  intros HK Hn. eapply safe_do; [apply rest_stable|exact HK|]. intros s1 HI HK1. pose proof HK1 as [B Ho Hi Hl Hs Hf Hc Hg Hw0].
  destruct (base_manager _ _ _ _ _ _ _ _ B) as [x HM].
  destruct (manager_monitor s1 _ HI HM) as (H & W & Hm & HW & HH & HWs). assert (H = Some 0%nat) as -> by congruence.
  rewrite (on_lock _ _ _ _ Hm). unfold monitor_unlock, mutex_unlock. cbn [held waiting]. rewrite decide_True by done.
  rewrite HWs in Hw0. split.
  - apply (good_lock 0 s1 (Some 0%nat) W None W); try done; [by right; right|..].
    + intros _ _. exists []. split; [by eapply rest_flagged|done].
    + intros _ _. split; [by eapply rest_settled|done].
  - intros n' Hn'. apply Hn; [done|by rewrite owner_put_lock|]. split; try done; [by apply base_put_lock|by rewrite owner_put_lock|by rewrite waiters_put_lock].
Qed.

Lemma safe_rest_get {A} n own lk M h fs ls cls xs p done_ s (field : subscription_manager_t → A) k :
  rest own lk M h fs ls cls xs p done_ s → (∀ x, field (set_flag x M) = field M) →
  (∀ n' s', (n' < n)%nat → rest own lk M h fs ls cls xs p done_ s' → safe n' 0 (k (field M)) s') →
  safe n 0 (manager_get (Some m) field ≫= k) s.
Proof.
  intros HK Hfield Hn. eapply (safe_read _ _ _ _ _ _ (λ M', field M' = field M)); [apply rest_stable|exact HK|..].
  - intros s1 _ HK1. destruct (base_manager _ _ _ _ _ _ _ _ (q_base _ _ _ _ _ _ _ _ _ _ _ HK1)) as [x HM].
    exists (set_flag x M). split; [by apply (@load_ok _ _ managers_heap)|apply Hfield].
  - intros n' s1 M' Hn' HK1 HM'. cbn. rewrite HM'. by apply Hn.
Qed.

(** A field of the subscriber at [l], as [h] has its links *)
Lemma safe_rest_sub {A} n own lk M h fs ls cls xs p done_ s l j f b0 (field : subscriber_t → A) k :
  rest own lk M h fs ls cls xs p done_ s → ls !! j = Some l → fs !! j = Some f → h !! l = Some b0 →
  (∀ n' s' b, (n' < n)%nat → rest own lk M h fs ls cls xs p done_ s' → fd b = f → link_of b = link_of b0 → safe n' 0 (k (field b)) s') →
  safe n 0 (sub_get (Some l) field ≫= k) s.
Proof.
  intros HK Hj Hf Hh Hn. eapply (safe_read _ _ _ _ _ _ (λ b, fd b = f ∧ link_of b = link_of b0)); [apply rest_stable|exact HK|..].
  - intros s1 _ HK1. pose proof (q_base _ _ _ _ _ _ _ _ _ _ _ HK1) as B. destruct (base_sub _ _ _ _ _ _ _ _ j l B Hj) as (b & Hb & Hfb).
    exists b. split; [by apply (@load_ok _ _ subscribers_heap)|]. split; [congruence|].
    pose proof (b_links _ _ _ _ _ _ _ _ B l) as E. rewrite Hb, Hh in E. by apply (inj Some) in E.
  - intros n' s1 b Hn' HK1 [Hfb Hlb]. by apply Hn.
Qed.

Lemma safe_rest_set n lk M h fs ls cls xs p done_ s (g : subscription_manager_t → subscription_manager_t) k :
  rest true lk M h fs ls cls xs p done_ s → (∀ x, g (set_flag x M) = set_flag x (g M)) → container (g M) = container M →
  (∀ n' s', (n' < n)%nat → rest true lk (g M) h fs ls cls xs p done_ s' → safe n' 0 (k tt) s') →
  safe n 0 (manager_set (Some m) g ≫= k) s.
Proof.
  intros HK Hg HC Hn. eapply safe_do; [apply rest_stable|exact HK|]. intros s1 HI HK1. pose proof HK1 as [B Ho Hi Hl Hs Hf Hc Hgg Hw0].
  destruct (base_manager _ _ _ _ _ _ _ _ B) as [x HM]. rewrite (@update_ok _ _ managers_heap m _ g 0%nat s1 HM).
  change (set_heap subscription_manager_t _ s1) with (put_manager m (g (set_flag x M)) s1). rewrite Hg. split.
  - apply (good_manager s1 (set_flag x M)); [done..|]. by left.
  - intros n' Hn'. apply Hn; [done|]. destruct B as [Bl Bm Bk Bf Bd Bc Br Bs Bx By Bdk]. split; try done.
    + split; try done; [|congruence]. rewrite manager_at_put. done.
    + intros _. rewrite manager_at_put. specialize (Hf eq_refl). rewrite HM in Hf. done.
Qed.


(** A write to one of the links of the subscriber at [l] *)
Lemma safe_rest_link n M h fs ls cls xs p done_ s l b0 (g : subscriber_t → subscriber_t) k :
  rest true None M h fs ls cls xs p done_ s → h !! l = Some b0 →
  (∀ b, account (g b) = account b) → (∀ b, link_of b = link_of b0 → link_of (g b) = link_of (g b0)) →
  (∀ n' s', (n' < n)%nat → rest true None M (<[l := g b0]> h) fs ls cls xs p done_ s' → safe n' 0 (k tt) s') →
  safe n 0 (sub_set (Some l) g ≫= k) s.
Proof.
  intros HK Hh Hg Hlk Hn. eapply safe_do; [apply rest_stable|exact HK|].
  intros s1 HI HK1. pose proof HK1 as [[Bl Bm Bk Bf Bd Bc Br Bs Bx By Bdk] Ho Hi Hl Hs Hf Hc Hgg Hw0].
  pose proof (Bk l) as E. rewrite Hh in E. apply fmap_Some in E as (b & Hb & E). symmetry in E.
  rewrite (@update_ok _ _ subscribers_heap l b g 0%nat s1 Hb).
  change (set_heap subscriber_t _ s1) with (put_sub l (g b) s1).
  injection (Hg b) as Ef El Ek.
  assert (∀ q, sub_at (put_sub l (g b) s1) q = if decide (l = q) then Some (g b) else sub_at s1 q) as Hput by apply sub_at_put.
  split.
  - apply (good_sub 0 s1 l b); try done; [lia|by left|by right|by left|].
    intros M1 xs1 [HM1 Hx1 Hr1 Hs1 Hd1]. split; try done; rewrite ?El; try done.
    intros Hno. rewrite Ek in Hno. rewrite Ef. unfold sent. rewrite El. by apply Hs1.
  - intros n' Hn'. apply Hn; [done|]. split; try done.
    + split; try done.
      * intros q b1. rewrite Hput. case_decide as Hq; [intros [= <-]; rewrite Ek; by apply (Bl l)|apply Bl].
      * intros q. rewrite Hput. case_decide as Hq; [subst q|by rewrite lookup_insert_ne].
        rewrite lookup_insert_eq. cbn. by rewrite Hlk.
      * rewrite <-Bf. apply list_fmap_ext. intros q y _. rewrite Hput. case_decide as Hq; [subst y|done].
        rewrite Hb. cbn. by rewrite Ef.
      * intros q. rewrite Hput. case_decide as Hq; [intros _; subst q; apply Bd; by rewrite Hb|apply Bd].
    + intros q b1. rewrite Hput. case_decide as Hq; [intros [= <-]; rewrite El; by apply (Hl l)|apply Hl].
Qed.

(** *** Closing a subscriber *)

Lemma safe_rest_sub_lock n M h fs ls cls xs p done_ s l j k :
  rest true None M h fs ls cls xs p done_ s → ls !! j = Some l →
  (∀ n' s', (n' < n)%nat → rest true (Some l) M h fs ls cls xs p done_ s' → safe n' 0 (k tt) s') →
  safe n 0 (sub_lock (Some l) ≫= k) s.
Proof.
  intros HK Hj Hn. eapply safe_do; [apply rest_stable|exact HK|].
  intros s1 HI HK1. pose proof HK1 as [B Ho Hi Hl Hs Hf Hc Hgg Hw0].
  destruct (base_sub _ _ _ _ _ _ _ _ j l B Hj) as (b & Hb & _). pose proof Hb as Hb'. unfold sub_at in Hb'. rewrite Hb'.
  destruct B as [Bl Bm Bk Bf Bd Bc Br Bs Bx By Bdk]. destruct (lock b) as [j'|] eqn:Hlk; cbn [mutex_lock].
  - apply wait_session. split; [exact Bl|]. right. split; [done|]. split; [done|].
    exists l, b, j'. split_and!; try done. intros ->. by apply (Bl l b).
  - change (set_heap subscriber_t _ s1) with (put_sub l (set_sub_lock (Some 0%nat) b) s1).
    assert (∀ q, sub_at (put_sub l (set_sub_lock (Some 0%nat) b) s1) q =
      if decide (l = q) then Some (set_sub_lock (Some 0%nat) b) else sub_at s1 q) as Hput by apply sub_at_put.
    split.
    + apply (good_sub 0 s1 l b); try done; [lia|by right; left|by right|by left|].
      intros M1 xs1 [HM1 Hx1 Hr1 Hs1 Hd1]. split; try done. intros _. apply Hs1. congruence.
    + intros n' Hn'. apply Hn; [done|]. split; try done.
      * split; try done.
        -- rewrite Hput, decide_True by done. split; [done|]. intros q b1. rewrite Hput.
           case_decide; [done|]. intros Hb1 Hk1. by destruct (Bl q b1).
        -- intros q. rewrite Hput. case_decide as Hq; [subst q; by rewrite <-Bk, Hb|done].
        -- rewrite <-Bf. apply list_fmap_ext. intros q y _. rewrite Hput. case_decide as Hq; [subst y; by rewrite Hb|done].
        -- intros q. rewrite Hput. case_decide as Hq; [intros _; subst q; apply Bd; by rewrite Hb|apply Bd].
      * intros q b1. rewrite Hput. case_decide as Hq; [intros [= <-]; by apply (Hl l b)|apply Hl].
Qed.

(** Its mutex stays free: no task is owed to it. *)
Definition unlocked l M h fs ls cls xs p done_ s : Prop :=
  rest true None M h fs ls cls xs p done_ s ∧ lock <$> sub_at s l = Some None.
Lemma unlocked_stable l M h fs ls cls xs p done_ : stable 0 (unlocked l M h fs ls cls xs p done_).
Proof.
  intros s s' HI HR [HK Hl]. split; [by eapply rest_stable|]. apply fmap_Some in Hl as (b & Hb & Hk).
  destruct (z_quiet _ _ (r_session _ _ _ HR eq_refl) l b Hb (idle_quiet _ _ (q_idle _ _ _ _ _ _ _ _ _ _ _ HK)))
    as (b' & Hb' & _ & _ & Hk'). rewrite Hb'. cbn. rewrite Hk' by (by left). congruence.
Qed.

Lemma safe_rest_sub_unlock n M h fs ls cls xs p done_ s l k :
  rest true (Some l) M h fs ls cls xs p done_ s →
  (∀ n' s', (n' < n)%nat → unlocked l M h fs ls cls xs p done_ s' → safe n' 0 (k tt) s') →
  safe n 0 (sub_unlock (Some l) ≫= k) s.
Proof.
  intros HK Hn. eapply safe_do; [apply rest_stable|exact HK|].
  intros s1 HI HK1. pose proof HK1 as [[[Bl Bone] Bm Bk Bf Bd Bc Br Bs Bx By Bdk] Ho Hi Hl Hs Hf Hc Hgg Hw0].
  apply fmap_Some in Bl as (b & Hb & Hlk). pose proof Hb as Hb'. unfold sub_at in Hb'. rewrite Hb'.
  unfold mutex_unlock. rewrite decide_True by done.
  change (set_heap subscriber_t _ s1) with (put_sub l (set_sub_lock None b) s1).
  assert (∀ q, sub_at (put_sub l (set_sub_lock None b) s1) q =
    if decide (l = q) then Some (set_sub_lock None b) else sub_at s1 q) as Hput by apply sub_at_put.
  split.
  - apply (good_sub 0 s1 l b); try done; [lia|by right; right|by right|by left|].
    intros M1 xs1 [HM1 Hx1 Hr1 Hs1 Hd1]. split; try done. intros _. apply Hs1. intros w i Hw Hh.
    destruct (v_hand _ HI w i true Hh). assert (w = 0%nat) by congruence. lia.
  - intros n' Hn'. apply Hn; [done|]. split; [|by rewrite Hput, decide_True]. split; try done.
    + split; try done.
      * intros q b1. rewrite Hput. case_decide as Hq; [by intros [= <-]|]. intros Hb1 Hk1. by destruct Hq, (Bone q b1).
      * intros q. rewrite Hput. case_decide as Hq; [subst q; by rewrite <-Bk, Hb|done].
      * rewrite <-Bf. apply list_fmap_ext. intros q y _. rewrite Hput. case_decide as Hq; [subst y; by rewrite Hb|done].
      * intros q. rewrite Hput. case_decide as Hq; [intros _; subst q; apply Bd; by rewrite Hb|apply Bd].
    + intros q b1. rewrite Hput. case_decide as Hq; [intros [= <-]; by apply (Hl l b)|apply Hl].
Qed.

Lemma safe_rest_close n M h fs ls cls xs done_ s l j f k :
  rest true (Some l) M h fs ls cls xs (Z.of_nat (length xs)) done_ s → ls !! j = Some l → fs !! j = Some f → content xs = stream →
  (∀ n' s', (n' < n)%nat → rest true (Some l) M h fs ls cls xs (Z.of_nat (length xs)) (done_ ++ [f]) s' → safe n' 0 (k tt) s') →
  safe n 0 (close f ≫= k) s.
Proof.
  intros HK Hj Hfj Hx Hn. eapply safe_do; [apply rest_stable|exact HK|].
  intros s1 HI HK1. pose proof HK1 as [B Ho Hi Hl Hs Hf Hc Hgg Hw0]. unfold modify. split; [by apply good_closed|].
  intros n' Hn'. apply Hn; [done|]. split; try done.
  - destruct B as [Bl Bm Bk Bf Bd Bc Br Bs Bx By Bdk]. by split.
  - cbn. by rewrite Hc.
  - intros f' [Hf'| ->%list_elem_of_singleton]%elem_of_app; [by apply Hgg|]. change (log s1 f = stream).
    destruct (base_sub _ _ _ _ _ _ _ _ j l B Hj) as (b & Hb & Hfb). assert (f = fd b) as -> by congruence.
    pose proof (b_lock _ _ _ _ _ _ _ _ B) as [Hlk _]. rewrite Hb in Hlk. injection Hlk as Hlk.
    destruct (v_data _ HI l b Hb) as (M1 & xs1 & [HM1 Hx1 Hr1 Hs1 Hd1]). rewrite Hs1.
    + destruct (base_manager _ _ _ _ _ _ _ _ B) as [x HM2]. assert (M1 = set_flag x M) as -> by congruence.
      assert (xs1 = xs) as ->.
      { eapply holds_chunks_det; [exact Hx1|]. exists c, cls. split; [apply B|]. split; [apply B|apply B]. }
      unfold sent. by rewrite (Hl l b Hb), Nat2Z.id, firstn_all.
    + intros w i Hw Hh. destruct (v_hand _ HI w i true Hh). assert (w = 0%nat) by congruence. lia.
Qed.

Lemma safe_rest_free n M h f fs l ls cls xs p done_ s k :
  unlocked l M h (f :: fs) (l :: ls) cls xs p done_ s → l ∉ ls →
  (∀ n' s', (n' < n)%nat → rest true None M (delete l h) fs ls cls xs p done_ s' → safe n' 0 (k tt) s') →
  safe n 0 (sub_get (Some l) fd ≫= (λ _, atomic (free subscriber_t (Some l)) ≫= k)) s.
Proof.
  intros HK Hni Hn. eapply (safe_read _ _ _ _ _ _ (λ _, True)); [apply unlocked_stable|exact HK|..].
  { intros s1 _ [_ Hl]. apply fmap_Some in Hl as (b & Hb & _). exists b. split; [|done]. by apply (@load_ok _ _ subscribers_heap). }
  intros n1 s0 b0 Hn1 HK0 _. cbn. eapply safe_do; [apply unlocked_stable|exact HK0|].
  intros s1 HI [[B Ho Hi Hl Hs Hf Hc Hgg Hw0] Hlk]. apply fmap_Some in Hlk as (b & Hb & Hlk).
  rewrite (@free_ok _ _ subscribers_heap l b 0%nat s1 Hb). destruct B as [Bl Bm Bk Bf Bd Bc Br Bs Bx By Bdk].
  set (s2 := set_heap _ _ s1).
  assert (∀ q, sub_at s2 q = if decide (l = q) then None else sub_at s1 q) as Hput.
  { intros q. unfold sub_at. cbn. by rewrite lookup_delete. }
  split.
  - apply (good_free_sub s1 l b); try done; [by left|by apply idle_quiet].
  - intros n' Hn'. apply Hn; [lia|]. split; try done.
    + split; try done.
      * intros q b1. rewrite Hput. case_decide; [done|apply Bl].
      * intros q. rewrite Hput, lookup_delete. by case_decide.
      * injection Bf as _ Bf. change ((λ q, fd <$> sub_at s1 q) <$> ls = Some <$> fs) in Bf. rewrite <-Bf. apply list_fmap_ext. intros q y Hy%list_elem_of_lookup_2.
        rewrite Hput. case_decide; [subst|done]. done.
      * intros q. rewrite Hput. case_decide as Hq; [by intros []|]. intros Hq2%Bd. set_solver.
    + intros q b1. rewrite Hput. case_decide; [done|apply Hl].
Qed.


(** *** Unsubscribing the first of the list *)

Lemma safe_unlink n M h f fs l ls cls xs p done_ s k :
  rest true None M h (f :: fs) (l :: ls) cls xs p done_ s →
  dll h (first_subscriber M) (last_subscriber M) (l :: ls) →
  (∀ n' s' M' h', (n' < n)%nat → rest true None M' h' (f :: fs) (l :: ls) cls xs p done_ s' → is_Some (h' !! l) →
     dll (delete l h') (first_subscriber M') (last_subscriber M') ls → safe n' 0 (k tt) s') →
  safe n 0 (unlink_subscriber (Some m) (Some l) ≫= k) s.
Proof.
  intros HK Hd Hn. destruct (dll_links _ _ _ [] l ls Hd) as (b0 & Hb0 & Hp & Hx). cbn in Hp, Hx.
  pose proof (dll_remove _ _ _ [] l ls Hd) as Hd'. cbn in Hd'. unfold unlink_subscriber. assoc.
  eapply (safe_rest_sub _ _ _ _ _ _ _ _ _ _ _ _ _ 0%nat); [exact HK|done|done|exact Hb0|].
  intros n1 s1 b1 Hn1 HK1 _ Hl1. assoc.
  eapply (safe_rest_sub _ _ _ _ _ _ _ _ _ _ _ _ _ 0%nat); [exact HK1|done|done|exact Hb0|].
  intros n2 s2 b2 Hn2 HK2 _ Hl2. injection Hl1 as -> _. injection Hl2 as _ ->. rewrite Hp, Hx.
  destruct ls as [|q ls]; cbn [head].
  - assoc. eapply safe_rest_set; [exact HK2|done|done|]. intros n3 s3 Hn3 HK3.
    eapply safe_rest_set; [exact HK3|done|done|]. intros n4 s4 Hn4 HK4.
    eapply Hn; [|exact HK4|by rewrite Hb0|done]. lia.
  - destruct (dll_lookup _ _ _ _ q Hd) as [bq Hq]; [set_solver|]. assoc.
    eapply safe_rest_link; [exact HK2|exact Hq|done|intros b [= E1 E2]; unfold link_of; cbn; congruence|]. intros n3 s3 Hn3 HK3. assoc.
    eapply safe_rest_set; [exact HK3|done|done|]. intros n4 s4 Hn4 HK4. assoc.
    eapply safe_rest_link; [exact HK4|apply lookup_insert_eq|done|intros b [= E1 E2]; unfold link_of; cbn; congruence|]. intros n5 s5 Hn5 HK5.
    assert (l ≠ q) as Hne by (apply dll_NoDup in Hd; apply NoDup_cons in Hd as [? _]; set_solver).
    eapply Hn; [|exact HK5| |]; [lia|by rewrite !lookup_insert_ne by done|].
    eapply dll_ext; [|exact Hd']. intros y _. unfold unlink. cbn [head list_basics.list.last].
    rewrite !lookup_delete, !lookup_insert, lookup_alter. repeat case_decide; subst; rewrite ?Hq; done.
Qed.

Lemma safe_unsubscribe n M h f fs l ls cls xs done_ s k : content xs = stream →
  rest false None M h (f :: fs) (l :: ls) cls xs (Z.of_nat (length xs)) done_ s →
  dll h (first_subscriber M) (last_subscriber M) (l :: ls) →
  (∀ n' s' M' h', (n' < n)%nat → rest false None M' h' fs ls cls xs (Z.of_nat (length xs)) (done_ ++ [f]) s' →
     dll h' (first_subscriber M') (last_subscriber M') ls → safe n' 0 (k tt) s') →
  safe n 0 (unsubscribe (Some m) (Some l) ≫= k) s.
Proof.
  intros Hx HK Hd Hn. assert (l ∉ ls) as Hni by (apply dll_NoDup in Hd; by apply NoDup_cons in Hd as [? _]).
  unfold unsubscribe. assoc. eapply safe_rest_lock; [exact HK|]. intros n1 s1 Hn1 HK1. assoc.
  eapply safe_unlink; [exact HK1|exact Hd|]. intros n2 s2 M' h' Hn2 HK2 [b0 Hb0] Hd'. unfold close_subscriber. assoc.
  eapply (safe_rest_sub_lock _ _ _ _ _ _ _ _ _ _ _ 0%nat); [exact HK2|done|]. intros n3 s3 Hn3 HK3. assoc.
  eapply (safe_rest_sub _ _ _ _ _ _ _ _ _ _ _ _ _ 0%nat); [exact HK3|done|done|exact Hb0|].
  intros n4 s4 b4 Hn4 HK4 Hf4 _. rewrite Hf4. assoc.
  eapply (safe_rest_close _ _ _ _ _ _ _ _ _ _ 0%nat); [exact HK4|done|done|done|]. intros n5 s5 Hn5 HK5. assoc.
  eapply safe_rest_sub_unlock; [exact HK5|]. intros n6 s6 Hn6 HK6. assoc.
  eapply safe_rest_free; [exact HK6|done|]. intros n7 s7 Hn7 HK7. assoc.
  eapply safe_rest_get; [exact HK7|done|]. intros n8 s8 Hn8 HK8. assoc.
  eapply safe_rest_set; [exact HK8|done|done|]. intros n9 s9 Hn9 HK9.
  eapply safe_rest_unlock; [exact HK9|]. intros n10 s10 Hn10 _ HK10. eapply Hn; [|exact HK10|exact Hd']. lia.
Qed.

Definition finishing cls xs (cur : ptr) s : Prop := ∃ M h fs ls done_, cur = head ls ∧ done_ ++ fs = fds ∧
  rest false None M h fs ls cls xs (Z.of_nat (length xs)) done_ s ∧
  dll h (first_subscriber M) (last_subscriber M) ls.

Lemma safe_finish_pending n M h ls cls xs s k : content xs = stream →
  rest false None M h fds ls cls xs (Z.of_nat (length xs)) [] s →
  dll h (first_subscriber M) (last_subscriber M) ls →
  (∀ n' s' M' h', (n' < n)%nat → rest false None M' h' [] [] cls xs (Z.of_nat (length xs)) fds s' →
     first_subscriber M' = NULL → safe n' 0 (k tt) s') →
  safe n 0 (finish_pending_chunks (Some m) ≫= k) s.
Proof.
  intros Hx HK Hd Hn. unfold finish_pending_chunks. assoc.
  eapply safe_rest_get; [exact HK|done|]. intros n1 s1 Hn1 HK1. unfold unsubscribe_all.
  apply (safe_loop (finishing cls xs)).
  { intros cur s2 s3 (M2 & h2 & fs2 & ls2 & d2 & E1 & E2 & HK2 & Hd2) HR HI. exists M2, h2, fs2, ls2, d2.
    split_and!; try done. by eapply rest_stable. }
  2: { exists M, h, fds, ls, []. split_and!; try done. by eapply dll_first. }
  clear s1 HK1 HK Hd M h ls s. intros n2 cur s2 Hn2 (M & h & fs & ls & dn & -> & Efds & HK & Hd) IH.
  change (pbind ?p ?f) with (p ≫= f). destruct ls as [|l ls]; cbn [head].
  - destruct fs as [|f fs]; [|by pose proof (b_fds _ _ _ _ _ _ _ _ (q_base _ _ _ _ _ _ _ _ _ _ _ HK))].
    rewrite app_nil_r in Efds. subst dn. cbn. eapply safe_mono; [eapply (Hn n2)|]; [lia|exact HK| |done].
    by apply dll_first in Hd.
  - destruct fs as [|f fs]; [by pose proof (b_fds _ _ _ _ _ _ _ _ (q_base _ _ _ _ _ _ _ _ _ _ _ HK))|].
    destruct (dll_links _ _ _ [] l ls Hd) as (b0 & Hb0 & _ & Hnx). cbn in Hnx. assoc.
    eapply (safe_rest_sub _ _ _ _ _ _ _ _ _ _ _ _ _ 0%nat); [exact HK|done|done|exact Hb0|].
    intros n3 s3 b3 Hn3 HK3 _ Hl3. injection Hl3 as -> _. rewrite Hnx. assoc.
    eapply safe_unsubscribe; [done|exact HK3|exact Hd|]. intros n4 s4 M' h' Hn4 HK4 Hd4. cbn.
    apply IH; [lia|]. exists M', h', fs, ls, (dn ++ [f]). split_and!; try done. by rewrite <-app_assoc.
Qed.


(** *** Destroying the manager *)

(** The container is freed; [own]: the session holds the mutex, otherwise nobody
    does. *)
Record emptied (own : bool) M s : Prop := {
  e_own : owner s = if own then Some 0%nat else None;
  e_wait : 0%nat ∉ waiters s;
  e_mgr : set_flag 0 <$> manager_at s = Some (set_flag 0 M);
  e_sub : ∀ l, sub_at s l = None;
  e_idle : ∀ i, ¬ owes s i;
  e_stray : ∀ i, ¬ stray s i;
  e_flag : own = true → flag <$> manager_at s = Some 0;
  e_chunks : cells (chunks s) = ∅ ∧ cells (containers s) = ∅;
  e_closed : closed s = fds;
  e_log : ∀ f, f ∈ fds → log s f = stream;
  e_disk : disk s = dk;
}.

Lemma gone_rely s s' l : session_rely s s' → sub_at s l = None → sub_at s' l = None.
Proof. intros HR Hl. destruct (rely_fd s s' l HR) as [E _]. rewrite Hl in E. by destruct (sub_at s' l). Qed.

Lemma emptied_stable own M : stable 0 (emptied own M).
Proof.
  intros s s' HI HR [Eo Ew Em Es Ei Et Ef [Ec1 Ec2] Ecl El Edk]. pose proof (r_session _ _ _ HR eq_refl) as Z.
  destruct (z_store _ _ Z) as (Z1 & Z2 & Z3). split.
  - destruct own; [by apply HR|by apply (z_owner _ _ Z)].
  - by apply HR.
  - by rewrite (z_manager _ _ Z).
  - intros l. by eapply gone_rely.
  - intros i Hi. by destruct (Ei i), (z_owes _ _ Z i Hi).
  - intros i Hi. by destruct (Et i), (z_stray _ _ Z i) as [<- _].
  - intros ->. destruct (r_hold _ _ _ HR Eo) as (_ & _ & -> & _). by apply Ef.
  - by rewrite Z1, Z2.
  - by rewrite Z3.
  - intros f Hf. rewrite (z_gone _ _ Z f); [by apply El|]. intros l b Hb. by rewrite Es in Hb.
  - by rewrite (z_disk _ _ Z).
Qed.

Lemma emptied_manager own M s : emptied own M s → ∃ x, manager_at s = Some (set_flag x M).
Proof.
  intros B. pose proof (e_mgr _ _ _ B) as E. apply fmap_Some in E as (M' & -> & E). exists (flag M').
  f_equal. destruct M', M. by injection E as -> -> -> -> ->.
Qed.

Lemma cells_empty {X} (h : gmap positive X) : (∀ q, ¬ is_Some (h !! q)) → h = ∅.
Proof. intros Hh. apply map_eq. intros q. rewrite lookup_empty. apply eq_None_not_Some. apply Hh. Qed.

Lemma safe_free_container n M h cls xs p s k : rest true None M h [] [] cls xs p fds s →
  (∀ n' s', (n' < n)%nat → emptied true M s' → safe n' 0 (k NULL) s') →
  safe n 0 (atomic (ChunkOps.free_chunk_container (Some c)) ≫= k) s.
Proof.
  intros HK Hn. eapply safe_do; [apply rest_stable|exact HK|].
  intros s1 HI [[Bl Bm Bk Bf Bd Bc Br Bs Bx By Bdk] Ho Hi Hl Hs Hf Hc Hgg Hw0].
  destruct (free_container_run s1 c cls xs 0%nat Br) as (s2 & Hs2 & Hco & Hch). rewrite Hs2.
  pose proof (chunk_op_free_container_all _ _ _ _ _ Hs2) as Honly.
  assert (∀ l, sub_at s1 l = None) as Hno.
  { intros l. apply eq_None_not_Some. intros Hl2%Bd. by apply not_elem_of_nil in Hl2. }
  split; [apply good_chunks; try done; intros l b M1 xs1 Hb; by rewrite Hno in Hb|].
  intros n' Hn'. apply Hn; [done|]. destruct Honly as (Heq & _ & Hdom). revert Hco Hch Hdom. rewrite Heq.
  generalize (chunks s2) (containers s2) (manswers s2). intros x y o Hco Hch Hdom. split; try done.
  cbn in *. split; apply cells_empty.
  - intros q. rewrite Hch. case_decide as Hq; [by intros []|]. intros Hq2%Bx. done.
  - intros q Hq. pose proof (By q (Hdom q Hq)) as ->. destruct Hq as [z Hz]. congruence.
Qed.

Lemma safe_emptied_get {A} n own M s (field : subscription_manager_t → A) k : emptied own M s →
  (∀ x, field (set_flag x M) = field M) →
  (∀ n' s', (n' < n)%nat → emptied own M s' → safe n' 0 (k (field M)) s') →
  safe n 0 (manager_get (Some m) field ≫= k) s.
Proof.
  intros HK Hfield Hn. eapply (safe_read _ _ _ _ _ _ (λ M', field M' = field M)); [apply emptied_stable|exact HK|..].
  - intros s1 _ HK1. destruct (emptied_manager _ _ _ HK1) as [x HM].
    exists (set_flag x M). split; [by apply (@load_ok _ _ managers_heap)|apply Hfield].
  - intros n' s1 M' Hn' HK1 HM'. cbn. rewrite HM'. by apply Hn.
Qed.

Lemma safe_emptied_set n M s (g : subscription_manager_t → subscription_manager_t) k : emptied true M s →
  (∀ x, g (set_flag x M) = set_flag x (g M)) →
  (∀ n' s', (n' < n)%nat → emptied true (g M) s' → safe n' 0 (k tt) s') →
  safe n 0 (manager_set (Some m) g ≫= k) s.
Proof.
  intros HK Hg Hn. eapply safe_do; [apply emptied_stable|exact HK|]. intros s1 HI HK1.
  destruct (emptied_manager _ _ _ HK1) as [x HM]. destruct HK1 as [Eo Ew Em Es Ei Et Ef Ec Ecl El Edk].
  rewrite (@update_ok _ _ managers_heap m _ g 0%nat s1 HM).
  change (set_heap subscription_manager_t _ s1) with (put_manager m (g (set_flag x M)) s1). rewrite Hg. split.
  - apply (good_manager s1 (set_flag x M)); [done..|]. by right.
  - intros n' Hn'. apply Hn; [done|]. split; try done; rewrite manager_at_put; [done|].
    intros _. specialize (Ef eq_refl). rewrite HM in Ef. done.
Qed.

Lemma safe_emptied_unlock n M s k : emptied true M s →
  (∀ n' s', (n' < n)%nat → emptied false M s' → safe n' 0 (k tt) s') →
  safe n 0 (manager_unlock (Some m) ≫= k) s.
Proof.
  intros HK Hn. eapply safe_do; [apply emptied_stable|exact HK|]. intros s1 HI HK1.
  destruct (emptied_manager _ _ _ HK1) as [x HM]. destruct HK1 as [Eo Ew Em Es Ei Et Ef Ec Ecl El Edk].
  destruct (manager_monitor s1 _ HI HM) as (H & W & Hm & HW & HH & HWs). assert (H = Some 0%nat) as -> by congruence.
  rewrite (on_lock _ _ _ _ Hm). unfold monitor_unlock, mutex_unlock. cbn [held waiting]. rewrite decide_True by done.
  rewrite HWs in Ew. split.
  - apply (good_lock 0 s1 (Some 0%nat) W None W); try done; [by right; right|..].
    + intros _ _. exists []. split; [|done]. split; [by apply NoDup_nil|]. split; [|split; [by apply Ef|done]].
      intros i. split; [by intros ?%not_elem_of_nil|]. by intros ?%Ei.
    + intros _ _. split; [|done]. intros l b M1 xs1 Hb. by rewrite Es in Hb.
  - intros n' Hn'. apply Hn; [done|]. split; try done; [by rewrite owner_put_lock|by rewrite waiters_put_lock].
Qed.

(** The session is over. *)
Lemma ended_stable : stable 0 (λ s, owner s = None ∧ (∀ i, ¬ owes s i) ∧ ended s).
Proof.
  intros s s' HI HR (Ho & Hi & Hm & Hs & Hc1 & Hc2 & Hcl & Hl & Hdk). pose proof (r_session _ _ _ HR eq_refl) as Z.
  destruct (z_store _ _ Z) as (Z1 & Z2 & Z3). split; [by apply (z_owner _ _ Z)|].
  split; [intros i Hi'; by destruct (Hi i), (z_owes _ _ Z i Hi')|].
  split; [|split; [|split; [|split; [|split; [|split]]]]].
  - pose proof (z_manager _ _ Z) as E. rewrite Hm in E. by destruct (manager_at s').
  - intros l. by eapply gone_rely.
  - by rewrite Z2.
  - by rewrite Z1.
  - by rewrite Z3.
  - intros f Hf. rewrite (z_gone _ _ Z f); [by apply Hl|]. intros l b Hb. by rewrite Hs in Hb.
  - by rewrite (z_disk _ _ Z).
Qed.

Lemma safe_destroy n M h cls xs s : dk = saved →
  rest false None M h [] [] cls xs (Z.of_nat (length xs)) fds s → first_subscriber M = NULL →
  safe n 0 (destroy_subscription_manager (Some m)) s.
Proof.
  intros Hsaved HK Hfirst. unfold destroy_subscription_manager.
  eapply safe_rest_lock; [exact HK|]. intros n1 s1 Hn1 HK1.
  eapply safe_rest_get; [exact HK1|done|]. intros n2 s2 Hn2 HK2.
  rewrite (b_container _ _ _ _ _ _ _ _ (q_base _ _ _ _ _ _ _ _ _ _ _ HK2)).
  eapply safe_free_container; [exact HK2|]. intros n3 s3 Hn3 HK3.
  eapply safe_emptied_set; [exact HK3|done|]. intros n4 s4 Hn4 HK4.
  eapply safe_emptied_get; [exact HK4|done|]. intros n5 s5 Hn5 HK5. cbn [first_subscriber set_container]. rewrite Hfirst.
  unfold unsubscribe_all. apply (safe_loop (λ cur s, cur = NULL ∧ emptied true (set_container NULL M) s)); [| |done].
  { intros cur s6 s7 [-> HK6] HR HI. split; [done|]. by eapply emptied_stable. }
  intros n6 cur s6 Hn6 [-> HK6] _. change (pbind ?p ?f) with (p ≫= f). cbn [mbind prog_bind pbind mret prog_ret].
  eapply safe_emptied_unlock; [exact HK6|]. intros n7 s7 Hn7 HK7.
  eapply safe_do; [apply emptied_stable|exact HK7|]. intros s8 HI HK8.
  destruct (emptied_manager _ _ _ HK8) as [x HM]. destruct HK8 as [Eo Ew Em Es Ei Et Ef [Ec1 Ec2] Ecl El Edk].
  unfold mbind, C_bind. rewrite (@free_ok _ _ managers_heap m _ 0%nat s8 HM).
  unfold lift_act, free_at. change (set_mlocks _ _) with (free_manager s8). split.
  - by apply good_free_manager.
  - intros n8 Hn8. apply safe_ret. intros s9 HI9 HR9.
    assert (owner (free_manager s8) = None ∧ (∀ i, ¬ owes (free_manager s8) i) ∧ ended (free_manager s8)) as Hend.
    { split; [unfold owner; cbn; by rewrite lookup_delete_eq|]. split; [done|]. split; [apply lookup_delete_eq|].
      split; [done|]. cbn. rewrite Ec1, Ec2, Edk. by split_and!. }
    destruct (ended_stable _ _ HI9 HR9 Hend) as (Ho & _ & He). split; [done|]. split; [by rewrite Ho|done].
Qed.


(** *** Adding a chunk *)

(** The session has pushed the tasks [os], has the subscribers [todo] before it,
    which have loaded [n] chunks, and may hold a task that it has not pushed. *)
Record pushing (new : option (positive * positive)) (K : Z) M h fs ls cls xs n (os todo : list positive) s : Prop := {
  p_base : base None M h fs ls cls xs s;
  p_own : owner s = Some 0%nat;
  p_wait : 0%nat ∉ waiters s;
  p_owes : NoDup os ∧ ∀ i, i ∈ os ↔ owes s i;
  p_todo : ∀ l, l ∈ todo → ¬ busy s l;
  p_loaded : ∀ l b, sub_at s l = Some b → ¬ busy s l →
    chunk_loaded b = if decide (l ∈ todo) then n else Z.of_nat (length xs);
  p_stray : ∀ i, stray s i → fst <$> new = Some i;
  p_new : ∀ i l, new = Some (i, l) → stray s i ∧ info_at s i = Some (Info (Some l) (Some m));
  p_flag : flag <$> manager_at s = Some K;
  p_closed : closed s = [];
}.

Lemma busy_hold s s' l : rely 0 s s' → owner s = Some 0%nat → busy s' l ↔ busy s l.
Proof.
  intros HR Ho. pose proof (r_session _ _ _ HR eq_refl) as Z. destruct (r_hold _ _ _ HR Ho) as (_ & _ & _ & He).
  split; [by apply session_rely_busy|]. intros (i & Hi & Ht). apply He in Hi as Hi'. exists i. split; [done|].
  unfold target in *. destruct (z_owes _ _ Z i Hi') as [_ ->]. done.
Qed.

Lemma pushing_stable new K M h fs ls cls xs n os todo : stable 0 (pushing new K M h fs ls cls xs n os todo).
Proof.
  intros s s' HI HR [Pb Po Pw [Pn Pi] Pt Pl Ps Pnew Pf Pc]. pose proof (r_session _ _ _ HR eq_refl) as Z.
  destruct (r_hold _ _ _ HR Po) as (Ho' & _ & Ef & He). split; try done.
  - by eapply base_stable.
  - by apply HR.
  - split; [done|]. intros i. by rewrite Pi, He.
  - intros l Hl. rewrite (busy_hold s s') by done. by apply Pt.
  - intros l b' Hb'. rewrite (busy_hold s s') by done. intros Hq. assert (is_Some (sub_at s l)) as [b Hb].
    { apply (fmap_is_Some fd). destruct (rely_fd s s' l Z) as [<- _]. by rewrite Hb'. }
    destruct (z_quiet _ _ Z l b Hb Hq) as (b1 & Hb1 & Hl & _). rewrite <-(Pl l b Hb Hq). congruence.
  - intros i Hi. apply Ps. by apply (z_stray _ _ Z).
  - intros i l Hn. destruct (Pnew i l Hn) as [H1 H2]. destruct (z_stray _ _ Z i) as [E1 E2].
    split; [by apply E1|]. by rewrite E2.
  - by rewrite Ef.
  - by destruct (z_store _ _ Z) as (_ & _ & ->).
Qed.

Lemma safe_push_get {A} k0 new K M h fs ls cls xs n os todo s (field : subscription_manager_t → A) k :
  pushing new K M h fs ls cls xs n os todo s → (∀ x, field (set_flag x M) = field M) →
  (∀ n' s', (n' < k0)%nat → pushing new K M h fs ls cls xs n os todo s' → safe n' 0 (k (field M)) s') →
  safe k0 0 (manager_get (Some m) field ≫= k) s.
Proof.
  intros HK Hfield Hn. eapply (safe_read _ _ _ _ _ _ (λ M', field M' = field M)); [apply pushing_stable|exact HK|..].
  - intros s1 _ HK1. destruct (base_manager _ _ _ _ _ _ _ _ (p_base _ _ _ _ _ _ _ _ _ _ _ _ HK1)) as [x HM].
    exists (set_flag x M). split; [by apply (@load_ok _ _ managers_heap)|apply Hfield].
  - intros n' s1 M' Hn' HK1 HM'. cbn. rewrite HM'. by apply Hn.
Qed.

Lemma safe_push_flag k0 new K M h fs ls cls xs n os todo s k :
  pushing new K M h fs ls cls xs n os todo s →
  (∀ n' s', (n' < k0)%nat → pushing new K M h fs ls cls xs n os todo s' → safe n' 0 (k K) s') →
  safe k0 0 (manager_get (Some m) flag ≫= k) s.
Proof.
  intros HK Hn. eapply (safe_read _ _ _ _ _ _ (λ M', flag M' = K)); [apply pushing_stable|exact HK|..].
  - intros s1 _ HK1. pose proof (p_flag _ _ _ _ _ _ _ _ _ _ _ _ HK1) as E. apply fmap_Some in E as (M1 & HM & E).
    exists M1. split; [by apply (@load_ok _ _ managers_heap)|done].
  - intros n' s1 M' Hn' HK1 HM'. cbn. rewrite HM'. by apply Hn.
Qed.

(** A field of a subscriber *)
Lemma safe_push_sub {A} k0 new K M h fs ls cls xs n os todo s l b0 (field : subscriber_t → A) k :
  pushing new K M h fs ls cls xs n os todo s → h !! l = Some b0 →
  (∀ n' s' b, (n' < k0)%nat → pushing new K M h fs ls cls xs n os todo s' → link_of b = link_of b0 →
     (l ∈ todo → chunk_loaded b = n) → safe n' 0 (k (field b)) s') →
  safe k0 0 (sub_get (Some l) field ≫= k) s.
Proof.
  intros HK Hh Hn. eapply (safe_read _ _ _ _ _ _ (λ b, link_of b = link_of b0 ∧ (l ∈ todo → chunk_loaded b = n)));
    [apply pushing_stable|exact HK|..].
  - intros s1 _ HK1. pose proof (p_base _ _ _ _ _ _ _ _ _ _ _ _ HK1) as B. pose proof (b_links _ _ _ _ _ _ _ _ B l) as E.
    rewrite Hh in E. apply fmap_Some in E as (b & Hb & E). exists b. split; [by apply (@load_ok _ _ subscribers_heap)|].
    split; [done|]. intros Hl. rewrite (p_loaded _ _ _ _ _ _ _ _ _ _ _ _ HK1 l b Hb); [by rewrite decide_True|].
    by apply (p_todo _ _ _ _ _ _ _ _ _ _ _ _ HK1).
  - intros n' s1 b Hn' HK1 [Hl Hb]. by apply Hn.
Qed.

Lemma safe_push_count k0 new K M h fs ls cls xs n os todo s k :
  pushing new K M h fs ls cls xs n os todo s →
  (∀ n' s', (n' < k0)%nat → pushing new K M h fs ls cls xs n os todo s' → safe n' 0 (k (Z.of_nat (length xs))) s') →
  safe k0 0 (count_of (Some m) ≫= k) s.
Proof.
  intros HK Hn. unfold count_of. assoc. eapply safe_push_get; [exact HK|done|]. intros n1 s1 Hn1 HK1.
  rewrite (b_container _ _ _ _ _ _ _ _ (p_base _ _ _ _ _ _ _ _ _ _ _ _ HK1)).
  eapply (safe_read _ _ _ _ _ _ (λ cc, count cc = Z.of_nat (length xs))); [apply pushing_stable|exact HK1|..].
  - intros s2 _ HK2. destruct (b_repr _ _ _ _ _ _ _ _ (p_base _ _ _ _ _ _ _ _ _ _ _ _ HK2)) as (cc & Hcc & Hat & Hcount & _).
    exists cc. split; [by apply (@load_ok _ _ containers_heap)|]. by rewrite Hcount, (chunks_length _ _ _ _ _ Hat).
  - intros n2 s2 cc Hn2 HK2 Hc. cbn. rewrite Hc. apply Hn; [lia|done].
Qed.

Lemma safe_push_set_flag k0 new K K' M h fs ls cls xs n os todo s k :
  pushing new K M h fs ls cls xs n os todo s →
  (∀ n' s', (n' < k0)%nat → pushing new K' M h fs ls cls xs n os todo s' → safe n' 0 (k tt) s') →
  safe k0 0 (manager_set (Some m) (set_flag K') ≫= k) s.
Proof.
  intros HK Hn. eapply safe_do; [apply pushing_stable|exact HK|]. intros s1 HI [Pb Po Pw Pi Pt Pl Ps Pnew Pf Pc].
  destruct (base_manager _ _ _ _ _ _ _ _ Pb) as [x HM]. rewrite (@update_ok _ _ managers_heap m _ _ 0%nat s1 HM).
  change (set_heap subscription_manager_t _ s1) with (put_manager m (set_flag K' (set_flag x M)) s1). split.
  - apply (good_manager s1 (set_flag x M)); [done..|]. by left.
  - intros n' Hn'. apply Hn; [done|]. split; try done.
    + destruct Pb as [Bl Bm Bk Bf Bd Bc Br Bs Bx By Bdk]. split; try done. by rewrite manager_at_put.
    + by rewrite manager_at_put.
Qed.

Lemma safe_push_malloc k0 K M h fs ls cls xs n os todo s l k :
  pushing None K M h fs ls cls xs n os todo s →
  (∀ n' s' i, (n' < k0)%nat → pushing (Some (i, l)) K M h fs ls cls xs n os todo s' → safe n' 0 (k (Some i)) s') →
  safe k0 0 (atomic (malloc subscription_info_t (Info (Some l) (Some m))) ≫= k) s.
Proof.
  intros HK Hn. eapply safe_do; [apply pushing_stable|exact HK|]. intros s1 HI [Pb Po Pw Pi Pt Pl Ps Pnew Pf Pc].
  set (i := fresh_loc (infos s1)). assert (info_at s1 i = None) as Hi by apply fresh_loc_none.
  set (I0 := Info (Some l) (Some m)).
  assert (malloc subscription_info_t I0 0%nat s1 = Ok (Some i) (set_heap subscription_info_t (mem_alloc I0 (infos s1)) s1)) as ->.
  { unfold malloc. rewrite (bind_ok _ _ _ _ _ _ (malloc_answer_run 0%nat s1)). pose proof (v_oom _ HI) as Ho. clearbody I0.
    unfold i. destruct s1. cbn in Ho |- *. by subst. }
  assert (∀ q, info_at (set_heap subscription_info_t (mem_alloc I0 (infos s1)) s1) q = if decide (i = q) then Some I0 else info_at s1 q) as Hput.
  { intros q. unfold info_at. cbn. by rewrite lookup_insert. }
  set (s2 := set_heap _ _ _) in *.
  assert (∀ q, tasked s1 q → q ≠ i) as Hne.
  { intros q Hq ->. destruct (v_task _ HI i Hq) as [l' Hl']. congruence. }
  assert (∀ q, busy s2 q ↔ busy s1 q) as Hb.
  { intros q. unfold busy. assert (∀ y, owes s1 y → target s2 y = target s1 y) as Ht.
    { intros y Hy%owes_tasked%Hne. unfold target. rewrite Hput. by rewrite decide_False by congruence. }
    split; intros (y & Hy & Hyt); exists y; (split; [done|]); [by rewrite <-Ht|by rewrite Ht]. }
  split.
  - by apply (good_malloc_info s1 i I0).
  - intros n' Hn'. apply Hn; [done|]. split; try done.
    + by destruct Pb.
    + intros q Hq. rewrite Hb. by apply Pt.
    + intros q b Hbq. rewrite Hb. by apply Pl.
    + intros q [Hq1 Hq2]. rewrite Hput in Hq1. case_decide as E; [by rewrite <-E|]. assert (stray s1 q) as Hst%Ps by (by split). done.
    + intros q l' [= <- <-]. rewrite Hput, decide_True by done. split; [|done]. split; [rewrite Hput, decide_True by done; by eexists|].
      intros Hq. by apply (Hne i).
Qed.


Lemma safe_push_task k0 K M h fs ls cls xs n os todo s i l k :
  pushing (Some (i, l)) K M h fs ls cls xs n os (l :: todo) s → l ∉ todo → l ∈ ls →
  (∀ n' s', (n' < k0)%nat → pushing None K M h fs ls cls xs n (i :: os) todo s' → safe n' 0 (k tt) s') →
  safe k0 0 (threadpool_push_task (Some i) ≫= k) s.
Proof.
  intros HK Hni Hl Hn. eapply safe_do; [apply pushing_stable|exact HK|].
  intros s1 HI [Pb Po Pw [Pn Pi] Pt Pl Ps Pnew Pf Pc]. destruct (Pnew i l eq_refl) as [[_ Hnt] Hi].
  apply list_elem_of_lookup in Hl as [j Hj]. destruct (base_sub _ _ _ _ _ _ _ _ j l Pb Hj) as (b & Hb & _).
  set (s2 := set_tasks _ _ _).
  assert (∀ q, owes s2 q ↔ q = i ∨ owes s1 q) as Ho.
  { intros q. unfold owes. cbn. rewrite elem_of_cons. tauto. }
  assert (∀ q, busy s2 q ↔ q = l ∨ busy s1 q) as Hbs.
  { intros q. unfold busy. setoid_rewrite Ho. change (target s2) with (target s1).
    assert (target s1 i = Some l) as Ht by (unfold target; by rewrite Hi). split.
    - intros (y & [->|Hy] & Hyt); [left; congruence|right; by exists y].
    - intros [->|(y & Hy & Hyt)]; [exists i; by split; [left|]|exists y; by split; [right|]]. }
  split.
  - apply (good_push s1 i l); [done|done|done|done|by exists b|]. apply Pt. set_solver.
  - intros n' Hn'. apply Hn; [done|]. split; try done.
    + by destruct Pb.
    + split.
      * apply NoDup_cons. split; [|done]. rewrite Pi. by intros ?%owes_tasked.
      * intros q. by rewrite elem_of_cons, Pi, Ho.
    + intros q Hq. rewrite Hbs. intros [->|Hq2]; [done|]. apply (Pt q); [set_solver|done].
    + intros q b1 Hb1. rewrite Hbs. intros Hq. rewrite (Pl q b1 Hb1) by tauto.
      assert (q ≠ l) by tauto. repeat case_decide; set_solver.
    + intros q [Hq1 Hq2]. assert (q ≠ i ∧ ¬ tasked s1 q) as [Hqi Hqt].
      { split; [intros ->|intros [Hu|Hh]]; apply Hq2; [left; set_solver|left; cbn; set_solver|by right]. }
      assert (stray s1 q) as Hst%Ps by by split. cbn in Hst. congruence.
Qed.

Definition spreading M h fs ls cls xs n (cur : ptr) s : Prop := ∃ os done_ todo, ls = done_ ++ todo ∧ cur = head todo ∧
  length os = length done_ ∧ pushing None (Z.of_nat (length ls)) M h fs ls cls xs n os todo s.

Lemma safe_send_chunks k0 M h fs ls cls xs n s k : n ≠ Z.of_nat (length xs) →
  dll h (first_subscriber M) (last_subscriber M) ls → subscribers_count M = Z.of_nat (length ls) → Z.of_nat (length ls) < 128 →
  pushing None 0 M h fs ls cls xs n [] ls s →
  (∀ n' s' os, (n' < k0)%nat → length os = length ls → pushing None (Z.of_nat (length os)) M h fs ls cls xs n os [] s' → safe n' 0 (k tt) s') →
  safe k0 0 (__send_chunks (Some m) ≫= k) s.
Proof.
  intros Hne Hd Hcount Hlen HK Hn. unfold __send_chunks. assoc.
  eapply safe_push_get; [exact HK|done|]. intros n1 s1 Hn1 HK1. assoc.
  eapply safe_push_get; [exact HK1|done|]. intros n2 s2 Hn2 HK2. assoc. rewrite Hcount, s8_small by lia.
  eapply safe_push_set_flag; [exact HK2|]. intros n3 s3 Hn3 HK3.
  apply (safe_loop (spreading M h fs ls cls xs n)).
  { intros cur s4 s5 (os & dn & todo & E1 & E2 & E3 & HK4) HR HI. exists os, dn, todo. split_and!; try done.
    by eapply pushing_stable. }
  2: { exists [], [], ls. split_and!; try done. by apply dll_first in Hd. }
  clear s HK s1 HK1 s2 HK2 s3 HK3. intros n4 cur s4 Hn4 (os & dn & todo & Els & -> & Hos & HK) IH.
  change (pbind ?p ?f) with (p ≫= f). destruct todo as [|l todo]; cbn [head].
  - cbn. rewrite app_nil_r in Els. subst dn. rewrite <-Hos in HK. eapply safe_mono; [eapply (Hn n4)|]; [lia|exact Hos|exact HK|done].
  - assert (l ∈ ls) as Hl by set_solver. destruct (dll_lookup _ _ _ _ l Hd Hl) as [b0 Hb0].
    assert (l ∉ todo) as Hni.
    { apply dll_NoDup in Hd. rewrite Els, NoDup_app, NoDup_cons in Hd. tauto. }
    rewrite Els in Hd. destruct (dll_links _ _ _ _ _ _ Hd) as (b0' & Hb0' & _ & Hnx). rewrite <-Els in Hd.
    assert (b0' = b0) as -> by congruence. cbn in Hnx. assoc.
    eapply safe_push_sub; [exact HK|exact Hb0|]. intros n5 s5 b Hn5 HK5 _ Hld. rewrite Hld by set_solver. assoc.
    eapply safe_push_count; [exact HK5|]. intros n6 s6 Hn6 HK6. rewrite decide_False by done. assoc.
    eapply safe_push_malloc; [exact HK6|]. intros n7 s7 i Hn7 HK7. assoc.
    eapply safe_push_task; [exact HK7|done|done|]. intros n8 s8 Hn8 HK8. assoc.
    eapply safe_push_sub; [exact HK8|exact Hb0|]. intros n9 s9 b' Hn9 HK9 Hlk _. injection Hlk as -> _. rewrite Hnx.
    cbn. apply IH; [lia|]. exists (i :: os), (dn ++ [l]), todo. split; [by rewrite <-app_assoc|]. split; [done|].
    split; [|done]. rewrite length_app. cbn. lia.
Qed.


(** *** Waiting until all is sent *)

Definition waiting_for M h fs ls cls xs n s : Prop :=
  ∃ os, Z.of_nat (length os) < 128 ∧ pushing None (Z.of_nat (length os)) M h fs ls cls xs n os [] s.
Lemma waiting_for_stable M h fs ls cls xs n : stable 0 (waiting_for M h fs ls cls xs n).
Proof. intros s s' HI HR (os & Hos & HK). exists os. split; [done|]. by eapply pushing_stable. Qed.

Record asleep (awake : bool) M h fs ls cls xs s : Prop := {
  s_base : base None M h fs ls cls xs s;
  s_own : owner s ≠ Some 0%nat;
  s_wait : awake = true → 0%nat ∉ waiters s;
  s_closed : closed s = [];
}.
Lemma asleep_stable awake M h fs ls cls xs : stable 0 (asleep awake M h fs ls cls xs).
Proof.
  intros s s' HI HR [Sb So Sw Sc]. split; [by eapply base_stable|..].
  - intros E. by apply So, (r_owner _ _ _ HR).
  - intros E. by apply (r_run _ _ _ HR), Sw.
  - by destruct (z_store _ _ (r_session _ _ _ HR eq_refl)) as (_ & _ & ->).
Qed.

Lemma put_lock_same s y : mlocks s !! m = Some y → put_lock m y s = s.
Proof. intros Hm. unfold put_lock. rewrite insert_id by done. by destruct s. Qed.

Lemma base_holds lk M h fs ls cls xs s M1 xs1 : base lk M h fs ls cls xs s → manager_at s = Some M1 →
  holds_chunks s M1 xs1 → xs1 = xs.
Proof.
  intros B HM Hx. destruct (base_manager _ _ _ _ _ _ _ _ B) as [x HM2]. assert (M1 = set_flag x M) as -> by congruence.
  eapply holds_chunks_det; [exact Hx|]. exists c, cls. split; [apply B|]. split; [apply B|apply B].
Qed.

Lemma safe_asleep_lock k0 M h fs ls cls xs n s k : asleep true M h fs ls cls xs s →
  (∀ n' s', (n' < k0)%nat → waiting_for M h fs ls cls xs n s' → safe n' 0 (k tt) s') →
  safe k0 0 (manager_lock (Some m) ≫= k) s.
Proof.
  intros HK Hn. eapply safe_do; [apply asleep_stable|exact HK|]. intros s1 HI [B Ho Hw Hc]. specialize (Hw eq_refl).
  destruct (base_manager _ _ _ _ _ _ _ _ B) as [x HM].
  destruct (manager_monitor s1 _ HI HM) as (H & W & Hm & HW & HH & HWs).
  rewrite (on_lock _ _ _ _ Hm). unfold monitor_lock, mutex_lock. cbn [held waiting]. rewrite HWs in Hw.
  destruct H as [j|].
  - apply wait_session. split; [apply (b_lock _ _ _ _ _ _ _ _ B)|]. left. split; [done|]. left. by exists j.
  - destruct (v_flag _ HI HH) as (os & (F1 & F2 & F3 & F4) & _); [by rewrite HM|]. split.
    + apply (good_lock 0 s1 None W (Some 0%nat) W); try done; [right; left; split_and!; [done..|lia]|].
      by intros j [= <-].
    + intros n' Hn'. apply Hn; [done|]. exists os. split; [done|]. split; try done.
      * by apply base_put_lock.
      * by rewrite owner_put_lock.
      * by rewrite waiters_put_lock.
      * intros l Hl. by apply not_elem_of_nil in Hl.
      * intros l b Hb Hq. rewrite decide_False by apply not_elem_of_nil.
        destruct (v_data _ HI l b Hb) as (M1 & xs1 & [HM1 Hx1 Hr1 Hs1 Hd1]).
        rewrite <-(base_holds _ _ _ _ _ _ _ _ _ _ B HM1 Hx1). by apply Hd1.
      * intros i Hi. by destruct (v_infos _ HI Ho i).
Qed.

Lemma safe_manager_wait k0 M h fs ls cls xs n os s k : os ≠ [] → Z.of_nat (length os) < 128 →
  pushing None (Z.of_nat (length os)) M h fs ls cls xs n os [] s →
  (∀ n' s', (n' < k0)%nat → waiting_for M h fs ls cls xs n s' → safe n' 0 (k tt) s') →
  safe k0 0 (manager_wait (Some m) ≫= k) s.
Proof.
  intros Hos Hlen HK Hn. unfold manager_wait. assoc.
  eapply safe_do; [apply pushing_stable|exact HK|].
  intros s1 HI [B Ho Hw [Pn Pi] Pt Pl Ps Pnew Pf Pc].
  destruct (base_manager _ _ _ _ _ _ _ _ B) as [x HM].
  destruct (manager_monitor s1 _ HI HM) as (H & W & Hm & HW & HH & HWs). assert (H = Some 0%nat) as -> by congruence.
  rewrite HWs in Hw. assert (W = []) as -> by (destruct HW as [->| ->]; [done|set_solver]).
  rewrite (on_lock _ _ _ _ Hm). unfold cond_enter. cbn [held waiting]. rewrite decide_True by done.
  cbn [alter list_alter app]. split.
  { apply (good_lock 0 s1 (Some 0%nat) [] None [0%nat]); try done; [by right|by right; right|..].
    - intros j Hj _. rewrite list_elem_of_singleton. done.
    - intros _ _. by exists os.
    - intros _ _. split.
      + intros l b M1 xs1 Hb Hq HM1 Hx1. rewrite (base_holds _ _ _ _ _ _ _ _ _ _ B HM1 Hx1).
        rewrite (Pl l b Hb Hq), decide_False by apply not_elem_of_nil. done.
      + intros i Hi%Ps. done. }
  intros n1 Hn1. change (pbind ?p ?f) with (p ≫= f).
  assert (asleep false M h fs ls cls xs (put_lock m (Monitor None [[0%nat]]) s1)) as HK1.
  { split; [by apply base_put_lock|by rewrite owner_put_lock|done|done]. }
  eapply safe_do; [apply asleep_stable|exact HK1|]. clear s1 HI B Ho Hw Pn Pi Pt Pl Ps Pnew Pf Pc x HM Hm HW HH HWs HK1.
  intros s1 HI [B Ho _ Hc]. destruct (base_manager _ _ _ _ _ _ _ _ B) as [x HM].
  destruct (manager_monitor s1 _ HI HM) as (H & W & Hm & HW & HH & HWs).
  rewrite (on_lock _ _ _ _ Hm). unfold cond_block. cbn [waiting lookup list_lookup]. case_decide as Hin.
  - apply wait_session. split; [apply (b_lock _ _ _ _ _ _ _ _ B)|]. left. split; [done|]. right. by rewrite HWs.
  - rewrite put_lock_same by done. split; [by apply good_refl|]. intros n2 Hn2.
    eapply (safe_asleep_lock _ M h fs ls cls xs n); [|intros n3 s3 Hn3; apply Hn; lia].
    split; [done|done|by rewrite HWs|done].
Qed.

Lemma safe_wait_sent k0 M h fs ls cls xs n s k : waiting_for M h fs ls cls xs n s →
  (∀ n' s', (n' < k0)%nat → pushing None 0 M h fs ls cls xs n [] [] s' → safe n' 0 (k tt) s') →
  safe k0 0 (wait_sent (Some m) ≫= k) s.
Proof.
  intros HK Hn. unfold wait_sent. apply (safe_loop (λ _, waiting_for M h fs ls cls xs n)); [| |done].
  { intros _ s1 s2 HK1 HR HI. by eapply waiting_for_stable. }
  clear s HK. intros n1 [] s Hn1 (os & Hos & HK) IH. change (pbind ?p ?f) with (p ≫= f). assoc.
  eapply safe_push_flag; [exact HK|]. intros n2 s2 Hn2 HK2. case_decide as Hpos.
  - assoc. eapply (safe_manager_wait _ _ _ _ _ _ _ n); [|exact Hos|exact HK2|]; [by destruct os|].
    intros n3 s3 Hn3 HK3. cbn. apply IH; [lia|done].
  - destruct os as [|i os]; [|cbn in Hpos; lia]. cbn. apply Hn; [lia|done].
Qed.


(** *** One chunk from start to end *)

Definition chunk_of (d : list Z) : payload := Payload (Z.of_nat (length d)) 1 d.

Lemma head_first M h ls : dll h (first_subscriber M) (last_subscriber M) ls → ls ≠ [] →
  ∃ l ls' b, ls = l :: ls' ∧ first_subscriber M = Some l ∧ h !! l = Some b.
Proof.
  intros Hd Hne. destruct ls as [|l ls']; [done|]. destruct (dll_lookup _ _ _ _ l Hd) as [b Hb]; [set_solver|].
  apply dll_first in Hd as ->. by exists l, ls', b.
Qed.

Lemma safe_rest_log k0 own M h fs ls cls xs p done_ s k : dll h (first_subscriber M) (last_subscriber M) ls → ls ≠ [] →
  rest own None M h fs ls cls xs p done_ s →
  (∀ n' s', (n' < k0)%nat → rest own None M h fs ls cls xs p done_ s' → safe n' 0 (k tt) s') →
  safe k0 0 (log_first (Some m) ≫= k) s.
Proof.
  intros Hd Hne HK Hn. destruct (head_first _ _ _ Hd Hne) as (l & ls' & b0 & -> & Hf & Hb0). unfold log_first. assoc.
  eapply safe_rest_get; [exact HK|done|]. intros n1 s1 Hn1 HK1. rewrite Hf. assoc.
  destruct fs as [|f fs]; [by pose proof (b_fds _ _ _ _ _ _ _ _ (q_base _ _ _ _ _ _ _ _ _ _ _ HK))|].
  eapply (safe_rest_sub _ _ _ _ _ _ _ _ _ _ _ _ _ 0%nat); [exact HK1|done|done|exact Hb0|].
  intros n2 s2 b Hn2 HK2 _ _. cbn. apply Hn; [lia|done].
Qed.

Lemma safe_push_log k0 K M h fs ls cls xs n os todo s k : dll h (first_subscriber M) (last_subscriber M) ls → ls ≠ [] →
  pushing None K M h fs ls cls xs n os todo s →
  (∀ n' s', (n' < k0)%nat → pushing None K M h fs ls cls xs n os todo s' → safe n' 0 (k tt) s') →
  safe k0 0 (log_first (Some m) ≫= k) s.
Proof.
  intros Hd Hne HK Hn. destruct (head_first _ _ _ Hd Hne) as (l & ls' & b0 & -> & Hf & Hb0). unfold log_first. assoc.
  eapply safe_push_get; [exact HK|done|]. intros n1 s1 Hn1 HK1. rewrite Hf. assoc.
  eapply safe_push_sub; [exact HK1|exact Hb0|]. intros n2 s2 b Hn2 HK2 _ _. cbn. apply Hn; [lia|done].
Qed.

Lemma safe_append k0 M h fs ls cls xs d s k : Z.of_nat (length d) < 2 ^ 64 → Z.of_nat (length xs) + 1 < 2 ^ 31 →
  rest true None M h fs ls cls xs (Z.of_nat (length xs)) [] s →
  (∀ n' s' q, (n' < k0)%nat →
     pushing None 0 M h fs ls (cls ++ [q]) (xs ++ [chunk_of d]) (Z.of_nat (length xs)) [] ls s' → safe n' 0 (k tt) s') →
  safe k0 0 (atomic (ChunkOps.__add_chunk (Some c) (Some d) (Z.of_nat (length d)) 1) ≫= k) s.
Proof.
  intros Hd Hlen HK Hn. eapply safe_do; [apply rest_stable|exact HK|].
  intros s1 HI [B Ho Hi Hl Hs Hf Hc Hgg Hw0]. pose proof B as [Bl Bm Bk Bf Bd Bc Br [Bs Bs2] Bx By Bdk].
  assert (length cls = length xs) as Hcls.
  { destruct Br as (cc & _ & Hat & _). symmetry. by apply (chunks_length _ _ _ _ _ Hat). }
  destruct (add_chunk_run s1 c cls xs d (Z.of_nat (length d)) 1 0%nat) as (s2 & Hs2 & Hr2); [done|lia..|].
  pose proof (v_oom _ HI) as Hoom. change (oom s1) with (manswers s1) in Hr2. rewrite Hoom in Hr2.
  rewrite decide_True in Hr2 by (by split). destruct Hr2 as (q & Hq & Hr2).
  rewrite Z.mul_1_r, Nat2Z.id, firstn_all in Hr2. change (Payload (Z.of_nat (length d)) 1 d) with (chunk_of d) in Hr2.
  pose proof (chunk_op_add _ _ _ _ _ _ _ _ Hs2) as Honly. pose proof (add_chunk_new _ _ _ _ _ _ _ _ Hs2) as Hnew.
  rewrite Hs2. assert (Forall sane (xs ++ [chunk_of d]) ∧ Z.of_nat (length (xs ++ [chunk_of d])) < 2 ^ 31) as Hsane.
  { rewrite length_app. cbn. split; [|lia]. apply Forall_app. split; [done|]. constructor; [|done].
    unfold sane, chunk_of. cbn. lia. }
  split.
  - apply good_chunks; try done. intros l b M1 xs1 Hb HM1 Hx1. exists [chunk_of d].
    rewrite (base_holds _ _ _ _ _ _ _ _ _ _ B HM1 Hx1). exists c, (cls ++ [q]).
    destruct Hx1 as (c1 & cls1 & Hc1 & _). split; [|by split].
    destruct (base_manager _ _ _ _ _ _ _ _ B) as [x HM2]. assert (M1 = set_flag x M) as -> by congruence. done.
  - intros n' Hn'. apply (Hn n' s2 q); [done|]. destruct Honly as (Heq & _ & Hdom).
    assert (∀ q', is_Some (cells (chunks s2) !! q') → q' ∈ cls ++ [q]) as Hdom2.
    { intros q' [Hq'%Bx|E]%Hnew; [set_solver|]. apply elem_of_app. right.
      assert (is_Some (cells (chunks s2) !! q)) as Hq2.
      { destruct Hr2 as (cc & _ & Hat & _). eapply dll_lookup; [apply Hat|]. set_solver. }
      apply Hnew in Hq2 as [Hq2%Bx|E2]; [done|]. rewrite E, E2. set_solver. }
    revert Hr2 Hdom Hdom2. rewrite Heq. generalize (chunks s2) (containers s2) (manswers s2). clear Heq Hnew Hs2 s2.
    intros x y o Hr2 Hdom Hdom2. split; try done.
    + split; try done. intros q' Hq'. by apply By, Hdom.
    + split; [by apply NoDup_nil|]. intros i. split; [by intros ?%not_elem_of_nil|]. by intros ?%Hi.
    + intros l _. by apply idle_quiet.
    + intros l b Hb _. rewrite decide_True; [by apply (Hl l b)|]. apply Bd. by exists b.
    + intros i Hi2. by destruct (Hs i).
    + by apply Hf.
Qed.

Lemma pushing_rest M h fs ls cls xs n s : pushing None 0 M h fs ls cls xs n [] [] s →
  rest true None M h fs ls cls xs (Z.of_nat (length xs)) [] s.
Proof.
  intros [Pb Po Pw [Pn Pi] Pt Pl Ps Pnew Pf Pc].
  assert (∀ i, ¬ owes s i) as Hi by (intros i Hi%Pi; by apply not_elem_of_nil in Hi). split; try done.
  - intros l b Hb. rewrite (Pl l b Hb), decide_False; [done|apply not_elem_of_nil|by apply idle_quiet].
  - intros i Hi2%Ps. done.
  - intros f Hf. by apply not_elem_of_nil in Hf.
Qed.

Lemma safe_add_chunk k0 M h fs ls cls xs d s k : dll h (first_subscriber M) (last_subscriber M) ls → ls ≠ [] →
  subscribers_count M = Z.of_nat (length ls) → Z.of_nat (length ls) < 128 →
  Z.of_nat (length d) < 2 ^ 64 → Z.of_nat (length xs) + 1 < 2 ^ 31 →
  rest false None M h fs ls cls xs (Z.of_nat (length xs)) [] s →
  (∀ n' s' cls', (n' < k0)%nat →
     rest false None M h fs ls cls' (xs ++ [chunk_of d]) (Z.of_nat (length (xs ++ [chunk_of d]))) [] s' → safe n' 0 (k tt) s') →
  safe k0 0 (add_chunk (Some m) d (Z.of_nat (length d)) 1 ≫= k) s.
Proof.
  intros Hd Hne Hcount Hlen Hbd Hxs HK Hn. unfold add_chunk. assoc.
  eapply safe_rest_log; [exact Hd|exact Hne|exact HK|]. intros n1 s1 Hn1 HK1. assoc.
  eapply safe_rest_lock; [exact HK1|]. intros n2 s2 Hn2 HK2. assoc.
  eapply safe_rest_log; [exact Hd|exact Hne|exact HK2|]. intros n3 s3 Hn3 HK3. assoc.
  eapply safe_rest_log; [exact Hd|exact Hne|exact HK3|]. intros n4 s4 Hn4 HK4. assoc.
  eapply safe_rest_get; [exact HK4|done|]. intros n5 s5 Hn5 HK5. assoc.
  rewrite (b_container _ _ _ _ _ _ _ _ (q_base _ _ _ _ _ _ _ _ _ _ _ HK5)).
  eapply safe_append; [exact Hbd|exact Hxs|exact HK5|]. intros n6 s6 q Hn6 HK6. assoc.
  eapply safe_push_log; [exact Hd|exact Hne|exact HK6|]. intros n7 s7 Hn7 HK7. assoc.
  eapply safe_push_log; [exact Hd|exact Hne|exact HK7|]. intros n8 s8 Hn8 HK8. assoc.
  eapply safe_send_chunks; [|exact Hd|exact Hcount|exact Hlen|exact HK8|]; [rewrite length_app; cbn; lia|].
  intros n9 s9 os Hn9 Hos HK9. assoc.
  eapply safe_push_log; [exact Hd|exact Hne|exact HK9|]. intros n10 s10 Hn10 HK10. assoc.
  eapply safe_push_log; [exact Hd|exact Hne|exact HK10|]. intros n11 s11 Hn11 HK11. assoc.
  eapply safe_wait_sent; [exists os; split; [lia|exact HK11]|]. intros n12 s12 Hn12 HK12. assoc.
  apply pushing_rest in HK12.
  eapply safe_rest_log; [exact Hd|exact Hne|exact HK12|]. intros n13 s13 Hn13 HK13. assoc.
  eapply safe_rest_unlock; [exact HK13|]. intros n14 s14 Hn14 _ HK14.
  eapply safe_rest_log; [exact Hd|exact Hne|exact HK14|]. intros n15 s15 Hn15 HK15.
  eapply Hn; [|exact HK15]. lia.
Qed.

Lemma content_app xs ys : content (xs ++ ys) = content xs ++ content ys.
Proof. unfold content. by rewrite fmap_app, concat_app. Qed.
Lemma content_blocks blocks : content (chunk_of <$> blocks) = concat blocks.
Proof. unfold content. f_equal. induction blocks as [|d blocks IH]; [done|]. cbn. by f_equal. Qed.

Lemma safe_add_blocks k0 M h fs ls cls blocks xs s k : dll h (first_subscriber M) (last_subscriber M) ls → ls ≠ [] →
  subscribers_count M = Z.of_nat (length ls) → Z.of_nat (length ls) < 128 →
  Forall (λ d, Z.of_nat (length d) < 2 ^ 64) blocks → Z.of_nat (length xs + length blocks) < 2 ^ 31 →
  rest false None M h fs ls cls xs (Z.of_nat (length xs)) [] s →
  (∀ n' s' cls' (ys := xs ++ (chunk_of <$> blocks)), (n' ≤ k0)%nat →
     rest false None M h fs ls cls' ys (Z.of_nat (length ys)) [] s' → safe n' 0 (k tt) s') →
  safe k0 0 (add_blocks (Some m) blocks ≫= k) s.
Proof.
  intros Hd Hne Hcount Hlen. revert k0 cls xs s. induction blocks as [|d blocks IH]; intros k0 cls xs s Hbs Hxs HK Hn.
  - cbn [add_blocks foldr]. change (mret tt ≫= ?f) with (f tt). apply (Hn k0 s cls); [done|].
    cbn. by rewrite app_nil_r.
  - apply Forall_cons in Hbs as [Hbd Hbs]. unfold add_blocks. cbn [foldr]. cbn in Hxs. assoc.
    eapply (safe_add_chunk _ _ _ _ _ cls xs); [exact Hd|exact Hne|exact Hcount|exact Hlen|exact Hbd|lia|exact HK|].
    intros n1 s1 cls' Hn1 HK1. apply (IH n1 cls' (xs ++ [chunk_of d]) s1); [done| |exact HK1|].
    + rewrite length_app. cbn. lia.
    + intros n2 s2 cls2 ys Hn2 HK2. subst ys. rewrite <-app_assoc in HK2. apply (Hn n2 s2 cls2); [lia|exact HK2].
Qed.

Lemma safe_closing k0 M h ls cls xs s : content xs = stream → dk = saved →
  dll h (first_subscriber M) (last_subscriber M) ls → rest false None M h fds ls cls xs (Z.of_nat (length xs)) [] s →
  safe k0 0 (finish_pending_chunks (Some m);; destroy_subscription_manager (Some m)) s.
Proof.
  intros Hst Hdk Hd HK. eapply safe_finish_pending; [exact Hst|exact HK|exact Hd|].
  intros n1 s1 M' h' Hn1 HK1 Hf. by eapply safe_destroy.
Qed.

(** *** The cache *)

(** An action that only looks at the files *)
Lemma safe_rest_file {A} k0 own lk M h fs ls cls xs n done_ s (act : C mstate A) (a : A) k :
  (∀ s', disk s' = dk → act 0%nat s' = Ok a s') → rest own lk M h fs ls cls xs n done_ s →
  (∀ n' s', (n' < k0)%nat → rest own lk M h fs ls cls xs n done_ s' → safe n' 0 (k a) s') →
  safe k0 0 (atomic act ≫= k) s.
Proof.
  intros Hact HK Hn. eapply (safe_read _ _ _ _ _ _ (λ b, b = a)); [apply rest_stable|exact HK|..].
  - intros s1 _ HK1. exists a. split; [|done]. apply Hact. apply (b_disk _ _ _ _ _ _ _ _ (q_base _ _ _ _ _ _ _ _ _ _ _ HK1)).
  - intros n1 s1 b Hn1 HK1 ->. by apply Hn.
Qed.

Lemma safe_cache_exists k0 M h fs ls cls xs n s name k : (length name < CACHENAME_LEN)%nat →
  rest false None M h fs ls cls xs n [] s →
  (∀ n' s', (n' < k0)%nat → rest false None M h fs ls cls xs n [] s' →
     safe n' 0 (k (if decide (is_Some (stored dk !! full_of name)) then 0 else -1)) s') →
  safe k0 0 (cache_exists (Some name) ≫= k) s.
Proof.
  intros Hname HK Hn. unfold cache_exists. assoc.
  eapply safe_rest_file; [intros s1 _; by apply full_cachename_run|exact HK|]. intros n1 s1 Hn1 HK1. cbv beta.
  eapply safe_rest_file; [intros s2 Hdk; unfold stat, gets; by rewrite Hdk|exact HK1|]. intros n2 s2 Hn2 HK2.
  apply Hn; [lia|done].
Qed.

(** One round of a loop *)
Lemma safe_round {X Y} k0 M h fs ls cls xs n s (body : X → prog mstate (X + Y)) x k :
  rest false None M h fs ls cls xs n [] s →
  (∀ n' s', (n' < k0)%nat → rest false None M h fs ls cls xs n [] s' →
     safe n' 0 (body x ≫= (λ r, match r with inl x' => Loop body x' k | inr y => k y end)) s') →
  safe k0 0 (Loop body x k) s.
Proof.
  intros HK Hn. destruct k0 as [|k0]; [done|]. intros s1 HI HR. split; [done|]. split; [intros j _; apply R_refl|].
  apply Hn; [lia|]. by eapply rest_stable.
Qed.

Lemma safe_share_cache k0 M h fs ls cls s name bytes k : dll h (first_subscriber M) (last_subscriber M) ls → ls ≠ [] →
  subscribers_count M = Z.of_nat (length ls) → Z.of_nat (length ls) < 128 →
  (length name < CACHENAME_LEN)%nat → stored dk !! full_of name = Some bytes → Z.of_nat (length bytes) < 2 ^ 31 →
  rest false None M h fs ls cls [] 0 [] s →
  (∀ n' s' cls' xs, (n' < k0)%nat → content xs = bytes →
     rest false None M h fs ls cls' xs (Z.of_nat (length xs)) [] s' → safe n' 0 (k tt) s') →
  safe k0 0 (share_cache (Some m) (Some name) ≫= k) s.
Proof.
  intros Hd Hne Hcount Hlen Hname Hfile Hbytes HK Hn. unfold share_cache. assoc.
  eapply safe_rest_file; [intros s1 _; by apply full_cachename_run|exact HK|]. intros n1 s1 Hn1 HK1. cbv beta. assoc.
  eapply safe_rest_file; [intros s2 Hdk; unfold fopen_rb, gets; by rewrite Hdk, Hfile|exact HK1|].
  intros n2 s2 Hn2 HK2. cbn [negb]. change (bool_decide _) with true. cbn [negb].
  match goal with |- safe _ _ (Loop ?b 0%nat Ret ≫= k) _ => set (body := b) end.
  change (Loop body 0%nat Ret ≫= k) with (Loop body 0%nat k).
  assert (∀ r pos n' s' cls' xs, (n' ≤ n2)%nat → r = (length bytes - pos)%nat → (pos ≤ length bytes)%nat → (length xs ≤ pos)%nat →
    content xs = take pos bytes → rest false None M h fs ls cls' xs (Z.of_nat (length xs)) [] s' →
    safe n' 0 (Loop body pos k) s') as Hloop.
  2: { apply (Hloop (length bytes) 0%nat n2 s2 cls []); [lia|lia|lia|done|done|exact HK2]. }
  clear HK HK1 HK2. intros r. induction (lt_wf r) as [r _ IH].
  intros pos n3 s3 cls3 xs Hn3 Hr Hpos Hxs Hc HK. eapply safe_round; [exact HK|]. intros n4 s4 Hn4 HK4. unfold body at 1. cbv beta. assoc.
  eapply (safe_rest_file _ _ _ _ _ _ _ _ _ _ _ _ _ (take CACHE_BUFFER_SIZE (drop pos bytes)));
    [intros s5 Hdk; unfold fread, gets; by rewrite Hdk, Hfile|exact HK4|].
  intros n5 s5 Hn5 HK5. case_decide as Hz.
  - change (mret (inr tt) ≫= ?f) with (f (inr tt : nat + unit)). cbv beta iota.
    apply (Hn n5 s5 cls3 xs); [lia| |exact HK5]. rewrite Hc. apply take_ge.
    rewrite length_take, length_drop in Hz. unfold CACHE_BUFFER_SIZE in Hz. lia.
  - match goal with |- safe ?n ?t (_ ?p ?f) ?s => change (safe n t (p ≫= f) s) end. assoc.
    set (d := take CACHE_BUFFER_SIZE (drop pos bytes)) in *.
    assert (length d ≤ length bytes - pos)%nat as Hdl.
    { unfold d. rewrite length_take, length_drop. lia. }
    eapply (safe_add_chunk _ _ _ _ _ cls3 xs); [exact Hd|exact Hne|exact Hcount|exact Hlen|lia|lia|exact HK5|].
    intros n6 s6 cls6 Hn6 HK6. change (mret (inl ?x) ≫= ?f) with (f (inl x : nat + unit)). cbv beta iota.
    apply (IH (length bytes - (pos + length d))%nat ltac:(lia) (pos + length d)%nat n6 s6 cls6 (xs ++ [chunk_of d])); [lia|done|lia| | |exact HK6].
    + rewrite length_app. change (length [chunk_of d]) with 1%nat. lia.
    + rewrite content_app, Hc. unfold content at 1. cbn. rewrite app_nil_r. unfold d.
      rewrite take_take_drop, length_take, length_drop. unfold CACHE_BUFFER_SIZE.
      destruct (Nat.min_spec 4048 (length bytes - pos)) as [[_ ->]|[? ->]]; [done|]. by rewrite !take_ge by lia.
Qed.

End session.

(** ** Saving a download *)

(** The response that is sent, and the files after the session *)
Definition response (d : disk_t) (name : list Z) (blocks : list (list Z)) : list Z :=
  default (concat blocks) (stored d !! full_of name).
Definition files_after (d : disk_t) (name : list Z) (blocks : list (list Z)) (success : bool) : disk_t :=
  match stored d !! full_of name with
  | Some _ => d
  | None => if success && writable d then put_file (full_of name) (concat blocks) d else d
  end.

Section save.
Context (c : positive).

Lemma rest_disk dk d own lk M h fs ls cls xs n done_ s :
  rest c dk own lk M h fs ls cls xs n done_ s → rest c d own lk M h fs ls cls xs n done_ (set_disk d s).
Proof. intros [[] ? ? ? ? ? ? ? ?]. by split. Qed.

(** A step of the files from [dk] to [d] *)
Lemma safe_rest_disk {A} k0 dk d own lk M h fs ls cls xs n done_ s (act : C mstate A) (a : A) k :
  (∀ s', disk s' = dk → act 0%nat s' = Ok a (set_disk d s')) → rest c dk own lk M h fs ls cls xs n done_ s →
  (∀ n' s', (n' < k0)%nat → rest c d own lk M h fs ls cls xs n done_ s' → safe n' 0 (k a) s') →
  safe k0 0 (atomic act ≫= k) s.
Proof.
  intros Hact HK Hn. eapply safe_do; [apply rest_stable|exact HK|]. intros s1 HI HK1.
  rewrite Hact by apply (b_disk _ _ _ _ _ _ _ _ _ _ (q_base _ _ _ _ _ _ _ _ _ _ _ _ _ HK1)).
  split; [by apply good_disk|]. intros n1 Hn1. apply Hn; [done|]. by eapply rest_disk.
Qed.

(** The chunk at the index [x], and what it leads to *)
Lemma safe_rest_chunk {A} k0 dk own lk M h fs ls cls xs n done_ s (field : chunk_t → A) x q k :
  rest c dk own lk M h fs ls cls xs n done_ s → cls !! x = Some q →
  (∀ n' s' ck, (n' < k0)%nat → rest c dk own lk M h fs ls cls xs n done_ s' →
     xs !! x = Some (payload_of ck) → chunk_next ck = cls !! Datatypes.S x → safe n' 0 (k (field ck)) s') →
  safe k0 0 (Act (load chunk_t (Some q)) (λ ck, Ret (field ck)) ≫= k) s.
Proof.
  intros HK Hq Hn. eapply (safe_read _ _ _ _ _ _ (λ ck, xs !! x = Some (payload_of ck) ∧ chunk_next ck = cls !! Datatypes.S x));
    [apply rest_stable|exact HK|..].
  - intros s1 _ HK1. destruct (b_repr _ _ _ _ _ _ _ _ _ _ (q_base _ _ _ _ _ _ _ _ _ _ _ _ _ HK1)) as (cc & Hcc & Hat & _).
    destruct (chunks_lookup _ _ _ _ _ _ _ Hat Hq) as (ck & Hck & _ & Hx & Hnx & _). exists ck.
    split; [by apply (@load_ok _ _ chunks_heap)|]. split; [done|]. rewrite Hnx. f_equal. lia.
  - intros n1 s1 ck Hn1 HK1 [Hx Hnx]. by apply Hn.
Qed.

Lemma safe_rest_first k0 dk own lk M h fs ls cls xs n done_ s k : rest c dk own lk M h fs ls cls xs n done_ s →
  (∀ n' s', (n' < k0)%nat → rest c dk own lk M h fs ls cls xs n done_ s' → safe n' 0 (k (head cls)) s') →
  safe k0 0 (Act (load chunk_container_t (Some c)) (λ c, Ret (first c)) ≫= k) s.
Proof.
  intros HK Hn. eapply (safe_read _ _ _ _ _ _ (λ cc, first cc = head cls)); [apply rest_stable|exact HK|..].
  - intros s1 _ HK1. destruct (b_repr _ _ _ _ _ _ _ _ _ _ (q_base _ _ _ _ _ _ _ _ _ _ _ _ _ HK1)) as (cc & Hcc & Hat & _).
    exists cc. split; [by apply (@load_ok _ _ containers_heap)|]. apply (dll_first _ _ _ _ (chunks_dll _ _ _ _ _ Hat)).
  - intros n1 s1 cc Hn1 HK1 Hf. cbn. rewrite Hf. by apply Hn.
Qed.

Lemma safe_save_cache k0 dk M h fs ls cls xs n s name k : (length name < CACHENAME_LEN)%nat →
  rest c dk false None M h fs ls cls xs n [] s →
  (∀ n' s', (n' < k0)%nat →
     rest c (if writable dk then put_file (full_of name) (content xs) dk else dk) false None M h fs ls cls xs n [] s' →
     safe n' 0 (k tt) s') →
  safe k0 0 (save_cache (Some m) (Some name) ≫= k) s.
Proof.
  intros Hname HK Hn. unfold save_cache. assoc. set (full := full_of name) in *.
  eapply safe_rest_file; [intros s1 _; by apply full_cachename_run|exact HK|]. intros n1 s1 Hn1 HK1. cbv beta. assoc.
  destruct (writable dk) eqn:Hw.
  2: { eapply (safe_rest_file _ _ _ _ _ _ _ _ _ _ _ _ _ _ _ false); [|exact HK1|].
       - intros s2 Hdk. unfold fopen_wb. rewrite Hdk, Hw. done.
       - intros n2 s2 Hn2 HK2. cbn [negb]. apply Hn; [lia|done]. }
  eapply (safe_rest_disk _ _ (put_file full [] dk) _ _ _ _ _ _ _ _ _ _ _ _ true); [|exact HK1|].
  { intros s2 Hdk. unfold fopen_wb. by rewrite Hdk, Hw. }
  intros n2 s2 Hn2 HK2. cbn [negb]. assoc.
  eapply safe_rest_get; [exact HK2|done|]. intros n3 s3 Hn3 HK3.
  rewrite (b_container _ _ _ _ _ _ _ _ _ _ (q_base _ _ _ _ _ _ _ _ _ _ _ _ _ HK3)). assoc.
  eapply safe_rest_first; [exact HK3|]. intros n4 s4 Hn4 HK4.
  match goal with |- safe _ _ (Loop ?b (head cls) Ret ≫= k) _ => set (body := b) end.
  change (Loop body (head cls) Ret ≫= k) with (Loop body (head cls) k).
  assert (∀ r x n' s', (n' ≤ n4)%nat → (x + r = length cls)%nat →
    rest c (put_file full (content (take x xs)) dk) false None M h fs ls cls xs n [] s' →
    safe n' 0 (Loop body (cls !! x) k) s') as Hloop.
  2: { replace (head cls) with (cls !! 0%nat) by (by destruct cls). by apply (Hloop (length cls)). }
  clear HK HK1 HK2 HK3 HK4. intros r. induction r as [|r IH]; intros x n5 s5 Hn5 Hx HK.
  - rewrite (lookup_ge_None_2 cls x) by lia. eapply safe_round; [exact HK|]. intros n6 s6 Hn6 HK6. unfold body at 1.
    change (mret (inr tt) ≫= ?f) with (f (inr tt : ptr + unit)). cbv beta iota. apply Hn; [lia|].
    rewrite take_ge in HK6; [exact HK6|].
    destruct (b_repr _ _ _ _ _ _ _ _ _ _ (q_base _ _ _ _ _ _ _ _ _ _ _ _ _ HK6)) as (cc & _ & Hat & _).
    rewrite (chunks_length _ _ _ _ _ Hat). lia.
  - destruct (lookup_lt_is_Some_2 cls x) as [q Hq]; [lia|]. rewrite Hq.
    eapply safe_round; [exact HK|]. intros n6 s6 Hn6 HK6. unfold body at 1. cbv beta iota. assoc.
    eapply safe_rest_chunk with (field := λ ck, ck); [exact HK6|exact Hq|]. intros n7 s7 ck Hn7 HK7 Hxq _. cbv beta. assoc.
    destruct (b_sane _ _ _ _ _ _ _ _ _ _ (q_base _ _ _ _ _ _ _ _ _ _ _ _ _ HK7)) as [Hs _].
    destruct (Forall_lookup_1 _ _ _ _ Hs Hxq) as [Hsz _]. cbn in Hsz.
    eapply (safe_rest_disk _ _ (put_file full (content (take (Datatypes.S x) xs)) dk) _ _ _ _ _ _ _ _ _ _ _ _ tt); [|exact HK7|].
    { intros s8 Hdk. unfold fwrite. rewrite Hdk, Hsz, decide_True by lia.
      rewrite Nat2Z.id, firstn_all, put_file_stored, put_file_put. cbn [default id].
      by rewrite (content_snoc _ _ _ Hxq). }
    intros n8 s8 Hn8 HK8. cbv beta. assoc.
    eapply safe_rest_chunk; [exact HK8|exact Hq|]. intros n9 s9 ck2 Hn9 HK9 _ Hnx.
    change (mret (inl ?x) ≫= ?f) with (f (inl x : ptr + unit)). cbv beta iota. rewrite Hnx.
    apply IH; [lia|lia|exact HK9].
Qed.

(** *** A session *)

Lemma session_safe k0 dk M h ls cls name blocks success s :
  dll h (first_subscriber M) (last_subscriber M) ls → ls ≠ [] →
  subscribers_count M = Z.of_nat (length ls) → Z.of_nat (length ls) < 128 →
  Forall (λ d, Z.of_nat (length d) < 2 ^ 64) blocks → Z.of_nat (length blocks) < 2 ^ 31 →
  (length name < CACHENAME_LEN)%nat → Z.of_nat (length (default [] (stored dk !! full_of name))) < 2 ^ 31 →
  response dk name blocks = stream → files_after dk name blocks success = saved →
  rest c dk false None M h fds ls cls [] 0 [] s →
  safe k0 0 (session (Some m) (Some name) blocks success) s.
Proof.
  intros Hd Hne Hcount Hlen Hbs Hblocks Hname Hfile Hst Hsaved HK. unfold session, response, files_after in *.
  eapply safe_cache_exists; [exact Hname|exact HK|]. intros n1 s1 Hn1 HK1.
  destruct (stored dk !! full_of name) as [bytes|] eqn:Hb.
  - rewrite (decide_False (P := _ ≠ 0)) by (rewrite decide_True; [lia|by eexists]).
    eapply safe_share_cache; [exact Hd|exact Hne|exact Hcount|exact Hlen|exact Hname|exact Hb|exact Hfile|exact HK1|].
    intros n2 s2 cls' xs Hn2 Hxs HK2. apply (safe_closing _ _ _ _ _ _ _ _ _ (eq_trans Hxs Hst) Hsaved Hd HK2).
  - rewrite (decide_True (P := _ ≠ 0)) by (rewrite decide_False; [lia|by intros []]). assoc.
    eapply (safe_add_blocks _ _ _ _ _ _ _ _ blocks []); [exact Hd|exact Hne|exact Hcount|exact Hlen|exact Hbs|exact Hblocks|exact HK1|].
    intros n2 s2 cls' ys Hn2 HK2. cbn in HK2. subst ys. cbn [app] in HK2.
    assert (content (chunk_of <$> blocks) = concat blocks) as Hc by apply content_blocks.
    destruct success; cbn [andb] in Hsaved.
    + eapply safe_save_cache; [exact Hname|exact HK2|]. intros n3 s3 Hn3 HK3. rewrite Hc, Hsaved in HK3.
      apply (safe_closing _ _ _ _ _ _ _ _ _ (eq_trans Hc Hst) eq_refl Hd HK3).
    + change (mret tt ≫= ?f) with (f tt). cbv beta.
      apply (safe_closing _ _ _ _ _ _ _ _ _ (eq_trans Hc Hst) Hsaved Hd HK2).
Qed.
End save.

(** * All threads together *)

Lemma wakeups_safe n s : safe n N (spurious_wakeups m) s.
Proof.
  unfold spurious_wakeups, forever. apply (safe_loop (λ _ _, True)); [done| |done]. clear s. intros n1 [] s Hn1 _ IH.
  eapply (safe_do _ _ _ _ _ (λ _, True)); [done|done|]. intros s1 HI _. split; [|intros n2 Hn2; cbn; apply IH; [lia|done]].
  destruct (manager_at s1) as [M|] eqn:HM.
  - destruct (manager_monitor s1 M HI HM) as (H & W & Hm & HW & Ho & HWs).
    rewrite (alter_insert_some _ _ _ _ Hm). cbn [held waiting fmap list_fmap].
    apply (good_lock N s1 H W H []); try done; [by left|by left|intros; apply not_elem_of_nil|intros _ _; apply list_subseteq_nil|intros; apply not_elem_of_nil|..].
    + intros -> Hmm. destruct (v_flag _ HI Ho Hmm) as (os & Hos & _). exists os. split; [done|].
      by intros ?%not_elem_of_nil.
    + intros -> E. done.
    + intros -> E. done.
  - pose proof (v_manager _ HI) as Hv. rewrite HM in Hv. destruct Hv as [Hm _].
    replace (alter _ m (mlocks s1)) with (mlocks s1).
    + replace (set_mlocks (mlocks s1) s1) with s1; [by apply good_refl|by destruct s1].
    + apply map_eq. intros q. rewrite lookup_alter. case_decide; [subst; by rewrite Hm|done].
Qed.

(** When the session and all workers wait, none can be woken; when the session is
    over, the workers have nothing left. *)
Lemma workers_free s w : inv s → (∀ j, (1 ≤ j < N)%nat → waits j s) → owner s ≠ Some w → (1 ≤ w < N)%nat →
  (∀ k, owner s ≠ Some k) → locks_none w s.
Proof.
  intros HI Hall _ Hw Ho. specialize (Hall w Hw). unfold waits in Hall. rewrite decide_False in Hall by lia.
  destruct Hall as (_ & [(_ & _ & Hl)|(_ & [[k Hk]|[Hl _]])]); [done|by destruct (Ho k)|done].
Qed.

Lemma owner_not_worker s k : inv s → (∀ j, (1 ≤ j < N)%nat → waits j s) → owner s = Some k → k = 0%nat.
Proof.
  intros HI Hall Ho. destruct (decide (k = 0%nat)) as [|Hne]; [done|].
  destruct (v_owner _ HI k Ho) as [Hk _]. specialize (Hall k ltac:(lia)). unfold waits in Hall.
  rewrite decide_False in Hall by done. by destruct Hall.
Qed.

Lemma workers_idle s : inv s → (∀ j, (1 ≤ j < N)%nat → waits j s) → owner s = None → locks_none 0 s →
  uploads s = [] ∧ ∀ i, ¬ owes s i.
Proof.
  intros HI Hall Ho H0.
  assert (∀ l b j, sub_at s l = Some b → lock b ≠ Some j) as Hnl.
  { intros l b j Hb Hk. pose proof (v_lock _ HI l b j Hb Hk) as Hj. destruct (decide (j = 0%nat)) as [->|Hne]; [by apply (H0 l b)|].
    apply (workers_free s j HI Hall) with l b; try done; [by rewrite Ho|lia|by rewrite Ho]. }
  assert (∀ j, (1 ≤ j < N)%nat → hand s !! j = None ∧ uploads s = []) as Hidle.
  { intros j Hj. pose proof (Hall j Hj) as Hw. unfold waits in Hw. rewrite decide_False in Hw by lia.
    destruct Hw as (_ & [(Hh & Hu & _)|(_ & [[k Hk]|[_ (l & b & k & Hb & Hk & _)]])]); [done|congruence|].
    by destruct (Hnl l b k). }
  destruct (Hidle 1%nat) as [_ Hu]; [lia|]. split; [done|]. intros i [Hi|[w Hw]].
  - rewrite Hu in Hi. by apply not_elem_of_nil in Hi.
  - destruct (v_hand _ HI w i true Hw) as [Hwn _]. destruct (Hidle w Hwn). congruence.
Qed.

Lemma session_not_stuck s : inv s → (∀ j, (1 ≤ j < N)%nat → waits j s) → ¬ session_waits s.
Proof.
  intros HI Hall (H0 & [[Ho Hw]|(Ho & Hno & l & b & k & Hb & Hk & Hne)]).
  - destruct (owner s) as [k|] eqn:Hk; [by rewrite (owner_not_worker s k HI Hall Hk) in Ho|].
    destruct Hw as [[k Hk2]|Hw]; [done|]. destruct (workers_idle s HI Hall Hk H0) as [_ Hno].
    destruct (manager_at s) as [M|] eqn:HM.
    + destruct (v_flag _ HI Hk) as (os & (_ & Hos & _) & Hne); [by rewrite HM|].
      destruct os as [|i os]; [by apply (Hne Hw)|]. apply (Hno i), Hos. set_solver.
    + pose proof (v_manager _ HI) as Hv. rewrite HM in Hv. destruct Hv as [Hm _]. unfold waiters in Hw.
      rewrite Hm in Hw. by apply not_elem_of_nil in Hw.
  - pose proof (v_lock _ HI l b k Hb Hk) as HkN. pose proof (Hall k ltac:(lia)) as Hw. unfold waits in Hw.
    rewrite decide_False in Hw by done. destruct Hw as (_ & [(_ & _ & Hl)|([i Hi] & _)]); [by apply (Hl l b)|].
    apply (Hno i). right. by exists k.
Qed.

Lemma session_over s : inv s → (∀ j, (1 ≤ j < N)%nat → waits j s) → owner s ≠ Some 0%nat → ended s →
  uploads s = [] ∧ ∀ i, info_at s i = None.
Proof.
  intros HI Hall Ho (HM & Hs & _). assert (owner s = None) as Hon.
  { destruct (owner s) as [k|] eqn:Hk; [|done]. by rewrite (owner_not_worker s k HI Hall Hk) in Ho. }
  destruct (workers_idle s HI Hall Hon) as [Hu Hno]; [intros l b Hb; by rewrite Hs in Hb|]. split; [done|].
  intros i. apply eq_None_not_Some. intros Hi. apply (v_infos _ HI Ho i). split; [done|]. intros [Hu2|(w & b & Hh)].
  - rewrite Hu in Hu2. by apply not_elem_of_nil in Hu2.
  - destruct (v_hand _ HI w i b Hh) as [Hw _]. specialize (Hall w Hw). unfold waits in Hall.
    rewrite decide_False in Hall by lia. destruct Hall as (_ & [(Hh2 & _)|([i2 Hi2] & _)]); [congruence|].
    apply (Hno i2). right. by exists w.
Qed.

Lemma upload_sound c s0 M h ls name blocks success workers : N = Datatypes.S workers → inv s0 →
  rest c (disk s0) false None M h fds ls [] [] 0 [] s0 → dll h (first_subscriber M) (last_subscriber M) ls → ls ≠ [] →
  subscribers_count M = Z.of_nat (length ls) → Z.of_nat (length ls) < 128 →
  Forall (λ d, Z.of_nat (length d) < 2 ^ 64) blocks → Z.of_nat (length blocks) < 2 ^ 31 →
  (length name < CACHENAME_LEN)%nat → Z.of_nat (length (default [] (stored (disk s0) !! full_of name))) < 2 ^ 31 →
  response (disk s0) name blocks = stream → files_after (disk s0) name blocks success = saved →
  owner s0 = None → hand s0 = ∅ → (∀ w, locks_none w s0) →
  ∀ s ths, steps (s0, upload_threads m (Some name) blocks success workers) (s, ths) →
    (∀ e, ¬ faulty (s, ths) e) ∧
    (can_move N (s, ths) ∨ ths !! 0%nat = Some (Ret tt) ∧ ended s ∧ uploads s = [] ∧ ∀ i, info_at s i = None).
Proof.
  intros HN HI HK Hd Hne Hcount Hlen Hbs Hblocks Hname Hfile Hst Hsaved Ho Hh Hl s ths Hsteps.
  assert (all_safe (s0, upload_threads m (Some name) blocks success workers)) as Hsafe.
  { split; [exact HI|]. cbn [fst snd]. intros n i p Hp. cbn in Hp. destruct i as [|i].
    - injection Hp as <-. by apply (session_safe c n (disk s0) M h ls []).
    - cbn in Hp. apply lookup_app_Some in Hp as [[-> Hw]%lookup_replicate|[Hge Hp]].
      + apply upload_worker_safe; [lia|]. split; [by rewrite Ho|by rewrite Hh|apply Hl].
      + rewrite length_replicate in Hge, Hp. apply list_lookup_singleton_Some in Hp as [Hi <-].
        replace (Datatypes.S i) with N by lia. apply wakeups_safe. }
  destruct (rg_sound _ _ Hsafe Hsteps) as (HI' & Hok & Hblock). cbn [fst snd] in *.
  pose proof (steps_length _ _ Hsteps) as Hlth. cbn in Hlth. rewrite length_app, length_replicate in Hlth. cbn in Hlth.
  split; [intros e He; by apply (Hok e)|].
  destruct (can_move_or_blocked N (s, ths)) as [|Hall]; [cbn; lia|by left|right]. cbn [fst snd] in Hall.
  assert (∀ j, (j < N)%nat → ∃ p, ths !! j = Some p ∧ match p with Ret _ => fin j s | _ => waits j s end) as Hrest.
  { intros j Hj. destruct (lookup_lt_is_Some_2 ths j) as [p Hp]; [lia|]. exists p. split; [done|].
    apply (Hblock j p Hp). by apply Hall. }
  assert (∀ j, (1 ≤ j < N)%nat → waits j s) as Hw.
  { intros j Hj. destruct (Hrest j) as (p & _ & Hp); [lia|]. destruct p; [|done..]. destruct Hp as [-> _]. lia. }
  destruct (Hrest 0%nat) as (p & Hp & Hp2); [lia|]. destruct p as [[]|? ? ?|? ? ? ?].
  - destruct Hp2 as (_ & Hno & He). split; [done|]. split; [done|]. by apply session_over.
  - by destruct (session_not_stuck s HI' Hw).
  - by destruct (session_not_stuck s HI' Hw).
Qed.

End broadcast.

(** * The start *)

Lemma joins_run n fds t : ∀ s fs, manager_repr s 1 fs →
  ∃ s', run n (clients (Some 1%positive) (Join <$> fds)) t s = Ok tt s' ∧ manager_repr s' 1 (fs ++ fds) ∧
    closed s' = closed s ∧ others 1 s' = others 1 s.
Proof.
  induction fds as [|f fds IH]; intros s fs Hr.
  - exists s. by rewrite app_nil_r.
  - destruct (subscribe_run n s 1 fs f t Hr) as (s1 & Hs & Hr1 & Hc & Ho & _). cbn [fmap list_fmap clients].
    rewrite (run_bind_ok _ _ _ _ _ _ _ Hs). destruct (IH s1 (fs ++ [f]) Hr1) as (s2 & Hs2 & Hr2 & Hc2 & Ho2).
    exists s2. rewrite <-app_assoc in Hr2. split_and!; [done|done|congruence|congruence].
Qed.

(** What the manager is before the first chunk *)
Record before_first (d : disk_t) (fds : list Z) (s : mstate) : Prop := {
  f_repr : manager_repr s 1 fds;
  f_closed : closed s = [];
  f_others : others 1 s = others 1 (created d);
}.


Section start.
Context (N : nat) (N_workers : (1 < N)%nat) (d : disk_t) (fds : list Z) (s : mstate).
Context (fds_nodup : NoDup fds) (fds_short : Z.of_nat (length fds) < 128) (fresh : before_first d fds s).

Lemma start_parts : disk s = d ∧ infos s = mem_empty ∧ sockets s = Net ∅ [] ∧ uploads s = [] ∧ hand s = ∅ ∧
  container_repr s 1 [] [] ∧ cells (chunks s) = ∅ ∧ (∀ q, is_Some (cells (containers s) !! q) → q = 1%positive).
Proof.
  pose proof (f_others _ _ _ fresh) as E. unfold others in E. injection E as E0 E1 E2 E3 E4 E5 E6 _.
  split; [done|]. split; [done|]. split; [done|]. split; [done|]. split; [done|]. split.
  - exists (Container NULL NULL 0). cbn. rewrite E2, E3. split; [done|]. split; [|done]. split; [apply dll_nil|done|done].
  - split; [by rewrite E3|]. intros q. rewrite E2. change (cells (containers (created d))) with
      ({[1%positive := Container NULL NULL 0]} : gmap positive chunk_container_t).
    intros [x Hx]. by apply lookup_singleton_Some in Hx as [-> _].
Qed.

Lemma start_sub ls l b : (λ l, account <$> cells (subscribers s) !! l) <$> ls = (λ f, Some (f, 0, None)) <$> fds →
  (∀ l, is_Some (cells (subscribers s) !! l) → l ∈ ls) → cells (subscribers s) !! l = Some b →
  ∃ k, ls !! k = Some l ∧ fds !! k = Some (fd b) ∧ chunk_loaded b = 0 ∧ lock b = None.
Proof.
  intros Hls Hdom Hb. assert (l ∈ ls) as [k Hk]%list_elem_of_lookup by (apply Hdom; by exists b).
  exists k. split; [done|]. pose proof (f_equal (λ q, q !! k) Hls) as E. cbn in E. rewrite !list_lookup_fmap, Hk in E.
  cbn in E. rewrite Hb in E. destruct (fds !! k) as [f|]; [|done]. cbn in E. injection E as -> -> ->. done.
Qed.

Lemma start_idle i : ¬ tasked s i ∧ ¬ owes s i ∧ info_at s i = None.
Proof.
  destruct start_parts as (Edk & Ei & _ & Eu & Eh & _). unfold tasked, owes, info_at. rewrite Ei, Eu, Eh.
  split; [|split; [|apply lookup_empty]].
  - intros [Hi|(w & b & Hw)]; [by apply not_elem_of_nil in Hi|by rewrite lookup_empty in Hw].
  - intros [Hi|(w & Hw)]; [by apply not_elem_of_nil in Hi|by rewrite lookup_empty in Hw].
Qed.

Lemma start_manager : ∃ M ls, manager_at 1 s = Some M ∧ container M = Some 1%positive ∧ flag M = 0 ∧
  subscribers_count M = Z.of_nat (length ls) ∧ length ls = length fds ∧
  dll (cells (subscribers s)) (first_subscriber M) (last_subscriber M) ls ∧
  (λ l, account <$> cells (subscribers s) !! l) <$> ls = (λ f, Some (f, 0, None)) <$> fds ∧
  (∀ l, is_Some (cells (subscribers s) !! l) → l ∈ ls).
Proof.
  destruct (f_repr _ _ _ fresh) as [_ (M & ls & HM & _ & Hn & Hd & Hfs & Hdom) _].
  assert (length ls = length fds) as Hlen by (by rewrite <-(length_fmap (λ l, account <$> cells (subscribers s) !! l)), Hfs, length_fmap).
  pose proof (f_others _ _ _ fresh) as E. apply (f_equal snd) in E. cbn in E. rewrite HM in E.
  change (cells (managers (created d)) !! 1%positive) with (Some (Manager 0 0 0 NULL NULL (Some 1%positive))) in E.
  injection E as Ec Ef. exists M, ls. rewrite Hlen. split_and!; try done. rewrite Hn. by apply u64_small; lia.
Qed.

Lemma start_chunks M : manager_at 1 s = Some M → container M = Some 1%positive → holds_chunks s M [].
Proof.
  intros _ Hc. destruct start_parts as (Edk & _ & _ & _ & _ & Hr & _). by exists 1%positive, [].
Qed.

Lemma start_log f : log s f = [].
Proof. destruct start_parts as (Edk & _ & En & _). unfold log. by rewrite En. Qed.

Lemma start_owner : owner 1 s = None ∧ waiters 1 s = [].
Proof. unfold owner, waiters. by rewrite (mr_lock _ _ _ (f_repr _ _ _ fresh)). Qed.

Lemma start_flagged M : manager_at 1 s = Some M → flag M = 0 → flagged 1 s [].
Proof.
  intros HM Hf. split; [constructor|]. split; [|split; [by rewrite HM; cbn; rewrite Hf|done]].
  intros i. destruct (start_idle i) as (_ & Ho & _). split; [|done]. by intros ?%not_elem_of_nil.
Qed.

Lemma start_invariant : inv 1 N s.
Proof.
  destruct start_manager as (M & ls & HM & Hc & Hf & _ & _ & Hd & Hfs & Hdom).
  destruct start_parts as (Edk & _ & En & Eu & Eh & _). destruct start_owner as [Ho Hw].
  pose proof start_idle as Hi. split.
  - rewrite HM. exists None, []. split; [apply (f_repr _ _ _ fresh)|by left].
  - intros j. by rewrite Ho.
  - intros l b j Hb Hl. destruct (start_sub ls l b) as (_ & _ & _ & _ & E); [done..|congruence].
  - intros w i b. by rewrite Eh, lookup_empty.
  - intros w w' i b b'. by rewrite Eh, lookup_empty.
  - rewrite Eu. constructor.
  - intros i Ht. by destruct (Hi i).
  - intros i i' l Hx. by destruct (Hi i) as (_ & ? & _).
  - intros l (i & Hx & _). by destruct (Hi i) as (_ & ? & _).
  - intros l b Hb. destruct (start_sub ls l b) as (_ & _ & _ & E & _); [done..|]. exists M, []. split; try done.
    + by apply start_chunks.
    + by rewrite E.
    + intros _. unfold sent. by rewrite E, start_log.
  - intros l l' b b' Hb Hb' E.
    destruct (start_sub ls l b) as (k & Hk & Hfk & _); [done..|]. destruct (start_sub ls l' b') as (k' & Hk' & Hfk' & _); [done..|].
    assert (k = k') as <- by (eapply NoDup_lookup; [done|exact Hfk|congruence]). congruence.
  - intros _ _. exists []. split; [by eapply start_flagged|]. rewrite Hw. by intros ?%not_elem_of_nil.
  - intros _ i [[x Hx] _]. destruct (Hi i) as (_ & _ & E). congruence.
  - apply (f_repr _ _ _ fresh).
  - by rewrite En.
Qed.

Lemma start_safe stream : inv 1 N s ∧ owner 1 s = None ∧ hand s = ∅ ∧ (∀ w, locks_none w s) ∧
  ∃ M h ls, rest 1 stream 1 d false None M h fds ls [] [] 0 [] s ∧ dll h (first_subscriber M) (last_subscriber M) ls ∧
    length ls = length fds ∧ subscribers_count M = Z.of_nat (length ls).
Proof.
  destruct start_manager as (M & ls & HM & Hc & Hf & Hn & Hlen & Hd & Hfs & Hdom).
  destruct start_parts as (Edk & _ & En & Eu & Eh & Hr & Ech & Ect). destruct start_owner as [Ho Hw].
  assert (∀ w, locks_none w s) as Hl.
  { intros w l b Hb Hk. destruct (start_sub ls l b) as (_ & _ & _ & _ & E); [done..|congruence]. }
  split; [apply start_invariant|]. split; [done|]. split; [done|]. split; [done|].
  exists M, (cells (subscribers s)), ls. split; [|done]. split.
  - split; try done; [by rewrite HM| |].
    + pose proof (f_equal (fmap (M := list) (fmap (M := option) (λ x : Z * Z * mutex, x.1.1))) Hfs) as E.
      rewrite <-!list_fmap_compose in E. etransitivity; [|etransitivity; [exact E|]]; apply list_fmap_ext; [|done].
      intros j l _. unfold compose, sub_at. by destruct (_ !! l).
    + intros q. rewrite Ech, lookup_empty. by intros [].
  - by rewrite Ho.
  - intros i. apply start_idle.
  - intros l b Hb. by destruct (start_sub ls l b) as (_ & _ & _ & E & _).
  - intros i [[x Hx] _]. destruct (start_idle i) as (_ & _ & E). congruence.
  - done.
  - apply (f_closed _ _ _ fresh).
  - intros f Hx. by apply not_elem_of_nil in Hx.
  - rewrite Hw. apply not_elem_of_nil.
Qed.
End start.

(** * The theorem *)

(** What is left when a session is over: everything of the manager is freed, the
    clients were closed in the order in which they joined, and each was sent
    [bytes]. *)
Definition session_complete (fds bytes : list Z) (d : disk_t) (s : mstate) : Prop :=
  cells (managers s) !! 1%positive = None ∧ (∀ l, cells (subscribers s) !! l = None) ∧
  (∀ i, cells (infos s) !! i = None) ∧ cells (chunks s) = ∅ ∧ cells (containers s) = ∅ ∧ uploads s = [] ∧
  closed s = fds ∧ (∀ f, f ∈ fds → log_of (sockets s) f = bytes) ∧ disk s = d.

Lemma ended_complete fds bytes d s : ended 1 fds bytes d s → uploads s = [] → (∀ i, info_at s i = None) →
  session_complete fds bytes d s.
Proof.
  intros (HM & Hs & Hch & Hct & Hcl & Hlog & Hd) Hu Hi. apply map_size_empty_inv in Hch, Hct. by split_and!.
Qed.

Lemma session_runs workers d fds name blocks success s0 : (0 < workers)%nat →
  fds ≠ [] → NoDup fds → Z.of_nat (length fds) < 128 →
  Forall (λ d, Z.of_nat (length d) < 2 ^ 64) blocks → Z.of_nat (length blocks) < 2 ^ 31 →
  (length name < CACHENAME_LEN)%nat → Z.of_nat (length (default [] (stored d !! full_of name))) < 2 ^ 31 →
  before_first d fds s0 →
  ∀ s ths, steps (s0, upload_threads 1 (Some name) blocks success workers) (s, ths) →
    (∀ e, ¬ faulty (s, ths) e) ∧
    (can_move (1 + workers) (s, ths) ∨
     ths !! 0%nat = Some (Ret tt) ∧ session_complete fds (response d name blocks) (files_after d name blocks success) s).
Proof.
  intros Hw Hne Hnd Hfds Hbs Hblocks Hname Hfile Hfresh s ths Hsteps.
  destruct (start_safe (1 + workers) ltac:(lia) d fds s0 Hnd Hfds Hfresh (response d name blocks))
    as (HI & Hown & Hh & Hl & M & h & ls & HK & Hd & Hlen & Hcount).
  assert (disk s0 = d) as Hdk by (by apply (start_parts d fds s0)).
  destruct (upload_sound 1 (1 + workers) ltac:(lia) fds (response d name blocks) (files_after d name blocks success)
    1 s0 M h ls name blocks success workers) with s ths as [Hok Hend]; rewrite ?Hdk; try done;
    [by intros ->; destruct fds|by rewrite Hlen|].
  split; [done|]. destruct Hend as [Hmv|(Hret & He & Hu & Hi)]; [by left|right].
  split; [done|]. by apply ended_complete.
Qed.

(** C2: clients subscribe to a new manager; then a session serves them, while any
    number of workers send: from the cache, when it has the file; otherwise with
    the blocks of a download, which is then saved, if it is a success. In every
    interleaving, whatever the system wakes, no access is outside of allocated
    memory and no lock is misused; and until the session has returned a thread can
    go on. When it has, every client was sent the response, all of it in order and
    nothing else, and was closed once, all that was allocated is freed, and the
    cache has the download. Assumed: malloc succeeds, and each send takes all it
    is given. *)
Theorem broadcast_complete n workers d fds name blocks success t : (0 < n)%nat → (0 < workers)%nat →
  fds ≠ [] → NoDup fds → Z.of_nat (length fds) < 128 →
  Forall (λ d, Z.of_nat (length d) < 2 ^ 64) blocks → Z.of_nat (length blocks) < 2 ^ 31 →
  (length name < CACHENAME_LEN)%nat → Z.of_nat (length (default [] (stored d !! full_of name))) < 2 ^ 31 →
  ∃ s0, run n (m ← create_subscription_manager; clients m (Join <$> fds);; mret m) t (mstart_with d) =
      Ok (Some 1%positive) s0 ∧
  ∀ s ths, steps (s0, upload_threads 1 (Some name) blocks success workers) (s, ths) →
    (∀ e, ¬ faulty (s, ths) e) ∧
    (can_move (1 + workers) (s, ths) ∨
     ths !! 0%nat = Some (Ret tt) ∧ session_complete fds (response d name blocks) (files_after d name blocks success) s).
Proof.
  intros Hn Hw Hne Hnd Hfds Hbs Hblocks Hname Hfile.
  destruct (joins_run n fds t (created d) [] (created_repr d)) as (s0 & Hs0 & Hr & Hc & Ho). exists s0. split.
  { rewrite (run_bind_ok _ _ _ _ _ _ _ (manager_create_run n d t Hn)). by rewrite (run_bind_ok _ _ _ _ _ _ _ Hs0). }
  intros s ths Hsteps. by apply (session_runs workers d fds name blocks success s0) in Hsteps.
Qed.

Example broadcast_complete_witness :
  let d := Disk true ∅ in let name := lit "GET_a_1.cch" in
  ∃ s0, run 1 (m ← create_subscription_manager; clients m (Join <$> [4; 5]);; mret m) 9%nat (mstart_with d) =
      Ok (Some 1%positive) s0 ∧
  ∀ s ths, steps (s0, upload_threads 1 (Some name) [[72; 84]; [84; 80]] true 2) (s, ths) →
    (∀ e, ¬ faulty (s, ths) e) ∧
    (can_move 3 (s, ths) ∨
     ths !! 0%nat = Some (Ret tt) ∧
     session_complete [4; 5] [72; 84; 84; 80] (Disk true {[lit "../cache/GET_a_1.cch" := [72; 84; 84; 80]]}) s).
Proof.
  intros d name.
  apply (broadcast_complete 1 2 d [4; 5] name [[72; 84]; [84; 80]] true 9%nat); try lia;
    [done| |done|repeat constructor|done|vm_compute; lia|done].
  by apply (bool_decide_unpack _).
Defined.
