(* ===== verification/Handler.v ===== *)
(** Handler: what is done for a client (lab3/src/handler/handler.c): its request is
    received, parsed and checked, the client is subscribed to the manager of the
    URL, and the first one runs the session. *)
From S2P Require Import Prelude CString Threads Pthread Common Hashmap Chunk HttpUtils HttpSend Subscription Cache.

#[local] Open Scope Z_scope.

(** * Data *)

Record client_data_t := ClientData { context : ptr; client_fd : Z }.
Record session_data_t := SessionData { session_manager : ptr; session_request : ptr; session_context : ptr }.
(** The pools are parts of the state of their own. *)
Record proxy_context_t := ProxyContext { stop : Z; port : Z; map : ptr }.

(** What one handler works on: the table of managers; the structs of requests,
    downloads, clients and sessions; the bytes that arrive on each descriptor, if
    they do; the tasks of the handler pool; and the answers of [malloc] for these
    structs. *)
Record own := Own {
  managers_table : table_store;
  requests : mem http_request_t;
  downloads : mem request_context_t;
  clients_data : mem client_data_t;
  sessions : mem session_data_t;
  contexts : mem proxy_context_t;
  incoming : gmap Z (list Z);
  handler_tasks : list positive;
  own_answers : list bool;
}.
(** The process: this, and the part the upload pool shares *)
Record hstate := HState { shared : mstate; private : own }.

Definition set_shared x S := HState x (private S).
Definition set_own x S := HState (shared S) x.
Definition set_table x S := set_own (Own x (requests (private S)) (downloads (private S)) (clients_data (private S))
  (sessions (private S)) (contexts (private S)) (incoming (private S)) (handler_tasks (private S)) (own_answers (private S))) S.

Ltac hstate_instance := intros; repeat match goal with s : hstate |- _ => destruct s as [? []] end; reflexivity.
#[export] Instance requests_heap : Heap hstate http_request_t.
Proof.
  refine {| heap S := requests (private S); set_heap x S := HState (shared S) (let o := private S in
    Own (managers_table o) x (downloads o) (clients_data o) (sessions o) (contexts o) (incoming o) (handler_tasks o) (own_answers o)) |};
  hstate_instance.
Defined.
#[export] Instance downloads_heap : Heap hstate request_context_t.
Proof.
  refine {| heap S := downloads (private S); set_heap x S := HState (shared S) (let o := private S in
    Own (managers_table o) (requests o) x (clients_data o) (sessions o) (contexts o) (incoming o) (handler_tasks o) (own_answers o)) |};
  hstate_instance.
Defined.
#[export] Instance clients_heap : Heap hstate client_data_t.
Proof.
  refine {| heap S := clients_data (private S); set_heap x S := HState (shared S) (let o := private S in
    Own (managers_table o) (requests o) (downloads o) x (sessions o) (contexts o) (incoming o) (handler_tasks o) (own_answers o)) |};
  hstate_instance.
Defined.
#[export] Instance sessions_heap : Heap hstate session_data_t.
Proof.
  refine {| heap S := sessions (private S); set_heap x S := HState (shared S) (let o := private S in
    Own (managers_table o) (requests o) (downloads o) (clients_data o) x (contexts o) (incoming o) (handler_tasks o) (own_answers o)) |};
  hstate_instance.
Defined.
#[export] Instance contexts_heap : Heap hstate proxy_context_t.
Proof.
  refine {| heap S := contexts (private S); set_heap x S := HState (shared S) (let o := private S in
    Own (managers_table o) (requests o) (downloads o) (clients_data o) (sessions o) x (incoming o) (handler_tasks o) (own_answers o)) |};
  hstate_instance.
Defined.
#[export] Instance hstate_oom : Oom hstate.
Proof.
  refine {| oom S := own_answers (private S); set_oom x S := HState (shared S) (let o := private S in
    Own (managers_table o) (requests o) (downloads o) (clients_data o) (sessions o) (contexts o) (incoming o) (handler_tasks o) x) |};
  hstate_instance.
Defined.
#[export] Instance oom_requests : OomIndep hstate http_request_t.
Proof. split; hstate_instance. Qed.

(** A call into subscription.c or cache.c, and one into hashmap.c *)
Definition sub {A} (p : prog mstate A) : prog hstate A := lift shared set_shared p.
Definition on_table {A} (op : C table_store A) : C hstate A :=
  lift_act (λ S, managers_table (private S)) set_table op.

(** * Receiving and checking *)

(** [recv] of up to [n] bytes: those that arrived, or an error *)
Definition recv (f : Z) (n : nat) : C hstate (option (list Z)) :=
  gets (λ S, take n <$> incoming (private S) !! f).

(** The result and the buffer, all NUL before *)
Definition __recv (f : Z) : C hstate (Z * list Z) :=
  bytes ← recv f (HTTP_REQUEST_BYTES_LEN - 1);
  match bytes with
  | None => mret (-1, replicate HTTP_REQUEST_BYTES_LEN NUL)
  | Some bytes => mret (0, bytes ++ replicate (HTTP_REQUEST_BYTES_LEN - length bytes) NUL)
  end.

Definition HTTP_VERSION_LEN : nat := 16.

Definition __validate_request (request : ptr) : C hstate Z :=
  match request with
  | None => mret (-1)
  | Some _ =>
      r ← load http_request_t request;
      v ← assigned (version r);
      if decide (strncmp HTTP_VERSION_LEN v (lit "HTTP/1.0") ≠ 0 ∧ strncmp HTTP_VERSION_LEN v (lit "HTTP/1.1") ≠ 0)
      then mret (-1) else
      url ← assigned (path r);
      if decide (strncmp HTTP_PATH_LEN url (lit "http://o.pki.goog/we2") = 0) then mret (-1) else mret 0
  end.

Definition __check_cache (request : ptr) : prog hstate Z :=
  cachename ← atomic (parse_request_to_cachename request);
  sub (cache_exists cachename).

Definition __check_response_code (code : Z) : Z :=
  if decide (code >= 200 ∧ code < 300) then 0 else -1.

(** The path of a request, for the log *)
Definition log_path (request : ptr) : C hstate unit :=
  r ← load http_request_t request;
  _ ← assigned (path r);
  mret tt.

(** * Downloading *)

(** The callback of libcurl for headers and data *)
Definition callback (contents : list Z) (size nmemb : Z) (userp : ptr) : prog hstate Z :=
  c ← atomic (load request_context_t userp);
  atomic (log_path (request c));;
  sub (add_chunk (HttpSend.manager c) contents nmemb size);;
  atomic (log_path (request c));;
  mret (u64 (size * nmemb)).

(** What happens during a transfer: data (or a header) arrives, or progress is
    reported. *)
Inductive event := Data (bytes : list Z) | Progress (dltotal dlnow : Z).
Definition write_data (opts : list curl_opt) : ptr :=
  default NULL (head (omap (λ o, match o with CURLOPT_WRITEDATA c => Some c | _ => None end) opts)).
Definition transfer (userp : ptr) (events : list event) (res : Z) : prog hstate Z :=
  foldr (λ e rest, match e with
    | Data d => _ ← callback d 1 (Z.of_nat (length d)) userp; rest
    | Progress dltotal dlnow => _ ← atomic (xferinfo_callback userp dltotal dlnow); rest
    end) (mret res) events.

Section handler.
(** libcurl: whether there is a handle, and a list with one more string; what
    happens during a transfer with the options and its result; and the response
    code *)
Context (curl_easy_init : bool) (curl_slist_append : slist → list Z → slist).
Context (reply : list curl_opt → list event * Z) (response_code : Z).

Definition curl_easy_perform (opts : list curl_opt) : prog hstate Z :=
  let '(events, res) := reply opts in transfer (write_data opts) events res.
Definition curl_request (context : ptr) : prog hstate Z :=
  HttpSend.send_http_request (mret curl_easy_init) (λ l x, mret (curl_slist_append l x)) curl_easy_perform
    (mret response_code) context.

Definition __download_and_send (session : ptr) : prog hstate unit :=
  d ← atomic (load session_data_t session);
  request_context ← atomic (HttpSend.create_request_context (session_request d) (session_manager d) (session_context d));
  atomic (log_path (session_request d));;
  response_code ← curl_request request_context;
  atomic (log_path (session_request d));;
  (if decide (__check_response_code response_code = 0) then
     cachename ← atomic (parse_request_to_cachename (session_request d));
     atomic (log_path (session_request d));;
     sub (save_cache (session_manager d) cachename);;
     atomic (log_path (session_request d))
   else mret tt);;
  atomic (free session_data_t session).

Definition __share_cache (session : ptr) : prog hstate unit :=
  d ← atomic (load session_data_t session);
  cachename ← atomic (parse_request_to_cachename (session_request d));
  sub (share_cache (session_manager d) cachename);;
  atomic (free session_data_t session).

Definition __create_session_data (manager request context : ptr) : C hstate ptr :=
  malloc session_data_t (SessionData manager request context).

(** * The handler *)

(** [cas (&manager->is_busy, 0, 1)] *)
Definition cas_busy (m : ptr) : C mstate Z :=
  M ← load subscription_manager_t m;
  let '(won, busy) := cas (is_busy M) 0 1 in
  update subscription_manager_t m (set_is_busy busy);;
  mret won.

(** The table of the client's context, and the key *)
Definition table_op {A} (arg request : ptr) (op : ptr → list Z → C table_store A) : C hstate A :=
  d ← load client_data_t arg;
  c ← load proxy_context_t (context d);
  r ← load http_request_t request;
  key ← assigned (path r);
  on_table (op (map c) key).

(** From the label [end] on *)
Definition end_client (request arg : ptr) : prog hstate unit :=
  atomic (free http_request_t request);;
  atomic (free client_data_t arg).

(** The manager of the URL; a new one is put into the table. *)
Definition find_manager (request arg : ptr) : prog hstate ptr :=
  manager ← atomic (table_op arg request HashMap.get);
  match manager with
  | Some _ => mret manager
  | None =>
      manager ← sub create_subscription_manager;
      match manager with
      | None => mret NULL
      | Some _ => atomic (table_op arg request (λ ht k, HashMap.insert ht k manager));; mret manager
      end
  end.

(** The rest of the client that got [is_busy]: the session *)
Definition main_session (request arg manager : ptr) : prog hstate unit :=
  d ← atomic (load client_data_t arg);
  session ← atomic (__create_session_data manager request (context d));
  match session with
  | None =>
      sub (destroy_subscription_manager manager);;
      atomic (table_op arg request HashMap.delete)
  | Some _ =>
      missing ← __check_cache request;
      (if decide (missing ≠ 0) then __download_and_send session else __share_cache session);;
      sub (finish_pending_chunks manager);;
      sub (destroy_subscription_manager manager);;
      atomic (table_op arg request HashMap.delete)
  end.

Definition __handle_client (arg : ptr) : prog hstate unit :=
  d ← atomic (load client_data_t arg);
  let f := client_fd d in
  received ← atomic (__recv f);
  if decide (received.1 < 0) then sub (close f);; end_client NULL arg else
  request ← atomic (HttpUtils.parse_http_request received.2);
  match request with
  | None => sub (close f);; end_client NULL arg
  | Some _ =>
      atomic (log_path request);;
      valid ← atomic (__validate_request request);
      if decide (valid < 0) then sub (close f);; end_client request arg else
      manager ← find_manager request arg;
      match manager with
      | None => sub (close f);; end_client request arg
      | Some _ =>
          _ ← sub (subscribe manager f);
          won ← sub (atomic (cas_busy manager));
          (if decide (won ≠ 0) then main_session request arg manager else mret tt);;
          end_client request arg
      end
  end.
End handler.

(** With [PARALLEL]: the task is pushed to the handler pool. *)
Definition handle_client (client_socket : Z) (context : ptr) : C hstate Z :=
  data ← malloc client_data_t (ClientData NULL 0);
  update client_data_t data (λ d, ClientData context (client_fd d));;
  update client_data_t data (λ d, ClientData (Handler.context d) client_socket);;
  modify (λ S, set_own (let o := private S in Own (managers_table o) (requests o) (downloads o) (clients_data o) (sessions o)
    (contexts o) (incoming o) (option_list data ++ handler_tasks o) (own_answers o)) S);;
  mret 0.

(** * Facts *)

Lemma log_path_run (S : hstate) l r p t : cells (requests (private S)) !! l = Some r → path r = Some p →
  log_path (Some l) t S = Ok tt S.
Proof.
  intros Hr Hp. unfold log_path. rewrite (bind_ok _ _ _ _ _ _ (@load_ok _ _ requests_heap _ _ _ _ Hr)), Hp. done.
Qed.

Lemma table_op_run {A} (S : hstate) arg l r p d cx c (op : ptr → list Z → C table_store A) a T t :
  cells (clients_data (private S)) !! arg = Some d → context d = Some cx → cells (contexts (private S)) !! cx = Some c →
  cells (requests (private S)) !! l = Some r → path r = Some p →
  op (map c) p t (managers_table (private S)) = Ok a T →
  table_op (Some arg) (Some l) op t S = Ok a (set_table T S).
Proof.
  intros Hd Hcx Hc Hr Hp Hop. unfold table_op.
  rewrite (bind_ok _ _ _ _ _ _ (@load_ok _ _ clients_heap _ _ _ _ Hd)), Hcx.
  rewrite (bind_ok _ _ _ _ _ _ (@load_ok _ _ contexts_heap _ _ _ _ Hc)).
  rewrite (bind_ok _ _ _ _ _ _ (@load_ok _ _ requests_heap _ _ _ _ Hr)), Hp.
  erewrite bind_ok by reflexivity. unfold on_table, lift_act. by rewrite Hop.
Qed.

(** A version the proxy answers to, and a URL it does not refuse *)
Definition accepted (v p : list Z) : Prop :=
  (v = lit "HTTP/1.0" ∨ v = lit "HTTP/1.1") ∧ p ≠ lit "http://o.pki.goog/we2".
#[export] Instance accepted_dec v p : Decision (accepted v p).
Proof. unfold accepted. apply _. Defined.

Lemma validate_run (S : hstate) l r v p t : cells (requests (private S)) !! l = Some r →
  version r = Some v → path r = Some p → word 15 v → word 255 p →
  __validate_request (Some l) t S = Ok (if decide (accepted v p) then 0 else -1) S.
Proof.
  intros Hr Hv Hp (_ & Hv1 & _ & Hv2) (_ & Hp1 & _ & Hp2). unfold __validate_request.
  rewrite (bind_ok _ _ _ _ _ _ (@load_ok _ _ requests_heap _ _ _ _ Hr)), Hv.
  erewrite bind_ok by reflexivity.
  assert (∀ n (a b : list Z), no_nul a → no_nul b → (length a ≤ n)%nat → (length b ≤ n)%nat → strncmp n a b = 0 ↔ a = b) as Hcmp.
  { intros n a b Ha Hb Hla Hlb. by rewrite strncmp_eq, !cstr_id, !take_ge by done. }
  assert (strncmp HTTP_VERSION_LEN v (lit "HTTP/1.0") = 0 ↔ v = lit "HTTP/1.0") as H10
    by (apply Hcmp; [done|apply (bool_decide_unpack _); vm_compute; exact Logic.I|unfold HTTP_VERSION_LEN; lia|vm_compute; lia]).
  assert (strncmp HTTP_VERSION_LEN v (lit "HTTP/1.1") = 0 ↔ v = lit "HTTP/1.1") as H11
    by (apply Hcmp; [done|apply (bool_decide_unpack _); vm_compute; exact Logic.I|unfold HTTP_VERSION_LEN; lia|vm_compute; lia]).
  assert (strncmp HTTP_PATH_LEN p (lit "http://o.pki.goog/we2") = 0 ↔ p = lit "http://o.pki.goog/we2") as Hpki
    by (apply Hcmp; [done|apply (bool_decide_unpack _); vm_compute; exact Logic.I|unfold HTTP_PATH_LEN; lia|vm_compute; lia]).
  unfold accepted. case_decide as Hver; [rewrite decide_False by tauto; done|].
  rewrite Hp. erewrite bind_ok by reflexivity. case_decide as Hp0; [rewrite decide_False by tauto; done|].
  rewrite decide_True; [done|]. destruct (decide (v = lit "HTTP/1.0")), (decide (v = lit "HTTP/1.1")); tauto.
Qed.

(** The blocks of a transfer *)
Definition blocks_of (events : list event) : list (list Z) :=
  omap (λ e, match e with Data d => Some d | Progress _ _ => None end) events.

(** ** Up to the parsed request *)

Lemma alone_act {S A B} t (op : C S B) (k : B → prog S A) s b s' p2 s2 :
  op t s = Ok b s' → alone t (k b) s' p2 s2 → alone t (Act op k) s p2 s2.
Proof. intros Hop. apply alone_step. cbn. by rewrite Hop. Qed.
Lemma run_sub {A} n (p : prog mstate A) t s a s' x : run n p t s = Ok a s' → run n (sub p) t (HState s x) = Ok a (HState s' x).
Proof. intros Hp. unfold sub. rewrite run_lift by (by intros []). unfold lift_act. cbn. by rewrite Hp. Qed.

(** The own state [x] with the requests [R] and the answers of [malloc] [o] *)
Definition with_requests (R : mem http_request_t) (o : list bool) (x : own) : own :=
  Own (managers_table x) R (downloads x) (clients_data x) (sessions x) (contexts x) (incoming x) (handler_tasks x) o.

(** A message that arrives on [f] *)
Definition message (m p v : list Z) (ls : list (list Z)) (b : list Z) : list Z := request_line m p v ++ text ls b.

Lemma recv_run S f bytes t : incoming (private S) !! f = Some bytes → (length bytes < HTTP_REQUEST_BYTES_LEN)%nat →
  __recv f t S = Ok (0, bytes ++ NUL :: replicate (HTTP_REQUEST_BYTES_LEN - 1 - length bytes) NUL) S.
Proof.
  intros Hb Hl. unfold __recv, recv, gets, mbind, C_bind. rewrite Hb. cbn [fmap option_fmap option_map].
  unfold mret, C_ret. rewrite take_ge by lia. do 3 f_equal.
  by replace (HTTP_REQUEST_BYTES_LEN - length bytes)%nat with (Datatypes.S (HTTP_REQUEST_BYTES_LEN - 1 - length bytes)) by lia.
Qed.

Lemma parse_run s x m p v ls b post t : head (own_answers x) ≠ Some false →
  word 7 m → word 255 p → word 15 v → Forall is_line ls → is_line b →
  HttpUtils.parse_http_request (message m p v ls b ++ NUL :: post) t (HState s x) =
    Ok (Some (fresh_loc (requests x)))
      (HState s (with_requests (mem_alloc (parsed m p v ls b) (requests x)) (tl (own_answers x)) x)).
Proof.
  intros Ho Hm Hp Hv Hls Hb. unfold message. rewrite <-app_assoc.
  rewrite parse_message_run by done. by destruct x.
Qed.

(** ** Run alone *)

Lemma manager_repr_busy s k fs M z : manager_repr s k fs → cells (managers s) !! k = Some M →
  manager_repr (put_manager k (set_is_busy z M) s) k fs.
Proof.
  intros [Hl (M' & ls & HM' & Hr) Ho] HM. assert (M' = M) as -> by congruence.
  split; [done| |done]. exists (set_is_busy z M), ls. split; [apply lookup_insert_eq|]. done.
Qed.

Lemma run_here {S B A} n (op : C S B) (k : B → prog S A) t s b s' :
  op t s = Ok b s' → run n (atomic op ≫= k) t s = run n (k b) t s'.
Proof. intros Hop. apply run_bind_ok. by rewrite run_atomic. Qed.
Lemma run_fault {S B A} n (op : C S B) (k : B → prog S A) t s e :
  op t s = Fault e → run n (atomic op ≫= k) t s = Fault e.
Proof. intros Hop. cbn. unfold mbind, C_bind. by rewrite Hop. Qed.

Section alone.
Context (curl_easy_init : bool) (curl_slist_append : slist → list Z → slist).
Context (reply : list curl_opt → list event * Z) (response_code : Z).
Context (n : nat) (t : tid) (arg : positive) (cx : ptr) (f : Z).
Implicit Types (s : mstate) (x : own).

Definition handler : prog hstate unit :=
  __handle_client curl_easy_init curl_slist_append reply response_code (Some arg).

(** The state without the client's struct, and the requests [R] *)
Definition without_client (R : mem http_request_t) (T : table_store) (x : own) : own :=
  Own T R (downloads x) (mem_del arg (clients_data x)) (sessions x) (contexts x) (incoming x) (handler_tasks x) (own_answers x).

Lemma end_client_run s x request R : cells (clients_data x) !! arg = Some (ClientData cx f) →
  match request with Some l => is_Some (cells (requests x) !! l) ∧ R = mem_del l (requests x) | None => R = requests x end →
  run n (end_client request (Some arg)) t (HState s x) = Ok tt (HState s (without_client R (managers_table x) x)).
Proof.
  intros Hc HR. unfold end_client. destruct request as [l|].
  - destruct HR as [[r Hr] ->]. erewrite run_here by (by apply (@free_ok _ _ requests_heap l r)).
    rewrite run_atomic. by rewrite (@free_ok _ _ clients_heap arg (ClientData cx f)) by done.
  - subst R. erewrite run_here by reflexivity. rewrite run_atomic.
    rewrite (@free_ok _ _ clients_heap arg (ClientData cx f)) by done. by destruct x.
Qed.

Lemma close_end_run s x request R : cells (clients_data x) !! arg = Some (ClientData cx f) →
  match request with Some l => is_Some (cells (requests x) !! l) ∧ R = mem_del l (requests x) | None => R = requests x end →
  run n (sub (close f);; end_client request (Some arg)) t (HState s x) =
    Ok tt (HState (set_closed (closed s ++ [f]) s) (without_client R (managers_table x) x)).
Proof.
  intros Hc HR. erewrite run_bind_ok by (apply run_sub; unfold close; rewrite run_atomic; reflexivity).
  by apply end_client_run.
Qed.

(** What a client that is turned away leaves: its descriptor is closed and its
    structs are freed. *)
Definition turned_away s x (S' : hstate) : Prop :=
  process_of (shared S') = process_of s ∧ closed (shared S') = closed s ++ [f] ∧
  cells (requests (private S')) = cells (requests x) ∧
  cells (clients_data (private S')) = base.delete arg (cells (clients_data x)) ∧
  managers_table (private S') = managers_table x.

Lemma not_received s x : cells (clients_data x) !! arg = Some (ClientData cx f) → incoming x !! f = None →
  ∃ S', run n handler t (HState s x) = Ok tt S' ∧ turned_away s x S'.
Proof.
  intros Hc Hi. exists (HState (set_closed (closed s ++ [f]) s) (without_client (requests x) (managers_table x) x)).
  split; [|by split_and!]. unfold handler, __handle_client.
  erewrite run_here by (by apply (@load_ok _ _ clients_heap)). cbn [client_fd].
  erewrite run_here by (unfold __recv, recv, gets, mbind, C_bind; cbn [private]; rewrite Hi; reflexivity).
  cbn [fst snd]. rewrite decide_True by lia. by apply close_end_run.
Qed.

Lemma no_memory s x bytes o : cells (clients_data x) !! arg = Some (ClientData cx f) → incoming x !! f = Some bytes →
  own_answers x = false :: o → ∃ S', run n handler t (HState s x) = Ok tt S' ∧ turned_away s x S'.
Proof.
  intros Hc Hi Ho. set (x1 := with_requests (requests x) o x).
  exists (HState (set_closed (closed s ++ [f]) s) (without_client (requests x) (managers_table x) x1)).
  split; [|by split_and!]. unfold handler, __handle_client.
  erewrite run_here by (by apply (@load_ok _ _ clients_heap)). cbn [client_fd].
  erewrite run_here by (unfold __recv, recv, gets, mbind, C_bind; cbn [private]; rewrite Hi; reflexivity).
  cbn [fst snd]. rewrite decide_False by lia.
  assert (malloc_fails (HState s x)) as Hf by (unfold malloc_fails; cbn; by rewrite Ho).
  erewrite run_here.
  2: { unfold HttpUtils.parse_http_request. rewrite (bind_ok _ _ _ _ _ _ (malloc_null _ t _ Hf)). reflexivity. }
  change (set_oom _ _) with (HState s (with_requests (requests x) (tl (own_answers x)) x)). rewrite Ho. by apply (close_end_run s x1 None (requests x)).
Qed.

(** What is left of the handler once the request is accepted *)
Definition accepted_client (l : positive) : prog hstate unit :=
  manager ← find_manager (Some l) (Some arg);
  match manager with
  | None => sub (close f);; end_client (Some l) (Some arg)
  | Some _ =>
      _ ← sub (subscribe manager f);
      won ← sub (atomic (cas_busy manager));
      (if decide (won ≠ 0)
       then main_session curl_easy_init curl_slist_append reply response_code (Some l) (Some arg) manager else mret tt);;
      end_client (Some l) (Some arg)
  end.

(** Bytes without a line end: the path that is logged was never assigned. *)
Lemma no_line_uninit s x bytes : cells (clients_data x) !! arg = Some (ClientData cx f) →
  incoming x !! f = Some bytes → is_line bytes → (length bytes < HTTP_REQUEST_BYTES_LEN)%nat →
  head (own_answers x) ≠ Some false → run n handler t (HState s x) = Fault Uninit.
Proof.
  intros Hc Hi Hl Hfits Ho. unfold handler, __handle_client.
  erewrite run_here by (by apply (@load_ok _ _ clients_heap)). cbn [client_fd].
  erewrite run_here by (by apply recv_run). cbn [fst snd]. rewrite decide_False by lia.
  destruct (parse_no_line (HState s x) t bytes (replicate (HTTP_REQUEST_BYTES_LEN - 1 - length bytes) NUL)) as (r & Hr & Hp);
    [done|done|].
  erewrite run_here by exact Hr. cbv iota. apply run_fault. unfold log_path.
  erewrite bind_ok by apply load_request. by rewrite Hp.
Qed.

Section message.
Context (m p v : list Z) (ls : list (list Z)) (b : list Z).
Context (words : word 7 m ∧ word 255 p ∧ word 15 v ∧ Forall is_line ls ∧ is_line b).
Context (fits : (length (message m p v ls b) < HTTP_REQUEST_BYTES_LEN)%nat).

(** The own state with the request *)
Definition parsed_in x : own := with_requests (mem_alloc (parsed m p v ls b) (requests x)) (tl (own_answers x)) x.
Definition request_of x : positive := fresh_loc (requests x).
Lemma parsed_cell x : cells (requests (parsed_in x)) !! request_of x = Some (parsed m p v ls b).
Proof. apply mem_alloc_lookup. Qed.

Lemma handler_message s x : cells (clients_data x) !! arg = Some (ClientData cx f) →
  incoming x !! f = Some (message m p v ls b) → head (own_answers x) ≠ Some false →
  run n handler t (HState s x) =
    run n (if decide (accepted v p) then accepted_client (request_of x)
           else sub (close f);; end_client (Some (request_of x)) (Some arg)) t (HState s (parsed_in x)).
Proof.
  intros Hc Hi Ho. destruct words as (Hm & Hp & Hv & Hls & Hb). unfold handler, __handle_client.
  erewrite run_here by (by apply (@load_ok _ _ clients_heap)). cbn [client_fd].
  erewrite run_here by (by apply recv_run). cbn [fst snd]. rewrite decide_False by lia.
  erewrite run_here by (by apply parse_run). fold (parsed_in x) (request_of x). cbv iota.
  erewrite run_here by (by eapply log_path_run; [apply parsed_cell|]).
  erewrite run_here by (by eapply validate_run; [apply parsed_cell|..]).
  destruct (decide (accepted v p)); [rewrite decide_False by lia|rewrite decide_True by lia]; done.
Qed.

Lemma close_parsed_run s x : cells (clients_data x) !! arg = Some (ClientData cx f) →
  ∃ S', run n (sub (close f);; end_client (Some (request_of x)) (Some arg)) t (HState s (parsed_in x)) = Ok tt S' ∧
    turned_away s x S'.
Proof.
  intros Hc. eexists. split; [apply close_end_run; [exact Hc|split; [|reflexivity]]; by eexists; apply parsed_cell|].
  split_and!; [done|done| |done|done]. cbn. apply delete_insert_id, fresh_loc_none.
Qed.

Context (c : proxy_context_t) (cl ht : positive) (the_context : cx = Some cl) (the_map : map c = Some ht).

Lemma find_manager_run s x tm k : cells (clients_data x) !! arg = Some (ClientData cx f) →
  cells (contexts x) !! cl = Some c → repr (managers_table x) ht tm → top tm p = Some k →
  run n (find_manager (Some (request_of x)) (Some arg)) t (HState s (parsed_in x)) = Ok (Some k) (HState s (parsed_in x)).
Proof.
  intros Hc Hx Ht Htop. destruct words as (_ & Hp & _). unfold find_manager.
  erewrite run_here; [|eapply table_op_run; [exact Hc|exact the_context|exact Hx|apply parsed_cell|done|]].
  2: { rewrite the_map. apply get_run; [exact Ht|apply Hp]. }
  rewrite Htop. by destruct x.
Qed.

(** No manager exists, and there is no memory for one. *)
Lemma no_manager s x tm : cells (clients_data x) !! arg = Some (ClientData cx f) →
  incoming x !! f = Some (message m p v ls b) → head (own_answers x) ≠ Some false → accepted v p →
  cells (contexts x) !! cl = Some c → repr (managers_table x) ht tm → top tm p = NULL →
  no_manager_memory s → mlocks s !! fresh_loc (managers s) = None →
  ∃ S', run n handler t (HState s x) = Ok tt S' ∧ turned_away s x S'.
Proof.
  intros Hc Hi Ho Ha Hx Ht Htop Hno Hl. rewrite handler_message by done. rewrite decide_True by done.
  unfold accepted_client, find_manager. rewrite bind_assoc_prog.
  erewrite run_here; [|eapply table_op_run; [exact Hc|exact the_context|exact Hx|apply parsed_cell|done|]].
  2: { rewrite the_map. apply get_run; [exact Ht|apply words]. }
  rewrite Htop. cbv iota. rewrite bind_assoc_prog.
  destruct (create_manager_fails n t s Hno Hl) as (s1 & Hs1 & Hp1 & Hcl1).
  erewrite run_bind_ok by (apply run_sub; exact Hs1). cbv beta iota. change (mret NULL ≫= ?g) with (g NULL). cbv beta iota.
  destruct (close_parsed_run s1 x Hc) as (S' & HS & H1 & H2 & H3). exists S'. split; [exact HS|].
  split; [congruence|]. split; [congruence|done].
Qed.

(** The manager exists and its session is running: the client only subscribes. *)
Lemma join_run s x tm k M W subs acc (new := fresh_loc (subscribers s)) : cells (clients_data x) !! arg = Some (ClientData cx f) →
  incoming x !! f = Some (message m p v ls b) → head (own_answers x) ≠ Some false → accepted v p →
  cells (contexts x) !! cl = Some c → repr (managers_table x) ht tm → top tm p = Some k →
  session_repr s k W subs acc → head (manswers s) ≠ Some false →
  cells (managers s) !! k = Some M → is_busy M ≠ 0 →
  ∃ S', run n handler t (HState s x) = Ok tt S' ∧
    session_repr (shared S') k W (subs ++ [new]) (acc ++ [(f, 0, None)]) ∧ only_joined k subs new s (shared S') ∧
    cells (requests (private S')) = cells (requests x) ∧
    cells (clients_data (private S')) = base.delete arg (cells (clients_data x)) ∧
    managers_table (private S') = managers_table x.
Proof.
  intros Hc Hi Ho Ha Hx Ht Htop Hr Hmem HM Hbusy. rewrite handler_message by done. rewrite decide_True by done.
  unfold accepted_client. erewrite run_bind_ok by (by eapply find_manager_run). cbv iota.
  destruct (subscribe_session n s k W subs acc f t Hr Hmem) as (s1 & Hs1 & Hr1 & Hj).
  erewrite run_bind_ok by (apply run_sub, Hs1). cbv beta.
  destruct (se_list _ _ _ _ _ Hr1) as (M1 & HM1 & _).
  assert (is_busy M1 = is_busy M) as Hb.
  { pose proof (oj_busy _ _ _ _ _ Hj) as Hb. rewrite HM, HM1 in Hb. by injection Hb. }
  erewrite (run_bind_ok n (sub (atomic (cas_busy (Some k)))) _ t _ 0 (HState s1 (parsed_in x))).
  2: { apply run_sub. rewrite run_atomic. unfold cas_busy.
       rewrite (bind_ok _ _ _ _ _ _ (@load_ok _ _ managers_heap _ _ _ _ HM1)). unfold cas.
       rewrite decide_False by congruence. cbv beta iota.
       rewrite (bind_ok _ _ _ _ _ _ (@update_ok _ _ managers_heap _ _ _ _ _ HM1)).
       assert (set_is_busy (is_busy M1) M1 = M1) as -> by (by destruct M1).
       unfold mem_set. rewrite insert_id by exact HM1. by destruct s1 as [[] ? ? ? ? ? ? ? ? ? ? ?]. }
  cbv beta. rewrite decide_False by auto. change (mret tt ≫= ?g) with (g tt). cbv beta.
  eexists. split.
  { apply end_client_run; [exact Hc|]. split; [|reflexivity]. by eexists; apply parsed_cell. }
  split; [exact Hr1|]. split; [exact Hj|]. split; [cbn; apply delete_insert_id, fresh_loc_none|done].
Qed.
End message.
End alone.

(** * The theorems *)

(** Why a client is turned away: [recv] reports an error, there is no memory for
    the [http_request_t], the version or the URL of its message is not accepted, or
    the URL has no manager and there is no memory for one or its container. *)
Inductive unanswered (f : Z) (cx : ptr) (s : mstate) (x : own) : Prop :=
  | u_recv : incoming x !! f = None → unanswered f cx s x
  | u_memory bytes o : incoming x !! f = Some bytes → own_answers x = false :: o → unanswered f cx s x
  | u_refused m p v ls b : incoming x !! f = Some (message m p v ls b) →
      word 7 m → word 255 p → word 15 v → Forall is_line ls → is_line b →
      (length (message m p v ls b) < HTTP_REQUEST_BYTES_LEN)%nat → head (own_answers x) ≠ Some false →
      ¬ accepted v p → unanswered f cx s x
  | u_manager m p v ls b cl c ht tm : incoming x !! f = Some (message m p v ls b) →
      word 7 m → word 255 p → word 15 v → Forall is_line ls → is_line b →
      (length (message m p v ls b) < HTTP_REQUEST_BYTES_LEN)%nat → head (own_answers x) ≠ Some false →
      accepted v p → cx = Some cl → cells (contexts x) !! cl = Some c → map c = Some ht →
      repr (managers_table x) ht tm → top tm p = NULL → no_manager_memory s →
      mlocks s !! fresh_loc (managers s) = None → unanswered f cx s x.

(** C35: a client is turned away when [recv] reports an error, when there is no
    memory for its request or for the manager of its URL, or when the version or
    the URL of its message is not accepted: then its descriptor is closed, once,
    and its structs are freed; the table, the managers and the other clients are
    as before, and nothing waits. (A connection closed without a byte is not
    turned away: see [empty_request_uninit]; nor is a client for whom [subscribe]
    finds no memory.) *)
Theorem client_turned_away init append reply code n t arg cx f s x :
  cells (clients_data x) !! arg = Some (ClientData cx f) → unanswered f cx s x →
  ∃ S', run n (__handle_client init append reply code (Some arg)) t (HState s x) = Ok tt S' ∧
    turned_away arg f s x S'.
Proof.
  intros Hc [Hi|bytes o Hi Ho|m p v ls b Hi Hm Hp Hv Hls Hb Hfits Ho Ha|m p v ls b cl c ht tm Hi Hm Hp Hv Hls Hb Hfits Ho Ha Hcl Hx Hmap Ht Htop Hno Hl];
    change (__handle_client init append reply code (Some arg)) with (handler init append reply code arg).
  - by apply (not_received init append reply code n t arg cx).
  - by apply (no_memory init append reply code n t arg cx f s x bytes o).
  - rewrite (handler_message init append reply code n t arg cx f m p v ls b) by done. rewrite decide_False by done.
    by eapply close_parsed_run.
  - by apply (no_manager init append reply code n t arg cx f m p v ls b) with c cl ht tm.
Qed.

(** C36: a client whose URL has a manager with a session at work (subscribers that
    were sent any number of chunks, uploads under way, other sessions), at a moment
    at which the manager's mutex is free and with memory for the request and the
    subscriber, only subscribes: it comes after the clients already there, with no
    chunk sent, and nothing else of the process changes; its request is freed. *)
Theorem client_joins init append reply code n t arg cx cl c ht f s x tm m p v ls b k M W subs acc
    (new := fresh_loc (subscribers s)) :
  cells (clients_data x) !! arg = Some (ClientData cx f) → cx = Some cl → cells (contexts x) !! cl = Some c → map c = Some ht →
  incoming x !! f = Some (message m p v ls b) → head (own_answers x) ≠ Some false →
  word 7 m ∧ word 255 p ∧ word 15 v ∧ Forall is_line ls ∧ is_line b →
  (length (message m p v ls b) < HTTP_REQUEST_BYTES_LEN)%nat → accepted v p →
  repr (managers_table x) ht tm → top tm p = Some k →
  session_repr s k W subs acc → head (manswers s) ≠ Some false → cells (managers s) !! k = Some M → is_busy M ≠ 0 →
  ∃ S', run n (__handle_client init append reply code (Some arg)) t (HState s x) = Ok tt S' ∧
    session_repr (shared S') k W (subs ++ [new]) (acc ++ [(f, 0, None)]) ∧ only_joined k subs new s (shared S') ∧
    cells (requests (private S')) = cells (requests x) ∧
    cells (clients_data (private S')) = base.delete arg (cells (clients_data x)) ∧
    managers_table (private S') = managers_table x.
Proof. intros. by apply (join_run init append reply code n t arg cx f m p v ls b) with c cl ht tm M. Qed.

(** a client that sends no line end, or closes the connection at once: the
    handler logs the path of a request to which none was assigned, that is, it
    reads memory that was never written. *)
Theorem empty_request_uninit init append reply code n t arg cx f s x bytes :
  cells (clients_data x) !! arg = Some (ClientData cx f) →
  incoming x !! f = Some bytes → is_line bytes → (length bytes < HTTP_REQUEST_BYTES_LEN)%nat →
  head (own_answers x) ≠ Some false →
  run n (__handle_client init append reply code (Some arg)) t (HState s x) = Fault Uninit.
Proof. by apply no_line_uninit. Qed.

(** * Examples *)

(** A proxy with an empty table, to which client 4 sends a request *)
Definition empty_table : table_store :=
  match HashMap.create_table 0%nat (ts_empty []) with Ok _ T => T | _ => ts_empty [] end.
Definition client_sends (bytes : list Z) (T : table_store) : own :=
  Own T mem_empty mem_empty (mem_alloc (ClientData (Some 1%positive) 4) mem_empty) mem_empty
    (mem_alloc (ProxyContext 0 8080 (Some 1%positive)) mem_empty)
    {[4 := bytes]} [] [].
Definition first_client : own :=
  client_sends (message (lit "GET") (lit "http://a.b/c") (lit "HTTP/1.1") [lit "Host: a.b"; []] []) empty_table.
Lemma empty_table_repr : repr empty_table 1 (λ _, []).
Proof.
  destruct (create_run 0%nat (ts_empty [])) as (ht & T & HT & Hr & _); [done|].
  assert (HashMap.create_table 0%nat (ts_empty []) = Ok (Some 1%positive) empty_table) as E by reflexivity.
  rewrite E in HT. by injection HT as <- <-.
Qed.

Example client_turned_away_witness :
  ∃ S', run 1 (__handle_client true (λ l s, Some (default [] l ++ [s])) (λ _, ([], 0)) 200 (Some 1%positive)) 0%nat
      (HState mstart (client_sends (message (lit "GET") (lit "/") (lit "HTTP/2") [] []) empty_table)) = Ok tt S' ∧
    turned_away 1 4 mstart (client_sends (message (lit "GET") (lit "/") (lit "HTTP/2") [] []) empty_table) S'.
Proof.
  apply (client_turned_away _ _ _ _ 1 0%nat 1 (Some 1%positive) 4); [done|].
  apply (u_refused 4 _ _ _ (lit "GET") (lit "/") (lit "HTTP/2") [] []); try done;
    try (apply (bool_decide_unpack _); vm_compute; exact Logic.I).
Defined.

(** A session that has sent its first chunk to client 9, reached by the session
    and a worker of the upload pool *)
Definition first_chunk : prog mstate unit :=
  m ← create_subscription_manager;
  _ ← subscribe m 9;
  _ ← atomic (cas_busy m);
  add_chunk m (lit "data") 1 4.
Definition at_work : mstate :=
  match run_schedule (concat (replicate 100 [0; 1]%nat)) (mstart, [first_chunk; upload_worker]) with
  | inl c => fst c
  | inr _ => mstart
  end.
Definition at_work_manager : subscription_manager_t := Manager 1 0 1 (Some 1%positive) (Some 1%positive) (Some 1%positive).
Lemma at_work_state : mlocks at_work !! 1%positive = Some (Monitor None [[]]) ∧
  cells (managers at_work) !! 1%positive = Some at_work_manager ∧
  cells (subscribers at_work) !! 1%positive = Some (Subscriber 9 1 NULL NULL None) ∧
  fresh_loc (subscribers at_work) = 2%positive ∧ head (manswers at_work) = None.
Proof. vm_compute. done. Qed.
Lemma at_work_session : session_repr at_work 1 [[]] [1%positive] [(9, 1, None)].
Proof.
  destruct at_work_state as (Hl & HM & Hs & _). split; [exact Hl|]. exists at_work_manager. split; [exact HM|].
  split; [reflexivity|]. split; [|cbn [fmap list_fmap]; by rewrite Hs].
  by split; (split; [reflexivity|]; exists (Subscriber 9 1 NULL NULL None); split; [exact Hs|]).
Qed.

Example client_joins_witness :
  let bytes := message (lit "GET") (lit "http://a.b/c") (lit "HTTP/1.1") [[]] [] in
  ∃ T S', run 1 (__handle_client true (λ l s, Some (default [] l ++ [s])) (λ _, ([], 0)) 200 (Some 1%positive)) 0%nat
      (HState at_work (client_sends bytes T)) = Ok tt S' ∧
    session_repr (shared S') 1 [[]] [1%positive; 2%positive] [(9, 1, None); (4, 0, None)].
Proof.
  intros bytes.
  destruct (insert_run 1 (lit "http://a.b/c") (Some 1%positive) _ 0%nat empty_table empty_table_repr) as (T & _ & HT & _).
  { apply (bool_decide_unpack _). vm_compute. exact Logic.I. }
  rewrite decide_False in HT by done. exists T.
  destruct at_work_state as (_ & HM & _ & Hnew & Hmem). pose proof at_work_session as Hs.
  revert HM Hnew Hmem Hs. generalize at_work. intros w HM Hnew Hmem Hs.
  destruct (client_joins true (λ l s, Some (default [] l ++ [s])) (λ _, ([], 0)) 200 1 0%nat 1 (Some 1%positive) 1
    (ProxyContext 0 8080 (Some 1%positive)) 1 4 w (client_sends bytes T)
    (push (lit "http://a.b/c") (Some 1%positive) (λ _, [])) (lit "GET") (lit "http://a.b/c") (lit "HTTP/1.1") [[]] []
    1 at_work_manager [[]] [1%positive] [(9, 1, None)])
    as (S' & HS & HR & _); try done.
  - split_and!; apply (bool_decide_unpack _); vm_compute; exact Logic.I.
  - vm_compute. lia.
  - apply (bool_decide_unpack _). vm_compute. exact Logic.I.
  - by rewrite Hmem.
  - exists S'. split; [exact HS|]. rewrite Hnew in HR. exact HR.
Defined.

Example empty_request_uninit_witness :
  run 1 (__handle_client true (λ l s, Some (default [] l ++ [s])) (λ _, ([], 0)) 200 (Some 1%positive)) 0%nat
    (HState mstart (client_sends [] empty_table)) = Fault Uninit.
Proof.
  apply (empty_request_uninit _ _ _ _ 1 0%nat 1 (Some 1%positive) 4 mstart (client_sends [] empty_table) []); try done.
  - constructor.
  - vm_compute. lia.
Defined.
