(* ===== verification/Serve.v ===== *)
(** Serve: a client is served from end to end (lab3): its request is received and
    parsed, its session runs among the workers of the upload pool, and the
    response it gets is the one the cache or the server has. *)
From Stdlib Require Import FunctionalExtensionality.
From S2P Require Import Prelude CString Threads Pthread Common Hashmap Chunk HttpUtils HttpSend Subscription Cache Broadcast Handler.

#[local] Open Scope Z_scope.

(** * A thread that has a state of its own

    The handler works on structs that the upload pool does not see. What is left
    of it shadows what is left of the session it runs: it takes the session's
    steps on the shared state, and steps of its own in between. *)

Section shadow.
(** What holds of its own state at the end *)
Context (Q : own → Prop).
Implicit Types (s : mstate) (x : own) (w : prog hstate unit) (p : prog mstate unit).

Inductive shadows : prog hstate unit → prog mstate unit → own → Prop :=
  | sh_ret x : Q x → shadows (Ret tt) (Ret tt) x
  | sh_own {B} (op : C hstate B) k p x b x' :
      (∀ s, op 0%nat (HState s x) = Ok b (HState s x')) → shadows (k b) p x' → shadows (Act op k) p x
  | sh_sub {A} (q : prog mstate A) (k : A → prog hstate unit) (k' : A → prog mstate unit) x :
      (∀ a, shadows (k a) (k' a) x) → shadows (pbind (sub q) k) (pbind q k') x.

Lemma sub_bind {A B} (p : prog mstate A) (f : A → prog mstate B) : sub (pbind p f) = pbind (sub p) (λ a, sub (f a)).
Proof.
  revert f. induction p as [a|A B' m k IH|A X Y body _ y k IH]; intros f; [done|..]; unfold sub in *; cbn;
    f_equal; apply functional_extensionality; intros b; apply IH.
Qed.

(** A step of a program on the shared state *)
Lemma sub_step {A} (p : prog mstate A) t s x :
  prog_step (sub p) t (HState s x) =
  match prog_step p t s with
  | Ok p' s' => Ok (sub p') (HState s' x)
  | Blocked => Blocked
  | Fault e => Fault e
  end.
Proof.
  destruct p as [a|B m k|X Y body y k]; [done|..].
  - cbn. unfold lift_act. cbn. by destruct (m t s).
  - cbn. f_equal. etransitivity; [|symmetry; apply sub_bind]. f_equal.
    apply functional_extensionality. by intros [].
Qed.

Lemma sub_bind_step {A} (q : prog mstate A) (k : A → prog hstate unit) t s x : (∀ a, q ≠ Ret a) →
  prog_step (pbind (sub q) k) t (HState s x) =
  match prog_step q t s with
  | Ok q' s' => Ok (pbind (sub q') k) (HState s' x)
  | Blocked => Blocked
  | Fault e => Fault e
  end.
Proof.
  intros Hq. destruct q as [a|B m g|X Y body y g]; [by destruct (Hq a)|..].
  - cbn. unfold lift_act. cbn. by destruct (m t s).
  - cbn. f_equal. rewrite sub_bind, pbind_assoc. f_equal. apply functional_extensionality. by intros [].
Qed.

Lemma bind_step {A B} (q : prog mstate A) (k : A → prog mstate B) t s : (∀ a, q ≠ Ret a) →
  prog_step (pbind q k) t s =
  match prog_step q t s with
  | Ok q' s' => Ok (pbind q' k) s'
  | Blocked => Blocked
  | Fault e => Fault e
  end.
Proof.
  intros Hq. destruct q as [a|B' m g|X Y body y g]; [by destruct (Hq a)|..].
  - cbn. by destruct (m t s).
  - cbn. f_equal. rewrite pbind_assoc. f_equal. apply functional_extensionality. by intros [].
Qed.

Lemma shadows_step w p x s : shadows w p x →
  match prog_step w 0%nat (HState s x) with
  | Ok w' S' => ∃ s' x' p', S' = HState s' x' ∧ shadows w' p' x' ∧
      (s' = s ∧ p' = p ∨ prog_step p 0%nat s = Ok p' s')
  | Blocked => prog_step p 0%nat s = Blocked ∧ (p = Ret tt → w = Ret tt ∧ Q x)
  | Fault e => prog_step p 0%nat s = Fault e
  end.
Proof.
  induction 1 as [x HQ|B op k p x b x' Hop Hk _|A q k k' x Hk IH].
  - done.
  - cbn. rewrite Hop. exists s, x', p. split; [done|]. split; [done|]. by left.
  - assert ((∃ a, q = Ret a) ∨ ∀ a, q ≠ Ret a) as [[a ->]|Hr] by (destruct q; [left; by eexists|by right..]); [apply (IH a)|].
    rewrite sub_bind_step, bind_step by done. destruct (prog_step q 0%nat s) as [q' s'| |e]; [|split; [done|]|done].
    + exists s', x, (pbind q' k'). split; [done|]. split; [by apply sh_sub|by right].
    + intros E. destruct q as [a|? ? ?|? ? ? ? ?]; [by destruct (Hr a)|done..].
Qed.
End shadow.

Section sound.
Context (Q : own → Prop).

Lemma shadows_steps c c' : steps c c' → ∀ s x w p qs, c = (HState s x, w :: (sub <$> qs)) → shadows Q w p x →
  ∃ s' x' w' p' qs', c' = (HState s' x', w' :: (sub <$> qs')) ∧ shadows Q w' p' x' ∧
    steps (s, p :: qs) (s', p' :: qs').
Proof.
  induction 1 as [c|c c1 c' Hstep _ IH]; intros s x w p qs -> Hsh.
  { exists s, x, w, p, qs. split; [done|]. split; [done|constructor]. }
  inversion Hstep as [S0 ths i w0 w1 S1 Hw Hps]; subst. destruct i as [|i]; cbn in Hw.
  - injection Hw as <-. pose proof (shadows_step Q w p x s Hsh) as Hs. rewrite Hps in Hs.
    destruct Hs as (s1 & x1 & p1 & -> & Hsh1 & Hp). cbn in IH.
    destruct (IH _ _ _ _ _ eq_refl Hsh1) as (s' & x' & w' & p' & qs' & -> & Hsh' & Hst).
    exists s', x', w', p', qs'. split; [done|]. split; [done|]. destruct Hp as [[-> ->]|Hp]; [done|].
    eapply rtc_l; [|exact Hst]. exact (step_thread s (p :: qs) 0%nat p p1 s1 eq_refl Hp).
  - apply list_lookup_fmap_Some in Hw as (q & -> & Hq). rewrite sub_step in Hps.
    destruct (prog_step q (Datatypes.S i) s) as [q1 s1| |] eqn:Hqs; [|done..]. injection Hps as <- <-.
    change (<[Datatypes.S i := sub q1]> (w :: (sub <$> qs))) with (w :: <[i := sub q1]> (sub <$> qs)) in IH.
    rewrite <-list_fmap_insert in IH.
    destruct (IH _ _ _ _ _ eq_refl Hsh) as (s' & x' & w' & p' & qs' & -> & Hsh' & Hst).
    exists s', x', w', p', qs'. split; [done|]. split; [done|].
    eapply rtc_l; [|exact Hst]. exact (step_thread s (p :: qs) (Datatypes.S i) q q1 s1 Hq Hqs).
Qed.

(** What holds of the session's threads holds of the handler's. *)
Lemma shadows_sound s x w p qs n (P : mstate → Prop) : shadows Q w p x → (0 < n)%nat →
  (∀ s' ths, steps (s, p :: qs) (s', ths) →
    (∀ e, ¬ faulty (s', ths) e) ∧ (can_move n (s', ths) ∨ ths !! 0%nat = Some (Ret tt) ∧ P s')) →
  ∀ S ths, steps (HState s x, w :: (sub <$> qs)) (S, ths) →
    (∀ e, ¬ faulty (S, ths) e) ∧
    (can_move n (S, ths) ∨ ths !! 0%nat = Some (Ret tt) ∧ P (shared S) ∧ Q (private S)).
Proof.
  intros Hsh Hn Hall S ths Hst.
  destruct (shadows_steps _ _ Hst _ _ _ _ _ eq_refl Hsh) as (s' & x' & w' & p' & qs' & [= -> ->] & Hsh' & Hst').
  destruct (Hall _ _ Hst') as [Hok Hend]. pose proof (shadows_step Q w' p' x' s' Hsh') as Hs. split.
  - intros e (i & q & Hq & He). destruct i as [|i]; cbn in Hq.
    + injection Hq as <-. cbn [fst] in He. rewrite He in Hs. apply (Hok e). by exists 0%nat, p'.
    + apply list_lookup_fmap_Some in Hq as (q0 & -> & Hq). cbn [fst] in He. rewrite sub_step in He.
      apply (Hok e). exists (Datatypes.S i), q0. split; [done|]. cbn [fst].
      revert He. destruct (prog_step q0 _ s'); congruence.
  - assert ((prog_step w' 0%nat (HState s' x') = Blocked ∧ prog_step p' 0%nat s' = Blocked ∧ (p' = Ret tt → w' = Ret tt ∧ Q x')) ∨
      can_move n (HState s' x', w' :: (sub <$> qs'))) as [(Hb & Hbp & Hfin)|Hm]; [| |by left].
    { destruct (prog_step w' 0%nat _) eqn:E; [right|left; by destruct Hs|right];
        (exists 0%nat, w'; split; [lia|split; [done|by cbn [fst]; rewrite E]]). }
    destruct Hend as [(i & q & Hi & Hq & Hmv)|[Hret HP]].
    + left. destruct i as [|i]; [cbn in Hq; injection Hq as <-; by destruct Hmv|].
      change (qs' !! i = Some q) in Hq. exists (Datatypes.S i), (sub q). split; [done|].
      split; [change ((sub <$> qs') !! i = Some (sub q)); by rewrite list_lookup_fmap, Hq|].
      cbn [fst] in Hmv |- *. rewrite sub_step. by destruct (prog_step q _ s').
    + right. cbn in Hret. injection Hret as ->. destruct (Hfin eq_refl) as [-> HQ]. done.
Qed.
End sound.

(** * The handler's session *)

Section session.
Context (curl_easy_init : bool) (curl_slist_append : slist → list Z → slist).
Context (reply : list curl_opt → list event * Z) (response_code : Z).
Context (has_handle : curl_easy_init = true).
Context (appends : ∀ l x, curl_slist_append l x = Some (default [] l ++ [x])).

(** The request [r], for the client [arg] of the context [cx], and the rest of the
    state before the session *)
Context (r : http_request_t) (m p v b : list Z) (hs : list (list Z)).
Context (r_method : method r = Some m) (r_path : path r = Some p) (r_version : version r = Some v) (r_body : body r = Some b).
Context (m_text : no_nul m ∧ (length m ≤ 7)%nat) (p_text : no_nul p ∧ (length p ≤ 255)%nat).
Context (r_count : header_count r = length hs) (r_headers : ∀ i h, hs !! i = Some h → headers r !! i = Some (Some h)).
Context (x0 : own) (arg cx : positive) (f : Z) (c : proxy_context_t).
Context (the_client : cells (clients_data x0) !! arg = Some (ClientData (Some cx) f)).
Context (the_context : cells (contexts x0) !! cx = Some c).
Context (memory : own_answers x0 = []).

Definition req : positive := fresh_loc (requests x0).
Definition ses : positive := fresh_loc (sessions x0).
Definition dld : positive := fresh_loc (downloads x0).
Definition the_session : session_data_t := SessionData (Some 1%positive) (Some req) (Some cx).
Definition the_download (q : Z) : request_context_t := RequestContext q (Some req) (Some 1%positive) (Some cx).

(** The state with the request, the table [T], the sessions [E] and the downloads
    [D] *)
Definition st (T : table_store) (E : mem session_data_t) (D : mem request_context_t) : own :=
  Own T (mem_alloc r (requests x0)) D (clients_data x0) E (contexts x0) (incoming x0) (handler_tasks x0) [].

Lemma st_request T E D : cells (requests (st T E D)) !! req = Some r.
Proof. apply mem_alloc_lookup. Qed.

Lemma sh_log Q T E D k q : shadows Q (k tt) q (st T E D) →
  shadows Q (atomic (log_path (Some req)) ≫= k) q (st T E D).
Proof. intros Hk. eapply sh_own; [|exact Hk]. intros s. eapply log_path_run; [apply st_request|done]. Qed.

Lemma sh_cachename Q T E D k q : shadows Q (k (Some (cachename_of m p))) q (st T E D) →
  shadows Q (atomic (parse_request_to_cachename (Some req)) ≫= k) q (st T E D).
Proof.
  intros Hk. eapply sh_own; [|exact Hk]. intros s.
  apply (cachename_run (HState s (st T E D)) req r); [done|apply st_request|done|done|apply m_text|apply p_text].
Qed.

(** ** A transfer *)

Lemma sh_callback Q T E q d k k' : (∀ z, shadows Q (k z) k' (st T E (mem_alloc (the_download q) (downloads x0)))) →
  shadows Q (callback d 1 (Z.of_nat (length d)) (Some dld) ≫= k)
    (add_chunk (Some 1%positive) d (Z.of_nat (length d)) 1;; k') (st T E (mem_alloc (the_download q) (downloads x0))).
Proof.
  intros Hk. unfold callback. assoc. eapply sh_own.
  { intros s. apply (@load_ok _ _ downloads_heap). apply mem_alloc_lookup. }
  cbn [pbind HttpSend.manager HttpSend.request the_download]. assoc. apply sh_log. assoc.
  apply sh_sub. intros []. apply sh_log. apply Hk.
Qed.

Lemma sh_progress Q T E q dltotal dlnow k k' :
  (∀ z q', shadows Q (k z) k' (st T E (mem_alloc (the_download q') (downloads x0)))) →
  shadows Q (atomic (xferinfo_callback (Some dld) dltotal dlnow) ≫= k) k' (st T E (mem_alloc (the_download q) (downloads x0))).
Proof.
  intros Hk. destruct (xferinfo_step q dltotal dlnow) as [q' o] eqn:Hq.
  eapply (sh_own _ _ _ _ _ (0, o) (st T E (mem_alloc (the_download q') (downloads x0)))); [|apply Hk].
  intros s. unfold xferinfo_callback.
  assert (cells (heap request_context_t (HState s (st T E (mem_alloc (the_download q) (downloads x0))))) !! dld =
    Some (the_download q)) as Hd by apply mem_alloc_lookup.
  rewrite (bind_ok _ _ _ _ _ _ (load_ok _ _ _ _ Hd)). cbn [downloaded_quarter the_download]. rewrite Hq.
  rewrite (bind_ok _ _ _ _ _ _ (update_ok _ _ _ _ _ Hd)). unfold mret, C_ret. do 2 f_equal.
  unfold st, dld. cbn. by rewrite mem_set_alloc.
Qed.

Lemma sh_transfer Q T E events : ∀ q res k k',
  (∀ q', shadows Q (k res) k' (st T E (mem_alloc (the_download q') (downloads x0)))) →
  shadows Q (transfer (Some dld) events res ≫= k) (add_blocks (Some 1%positive) (blocks_of events);; k')
    (st T E (mem_alloc (the_download q) (downloads x0))).
Proof.
  induction events as [|[d|dltotal dlnow] events IH]; intros q res k k' Hk; [apply Hk|..];
    unfold transfer, add_blocks, blocks_of; cbn [foldr omap list_omap]; assoc.
  - apply sh_callback. intros _. by apply IH.
  - apply sh_progress. intros _ q'. by apply IH.
Qed.

(** What the server sends for the request, and whether it is a success *)
Definition the_options : list curl_opt := expected_options dld p m b (Some (no_encoding :: hs)).
Definition the_reply : list event * Z := reply the_options.
Definition blocks : list (list Z) := blocks_of the_reply.1.
Definition success : bool := bool_decide (the_reply.2 = 0 ∧ 200 <= response_code < 300).

Lemma write_data_expected : write_data the_options = Some dld.
Proof. unfold the_options, expected_options. by repeat case_decide. Qed.

Lemma prepare_run s T E q :
  HttpSend.prepare_transfer (mret curl_easy_init) (λ l x, mret (curl_slist_append l x)) (Some dld) 0%nat
    (HState s (st T E (mem_alloc (the_download q) (downloads x0)))) =
  Ok (Some the_options) (HState s (st T E (mem_alloc (the_download q) (downloads x0)))).
Proof.
  set (S := HState s _). pose (answer (_ : slist) (_ : list Z) (s : hstate) := (true, s)).
  assert (append_answers (λ l x, mret (curl_slist_append l x)) answer) as Hanswers.
  { intros l x t s1. unfold mret, C_ret. by rewrite appends. }
  assert (∀ l xs, (appended answer (Some l) xs S) = (Some (l ++ xs), S)) as Hall.
  { intros l xs. revert l. induction xs as [|x xs IH]; intros l; simpl; [by rewrite app_nil_r|]. by rewrite IH, <-app_assoc. }
  rewrite (prepare_transfer_run (mret curl_easy_init) _ answer Hanswers 0%nat dld (the_download q) r hs S S true p m b); try done.
  - cbv zeta. cbn [answer fst snd]. by rewrite Hall.
  - by rewrite has_handle.
  - split; [apply mem_alloc_lookup| |done|done]. exists req. split; [done|]. apply st_request.
  - apply m_text.
Qed.

Lemma sh_curl Q T E q k k' :
  (∀ q', shadows Q (k (if decide (the_reply.2 = 0) then response_code else -1)) k'
    (st T E (mem_alloc (the_download q') (downloads x0)))) →
  shadows Q (curl_request curl_easy_init curl_slist_append reply response_code (Some dld) ≫= k)
    (add_blocks (Some 1%positive) blocks;; k') (st T E (mem_alloc (the_download q) (downloads x0))).
Proof.
  intros Hk. unfold curl_request, HttpSend.send_http_request. assoc. eapply sh_own; [intros s; apply prepare_run|].
  cbn [pbind]. assoc. unfold curl_easy_perform. rewrite write_data_expected. fold the_reply. unfold blocks.
  destruct the_reply as [events res]. cbn [fst snd] in *. apply sh_transfer. intros q'. specialize (Hk q').
  destruct (decide (res = 0)) as [->|Hne]; [|by rewrite decide_True].
  rewrite (decide_False (P := 0 ≠ 0)) by auto. eapply sh_own; [|exact Hk]. done.
Qed.

(** ** The two ways to answer *)

Definition name : list Z := cachename_of m p.
Definition running : mem session_data_t := mem_alloc the_session (sessions x0).

Lemma sh_session_data Q T D k q : shadows Q (k the_session) q (st T running D) →
  shadows Q (Act (load session_data_t (Some ses)) Ret ≫= k) q (st T running D).
Proof. intros Hk. eapply sh_own; [|exact Hk]. intros s. apply (@load_ok _ _ sessions_heap), mem_alloc_lookup. Qed.
Lemma sh_free_session Q T D k q : shadows Q (k tt) q (st T (mem_del ses running) D) →
  shadows Q (atomic (free session_data_t (Some ses)) ≫= k) q (st T running D).
Proof.
  intros Hk. eapply sh_own; [|exact Hk]. intros s.
  rewrite (@free_ok _ _ sessions_heap ses the_session 0%nat); [done|apply mem_alloc_lookup].
Qed.

Lemma sh_share Q T D k k' : shadows Q (k tt) k' (st T (mem_del ses running) D) →
  shadows Q (__share_cache (Some ses) ≫= k) (share_cache (Some 1%positive) (Some name);; k') (st T running D).
Proof.
  intros Hk. unfold __share_cache. assoc. apply sh_session_data. cbn [session_request session_manager the_session].
  assoc. apply sh_cachename. assoc. apply sh_sub. intros []. by apply sh_free_session.
Qed.

Lemma sh_download Q T k k' :
  (∀ q, shadows Q (k tt) k' (st T (mem_del ses running) (mem_alloc (the_download q) (downloads x0)))) →
  shadows Q (__download_and_send curl_easy_init curl_slist_append reply response_code (Some ses) ≫= k)
    (add_blocks (Some 1%positive) blocks;; (if success then save_cache (Some 1%positive) (Some name) else mret tt);; k')
    (st T running (downloads x0)).
Proof.
  intros Hk. unfold __download_and_send. assoc. apply sh_session_data.
  cbn [session_request session_manager session_context the_session]. assoc.
  apply (sh_own _ _ _ _ _ (Some dld) (st T running (mem_alloc (the_download 0) (downloads x0)))); [done|]. cbn [pbind].
  assoc. apply sh_log. assoc. apply sh_curl. intros q. assoc. apply sh_log. unfold success, __check_response_code.
  destruct (decide (the_reply.2 = 0)) as [Hz|Hz].
  2: { rewrite (decide_False (P := -1 >= 200 ∧ -1 < 300)) by lia. rewrite (decide_False (P := -1 = 0)) by lia.
       rewrite bool_decide_eq_false_2 by tauto. by apply sh_free_session. }
  destruct (decide (response_code >= 200 ∧ response_code < 300)) as [Hc|Hc].
  - rewrite (decide_True (P := 0 = 0)) by done. rewrite bool_decide_eq_true_2 by lia. assoc. apply sh_cachename. assoc.
    apply sh_log. assoc. apply sh_sub. intros []. apply sh_log. by apply sh_free_session.
  - rewrite (decide_False (P := -1 = 0)) by lia. rewrite bool_decide_eq_false_2 by lia. by apply sh_free_session.
Qed.

(** ** From the session to the end of the client *)

Context (ht : positive) (the_table : map c = Some ht).

Lemma table_op_st {A} s T E D (op : ptr → list Z → C table_store A) a T' :
  op (Some ht) p 0%nat T = Ok a T' →
  table_op (Some arg) (Some req) op 0%nat (HState s (st T E D)) = Ok a (HState s (st T' E D)).
Proof.
  intros Hop. rewrite (table_op_run (HState s (st T E D)) arg req r p (ClientData (Some cx) f) cx c op a T');
    [done|done|done|done|apply st_request|done|by rewrite the_table].
Qed.

(** The handler's own state at the end: the manager is gone from the table, the
    structs of the request, the client and the session are freed; one of a
    download may be left. *)
Record own_after (tm : list Z → list ptr) (x : own) : Prop := {
  a_table : repr (managers_table x) ht tm;
  a_requests : cells (requests x) = cells (requests x0);
  a_clients : cells (clients_data x) = base.delete arg (cells (clients_data x0));
  a_sessions : cells (sessions x) = cells (sessions x0);
  a_contexts : contexts x = contexts x0;
  a_downloads : cells (downloads x) = cells (downloads x0) ∨
    ∃ q, cells (downloads x) = <[dld := the_download q]> (cells (downloads x0));
}.

Lemma sh_end T tm D : repr T ht tm →
  (cells D = cells (downloads x0) ∨ ∃ q, cells D = <[dld := the_download q]> (cells (downloads x0))) →
  shadows (own_after (pop p tm))
    (atomic (table_op (Some arg) (Some req) HashMap.delete);; end_client (Some req) (Some arg)) (Ret tt)
    (st T (mem_del ses running) D).
Proof.
  intros HT HD. destruct (delete_run ht p tm 0%nat T HT) as (T' & HT' & Hr & _); [apply p_text|].
  apply (sh_own _ _ _ _ _ tt (st T' (mem_del ses running) D)).
  { intros s. by apply table_op_st. }
  unfold end_client. set (E := mem_del ses running). set (R := mem_del req (mem_alloc r (requests x0))).
  apply (sh_own _ _ _ _ _ tt (Own T' R D (clients_data x0) E (contexts x0) (incoming x0) (handler_tasks x0) [])).
  { intros s. rewrite (@free_ok _ _ requests_heap req r 0%nat); [done|apply st_request]. }
  apply (sh_own _ _ _ _ _ tt (Own T' R D (mem_del arg (clients_data x0)) E (contexts x0) (incoming x0) (handler_tasks x0) [])).
  { intros s. by rewrite (@free_ok _ _ clients_heap arg (ClientData (Some cx) f) 0%nat). }
  apply sh_ret. split; try done.
  - cbn. apply delete_insert_id, fresh_loc_none.
  - cbn. apply delete_insert_id, fresh_loc_none.
Qed.

Lemma sh_main T tm : repr T ht tm →
  shadows (own_after (pop p tm))
    (main_session curl_easy_init curl_slist_append reply response_code (Some req) (Some arg) (Some 1%positive) ≫=
      λ _, end_client (Some req) (Some arg))
    (session (Some 1%positive) (Some name) blocks success) (st T (sessions x0) (downloads x0)).
Proof.
  intros HT. unfold main_session. assoc. apply (sh_own _ _ _ _ _ (ClientData (Some cx) f) (st T (sessions x0) (downloads x0))).
  { intros s. by apply (@load_ok _ _ clients_heap). }
  cbn [pbind]. assoc. apply (sh_own _ _ _ _ _ (Some ses) (st T running (downloads x0))); [done|]. cbn [pbind].
  unfold __check_cache. assoc. apply sh_cachename. unfold session. apply sh_sub. intros missing.
  assert (∀ D, (cells D = cells (downloads x0) ∨ ∃ q, cells D = <[dld := the_download q]> (cells (downloads x0))) →
    shadows (own_after (pop p tm))
      (sub (finish_pending_chunks (Some 1%positive)) ≫= λ _, sub (destroy_subscription_manager (Some 1%positive)) ≫= λ _,
        atomic (table_op (Some arg) (Some req) HashMap.delete);; end_client (Some req) (Some arg))
      (finish_pending_chunks (Some 1%positive);; destroy_subscription_manager (Some 1%positive))
      (st T (mem_del ses running) D)) as Hend.
  { intros D HD. apply sh_sub. intros []. rewrite <-(pbind_ret_r (destroy_subscription_manager _)).
    apply sh_sub. intros []. by apply sh_end. }
  case_decide; assoc.
  - apply sh_download. intros q. assoc. apply Hend. right. by exists q.
  - apply sh_share. assoc. apply Hend. by left.
Qed.
End session.

(** * A client, from end to end *)

Section client.
Context (curl_easy_init : bool) (curl_slist_append : slist → list Z → slist).
Context (reply : list curl_opt → list event * Z) (response_code : Z).

(** The client [arg] of the context [cx] sent a message on [f]; no other client
    has asked for its URL. *)
Record asks (arg cx ht : positive) (f : Z) (tm : list Z → list ptr) (m p v : list Z) (ls : list (list Z)) (b : list Z)
    (x : own) : Prop := {
  k_client : cells (clients_data x) !! arg = Some (ClientData (Some cx) f);
  k_context : ∃ c, cells (contexts x) !! cx = Some c ∧ map c = Some ht;
  k_table : repr (managers_table x) ht tm;
  k_new : top tm p = NULL;
  k_message : incoming x !! f = Some (message m p v ls b);
  k_words : word 7 m ∧ word 255 p ∧ word 15 v ∧ Forall is_line ls ∧ is_line b;
  k_fits : (length (message m p v ls b) < HTTP_REQUEST_BYTES_LEN)%nat;
  k_accepted : accepted v p;
  k_memory : own_answers x = [] ∧ ts_oom (managers_table x) = [];
}.

Lemma before_first_busy d fs s M z : before_first d fs s → cells (managers s) !! 1%positive = Some M →
  before_first d fs (put_manager 1 (set_is_busy z M) s).
Proof.
  intros [Hr Hcl Hoth] HM. split; [by apply manager_repr_busy|done|].
  rewrite <-Hoth. unfold others. cbn. by rewrite lookup_insert_eq, HM.
Qed.

Lemma to_session d arg cx ht f tm m p v ls b x (r := parsed m p v ls b) :
  asks arg cx ht f tm m p v ls b x →
  ∃ s1 T1, before_first d [f] s1 ∧ repr T1 ht (push p (Some 1%positive) tm) ∧
    alone 0%nat (__handle_client curl_easy_init curl_slist_append reply response_code (Some arg)) (HState (mstart_with d) x)
      (main_session curl_easy_init curl_slist_append reply response_code (Some (req x)) (Some arg) (Some 1%positive) ≫=
        λ _, end_client (Some (req x)) (Some arg))
      (HState s1 (st r x T1 (sessions x) (downloads x))).
Proof.
  intros [Kc (c & Kx & Kmap) Kt Kn Km (Wm & Wp & Wv & Wls & Wb) Kf Ka [Ko Kto]].
  assert (no_nul p) as Hnp by apply Wp.
  destruct (insert_run ht p (Some 1%positive) tm 0%nat (managers_table x) Kt Hnp) as (T1 & HT1 & Hr1 & _).
  assert (¬ malloc_fails (managers_table x)) as Hmf by (unfold malloc_fails; change (oom ?y) with (ts_oom y); by rewrite Kto).
  rewrite decide_False in Hr1 by done.
  destruct (subscribe_run 1 (created d) 1 [] f 0%nat (created_repr d)) as (s1 & Hs1 & Hrepr & Hcl & Hoth & Hbusy).
  assert (before_first d [f] s1) as Hb1 by (by split).
  destruct (mr_list _ _ _ Hrepr) as (M & _ & HM & _).
  assert (is_busy M = 0) as Hb0.
  { rewrite HM in Hbusy. by injection Hbusy. }
  exists (put_manager 1 (set_is_busy 1 M) s1), T1. split; [by apply before_first_busy|]. split; [done|].
  unfold __handle_client.
  eapply alone_act; [by apply (@load_ok _ _ clients_heap)|]. cbn [pbind]. cbv zeta. cbn [client_fd].
  eapply alone_act; [by apply recv_run|]. cbn [pbind fst snd]. rewrite (decide_False (P := 0 < 0)) by lia.
  eapply alone_act; [apply parse_run; by rewrite ?Ko|]. rewrite Ko. cbn [tl pbind]. cbv iota.
  change (HState ?s (with_requests _ _ _)) with (HState s (st r x (managers_table x) (sessions x) (downloads x))).
  change (fresh_loc (requests x)) with (req x).
  eapply alone_act; [eapply log_path_run; [apply st_request|done]|]. cbn [pbind].
  eapply alone_act; [eapply validate_run; [apply st_request|done|done|exact Wv|exact Wp]|].
  rewrite (decide_True (P := accepted v p)) by done. cbn [pbind]. rewrite (decide_False (P := 0 < 0)) by lia.
  unfold find_manager. assoc.
  eapply alone_act; [by eapply (table_op_st r p eq_refl x arg cx f c Kc Kx ht Kmap), get_run|].
  rewrite Kn. cbn [pbind]. cbv iota. assoc.
  eapply alone_trans; [eapply (run_alone 1), run_sub, manager_create_run; lia|]. cbv beta iota. assoc.
  eapply alone_act; [by eapply (table_op_st r p eq_refl x arg cx f c Kc Kx ht Kmap)|].
  cbn [pbind]. assoc. change (mret ?y ≫= ?g) with (g y). cbv beta iota.
  eapply alone_trans; [eapply (run_alone 1), run_sub, Hs1|]. cbv beta.
  eapply alone_trans; [eapply (run_alone 1), run_sub|].
  { rewrite run_atomic. unfold cas_busy. rewrite (bind_ok _ _ _ _ _ _ (@load_ok _ _ managers_heap _ _ _ _ HM)), Hb0.
    change (cas 0 0 1) with (1, 1). cbv beta iota. rewrite (bind_ok _ _ _ _ _ _ (@update_ok _ _ managers_heap _ _ _ _ _ HM)). reflexivity. }
  cbv beta. rewrite (decide_True (P := 1 ≠ 0)) by lia. constructor.
Qed.

Lemma pop_push p q (tm : list Z → list ptr) : pop p (push p q tm) = tm.
Proof.
  apply functional_extensionality. intros k. unfold pop, push. by case_decide.
Qed.

(** C1: one client, from its request to the end of its session: a request that the
    proxy accepts arrives for a URL nobody else asked for. The handler parses it,
    makes a manager, puts it into the table, subscribes the client and starts the
    session; from there on, in every interleaving with the workers of the upload
    pool and whatever the system wakes, no access is outside of allocated memory,
    no array is overrun and no lock is misused, and until the handler has returned
    a thread can go on. When it has, the client was sent the file of the cache, if
    there is one, and else what the server sent, all of it in order and nothing
    else, and was closed once; the cache has the download, if it is a success; the
    table is as it was, and everything is freed but the struct of the download.
    Assumed: nobody else asked for the URL, malloc succeeds, each send takes all
    it is given, and libcurl has a handle and appends every header. *)
Theorem client_served workers d arg cx ht f tm m p v ls b x
    (bs := blocks reply m p (take 511 (rest_of ls b)) (take 255 <$> take 10 ls) x)
    (ok := success reply response_code m p (take 511 (rest_of ls b)) (take 255 <$> take 10 ls) x) :
  curl_easy_init = true → (∀ l s, curl_slist_append l s = Some (default [] l ++ [s])) →
  (0 < workers)%nat → asks arg cx ht f tm m p v ls b x →
  Forall (λ d, Z.of_nat (length d) < 2 ^ 64) bs → Z.of_nat (length bs) < 2 ^ 31 →
  Z.of_nat (length (default [] (stored d !! full_of (name m p)))) < 2 ^ 31 →
  ∃ w S1,
    alone 0%nat (__handle_client curl_easy_init curl_slist_append reply response_code (Some arg))
      (HState (mstart_with d) x) w S1 ∧
    ∀ S ths, steps (S1, w :: (sub <$> (replicate workers upload_worker ++ [spurious_wakeups 1]))) (S, ths) →
      (∀ e, ¬ faulty (S, ths) e) ∧
      (can_move (1 + workers) (S, ths) ∨ ths !! 0%nat = Some (Ret tt) ∧
        session_complete [f] (response d (name m p) bs) (files_after d (name m p) bs ok) (shared S) ∧
        own_after x arg cx ht tm (private S)).
Proof.
  intros Hinit Happ Hw Hasks Hbs Hlen Hfile.
  destruct (to_session d arg cx ht f tm m p v ls b x Hasks) as (s1 & T1 & Hb1 & HT1 & Halone).
  destruct Hasks as [Kc (c & Kx & Kmap) _ _ _ (Wm & Wp & Wv & Wls & Wb) _ _ _].
  eexists _, _. split; [exact Halone|]. rewrite <-(pop_push p (Some 1%positive) tm).
  apply (shadows_sound _ s1 _ _ (session (Some 1%positive) (Some (name m p)) bs ok)); [|lia|].
  - apply sh_main with (b := take 511 (rest_of ls b)) (hs := take 255 <$> take 10 ls) (c := c) (f := f); try done.
    + split; [apply Wm|apply Wm].
    + split; [apply Wp|apply Wp].
    + cbn. rewrite length_fmap, length_take. lia.
    + intros i h Hi. apply list_lookup_fmap_Some in Hi as (l & -> & Hl). cbn.
      apply lookup_app_l_Some. by rewrite list_lookup_fmap, Hl.
  - intros s ths Hst. apply (session_runs workers d [f] (name m p) bs ok s1) in Hst; try done.
    + by apply NoDup_singleton.
    + apply cachename_length; [apply Wm|apply Wp].
Qed.
End client.

(** * An example *)

Definition page : list event * Z :=
  ([Data (lit "HTTP/1.1 200 OK"); Data CRLF; Progress 2 0; Data CRLF; Data (lit "hi"); Progress 2 2], 0).

Lemma first_client_asks : asks 1 1 1 4 (λ _, []) (lit "GET") (lit "http://a.b/c") (lit "HTTP/1.1") [lit "Host: a.b"; []] [] first_client.
Proof.
  split; try done.
  - by eexists.
  - apply empty_table_repr.
  - split_and!; try (apply (bool_decide_unpack _); vm_compute; exact Logic.I).
  - vm_compute. lia.
  - apply (bool_decide_unpack _). vm_compute. exact Logic.I.
Qed.

Example client_served_witness :
  let d := Disk true ∅ in let url := lit "http://a.b/c" in
  let answer := lit "HTTP/1.1 200 OK" ++ CRLF ++ CRLF ++ lit "hi" in
  ∃ w S1,
    alone 0%nat (__handle_client true (λ l s, Some (default [] l ++ [s])) (λ _, page) 200 (Some 1%positive))
      (HState (mstart_with d) first_client) w S1 ∧
    ∀ S ths, steps (S1, w :: (sub <$> (replicate 2 upload_worker ++ [spurious_wakeups 1]))) (S, ths) →
      (∀ e, ¬ faulty (S, ths) e) ∧
      (can_move 3 (S, ths) ∨ ths !! 0%nat = Some (Ret tt) ∧
        session_complete [4] answer (Disk true {[full_of (cachename_of (lit "GET") url) := answer]}) (shared S) ∧
        own_after first_client 1 1 1 (λ _, []) (private S)).
Proof.
  intros d url answer.
  refine (client_served true (λ l s, Some (default [] l ++ [s])) (λ _, page) 200 2 d 1 1 1 4 (λ _, [])
    (lit "GET") url (lit "HTTP/1.1") [lit "Host: a.b"; []] [] first_client eq_refl _ _ first_client_asks _ _ _).
  - done.
  - lia.
  - apply (bool_decide_unpack _). vm_compute. exact Logic.I.
  - done.
  - done.
Defined.
