(* ===== verification/MyThread.v ===== *)
(** MyThread: the kernel threads of lab1/src/6 on clone(2) (my_thread.c), with
    stacks and guard pages of their own, and the program a.c that creates,
    runs and clears them. *)
From S2P Require Import Prelude Threads.

#[local] Open Scope Z_scope.

(** * Data *)

Definition GUARD_SIZE : Z := Z.shiftl 1 12.
Definition STACK_SIZE : Z := Z.shiftl 1 23.

(** A page of x86-64, and its protection *)
Definition PAGE : Z := 4096.
Inductive prot := PROT_NONE | PROT_READ_WRITE.
#[export] Instance prot_eq_dec : EqDecision prot.
Proof. solve_decision. Defined.

(** The functions of a.c that a thread may run *)
Inductive thread_func := Func | F.

(** Fields are [None] as long as nothing was written to them; addresses are
    integers. *)
Record my_thread_t := MyThread {
  is_finished : option Z;
  tid : option Z;
  stack : option Z;
  guard : option Z;
}.

(** [thread] and [arg] are indices into the arrays of [main]. *)
Record wrapper_data_t := WrapperData { thread : nat; func : thread_func; arg : nat }.

(** What the program prints *)
Inductive line :=
  | Value (z : Z) | Count (z : Z) | Cleared (tid : Z) | Still_running | Munmap_failed | Perror.

(** A thread the kernel runs: the data of its wrapper, the top of its stack,
    and, auxiliary, the [my_thread_t] it was created for *)
Record task := Task { t_data : ptr; t_top : Z; t_thread : nat }.

(** The process: mapped pages by number; the arrays [threads] and [args] of
    [main], the second [None] when it is NULL or freed; the heap of wrapper
    data; [g]; the output; the tasks. [answers] are those of the system calls
    and [malloc], [places] where the kernel would like to map. Auxiliary:
    [owners], the first page of each thread that was created and not cleared. *)
Record tstate := TState {
  pages : gmap Z prot;
  threads : list my_thread_t;
  datas : mem wrapper_data_t;
  args : option (list (option Z));
  g : Z;
  output : list line;
  tasks : list task;
  answers : list bool;
  places : list Z;
  owners : gmap nat Z;
}.

#[export] Instance data_heap : Heap tstate wrapper_data_t.
Proof.
  refine {| heap := datas;
    set_heap m s := TState (pages s) (threads s) m (args s) (g s) (output s) (tasks s) (answers s) (places s) (owners s) |};
  intros; repeat match goal with s : tstate |- _ => destruct s end; reflexivity.
Defined.
#[export] Instance tstate_oom : Oom tstate.
Proof.
  refine {| oom := answers;
    set_oom o s := TState (pages s) (threads s) (datas s) (args s) (g s) (output s) (tasks s) o (places s) (owners s) |};
  intros; repeat match goal with s : tstate |- _ => destruct s end; reflexivity.
Defined.

Definition set_pages m s := TState m (threads s) (datas s) (args s) (g s) (output s) (tasks s) (answers s) (places s) (owners s).
Definition set_threads l s := TState (pages s) l (datas s) (args s) (g s) (output s) (tasks s) (answers s) (places s) (owners s).
Definition set_args a s := TState (pages s) (threads s) (datas s) a (g s) (output s) (tasks s) (answers s) (places s) (owners s).
Definition set_g z s := TState (pages s) (threads s) (datas s) (args s) z (output s) (tasks s) (answers s) (places s) (owners s).
Definition set_output o s := TState (pages s) (threads s) (datas s) (args s) (g s) o (tasks s) (answers s) (places s) (owners s).
Definition set_tasks l s := TState (pages s) (threads s) (datas s) (args s) (g s) (output s) l (answers s) (places s) (owners s).
Definition set_places l s := TState (pages s) (threads s) (datas s) (args s) (g s) (output s) (tasks s) (answers s) l (owners s).
Definition set_owners m s := TState (pages s) (threads s) (datas s) (args s) (g s) (output s) (tasks s) (answers s) (places s) m.

(** * System calls *)

(** The pages [b], ..., [b + n - 1] *)
Definition range_set (b n : Z) (p : prot) (m : gmap Z prot) : gmap Z prot :=
  foldr (λ x m, <[x := p]> m) m (seqZ b n).
Definition range_del (b n : Z) (m : gmap Z prot) : gmap Z prot :=
  foldr delete m (seqZ b n).
Definition range_free (m : gmap Z prot) (b n : Z) : Prop :=
  0 < b ∧ Forall (λ x, m !! x = None) (seqZ b n).
#[export] Instance range_free_dec m b n : Decision (range_free m b n).
Proof. unfold range_free. apply _. Defined.

(** Above every mapped page *)
Definition top_page (m : gmap Z prot) : Z := map_fold (λ p _ acc, Z.max (p + 1) acc) 1 m.

(** The kernel maps where it would like to when that is free: any free range is
    possible. *)
Definition find_range (n : Z) (s : tstate) : Z :=
  match places s with
  | b :: _ => if decide (range_free (pages s) b n) then b else top_page (pages s)
  | [] => top_page (pages s)
  end.

(** [mmap(NULL, length, PROT_READ | PROT_WRITE, ...)]; [None] is [MAP_FAILED] *)
Definition mmap (length : Z) : C tstate (option Z) :=
  ok ← malloc_answer;
  if (ok : bool) then
    b ← gets (find_range (length / PAGE));
    modify (λ s, set_places (tail (places s))
      (set_pages (range_set b (length / PAGE) PROT_READ_WRITE (pages s)) s));;
    mret (Some (b * PAGE))
  else mret None.
(** [-1] is failure. *)
Definition mprotect (addr len : Z) (p : prot) : C tstate Z :=
  ok ← malloc_answer;
  if (ok : bool) then
    modify (λ s, set_pages (range_set (addr / PAGE) (len / PAGE) p (pages s)) s);; mret 0
  else mret (-1).
Definition munmap (addr len : Z) : C tstate Z :=
  ok ← malloc_answer;
  if (ok : bool) then
    modify (λ s, set_pages (range_del (addr / PAGE) (len / PAGE) (pages s)) s);; mret 0
  else mret (-1).
(** [clone(wrapper, top, ..., data)]: the new task can run at once. *)
Definition clone (top : Z) (data : ptr) (thr : nat) : C tstate Z :=
  ok ← malloc_answer;
  if (ok : bool) then
    l ← gets tasks;
    modify (λ s, set_tasks (tasks s ++ [Task data top thr]) s);;
    mret (Z.of_nat (length l) + 1)
  else mret (-1).

(** * Operations *)

Definition print (x : line) : C tstate unit := modify (λ s, set_output (output s ++ [x]) s).

(** [thread->field], and writing to the struct *)
Definition field {A} (f : my_thread_t → option A) (thr : nat) : C tstate A :=
  l ← gets threads;
  x ← array_get l thr;
  match f x with Some a => mret a | None => fail Uninit end.
Definition assign (thr : nat) (f : my_thread_t → my_thread_t) : C tstate unit :=
  l ← gets threads;
  _ ← array_get l thr;
  modify (λ s, set_threads (alter f thr l) s).

Definition set_finished z x := MyThread (Some z) (tid x) (stack x) (guard x).
Definition set_tid z x := MyThread (is_finished x) (Some z) (stack x) (guard x).
Definition set_stack z x := MyThread (is_finished x) (tid x) (Some z) (guard x).
Definition set_guard z x := MyThread (is_finished x) (tid x) (stack x) (Some z).

(** A step of a task, which needs the frame at the top of its stack *)
Definition on_stack {A} (top : Z) (m : C tstate A) : prog tstate A :=
  atomic (λ t s,
    if decide (pages s !! ((top - 1) / PAGE) = Some PROT_READ_WRITE) then m t s else Fault Segv).

(** What [arg] points to, an [int] *)
Definition read_arg (i : nat) : C tstate Z :=
  a ← gets args;
  match a with
  | None => fail Segv
  | Some l => x ← array_get l i; match x with Some z => mret z | None => fail Uninit end
  end.

(** a.c: [func] and [f] *)
Definition run_func (top : Z) (fn : thread_func) (i : nat) : prog tstate unit :=
  match fn with
  | Func =>
      z ← on_stack top (read_arg i);
      on_stack top (print (Value z));;
      x ← on_stack top (gets g);
      y ← on_stack top (signed_add INT_MAX x 1);
      on_stack top (modify (set_g y))
  | F => on_stack top (mret tt)
  end.

Definition wrapper (top : Z) (data : ptr) : prog tstate unit :=
  x ← on_stack top (load wrapper_data_t data);
  run_func top (func x) (arg x);;
  x ← on_stack top (load wrapper_data_t data);
  on_stack top (free wrapper_data_t data);;
  on_stack top (assign (thread x) (set_finished 1));;
  on_stack top (mret tt).

(** The thread's wrapper data and its task, on a stack that is ready *)
Definition start_thread (thr : nat) (fn : thread_func) (a : nat) (base : Z) : prog tstate Z :=
  data ← atomic (malloc wrapper_data_t (WrapperData thr fn a));
  _ ← atomic (load wrapper_data_t data);   (* data->..., for NULL a fault *)
  r ← atomic (
    r ← clone (base + GUARD_SIZE + STACK_SIZE) data thr;
    if decide (r = -1) then mret r
    else modify (λ s, set_owners (<[thr := base / PAGE]> (owners s)) s);; mret r);
  atomic (assign thr (set_tid r));;
  r ← atomic (field tid thr);
  (if decide (r = -1) then
     _ ← atomic (munmap base (GUARD_SIZE + STACK_SIZE)); mret tt
   else mret tt);;
  atomic (field tid thr).

Definition mythread_create (thr : nat) (fn : thread_func) (a : nat) : prog tstate Z :=
  st ← atomic (mmap (STACK_SIZE + GUARD_SIZE));
  match st with
  | None => atomic (print Perror);; mret (-1)
  | Some base =>
      r ← atomic (mprotect base GUARD_SIZE PROT_NONE);
      if decide (r = -1) then
        atomic (print Perror);;
        _ ← atomic (munmap base STACK_SIZE);
        mret (-1)
      else
        atomic (assign thr (set_guard base));;
        atomic (assign thr (set_stack (base + GUARD_SIZE)));;
        start_thread thr fn a base
  end.

Definition clear (thr : nat) : prog tstate Z :=
  x ← atomic (field is_finished thr);
  if decide (x = 0) then atomic (print Still_running);; mret (-1)
  else
    a ← atomic (field guard thr);
    err ← atomic (
      err ← munmap a (STACK_SIZE + GUARD_SIZE);
      if decide (err = -1) then mret err
      else modify (λ s, set_owners (delete thr (owners s)) s);; mret err);
    if decide (err = -1) then atomic (print Munmap_failed);; mret (-1)
    else
      z ← atomic (field tid thr);
      atomic (print (Cleared z));;
      mret 0.

(** * The program a.c *)

(** A task: it runs once [clone] has made it. *)
Definition spawned : prog tstate unit :=
  x ← atomic (λ t s, match tasks s !! (t - 1)%nat with Some x => Ok x s | None => Blocked end);
  wrapper (t_top x) (t_data x).

Section main.
Context (N : nat).

(** [args[i] = i] *)
Definition store_arg (i : nat) : C tstate unit :=
  a ← gets args;
  match a with
  | None => fail Segv
  | Some l => _ ← array_get l i; modify (set_args (Some (<[i := Some (Z.of_nat i)]> l)))
  end.

Definition create_threads : prog tstate unit :=
  Loop (λ i : nat,
    if decide (i < N)%nat then
      atomic (store_arg i);;
      success ← mythread_create i Func i;
      (if decide (success = -1) then atomic (print Perror) else mret tt);;
      mret (inl (i + 1)%nat)
    else mret (inr tt)) 0%nat Ret.

Definition clear_threads : prog tstate unit :=
  Loop (λ i : nat,
    if decide (i < N)%nat then _ ← clear i; mret (inl (i + 1)%nat)
    else mret (inr tt)) 0%nat Ret.

Definition main : prog tstate unit :=
  ok ← atomic malloc_answer;
  atomic (modify (set_args (if (ok : bool) then Some (replicate N None) else None)));;
  create_threads;;
  z ← atomic (gets g);
  atomic (print (Count z));;
  clear_threads;;
  atomic (modify (set_args None)).

(** The process and the tasks it may get; [m] is what was mapped before. *)
Definition initial (m : gmap Z prot) (answers : list bool) (places : list Z) : config tstate :=
  (TState m (replicate N (MyThread None None None None)) mem_empty None 0 [] [] answers places ∅,
   main :: replicate N spawned).
End main.

(** * Address ranges *)

Lemma range_set_lookup b n p m x :
  range_set b n p m !! x = if decide (b ≤ x < b + n) then Some p else m !! x.
Proof.
  unfold range_set. assert (∀ l, foldr (λ x m, <[x:=p]> m) m l !! x =
    if decide (x ∈ l) then Some p else m !! x) as ->.
  { induction l as [|y l IH]; simpl; [done|]. destruct (decide (x = y)) as [->|].
    - rewrite lookup_insert_eq, decide_True by set_solver. done.
    - rewrite lookup_insert_ne, IH by done. by apply decide_ext; set_solver. }
  apply decide_ext. rewrite elem_of_seqZ. done.
Qed.
Lemma range_del_lookup b n m x :
  range_del b n m !! x = if decide (b ≤ x < b + n) then None else m !! x.
Proof.
  unfold range_del. assert (∀ l, foldr delete m l !! x =
    if decide (x ∈ l) then None else m !! x) as ->.
  { induction l as [|y l IH]; simpl; [done|]. destruct (decide (x = y)) as [->|].
    - rewrite lookup_delete_eq, decide_True by set_solver. done.
    - rewrite lookup_delete_ne, IH by done. by apply decide_ext; set_solver. }
  apply decide_ext. rewrite elem_of_seqZ. done.
Qed.

Lemma top_page_above m x : is_Some (m !! x) → x < top_page m.
Proof.
  unfold top_page. revert x.
  apply (map_fold_weak_ind (λ r m, ∀ x, is_Some (m !! x) → x < r)).
  - intros x [p Hp]. by rewrite lookup_empty in Hp.
  - intros y p m' r _ IH x Hx. destruct (decide (x = y)) as [->|]; [lia|].
    rewrite lookup_insert_ne in Hx by done. specialize (IH _ Hx). lia.
Qed.

(** [mmap] gives a range that was not mapped. *)
Lemma find_range_free n s x :
  find_range n s ≤ x < find_range n s + n → pages s !! x = None.
Proof.
  assert (top_page (pages s) ≤ x → pages s !! x = None) as Htop.
  { intros Hx. destruct (pages s !! x) eqn:E; [|done].
    pose proof (top_page_above (pages s) x ltac:(eauto)). lia. }
  unfold find_range. destruct (places s) as [|b l]; [intros; apply Htop; lia|].
  destruct (decide _) as [[_ Hf]|]; [|intros; apply Htop; lia].
  intros Hx. rewrite Forall_forall in Hf. apply Hf. by rewrite elem_of_seqZ.
Qed.

(** * The layout of the address space *)

(** The thread whose guard page is page [b] has 2048 pages of stack above it. *)
Definition stack_at (b : Z) (m : gmap Z prot) : Prop :=
  m !! b = Some PROT_NONE ∧ ∀ x, b < x < b + 2049 → m !! x = Some PROT_READ_WRITE.
Definition unmapped (b : Z) (m : gmap Z prot) : Prop := ∀ x, b ≤ x < b + 2049 → m !! x = None.
Definition apart (b b' : Z) : Prop := b + 2049 ≤ b' ∨ b' + 2049 ≤ b.

(** What is mapped besides the threads' stacks is [m]. *)
Record layout (m : gmap Z prot) (s : tstate) : Prop := {
  layout_rest x p : m !! x = Some p → pages s !! x = Some p;
  layout_owned thr b : owners s !! thr = Some b →
    stack_at b (pages s) ∧ unmapped b m ∧
    ∃ x, threads s !! thr = Some x ∧ guard x = Some (b * PAGE) ∧
         stack x = Some (b * PAGE + GUARD_SIZE);
  layout_apart thr thr' b b' : thr ≠ thr' →
    owners s !! thr = Some b → owners s !! thr' = Some b' → apart b b';
  layout_task x : x ∈ tasks s → ∃ y, threads s !! t_thread x = Some y ∧
    (is_finished y = Some 1 ∨
     is_finished y = None ∧ ∃ b, owners s !! t_thread x = Some b ∧
       t_top x = b * PAGE + GUARD_SIZE + STACK_SIZE);
}.

(** ** The parts of the state the layout is about *)
Definition quiet (s s' : tstate) : Prop :=
  pages s' = pages s ∧ threads s' = threads s ∧ datas s' = datas s ∧
  tasks s' = tasks s ∧ owners s' = owners s.

Section proofs.
Context (N : nat) (m0 : gmap Z prot).

(** The wrapper data of tasks are different objects, and were allocated. *)
Record inv (s : tstate) : Prop := {
  inv_layout : layout m0 s;
  inv_length : length (threads s) = N;
  inv_data i x : tasks s !! i = Some x → ∃ d, t_data x = Some d ∧ (d < brk (datas s))%positive;
  inv_nodup i j x y : tasks s !! i = Some x → tasks s !! j = Some y → t_data x = t_data y → i = j;
  inv_finished thr y : threads s !! thr = Some y → is_Some (is_finished y) →
    ∃ x, x ∈ tasks s ∧ t_thread x = thr;
}.

Definition is_data (s : tstate) (d : positive) : Prop := ∃ x, x ∈ tasks s ∧ t_data x = Some d.

(** Nothing but the flag of a thread changes under [main]'s feet, and that once. *)
Definition flagged (x x' : my_thread_t) : Prop :=
  tid x' = tid x ∧ stack x' = stack x ∧ guard x' = guard x ∧
  (is_finished x' = is_finished x ∨ is_finished x' = Some 1).

Lemma flagged_refl l : Forall2 flagged l l.
Proof. apply Forall_Forall2_diag, Forall_forall. intros x _. split_and!; auto. Qed.

Definition rely_main (s s' : tstate) : Prop :=
  pages s' = pages s ∧ owners s' = owners s ∧ tasks s' = tasks s ∧
  Forall2 flagged (threads s) (threads s') ∧
  (brk (datas s) ≤ brk (datas s'))%positive ∧
  ∀ d, ¬ is_data s d → cells (datas s') !! d = cells (datas s) !! d.

(** The task of thread [i] has data that names the thread it is for. *)
Definition data_ok (i : nat) (s : tstate) : Prop :=
  ∀ x, tasks s !! (i - 1)%nat = Some x →
    ∃ d w, t_data x = Some d ∧ cells (datas s) !! d = Some w ∧ thread w = t_thread x.
Definition rely_task (i : nat) (s s' : tstate) : Prop :=
  (∀ x, tasks s !! (i - 1)%nat = Some x → tasks s' !! (i - 1)%nat = Some x) ∧
  (data_ok i s → data_ok i s').

Definition relies (i : nat) (s s' : tstate) : Prop :=
  match i with O => rely_main s s' | _ => rely_task i s s' end.

Lemma relies_refl i s : relies i s s.
Proof. destruct i; simpl; [|split; auto]. by split_and!; [..|apply flagged_refl| |]. Qed.
Lemma relies_trans i s1 s2 s3 : relies i s1 s2 → relies i s2 s3 → relies i s1 s3.
Proof.
  destruct i as [|i]; simpl.
  - intros (Hp & Ho & Ht & H1 & Hk & H2) (Hp' & Ho' & Ht' & H1' & Hk' & H2').
    split_and!; [congruence..| | |].
    + eapply Forall2_trans; [|done..]. unfold flagged. clear. intros x y z. intuition congruence.
    + lia.
    + intros d Hd. rewrite H2', H2; [done..|]. unfold is_data in *. by rewrite Ht.
  - intros [H1 H2] [H1' H2']. split; auto.
Qed.

#[export] Instance mythread_rg : RG tstate := {|
  I := inv; R := relies; okf _ := True; wt _ _ := True; fin _ _ := True;
  R_refl := relies_refl; R_trans := relies_trans |}.

Lemma quiet_inv s s' : quiet s s' → inv s → inv s'.
Proof.
  intros (Hp & Hth & Hd & Hta & Ho) []. split; rewrite ?Hp, ?Hth, ?Hd, ?Hta; try done.
  destruct inv_layout0. split; rewrite ?Hp, ?Hth, ?Hd, ?Hta, ?Ho; done.
Qed.
Lemma quiet_relies i s s' : quiet s s' → relies i s s'.
Proof.
  intros (Hp & Hth & Hd & Hta & Ho). destruct i as [|i]; simpl.
  - split_and!; [done..| | |]; rewrite ?Hth, ?Hd; [apply flagged_refl|lia|done].
  - unfold rely_task, data_ok. by rewrite Hta, Hd.
Qed.

(** ** One access of a thread *)

Lemma safe_access {B} (P : tstate → Prop) (Q : B → tstate → Prop) n i (m : C tstate B) k s :
  (∀ s s', P s → relies i s s' → P s') →
  (∀ s1 b s2, inv s1 → P s1 → m i s1 = Ok b s2 → inv s2 ∧ (∀ j, j ≠ i → relies j s1 s2) ∧ Q b s2) →
  P s → (∀ m b s2, m ≤ n → Q b s2 → safe m i (k b) s2)%nat →
  safe n i (pbind (atomic m) k) s.
Proof.
  intros Hst Hm HP Hk. destruct n as [|n]; [done|]. apply safe_act. intros s1 HI HR.
  destruct (m i s1) as [b s2| |e] eqn:E; [|done..].
  destruct (Hm s1 b s2 HI (Hst _ _ HP HR) E) as (HI2 & HG & HQ).
  split; [done|]. split; [done|]. apply Hk; [lia|done].
Qed.

(** An access that does not concern the layout, and what it shows *)
Definition calm {B} (m : C tstate B) (Q : B → tstate → Prop) : Prop :=
  ∀ t s b s', m t s = Ok b s' → quiet s s' ∧ Q b s.

Lemma safe_calm {B} (P : tstate → Prop) (Q : B → tstate → Prop) n i (m : C tstate B) k s :
  (∀ s s', P s → relies i s s' → P s') → calm m Q →
  P s → (∀ m b s1 s2, m ≤ n → P s1 → P s2 → Q b s1 → inv s1 → safe m i (k b) s2)%nat →
  safe n i (pbind (atomic m) k) s.
Proof.
  intros Hst Hm HP Hk.
  apply (safe_access P (λ b s2, ∃ s1, P s1 ∧ P s2 ∧ Q b s1 ∧ inv s1)); [done| |done|].
  - intros s1 b s2 HI HP1 [Hq HQ]%Hm. split; [by eapply quiet_inv|].
    split; [intros j _; by apply quiet_relies|]. exists s1. split; [done|]. split; [|done].
    eapply Hst; [done|]. by apply quiet_relies.
  - intros m' b s2 Hle (s1 & ? & ? & ? & ?). by apply (Hk m' b s1 s2).
Qed.

(** ** Tasks *)

Definition own_data (i : nat) (x : task) (s : tstate) : Prop :=
  tasks s !! (i - 1)%nat = Some x ∧
  ∃ d w, t_data x = Some d ∧ cells (datas s) !! d = Some w ∧ thread w = t_thread x.
Definition own_task (i : nat) (x : task) (s : tstate) : Prop := tasks s !! (i - 1)%nat = Some x.

Lemma own_task_stable i x s s' : (0 < i)%nat → own_task i x s → relies i s s' → own_task i x s'.
Proof. destruct i; [lia|]. intros _ Hx [H1 _]. by apply H1. Qed.
Lemma own_data_stable i x s s' : (0 < i)%nat → own_data i x s → relies i s s' → own_data i x s'.
Proof.
  destruct i; [lia|]. intros _ [Hx Hd] [H1 H2]. split; [by apply H1|].
  apply H2; [|by apply H1]. intros y Hy. rewrite Hx in Hy. by simplify_eq.
Qed.
Lemma data_ok_stable i s s' : (0 < i)%nat → data_ok i s → relies i s s' → data_ok i s'.
Proof. destruct i; [lia|]. intros _ Hd [_ H2]. by apply H2. Qed.

Lemma calm_on_stack {B} top (m : C tstate B) Q :
  calm m Q → calm (λ t s,
    if decide (pages s !! ((top - 1) / PAGE) = Some PROT_READ_WRITE) then m t s else Fault Segv) Q.
Proof. intros Hm t s b s'. destruct (decide _); [|done]. apply Hm. Qed.

Lemma quiet_refl s : quiet s s.
Proof. done. Qed.
Lemma calm_pure {B} (m : C tstate B) : (∀ t s b s', m t s = Ok b s' → s' = s) → calm m (λ _ _, True).
Proof. intros Hm t s b s' H. apply Hm in H as ->. by split. Qed.
Lemma calm_modify f : (∀ s, quiet s (f s)) → calm (modify f) (λ _ _, True).
Proof. intros Hf t s b s' [= <- <-]. split; [apply Hf|done]. Qed.

Lemma calm_read_arg i : calm (read_arg i) (λ _ _, True).
Proof.
  apply calm_pure. intros t s b s'. unfold read_arg, mbind, C_bind, gets, array_get.
  destruct (args s) as [l|]; [|done]. destruct (l !! i) as [[z|]|]; by intros [=].
Qed.

Lemma run_func_safe (P : tstate → Prop) n i top fn a k s :
  (∀ s s', P s → relies i s s' → P s') → P s →
  (∀ m s', m ≤ n → P s' → safe m i (k tt) s')%nat →
  safe n i (run_func top fn a ≫= k) s.
Proof.
  intros Hst HP Hk. destruct fn; unfold run_func; assoc; unfold on_stack.
  - eapply (safe_calm P); [done|apply calm_on_stack, calm_read_arg|done|]. intros ? z _ ? ? _ ? _ _. assoc.
    eapply (safe_calm P); [done|apply calm_on_stack, calm_modify; done|done|]. intros ? _ _ ? ? _ ? _ _. assoc.
    eapply (safe_calm P); [done|apply calm_on_stack, calm_pure; by intros ???? [=]|done|]. intros ? ? _ ? ? _ ? _ _. assoc.
    eapply (safe_calm P); [done|apply calm_on_stack, calm_pure|done|].
    { unfold signed_add. intros ????. destruct (decide _); by intros [=]. }
    intros ? ? _ ? ? _ ? _ _. assoc.
    eapply (safe_calm P); [done|apply calm_on_stack, calm_modify; done|done|]. intros ? [] _ ? ? _ ? _ _. apply Hk; [lia|done].
  - eapply (safe_calm P); [done|apply calm_on_stack, calm_pure; by intros ???? [=]|done|]. intros ? [] _ ? ? _ ? _ _. by apply Hk.
Qed.

Lemma calm_load p : calm (load wrapper_data_t p)
  (λ w s, ∃ d, p = Some d ∧ cells (datas s) !! d = Some w).
Proof.
  intros t s w s'. unfold load. destruct p as [d|]; [|done]. cbn.
  destruct (cells (datas s) !! d) eqn:E; [|done]. intros [= <- <-]. split; [done|]. by exists d.
Qed.

(** [threads[thr]] after a field was written *)
Lemma assign_inv thr f t s b s' : assign thr f t s = Ok b s' →
  ∃ y, threads s !! thr = Some y ∧ s' = set_threads (alter f thr (threads s)) s.
Proof.
  unfold assign, array_get, mbind, C_bind, gets. destruct (threads s !! thr) eqn:E; [|done].
  intros [= _ <-]. by eexists.
Qed.

Lemma alter_lookup_inv {A} (f : A → A) (l : list A) i j y : alter f i l !! j = Some y →
  ∃ z, l !! j = Some z ∧ y = if decide (i = j) then f z else z.
Proof.
  rewrite list_lookup_alter. destruct (decide (i = j)) as [->|]; [|eauto].
  intros (z & -> & Hz)%fmap_Some. eauto.
Qed.

(** Raising the flag of the thread of a task *)
Lemma flag_inv i x s b s' : own_task i x s → inv s →
  assign (t_thread x) (set_finished 1) i s = Ok b s' →
  inv s' ∧ ∀ j, j ≠ i → relies j s s'.
Proof.
  intros Hx [[Hrest Hown Hap Htask] Hlen Hdata Hnd Hfin] (y & Hy & ->)%assign_inv.
  assert (x ∈ tasks s) as Hin by (by eapply list_elem_of_lookup_2).
  set (l := threads s) in *. assert (∀ thr z, l !! thr = Some z → ∃ z',
    alter (set_finished 1) (t_thread x) l !! thr = Some z' ∧ flagged z z') as Hl.
  { intros thr z Hz. rewrite list_lookup_alter. destruct (decide _) as [<-|].
    - rewrite Hz. eexists. split; [done|]. by split_and!; [..|right].
    - rewrite Hz. eexists. split; [done|]. by split_and!; [..|left]. }
  split; [split; [split|..]; cbn -[alter]|].
  - done.
  - intros thr b0 Hb. destruct (Hown thr b0 Hb) as (? & ? & z & Hz & ? & ?). split; [done|]. split; [done|].
    destruct (Hl thr z Hz) as (z' & ? & _ & ? & ? & _). exists z'. split_and!; [done|congruence..].
  - done.
  - intros x' Hx'. destruct (Htask x' Hx') as (z & Hz & Hor). rewrite list_lookup_alter.
    fold l in Hz. destruct (decide _) as [Heq|].
    + rewrite Heq, Hz. eexists. split; [done|]. by left.
    + rewrite Hz. eauto.
  - by rewrite length_alter.
  - done.
  - done.
  - intros thr z (z0 & Hz & ->)%alter_lookup_inv. destruct (decide _) as [<-|]; [by eauto|by eauto].
  - intros [|j] Hj; [|by split]. split_and!; [done..| |done|done]. cbn -[alter].
    apply Forall2_same_length_lookup_2; [by rewrite length_alter|].
    intros thr z z' Hz Hz'. fold l in Hz. destruct (Hl thr z Hz) as (z'' & ? & ?). congruence.
Qed.

Lemma free_data_inv i x s b s' : (0 < i)%nat → own_data i x s → inv s →
  free wrapper_data_t (t_data x) i s = Ok b s' →
  inv s' ∧ (∀ j, j ≠ i → relies j s s') ∧ own_task i x s'.
Proof.
  intros Hi (Hx & d & w & Hd & Hw & _) [[Hrest Hown Hap Htask] Hlen Hdata Hnd Hfin].
  rewrite Hd. unfold free. cbn. rewrite Hw. intros [= _ <-]. split; [split; [split|..]; done|].
  split; [|done]. intros [|j] Hj; cbn.
  - split_and!; [done..|apply flagged_refl|cbn; lia|]. cbn. intros d' Hd'.
    rewrite lookup_delete_ne; [done|]. intros <-. apply Hd'. exists x. split; [|done].
    by eapply list_elem_of_lookup_2.
  - split; [done|]. intros Hok y Hy. destruct (Hok y Hy) as (d' & w' & Hd' & Hw' & ?). exists d', w'.
    split; [done|]. cbn. rewrite lookup_delete_ne; [done|]. intros ->.
    assert (i - 1 = Datatypes.S j - 1)%nat by (eapply Hnd; [done..|congruence]). lia.
Qed.

Lemma on_stack_ok {B} top (m : C tstate B) t s b s' :
  (λ t s, if decide (pages s !! ((top - 1) / PAGE) = Some PROT_READ_WRITE) then m t s else Fault Segv)
    t s = Ok b s' → m t s = Ok b s'.
Proof. cbn beta. by destruct (decide _). Qed.

Lemma wrapper_safe n i x s : (0 < i)%nat → own_data i x s →
  safe n i (wrapper (t_top x) (t_data x)) s.
Proof.
  intros Hi Hx. assert (∀ s s', own_data i x s → relies i s s' → own_data i x s') as Hst.
  { intros. by eapply own_data_stable. }
  unfold wrapper, on_stack.
  eapply (safe_calm (own_data i x)); [done|apply calm_on_stack, calm_load|done|].
  intros n1 w _ s1 _ _ Hx1 _ _.
  apply (run_func_safe (own_data i x)); [done..|]. intros n2 s2 _ Hx2.
  eapply (safe_calm (own_data i x)); [done|apply calm_on_stack, calm_load|done|].
  intros n3 w' s3' s3 _ Hx3' Hx3 (d & Hd & Hw) _.
  assert (thread w' = t_thread x) as ->.
  { destruct Hx3' as (_ & d' & w'' & ? & ? & ?). congruence. }
  eapply (safe_access (own_data i x) (λ _, own_task i x)); [done| |done|].
  { intros s4 [] s5 ? ? Hf%on_stack_ok. by eapply free_data_inv. }
  intros n4 [] s4 _ Hx4.
  assert (∀ s s', own_task i x s → relies i s s' → own_task i x s') as Hst'.
  { intros. by eapply own_task_stable. }
  eapply (safe_access (own_task i x) (λ _ _, True)); [done| |done|].
  { intros s5 b s6 ? ? Hf%on_stack_ok. destruct (flag_inv i x s5 b s6); auto. }
  intros n5 [] s5 _ _.
  eapply (safe_calm (λ _, True)); [done|apply calm_on_stack, calm_pure; by intros ???? [=]|done|].
  intros n6 [] _ s6 _ _ _ _ _. by apply safe_ret.
Qed.

Lemma spawned_safe n i s : (0 < i)%nat → data_ok i s → safe n i spawned s.
Proof.
  intros Hi Hd. unfold spawned.
  eapply (safe_access (data_ok i) (own_data i)); [intros ???; by apply data_ok_stable| |done|].
  - intros s1 x s2 HI Hok. cbn beta. destruct (tasks s1 !! _) eqn:E; [|done]. intros [= -> <-].
    split; [done|]. split; [intros j _; by apply quiet_relies|]. split; [done|]. by apply Hok.
  - intros m x s2 _ Hx. by apply wrapper_safe.
Qed.

(** ** Main *)

(** Before [threads[i]] is created; a range of pages that is nobody else's;
    [threads[i]] that describes it *)
Definition before (i : nat) (s : tstate) : Prop :=
  (∀ thr, is_Some (owners s !! thr) → thr < i)%nat ∧
  ∀ x, x ∈ tasks s → (t_thread x < i)%nat ∧ is_Some (owners s !! t_thread x).
Definition reserved (b : Z) (s : tstate) : Prop :=
  unmapped b m0 ∧ ∀ thr b', owners s !! thr = Some b' → apart b b'.
Definition has {A} (f : my_thread_t → A) (i : nat) (a : A) (s : tstate) : Prop :=
  ∃ y, threads s !! i = Some y ∧ f y = a.
Definition new_data (i : nat) (data : ptr) (s : tstate) : Prop :=
  ∃ d w, data = Some d ∧ cells (datas s) !! d = Some w ∧ thread w = i ∧
    ¬ is_data s d ∧ (d < brk (datas s))%positive.

Lemma before_mono i s : before i s → before (i + 1) s.
Proof. intros [H1 H2]. split; [intros thr Hx; specialize (H1 _ Hx); lia|]. intros x Hx. destruct (H2 x Hx). split; [lia|done]. Qed.
Lemma before_stable i s s' : before i s → rely_main s s' → before i s'.
Proof. intros HP (_ & Ho & Ht & _). unfold before. by rewrite Ho, Ht. Qed.
Lemma reserved_stable b s s' : reserved b s → rely_main s s' → reserved b s'.
Proof. intros HP (_ & Ho & _). unfold reserved. by rewrite Ho. Qed.
Lemma stack_at_stable b s s' : stack_at b (pages s) → rely_main s s' → stack_at b (pages s').
Proof. by intros HP (-> & _). Qed.
Lemma has_stable {A} (f : my_thread_t → A) i a s s' : (∀ y y', flagged y y' → f y' = f y) →
  has f i a s → rely_main s s' → has f i a s'.
Proof.
  intros Hf (y & Hy & Ha) (_ & _ & _ & Hl & _).
  destruct (Forall2_lookup_l _ _ _ _ _ Hl Hy) as (y' & ? & ?). exists y'. split; [done|].
  rewrite <-Ha. by apply Hf.
Qed.
Lemma flagged_guard y y' : flagged y y' → guard y' = guard y.
Proof. by intros (_ & _ & ? & _). Qed.
Lemma flagged_stack y y' : flagged y y' → stack y' = stack y.
Proof. by intros (_ & ? & _). Qed.
Lemma flagged_tid y y' : flagged y y' → tid y' = tid y.
Proof. by intros (? & _). Qed.

(** Pages nobody else has may change. *)
Lemma pages_inv b m s : reserved b s → (∀ x, ¬ (b ≤ x < b + 2049) → m !! x = pages s !! x) →
  inv s → inv (set_pages m s).
Proof.
  intros [Hm0 Hap] Hm [[Hrest Hown Hap' Htask] Hlen Hdata Hnd Hfin].
  split; [split|..]; cbn; try done.
  - intros x p Hp. rewrite Hm; [by apply Hrest|]. intros Hx. rewrite Hm0 in Hp by done. done.
  - intros thr b' Hb'. destruct (Hown thr b' Hb') as ([Hg Hs] & ? & ?). split; [|done].
    specialize (Hap _ _ Hb'). unfold apart in Hap. split; [rewrite Hm by lia; done|].
    intros x Hx. rewrite Hm by lia. by apply Hs.
Qed.
Lemma main_guar s s' : tasks s' = tasks s → cells (datas s') = cells (datas s) →
  ∀ j, j ≠ 0%nat → relies j s s'.
Proof. intros Ht Hd [|j] Hj; [done|]. split; [by rewrite Ht|]. unfold data_ok. by rewrite Ht, Hd. Qed.

(** [main] writes to the struct of a thread that has no stack, or another field. *)
Lemma main_assign_inv i f s : (∀ y, is_finished (f y) = is_finished y) →
  (owners s !! i = None ∨ ∀ y, guard (f y) = guard y ∧ stack (f y) = stack y) →
  inv s → inv (set_threads (alter f i (threads s)) s).
Proof.
  intros Hf Ho [[Hrest Hown Hap' Htask] Hlen Hdata Hnd Hfin].
  split; [split|..]; cbn -[alter]; try done.
  - intros thr b' Hb'. destruct (Hown thr b' Hb') as (? & ? & y & Hy & ? & ?). split; [done|]. split; [done|].
    rewrite list_lookup_alter. destruct (decide _) as [Heq|]; [|by eauto].
    destruct Ho as [Ho|Ho]; [congruence|]. destruct (Ho y). exists (f y). rewrite Heq, Hy. split_and!; [done|congruence..].
  - intros x Hx. destruct (Htask x Hx) as (y & Hy & Hor). rewrite list_lookup_alter.
    destruct (decide _) as [Heq|]; [|by eauto]. rewrite Heq, Hy. eexists. split; [done|]. by rewrite Hf.
  - by rewrite length_alter.
  - intros thr y (z & Hz & ->)%alter_lookup_inv. destruct (decide _); rewrite ?Hf; eauto.
Qed.

(** ** The system calls of [main] *)

Lemma answered {B} (m1 m2 : C tstate B) t s b s' :
  (ok ← malloc_answer; if (ok : bool) then m1 else m2) t s = Ok b s' →
  ∃ o, m1 t (set_oom o s) = Ok b s' ∨ m2 t (set_oom o s) = Ok b s'.
Proof.
  rewrite (bind_ok _ _ _ _ _ _ (malloc_answer_run t s)).
  destruct (bool_decide _); intros H; eexists; [left|right]; exact H.
Qed.
Lemma mmap_inv len t s r s' : mmap len t s = Ok r s' →
  r = None ∧ quiet s s' ∨
  ∃ b, r = Some (b * PAGE) ∧ (∀ x, b ≤ x < b + len / PAGE → pages s !! x = None) ∧
    quiet (set_pages (range_set b (len / PAGE) PROT_READ_WRITE (pages s)) s) s'.
Proof.
  intros (o & [H|H])%answered; [right|left].
  - injection H as <- <-. exists (find_range (len / PAGE) s). split; [done|].
    split; [intros x; apply find_range_free|done].
  - by injection H as <- <-.
Qed.
Lemma mprotect_inv a len p t s r s' : mprotect a len p t s = Ok r s' →
  r = -1 ∧ quiet s s' ∨
  r = 0 ∧ quiet (set_pages (range_set (a / PAGE) (len / PAGE) p (pages s)) s) s'.
Proof. intros (o & [H|H])%answered; injection H as <- <-; [right|left]; done. Qed.
Lemma munmap_inv a len t s r s' : munmap a len t s = Ok r s' →
  r = -1 ∧ quiet s s' ∨
  r = 0 ∧ quiet (set_pages (range_del (a / PAGE) (len / PAGE) (pages s)) s) s'.
Proof. intros (o & [H|H])%answered; injection H as <- <-; [right|left]; done. Qed.
Lemma clone_inv top d thr t s r s' : clone top d thr t s = Ok r s' →
  r = -1 ∧ quiet s s' ∨ 0 < r ∧ quiet (set_tasks (tasks s ++ [Task d top thr]) s) s'.
Proof.
  intros (o & [H|H])%answered; injection H as <- <-; [right|left]; [|done].
  split; [lia|done].
Qed.

Lemma main_change s s1 s' : inv s1 → (∀ j, j ≠ 0%nat → relies j s s1) → quiet s1 s' →
  inv s' ∧ ∀ j, j ≠ 0%nat → relies j s s'.
Proof.
  intros HI HG Hq. split; [by eapply quiet_inv|]. intros j Hj.
  eapply relies_trans; [by apply HG|by apply quiet_relies].
Qed.
Lemma quiet_at (P : tstate → Prop) i s s' :
  (∀ s s', P s → relies i s s' → P s') → quiet s s' → P s → P s'.
Proof. intros Hst Hq HP. eapply Hst; [done|]. by apply quiet_relies. Qed.

(** What a new thread's pages look like on the way *)
Definition claimed (i : nat) (b : Z) (s : tstate) : Prop :=
  before i s ∧ reserved b s ∧ ∀ x, b ≤ x < b + 2049 → pages s !! x = Some PROT_READ_WRITE.
Definition guarded (i : nat) (b : Z) (s : tstate) : Prop :=
  before i s ∧ reserved b s ∧ stack_at b (pages s).
Definition guarded_in (i : nat) (b : Z) (s : tstate) : Prop :=
  guarded i b s ∧ has guard i (Some (b * PAGE)) s ∧ has stack i (Some (b * PAGE + GUARD_SIZE)) s.

Lemma claimed_stable i b s s' : claimed i b s → rely_main s s' → claimed i b s'.
Proof.
  intros (H1 & H2 & H3) HR. split; [by eapply before_stable|]. split; [by eapply reserved_stable|].
  destruct HR as (-> & _). done.
Qed.
Lemma guarded_stable i b s s' : guarded i b s → rely_main s s' → guarded i b s'.
Proof.
  intros (H1 & H2 & H3) HR. split; [by eapply before_stable|]. split; [by eapply reserved_stable|].
  by eapply stack_at_stable.
Qed.

Lemma mmap_access i s r s' : before i s → inv s →
  mmap (STACK_SIZE + GUARD_SIZE) 0%nat s = Ok r s' →
  inv s' ∧ (∀ j, j ≠ 0%nat → relies j s s') ∧
  match r with None => before i s' | Some a => ∃ b, a = b * PAGE ∧ claimed i b s' end.
Proof.
  intros Hi HI [[-> Hq]|(b & -> & Hfree & Hq)]%mmap_inv.
  - split; [by eapply quiet_inv|]. split; [intros j _; by apply quiet_relies|].
    eapply (quiet_at _ 0); [apply before_stable|done..].
  - change ((STACK_SIZE + GUARD_SIZE) / PAGE) with 2049 in *. set (s1 := set_pages _ s) in *.
    assert (reserved b s) as Hr.
    { pose proof (inv_layout _ HI) as [Hrest Hown _ _]. split.
      - intros x Hx. destruct (m0 !! x) eqn:E; [|done]. apply Hrest in E. rewrite Hfree in E; [done|lia].
      - intros thr b' Hb'. destruct (Hown _ _ Hb') as ([Hg Hs] & _).
        unfold apart. destruct (decide (b + 2049 ≤ b')); [by left|]. right.
        destruct (decide (b' + 2049 ≤ b)); [done|]. exfalso.
        destruct (decide (b' < b)) as [Hlt|].
        + specialize (Hs b ltac:(lia)). rewrite Hfree in Hs; [done|lia].
        + rewrite Hfree in Hg; [done|lia]. }
    assert (inv s1) as HI1.
    { apply (pages_inv b); [done| |done]. intros x Hx. rewrite range_set_lookup.
      by rewrite decide_False. }
    destruct (main_change s s1 s') as [HI' HG]; [done|by apply main_guar|done|].
    split; [done|]. split; [done|]. exists b. split; [done|].
    eapply (quiet_at (claimed i b) 0); [by eauto using claimed_stable|done|].
    split; [done|]. split; [done|]. intros x Hx. cbn. rewrite range_set_lookup. by rewrite decide_True.
Qed.

Lemma mprotect_access i b s r s' : claimed i b s → inv s →
  mprotect (b * PAGE) GUARD_SIZE PROT_NONE 0%nat s = Ok r s' →
  inv s' ∧ (∀ j, j ≠ 0%nat → relies j s s') ∧
  if decide (r = -1) then claimed i b s' else guarded i b s'.
Proof.
  intros Hc HI [[-> Hq]|[-> Hq]]%mprotect_inv; cbn.
  - split; [by eapply quiet_inv|]. split; [intros j _; by apply quiet_relies|].
    eapply (quiet_at _ 0); [apply claimed_stable|done..].
  - destruct Hc as (Hb & Hr & Hrw). rewrite Z.div_mul in Hq by done.
    change (GUARD_SIZE / PAGE) with 1 in Hq. set (s1 := set_pages _ s) in *.
    destruct (main_change s s1 s') as [HI' HG]; [|by apply main_guar|done|].
    { apply (pages_inv b); [done| |done]. intros x Hx. rewrite range_set_lookup.
      rewrite decide_False; [done|lia]. }
    split; [done|]. split; [done|].
    eapply (quiet_at (guarded i b) 0); [apply guarded_stable|done|].
    split; [done|]. split; [done|]. split; cbn.
    + rewrite range_set_lookup. rewrite decide_True; [done|lia].
    + intros x Hx. rewrite range_set_lookup. rewrite decide_False by lia. apply Hrw. lia.
Qed.

(** Unmapping part of a range nobody has *)
Lemma munmap_access i b len s r s' : before i s → reserved b s → len / PAGE <= 2049 → inv s →
  munmap (b * PAGE) len 0%nat s = Ok r s' →
  inv s' ∧ (∀ j, j ≠ 0%nat → relies j s s') ∧ before i s'.
Proof.
  intros Hb Hr Hlen HI Hm. assert (∃ m, quiet (set_pages m s) s' ∧ inv (set_pages m s)) as (m & Hq & HI1).
  { apply munmap_inv in Hm as [[_ Hq]|[_ Hq]]; [exists (pages s); by destruct s|].
    rewrite Z.div_mul in Hq by done. eexists. split; [done|]. apply (pages_inv b); [done| |done].
    intros x Hx. rewrite range_del_lookup. rewrite decide_False; [done|lia]. }
  destruct (main_change s _ s' HI1) as [HI' HG]; [by apply main_guar|done|].
  split; [done|]. split; [done|]. by eapply (quiet_at (before i) 0); [apply before_stable| |].
Qed.

Lemma new_data_stable i d s s' : new_data i d s → rely_main s s' → new_data i d s'.
Proof.
  intros (l & w & -> & Hw & Hi & Hd & Hl) (_ & _ & Ht & _ & Hk & Hc). exists l, w.
  unfold is_data in *. rewrite Ht. split_and!; [done|by rewrite Hc|done..|lia].
Qed.
Lemma guarded_in_stable i b s s' : guarded_in i b s → rely_main s s' → guarded_in i b s'.
Proof.
  intros (H1 & H2 & H3) HR. split; [by eapply guarded_stable|].
  split; (eapply has_stable; [|done..]); [apply flagged_guard|apply flagged_stack].
Qed.

Lemma assign_access i f s r s' : (∀ y, is_finished (f y) = is_finished y) →
  (owners s !! i = None ∨ ∀ y, guard (f y) = guard y ∧ stack (f y) = stack y) → inv s →
  assign i f 0%nat s = Ok r s' →
  inv s' ∧ (∀ j, j ≠ 0%nat → relies j s s') ∧
  ∃ y, threads s !! i = Some y ∧ s' = set_threads (alter f i (threads s)) s ∧
       threads s' !! i = Some (f y).
Proof.
  intros Hf Ho HI (y & Hy & ->)%assign_inv. split; [by apply main_assign_inv|].
  split; [by apply main_guar|]. exists y. split; [done|]. split; [done|]. cbn -[alter].
  by rewrite list_lookup_alter, decide_True, Hy by done.
Qed.
Lemma before_none i s : before i s → owners s !! i = None.
Proof. intros [H1 _]. destruct (owners s !! i) eqn:E; [|done]. specialize (H1 i ltac:(eauto)). lia. Qed.

Lemma malloc_access i b fn a s r s' : guarded_in i b s → inv s →
  malloc wrapper_data_t (WrapperData i fn a) 0%nat s = Ok r s' →
  inv s' ∧ (∀ j, j ≠ 0%nat → relies j s s') ∧
  guarded_in i b s' ∧ match r with Some _ => new_data i r s' | None => True end.
Proof.
  intros Hg HI (o & [H|H])%answered; injection H as <- <-; cycle 1.
  { destruct (main_change s s (set_oom o s) HI) as [? ?]; [intros; apply relies_refl|done|].
    by split_and!; try apply Hg. }
  cbn. change (heap wrapper_data_t (set_oom o s)) with (datas s).
  destruct HI as [HL Hlen Hdata Hnd Hfin]. split; [|split; [|split; [done|]]].
  - split; [by destruct HL|done| |done..]. intros j x Hx. destruct (Hdata j x Hx) as (d & ? & ?). exists d.
    split; [done|]. cbn. unfold fresh_loc. lia.
  - intros [|j] Hj; [done|]. split; [done|]. intros Hok x Hx.
    destruct (Hok x Hx) as (d & w & Hd & Hw & ?). exists d, w. split; [done|]. cbn. split; [|done].
    rewrite lookup_insert_ne; [done|]. intros <-. by rewrite fresh_loc_none in Hw.
  - eexists _, _. split; [done|]. cbn. rewrite lookup_insert_eq. split; [done|]. split; [done|]. split.
    + intros (x & (j & Hj)%list_elem_of_lookup_1 & Hx). destruct (Hdata j x Hj) as (d & Hd & Hlt).
      rewrite Hd in Hx. injection Hx as ->. unfold fresh_loc in Hlt. lia.
    + lia.
Qed.

(** The new task, and its thread as an owner *)
Definition started (top b : Z) (d : ptr) (i : nat) (s : tstate) : tstate :=
  set_owners (<[i := b]> (owners s)) (set_tasks (tasks s ++ [Task d top i]) s).

Lemma started_inv b d i s : guarded_in i b s → new_data i d s → inv s →
  inv (started (b * PAGE + GUARD_SIZE + STACK_SIZE) b d i s).
Proof.
  intros ((Hb & [Hm0 Hap] & Hst) & (y & Hy & Hg) & (y' & Hy' & Hs)) (l & w & -> & Hw & Hi & Hnd & Hl)
    [[Hrest Hown Hap' Htask] Hlen Hdata Hdup Hfin].
  assert (y' = y) as -> by congruence. pose proof (before_none i s Hb) as Hnone.
  split; [split|..]; cbn; try done.
  - intros thr b'. destruct (decide (thr = i)) as [->|].
    + rewrite lookup_insert_eq. intros [= <-]. split_and!; [apply Hst..|done|by exists y].
    + rewrite lookup_insert_ne by done. apply Hown.
  - intros thr thr' b1 b2 Hne. rewrite !lookup_insert.
    destruct (decide (i = thr)) as [<-|], (decide (i = thr')) as [<-|]; [done|..|by apply Hap'].
    + intros [= <-] H2. by eapply Hap.
    + intros H1 [= <-]. specialize (Hap _ _ H1). unfold apart in *. tauto.
  - intros x [Hx| ->%list_elem_of_singleton]%elem_of_app; cbn.
    + destruct Hb as [_ Hb]. destruct (Hb x Hx) as [Hlt _].
      destruct (Htask x Hx) as (z & Hz & Hor). exists z. split; [done|].
      rewrite lookup_insert_ne by lia. done.
    + exists y. split; [done|]. right. split; [|exists b; by rewrite lookup_insert_eq].
      destruct (is_finished y) eqn:E; [|done]. destruct (Hfin i y Hy ltac:(eauto)) as (x & Hx & Hxi).
      destruct Hb as [_ Hb]. destruct (Hb x Hx) as [Hlt _]. lia.
  - intros j x [Hj|[_ Hj]]%lookup_app_Some; [by eapply Hdata|].
    apply list_lookup_singleton_Some in Hj as [_ <-]. by exists l.
  - assert (∀ j x, tasks s !! j = Some x → t_data x ≠ Some l) as Hne.
    { intros j x Hj Hx. apply Hnd. exists x. split; [by eapply list_elem_of_lookup_2|done]. }
    intros j k x z [Hj|[Hj1 Hj]]%lookup_app_Some [Hk|[Hk1 Hk]]%lookup_app_Some;
      try apply list_lookup_singleton_Some in Hj as [Hj <-];
      try apply list_lookup_singleton_Some in Hk as [Hk <-]; cbn.
    + by apply Hdup.
    + intros Hx. by apply Hne in Hj.
    + intros Hx. by apply Hne in Hk.
    + lia.
  - intros thr z Hz Hf. destruct (Hfin thr z Hz Hf) as (x & ? & ?). exists x. split; [|done].
    apply elem_of_app. by left.
Qed.

Lemma started_guar top b d i s : new_data i d s → ∀ j, j ≠ 0%nat → relies j s (started top b d i s).
Proof.
  intros (l & w & -> & Hw & Hi & _) [|j] Hj; [done|]. split; cbn.
  - intros x Hx. by apply lookup_app_l_Some.
  - intros Hok x [Hx|[_ Hx]]%lookup_app_Some; [by apply Hok|].
    apply list_lookup_singleton_Some in Hx as [_ <-]. by exists l, w.
Qed.

Lemma clone_access i b d s r s' : guarded_in i b s → new_data i d s → inv s →
  (r ← clone (b * PAGE + GUARD_SIZE + STACK_SIZE) d i;
   if decide (r = -1) then mret r
   else modify (λ s, set_owners (<[i := b * PAGE / PAGE]> (owners s)) s);; mret r) 0%nat s = Ok r s' →
  inv s' ∧ (∀ j, j ≠ 0%nat → relies j s s') ∧
  if decide (r = -1) then before i s' ∧ reserved b s' else before (i + 1) s'.
Proof.
  intros Hg Hd HI (r' & s1 & Hc & H)%bind_ok_inv. apply clone_inv in Hc as [[-> Hq]|[Hr Hq]].
  - injection H as <- <-. rewrite decide_True by done.
    destruct (main_change s s s1 HI) as [? ?]; [intros; apply relies_refl|done|].
    split; [done|]. split; [done|].
    apply (quiet_at (λ s, before i s ∧ reserved b s) 0 s); [|done|split; apply Hg].
    intros ? ? [? ?] ?. split; [by eapply before_stable|by eapply reserved_stable].
  - rewrite decide_False in H by lia. injection H as <- <-. rewrite decide_False by lia.
    rewrite Z.div_mul by done.
    set (s2 := set_owners _ s1). assert (quiet (started (b * PAGE + GUARD_SIZE + STACK_SIZE) b d i s) s2) as Hq2.
    { destruct Hq as (Hp & Hth & Hda & Ht & Ho). split_and!; [done..|]. cbn in *. by rewrite Ho. }
    edestruct main_change as [? ?]; [by apply (started_inv b d i s)|by apply started_guar|done|].
    split; [done|]. split; [done|]. eapply (quiet_at (before (i + 1)) 0); [apply before_stable|done|].
    destruct Hg as ((Hb & _) & _). destruct (before_mono i s Hb) as [H1 H2]. split; cbn.
    + intros thr. destruct (decide (thr = i)) as [->|]; [lia|]. rewrite lookup_insert_ne by done. apply H1.
    + intros x [Hx| ->%list_elem_of_singleton]%elem_of_app; cbn; [|split; [lia|by rewrite lookup_insert_eq]].
      destruct (H2 x Hx). split; [done|]. destruct (decide (t_thread x = i)) as [->|]; [by rewrite lookup_insert_eq|].
      by rewrite lookup_insert_ne.
Qed.

Lemma calm_field {A} (f : my_thread_t → option A) i : calm (field f i)
  (λ a s, ∃ y, threads s !! i = Some y ∧ f y = Some a).
Proof.
  intros t s a s'. unfold field, array_get, mbind, C_bind, gets.
  destruct (threads s !! i) as [y|] eqn:E; [|done]. cbn. destruct (f y) eqn:Ef; [|done].
  intros [= <- <-]. split; [done|]. by exists y.
Qed.
Lemma calm_print x : calm (print x) (λ _ _, True).
Proof. by apply calm_modify. Qed.

Lemma print_safe (P : tstate → Prop) n x k s : (∀ s s', P s → rely_main s s' → P s') → P s →
  (∀ m s', m ≤ n → P s' → safe m 0 (k tt) s')%nat → safe n 0 (pbind (atomic (print x)) k) s.
Proof.
  intros Hst HP Hk. eapply (safe_calm P); [done|apply calm_print|done|].
  intros m [] _ s' Hm _ HP' _ _. by apply Hk.
Qed.

(** After [clone], with the result [r] *)
Definition cloned (i : nat) (b r : Z) (s : tstate) : Prop :=
  if decide (r = -1) then before i s ∧ reserved b s else before (i + 1) s.
Lemma cloned_stable i b r s s' : cloned i b r s → rely_main s s' → cloned i b r s'.
Proof.
  unfold cloned. destruct (decide _); [|apply before_stable].
  intros [? ?] ?. split; [by eapply before_stable|by eapply reserved_stable].
Qed.
Lemma cloned_before i b r s : cloned i b r s → before (i + 1) s.
Proof. unfold cloned. destruct (decide _); [|done]. intros [? _]. by apply before_mono. Qed.

Lemma start_thread_safe n i fn a b k s : guarded_in i b s →
  (∀ m r s', m ≤ n → before (i + 1) s' → safe m 0 (k r) s')%nat →
  safe n 0 (start_thread i fn a (b * PAGE) ≫= k) s.
Proof.
  intros Hg Hk. unfold start_thread. assoc.
  eapply (safe_access (guarded_in i b) (λ d s, guarded_in i b s ∧ match d with Some _ => new_data i d s | None => True end));
    [apply guarded_in_stable|intros ??? HI HP; by apply malloc_access|done|].
  intros n1 d s1 Hn1 [Hg1 Hd1]. assoc.
  destruct d as [d|]; [|destruct n1 as [|n1]; [done|by intros s2 HI HR]].
  assert (∀ s s', guarded_in i b s ∧ new_data i (Some d) s → relies 0%nat s s' →
    guarded_in i b s' ∧ new_data i (Some d) s') as Hst.
  { intros ? ? [? ?] ?. split; [by eapply guarded_in_stable|by eapply new_data_stable]. }
  eapply (safe_calm _ _ _ _ _ _ _ Hst (calm_load _)); [done|]. intros n2 w _ s2 Hn2 _ Hg2 _ _. assoc.
  eapply (safe_access _ (cloned i b) _ _ _ _ _ Hst); [|done|].
  { intros s3 r s4 HI [? ?] Hc. by apply (clone_access i b (Some d)). }
  intros n3 r s3 Hn3 Hc3. assoc.
  eapply (safe_access (cloned i b r) (λ _ s, cloned i b r s ∧ has tid i (Some r) s)); [apply cloned_stable| |done|].
  { intros s4 [] s5 HI Hc (? & ? & y & Hy & -> & Hy')%assign_access; [|done|by right|done].
    split; [done|]. split; [done|]. split; [done|]. by eexists. }
  intros n4 [] s4 Hn4 Hc4. assoc.
  eapply (safe_calm (λ s, cloned i b r s ∧ has tid i (Some r) s)); [|apply calm_field|done|].
  { intros ? ? [? ?] ?. split; [by eapply cloned_stable|]. eapply has_stable; [apply flagged_tid|done..]. }
  intros n5 r' s5' s5 Hn5 [_ (y & Hy & Hr)] [Hc5 _] (y' & Hy' & Hr') _.
  assert (r' = r) as -> by congruence. clear y y' Hy Hy' Hr Hr'.
  assert (∀ m s, m ≤ n5 → before (i + 1) s → safe m 0 (pbind (atomic (field tid i)) k) s)%nat as Hend.
  { intros m s6 Hm Hb6. eapply (safe_calm (before (i + 1))); [apply before_stable|apply calm_field|done|].
    intros m' z _ s7 Hm' _ Hb7 _ _. apply Hk; [lia|done]. }
  assoc. unfold cloned in Hc5. destruct (decide (r = -1)); assoc; [|by apply Hend].
  eapply (safe_access (λ s, before i s ∧ reserved b s) (λ _, before i)); [|..|done|].
  - intros ? ? [? ?] ?. split; [by eapply before_stable|by eapply reserved_stable].
  - intros s6 z s7 HI [? ?] Hm. by apply munmap_access with (i := i) in Hm.
  - intros n6 _ s6 Hn6 Hb6. apply Hend; [done|]. by apply before_mono.
Qed.

(** Creating a thread, or giving up *)
Lemma create_safe n i fn a k s : before i s →
  (∀ m r s', m ≤ n → before (i + 1) s' → safe m 0 (k r) s')%nat →
  safe n 0 (mythread_create i fn a ≫= k) s.
Proof.
  intros Hb Hk. assert (∀ m r s', m ≤ n → before i s' → safe m 0 (k r) s')%nat as Hk'.
  { intros. apply Hk; [done|]. by apply before_mono. }
  unfold mythread_create. assoc.
  eapply (safe_access (before i)); [apply before_stable|intros ??? HI HP; by apply mmap_access|done|].
  intros n1 [base|] s1 Hn1; [|intros Hb1; assoc; apply (print_safe (before i)); [apply before_stable|done|];
    intros; apply Hk'; [lia|done]].
  intros (b & -> & Hc). assoc.
  eapply (safe_access (claimed i b)); [apply claimed_stable|intros ??? HI HP; by apply mprotect_access|done|].
  intros n2 r s2 Hn2 Hc2. cbn beta in Hc2. destruct (decide (r = -1)) as [->|Hr].
  { assoc. apply (print_safe (claimed i b)); [apply claimed_stable|done|]. intros n3 s3 Hn3 Hc3. assoc.
    eapply (safe_access (claimed i b) (λ _, before i)); [apply claimed_stable| |done|].
    - intros s4 r s5 HI (? & ? & ?) Hm. by apply munmap_access with (i := i) in Hm.
    - intros n4 _ s4 Hn4 Hb4. apply Hk'; [lia|done]. }
  assert (∀ s s', guarded i b s ∧ has guard i (Some (b * PAGE)) s → relies 0%nat s s' →
    guarded i b s' ∧ has guard i (Some (b * PAGE)) s') as Hst.
  { intros ? ? [? ?] ?. split; [by eapply guarded_stable|]. eapply has_stable; [apply flagged_guard|done..]. }
  assoc. eapply (safe_access (guarded i b) (λ _ s, guarded i b s ∧ has guard i (Some (b * PAGE)) s));
    [apply guarded_stable| |done|].
  { intros s3 [] s4 HI Hg (? & ? & y & Hy & -> & Hy')%assign_access; [|done|left; eapply before_none, Hg|done].
    split; [done|]. split; [done|]. split; [done|]. by eexists. }
  intros n3 [] s3 Hn3 Hg3. assoc.
  eapply (safe_access _ (λ _, guarded_in i b) _ _ _ _ _ Hst); [|done|].
  { intros s4 [] s5 HI [Hg (z & Hz & Hzg)] (? & ? & y & Hy & -> & Hy')%assign_access;
      [|done|left; eapply before_none, Hg|done].
    split; [done|]. split; [done|]. split; [done|]. split; (eexists; split; [done|]); [|done]. simpl. congruence. }
  intros n4 [] s4 Hn4 Hg4. apply start_thread_safe; [done|]. intros. apply Hk; [lia|done].
Qed.

(** ** Clearing *)

(** The threads from [i] on were not cleared. *)
Definition uncleared (i : nat) (s : tstate) : Prop :=
  ∀ x, x ∈ tasks s → (i ≤ t_thread x)%nat → is_Some (owners s !! t_thread x).
Lemma uncleared_stable i s s' : uncleared i s → rely_main s s' → uncleared i s'.
Proof. intros HP (_ & Ho & Ht & _). unfold uncleared. by rewrite Ho, Ht. Qed.
Lemma uncleared_mono i s : uncleared i s → uncleared (i + 1) s.
Proof. intros H x Hx ?. apply H; [done|lia]. Qed.

Definition owner (i : nat) (b : Z) (s : tstate) : Prop := owners s !! i = Some b.
Definition is_finished_since (i : nat) (s : tstate) : Prop := has is_finished i (Some 1) s.

Lemma finished_stable i s s' : is_finished_since i s → rely_main s s' → is_finished_since i s'.
Proof.
  intros (y & Hy & Hf) (_ & _ & _ & Hl & _).
  destruct (Forall2_lookup_l _ _ _ _ _ Hl Hy) as (y' & ? & (_ & _ & _ & ?)).
  exists y'. split; [done|]. intuition congruence.
Qed.

(** [clear] of thread [i], whose flag is up and whose stack is range [b] *)
Definition clearable (i : nat) (b : Z) (s : tstate) : Prop :=
  uncleared i s ∧ owner i b s ∧ is_finished_since i s.
Lemma clearable_stable i b s s' : clearable i b s → rely_main s s' → clearable i b s'.
Proof.
  intros (? & Ho & ?) HR. split; [by eapply uncleared_stable|]. split; [|by eapply finished_stable].
  destruct HR as (_ & HR & _). unfold owner. by rewrite HR.
Qed.

Lemma cleared_inv i b s : clearable i b s → inv s →
  inv (set_owners (delete i (owners s)) (set_pages (range_del b 2049 (pages s)) s)).
Proof.
  intros (_ & Ho & (y & Hy & Hf)) [[Hrest Hown Hap Htask] Hlen Hdata Hdup Hfin].
  destruct (Hown i b Ho) as (_ & Hm & _).
  split; [split|..]; cbn; try done.
  - intros x p Hp. rewrite range_del_lookup. rewrite decide_False; [by apply Hrest|].
    intros Hx. by rewrite Hm in Hp.
  - intros thr b' [Hne Hb']%lookup_delete_Some. destruct (Hown thr b' Hb') as ([Hg Hs] & ? & ?).
    split; [|done]. specialize (Hap i thr b b' Hne Ho Hb'). unfold apart in Hap.
    split; [rewrite range_del_lookup, decide_False by lia; done|].
    intros x Hx. rewrite range_del_lookup, decide_False by lia. by apply Hs.
  - intros thr thr' b1 b2 Hne [_ H1]%lookup_delete_Some [_ H2]%lookup_delete_Some. by eapply Hap.
  - intros x Hx. destruct (Htask x Hx) as (z & Hz & Hor). exists z. split; [done|].
    destruct Hor as [|(Hn & b' & Hb' & ?)]; [by left|]. right. split; [done|]. exists b'.
    rewrite lookup_delete_ne; [done|]. intros ->. congruence.
Qed.

Lemma unmap_access i b s r s' : clearable i b s → inv s →
  (err ← munmap (b * PAGE) (STACK_SIZE + GUARD_SIZE);
   if decide (err = -1) then mret err
   else modify (λ s, set_owners (delete i (owners s)) s);; mret err) 0%nat s = Ok r s' →
  inv s' ∧ (∀ j, j ≠ 0%nat → relies j s s') ∧ uncleared (i + 1) s'.
Proof.
  intros Hc HI (err & s1 & Hm & H)%bind_ok_inv. apply munmap_inv in Hm as [[-> Hq]|[-> Hq]].
  - injection H as <- <-.
    destruct (main_change s s s1 HI) as [? ?]; [intros; apply relies_refl|done|].
    split; [done|]. split; [done|].
    eapply (quiet_at (uncleared (i + 1)) 0); [apply uncleared_stable|done|apply uncleared_mono, Hc].
  - rewrite decide_False in H by lia. injection H as <- <-. rewrite Z.div_mul in Hq by done.
    change ((STACK_SIZE + GUARD_SIZE) / PAGE) with 2049 in Hq.
    edestruct main_change as [? ?]; [by apply (cleared_inv i b s)|by apply (main_guar s)| |].
    { destruct Hq as (Hp & Hth & Hda & Ht & Ho).
      instantiate (1 := set_owners (delete i (owners s1)) s1). split_and!; [done..|]. cbn in *. by rewrite Ho. }
    split; [done|]. split; [done|]. destruct Hq as (_ & _ & _ & Ht & Ho). intros x. cbn in *.
    rewrite Ht, Ho. intros Hx Hle. rewrite lookup_delete_ne by lia. apply Hc; [done|lia].
Qed.

Lemma clear_safe n i k s : uncleared i s →
  (∀ m r s', m ≤ n → uncleared (i + 1) s' → safe m 0 (k r) s')%nat →
  safe n 0 (clear i ≫= k) s.
Proof.
  intros Hu Hk. unfold clear. assoc.
  assert (∀ m x r s', m ≤ n → uncleared (i + 1) s' →
    safe m 0 (pbind (atomic (print x)) (λ _, k r)) s')%nat as Hend.
  { intros m x r s' Hm Hu'. apply (print_safe (uncleared (i + 1))); [apply uncleared_stable|done|].
    intros; apply Hk; [lia|done]. }
  eapply (safe_access (uncleared i) (λ x s, uncleared i s ∧ ∃ b, clearable i b s)); [apply uncleared_stable| |done|].
  { intros s1 x s2 HI Hu1 H. apply calm_field in H as H'. destruct H' as [Hq (y & Hy & Hx)].
    split; [by eapply quiet_inv|]. split; [intros; by apply quiet_relies|].
    assert (∃ b, clearable i b s1) as [b Hb].
    { destruct (inv_finished _ HI i y Hy ltac:(eauto)) as (z & Hz & Hzi).
      destruct (layout_task _ _ (inv_layout _ HI) z Hz) as (y' & Hy' & Hor).
      rewrite Hzi in Hy'. assert (y' = y) as -> by congruence.
      destruct (Hu1 z Hz) as [b Hb]; [lia|]. rewrite Hzi in Hb. exists b. split; [done|]. split; [done|].
      exists y. split; [done|]. destruct Hor as [|[? _]]; congruence. }
    split; [by eapply (quiet_at (uncleared i) 0); [apply uncleared_stable| |]|].
    exists b. by eapply (quiet_at (clearable i b) 0); [apply clearable_stable| |]. }
  intros n1 x s1 Hn1 [Hu1 [b Hb]]. destruct (decide (x = 0)) as [Hx|Hx]; assoc.
  { apply Hend; [done|by apply uncleared_mono]. }
  eapply (safe_access (clearable i b) (λ a s, a = b * PAGE ∧ clearable i b s)); [apply clearable_stable| |done|].
  { intros s2 a s3 HI Hc H. apply calm_field in H as [Hq (y & Hy & Ha)].
    split; [by eapply quiet_inv|]. split; [intros; by apply quiet_relies|]. split.
    - destruct (layout_owned _ _ (inv_layout _ HI) i b) as (_ & _ & y' & ? & ? & _); [apply Hc|congruence].
    - by eapply (quiet_at (clearable i b) 0); [apply clearable_stable| |]. }
  intros n2 a s2 Hn2 [-> Hc2]. assoc.
  eapply (safe_access (clearable i b) (λ _, uncleared (i + 1))); [apply clearable_stable| |done|].
  { intros ??? HI Hc. by apply unmap_access. }
  intros n3 err s3 Hn3 Hu3. destruct (decide (err = -1)) as [He|He]; assoc; [by apply Hend; [lia|]|].
  eapply (safe_calm (uncleared (i + 1))); [apply uncleared_stable|apply calm_field|done|].
  intros n4 z _ s4 Hn4 _ Hu4 _ _. assoc. by apply Hend; [lia|].
Qed.

(** ** The program *)

Ltac go_on := repeat change (pbind ?p ?f) with (p ≫= f); assoc.

Lemma calm_store_arg i : calm (store_arg i) (λ _ _, True).
Proof.
  intros t s b s'. unfold store_arg, mbind, C_bind, gets, array_get.
  destruct (args s) as [l|]; [|done]. destruct (l !! i); [|done]. by intros [= <- <-].
Qed.

Lemma create_threads_safe n k s : before 0 s →
  (∀ m s', m ≤ n → uncleared 0 s' → safe m 0 (k tt) s')%nat →
  safe n 0 (create_threads N ≫= k) s.
Proof.
  intros Hb Hk. unfold create_threads. apply (safe_loop before); [intros ????? _; by eapply before_stable| |done].
  intros m i s1 Hm Hi IH. destruct (decide (i < N)%nat) as [Hlt|]; go_on.
  - eapply (safe_calm (before i)); [apply before_stable|apply calm_store_arg|done|].
    intros n1 [] _ s2 Hn1 _ Hb2 _ _. go_on. apply create_safe; [done|]. intros n2 r s3 Hn2 Hb3. go_on.
    destruct (decide (r = -1)); [|by apply IH; [lia|]].
    apply (print_safe (before (i + 1))); [apply before_stable|done|]. intros n3 s4 Hn3 Hb4. by apply IH; [lia|].
  - apply Hk; [lia|]. intros x Hx _. by apply Hi.
Qed.

Lemma clear_threads_safe n k s : uncleared 0 s →
  (∀ m s', m ≤ n → safe m 0 (k tt) s')%nat →
  safe n 0 (clear_threads N ≫= k) s.
Proof.
  intros Hb Hk. unfold clear_threads. apply (safe_loop uncleared); [intros ????? _; by eapply uncleared_stable| |done].
  intros m i s1 Hm Hi IH. destruct (decide (i < N)%nat) as [Hlt|]; go_on; [|by apply Hk; lia].
  apply clear_safe; [done|]. intros n2 r s3 Hn2 Hb3. by apply IH.
Qed.

Lemma calm_safe {B} n i (m : C tstate B) k s : calm m (λ _ _, True) →
  (∀ m b s', m ≤ n → safe m i (k b) s')%nat → safe n i (pbind (atomic m) k) s.
Proof. intros Hm Hk. apply (safe_calm (λ _, True) _ _ _ _ _ _ ltac:(done) Hm); [done|]. intros; by apply Hk. Qed.

Lemma main_safe n s : before 0 s → safe n 0 (main N) s.
Proof.
  intros Hb. unfold main. go_on.
  eapply (safe_calm (before 0) (λ _ _, True)); [apply before_stable| |done|].
  { intros t s1 b s2. rewrite malloc_answer_run. by intros [= <- <-]. }
  intros n1 ok _ s1 Hn1 _ Hb1 _ _. assoc.
  eapply (safe_calm (before 0)); [apply before_stable|by apply calm_modify|done|].
  intros n2 [] _ s2 Hn2 _ Hb2 _ _. go_on. apply create_threads_safe; [done|]. intros n3 s3 Hn3 Hu3. assoc.
  eapply (safe_calm (uncleared 0)); [apply uncleared_stable|apply calm_pure; by intros ???? [=]|done|].
  intros n4 z _ s4 Hn4 _ Hu4 _ _. assoc. apply (print_safe (uncleared 0)); [apply uncleared_stable|done|].
  intros n5 s5 Hn5 Hu5. go_on. apply clear_threads_safe; [done|]. intros n6 s6 Hn6.
  apply calm_safe; [by apply calm_modify|]. intros. by apply safe_ret.
Qed.

Lemma initial_safe answers places : all_safe (initial N m0 answers places).
Proof.
  split; cbn.
  - split; [split|..]; cbn; [done|done|done|set_solver|by rewrite length_replicate|done|done|].
    by intros thr y [-> _]%lookup_replicate [].
  - intros n [|i] p Hp; simpl in Hp.
    + injection Hp as <-. apply main_safe. split; cbn; [by intros ? []|set_solver].
    + apply lookup_replicate in Hp as [-> _]. apply spawned_safe; [lia|]. by intros x.
Qed.
End proofs.

(** C13: The address space is laid out as the program means it, in every
    interleaving of [main] with the tasks and whatever the system calls answer:
    each thread that was created and not cleared has a guard page without
    access below 2048 pages it can read and write, as its [my_thread_t] says;
    no two of these ranges overlap, none overlaps what was mapped before, and
    that is still mapped as it was; and the stack of every task that has not
    raised its flag is among them. *)
Theorem main_layout N m answers places c :
  steps (initial N m answers places) c → layout m (fst c).
Proof.
  intros Hs. destruct (rg_sound _ _ (initial_safe N m answers places) Hs) as [HI _].
  apply (inv_layout _ _ _ HI).
Qed.

(** A schedule: so many steps of each thread in turn *)
Definition turns (l : list (nat * nat)) : list nat := l ≫= λ '(i, n), replicate n i.

(** Whether a schedule ends in a state with [f] *)
Definition ends_with {A} (r : config tstate + fault) (f : tstate → A) : option A :=
  match r with inl c => Some (f (fst c)) | inr _ => None end.

(** The program with two threads, the second of which cannot protect its guard
    page, next to a mapped page 7; the first is running on its stack. *)
Example main_layout_witness :
  let m := {[ 7 := PROT_READ_WRITE ]} in
  ∃ c, steps (initial 2 m [true; true; true; true; true; true; false] []) c ∧
    layout m (fst c) ∧ owners (fst c) !! 0%nat = Some 8 ∧ output (fst c) = [Value 0; Perror; Perror].
Proof.
  intros m. set (c0 := initial _ _ _ _).
  assert (ends_with (run_schedule (turns [(0, 12); (1, 4); (0, 10)])%nat c0) (λ s, (owners s !! 0%nat, output s)) =
    Some (Some 8, [Value 0; Perror; Perror])) as H by (vm_compute; reflexivity).
  destruct (run_schedule _ c0) as [c|] eqn:E; [|done]. injection H as Ho Hp. exists c.
  apply run_schedule_steps in E. split; [done|]. split; [|done].
  apply (main_layout _ _ _ _ _ E).
Defined.

Lemma schedule_ends {A} sched c0 (f : tstate → A) x : ends_with (run_schedule sched c0) f = Some x →
  ∃ c, steps c0 c ∧ f (fst c) = x.
Proof.
  destruct (run_schedule sched c0) as [c|] eqn:E; [|done]. intros [= H]. exists c.
  split; [by eapply run_schedule_steps|done].
Qed.

(** A task's stack may be unmapped while it still runs on it, as its flag goes
    up before the wrapper returns. *)
Lemma cleared_while_running : ∃ c, steps (initial 1 ∅ [] []) c ∧ faulty c Segv ∧
  output (fst c) = [Value 0; Count 1; Cleared 1].
Proof.
  set (c0 := initial _ _ _ _).
  set (f (c : config tstate) := (output (fst c), from_option (λ p, prog_step p 1%nat (fst c)) Blocked (snd c !! 1%nat))).
  assert (match run_schedule (turns [(0, 15); (1, 10); (0, 40)])%nat c0 with
    | inl c => f c = ([Value 0; Count 1; Cleared 1], Fault Segv) | inr _ => False end) as H by (vm_compute; reflexivity).
  destruct (run_schedule _ c0) as [c|] eqn:E; [|by destruct H]. apply pair_eq in H as [Ho Hs]. exists c.
  split; [by eapply run_schedule_steps|]. split; [|exact Ho].
  destruct (snd c !! 1%nat) as [p|] eqn:Hc; [|discriminate Hs]. exists 1%nat, p. split; [exact Hc|exact Hs].
Qed.

(** C32: What can go wrong with the threads of my_thread.c, each shown by an
    execution of a.c. [clear] unmaps the stack of a thread whose flag is up but
    which has yet to return, and the return faults. [clear] of a thread that is
    not finished decides on a flag that nobody wrote. When the guard page cannot
    be protected, [munmap] of [STACK_SIZE] leaves the last page of the mapping
    behind. And two threads may both add 1 to [g] and leave it at 1. *)
Theorem mythread_hazards :
  (∃ c, steps (initial 1 ∅ [] []) c ∧ faulty c Segv ∧ output (fst c) = [Value 0; Count 1; Cleared 1]) ∧
  (∃ c, steps (initial 1 ∅ [] []) c ∧ faulty c Uninit) ∧
  (∃ c, steps (initial 1 ∅ [true; true; false] []) c ∧
     (output (fst c), owners (fst c), pages (fst c)) = ([Perror], ∅, {[ 2049 := PROT_READ_WRITE ]})) ∧
  ∃ c, steps (initial 2 ∅ [] []) c ∧
    (is_finished <$> threads (fst c), g (fst c)) = ([Some 1; Some 1], 1).
Proof.
  split; [exact cleared_while_running|]. split; [|split].
  - apply (run_schedule_faulty (turns [(0, 40)])%nat). vm_compute. reflexivity.
  - apply (schedule_ends (turns [(0, 8)])%nat _ (λ s, (output s, owners s, pages s))). vm_compute. reflexivity.
  - apply (schedule_ends (turns [(0, 28); (1, 5); (2, 5); (1, 10); (2, 10)])%nat _ (λ s, (is_finished <$> threads s, g s))).
    vm_compute. reflexivity.
Qed.
