(* ===== verification/Process.v ===== *)
(** Process: a process and its POSIX threads, as the programs of lab1/src/1 to
    lab1/src/4 use them: creation up to a limit, joining, detaching,
    cancellation, and the end of the process; rely/guarantee rules for these, and
    an exhaustive search for programs with finitely many executions. *)
From S2P Require Import Prelude Threads.

(** * The model *)

(** What a thread returns: a pointer, or that it was cancelled *)
Inductive value := Ptr (p : ptr) | PTHREAD_CANCELED.
Abbreviation NULLV := (Ptr NULL).

(** A process has room for as many threads as it has slots. A slot is used from
    the creation of a thread until the thread was joined, or has ended and is
    detached. *)
Inductive status := Unused | Created (arg : ptr) | Running | Finished (v : value).
Record slot := Slot { state : status; detached : bool; cancelled : bool }.

#[export] Instance value_eq_dec : EqDecision value.
Proof. solve_decision. Defined.
#[export] Instance status_eq_dec : EqDecision status.
Proof. solve_decision. Defined.
#[export] Instance slot_eq_dec : EqDecision slot.
Proof. solve_decision. Defined.

Definition unused : slot := Slot Unused false false.

(** The threads; what the program is about; what [main] returned, which ends the
    process. Auxiliary: how many threads were created. *)
Record process (X : Type) := Process {
  slots : list slot;
  memory : X;
  result : option Z;
  created : nat;
}.
Arguments Process {X}.
Arguments slots {X}.
Arguments memory {X}.
Arguments result {X}.
Arguments created {X}.

Definition EXIT_SUCCESS : Z := 0.
Definition EXIT_FAILURE : Z := 1.
Definition EAGAIN : Z := 11.

Section model.
Context {X : Type}.
Implicit Types (s : process X).

Definition set_slots l s : process X := Process l (memory s) (result s) (created s).
Definition set_memory (m : X) s : process X := Process (slots s) m (result s) (created s).

(** No thread of a process that has ended runs. *)
Definition live {A} (m : C (process X) A) : C (process X) A := λ t s,
  if decide (result s = None) then m t s else Blocked.
Definition act {A} (m : C (process X) A) : prog (process X) A := atomic (live m).
Definition on_memory {A} (m : C X A) : prog (process X) A := act (λ t s,
  match m t (memory s) with Ok a x => Ok a (set_memory x s) | Blocked => Blocked | Fault e => Fault e end).

Definition set_slot (i : nat) (th : slot) : C (process X) unit := λ _ s,
  Ok tt (set_slots (<[i := th]> (slots s)) s).

Definition first_unused s : option nat := fst <$> list_find (λ th, state th = Unused) (slots s).

(** The error number and the new thread, whose attributes say if it is detached *)
Definition pthread_create (det : bool) (arg : ptr) : C (process X) (Z * option nat) := λ _ s,
  match first_unused s with
  | Some i => Ok (0%Z, Some i)
      (Process (<[i := Slot (Created arg) det false]> (slots s)) (memory s) (result s) (Datatypes.S (created s)))
  | None => Ok (EAGAIN, None) s
  end.

(** A [pthread_t] variable is read: it must have been written. *)
Definition initialised {A} (t : option A) : prog (process X) A :=
  match t with Some t => mret t | None => act (fail Uninit) end.

(** The identity of a thread that was joined or ended detached is no longer valid. *)
Definition pthread_join (t : nat) : C (process X) (Z * value) := λ u s,
  match slots s !! t with
  | Some th =>
      if detached th then Fault Segv else
      match state th with
      | Unused => Fault Segv
      | Created _ | Running => Blocked
      | Finished v => Ok (0%Z, v) (set_slots (<[t := unused]> (slots s)) s)
      end
  | None => Fault Segv
  end.
Definition pthread_detach (t : nat) : C (process X) unit := λ u s,
  match slots s !! t with
  | Some th =>
      match state th with
      | Unused => Fault Segv
      | Finished v => set_slot t unused u s
      | st => set_slot t (Slot st true (cancelled th)) u s
      end
  | None => Fault Segv
  end.
(** A request; the thread acts upon it at a cancellation point. *)
Definition pthread_cancel (t : nat) : C (process X) unit := λ u s,
  match slots s !! t with
  | Some th =>
      if decide (state th = Unused) then Fault Segv
      else set_slot t (Slot (state th) (detached th) true) u s
  | None => Fault Segv
  end.
(** Has the running thread been asked to terminate? *)
Definition cancel_requested : C (process X) bool := λ t s,
  match slots s !! t with Some th => Ok (cancelled th) s | None => Fault Segv end.

(** A slot runs the thread that is created in it, and is then free for another. *)
Definition begin : C (process X) ptr := λ t s,
  match slots s !! t with
  | Some th =>
      match state th with
      | Created arg => Ok arg (set_slots (<[t := Slot Running (detached th) (cancelled th)]> (slots s)) s)
      | _ => Blocked
      end
  | None => Blocked
  end.
Definition finish (v : value) : C (process X) unit := λ t s,
  match slots s !! t with
  | Some th =>
      set_slot t (if detached th then unused else Slot (Finished v) false (cancelled th)) t s
  | None => Fault Segv
  end.
Definition thread_slot (start : ptr → prog (process X) value) : prog (process X) unit :=
  forever (λ _ : unit, arg ← act begin; v ← start arg; act (finish v)) tt.

(** [return r] from [main] *)
Definition exit_process (r : Z) : prog (process X) unit := act (λ _ s,
  Ok tt (Process (slots s) (memory s) (Some r) (created s))).

(** The program with room for [L] threads, all of which start at [start] *)
Definition program (L : nat) (start : ptr → prog (process X) value) (main : prog (process X) unit) :
    list (prog (process X) unit) :=
  replicate L (thread_slot start) ++ [main].
Definition initial (L : nat) (x : X) : process X := Process (replicate L unused) x None 0.
End model.

(** * Exhaustive search

    For a program whose executions are all finite: every configuration within
    reach is visited. *)

Section search.
Context {S : Type} (good ended : S → bool) (expected : fault → bool).

Fixpoint search (n : nat) (c : config S) : bool :=
  match n with
  | O => false
  | Datatypes.S n' =>
      let tries := imap (λ i p, (i, prog_step p i (fst c))) (snd c) in
      good (fst c) &&
      (existsb (λ r, match snd r with Blocked => false | _ => true end) tries || ended (fst c)) &&
      forallb (λ r, match snd r with
        | Ok p' s' => search n' (s', <[fst r := p']> (snd c))
        | Blocked => true
        | Fault e => expected e
        end) tries
  end.
End search.

Section search_sound.
Context {S : Type} (good ended : S → bool) (expected : fault → bool).
Abbreviation search := (search good ended expected).

Lemma search_visit n c : search n c = true →
  good (fst c) = true ∧ (∀ e, faulty c e → expected e = true) ∧ (stuck c → ended (fst c) = true).
Proof.
  destruct n as [|n]; [done|]. simpl. intros [[Hg Hm]%andb_true_iff Ht]%andb_true_iff.
  split; [done|]. split.
  - intros e (i & p & Hp & He). rewrite forallb_forall in Ht.
    specialize (Ht (i, prog_step p i (fst c))). rewrite He in Ht. apply Ht.
    apply list_elem_of_In, list_elem_of_lookup. exists i. rewrite list_lookup_imap. by rewrite Hp, <-He.
  - intros Hstuck. apply orb_true_iff in Hm as [(r & Hr & Hb)%existsb_exists|]; [|done].
    apply list_elem_of_In, list_elem_of_lookup in Hr as [i Hi]. rewrite list_lookup_imap in Hi.
    destruct (snd c !! i) as [p|] eqn:Hp; simplify_eq/=. by rewrite (Hstuck i p Hp) in Hb.
Qed.

Lemma search_step n c c' : search n c = true → step c c' → ∃ n', n = Datatypes.S n' ∧ search n' c' = true.
Proof.
  destruct n as [|n]; [done|]. simpl. intros [_ Ht]%andb_true_iff Hs. exists n. split; [done|].
  destruct Hs as [s ths i p p' s' Hp Hps]. rewrite forallb_forall in Ht.
  specialize (Ht (i, Ok p' s')). apply Ht.
  apply list_elem_of_In, list_elem_of_lookup. exists i. rewrite list_lookup_imap. cbn [fst snd]. by rewrite Hp, <-Hps.
Qed.

(** Every execution is shorter than [n] steps, every configuration is good, and
    one that cannot go on has ended as expected. *)
Lemma search_sound n c : search n c = true →
  ∀ k c', nsteps step k c c' → k < n ∧ good (fst c') = true ∧
    (∀ e, faulty c' e → expected e = true) ∧ (stuck c' → ended (fst c') = true).
Proof.
  intros Hn k c' Hk. revert n Hn. induction Hk as [c|k c1 c2 c3 Hs _ IH]; intros n Hn.
  - split; [destruct n; [done|lia]|]. by eapply search_visit.
  - destruct (search_step _ _ _ Hn Hs) as (n' & -> & Hn'). destruct (IH n' Hn') as [? ?]. split; [lia|done].
Qed.
End search_sound.

(** * Rely and guarantee for the threads of a process *)

Definition busy (st : status) : Prop :=
  match st with Created _ | Running => True | _ => False end.
#[export] Instance busy_dec st : Decision (busy st).
Proof. destruct st; apply _. Defined.

(** What [main] sees of a slot: a thread runs and ends; only one that is detached
    leaves its slot by itself. *)
Definition advance (th th' : slot) : Prop :=
  (¬ busy (state th) → th' = th) ∧
  (detached th = false → detached th' = false ∧ (state th' = Unused → state th = Unused)) ∧
  (detached th = true → th' = unused ∨ detached th' = true).

Lemma advance_refl th : advance th th.
Proof. unfold advance. split_and!; auto. Qed.
Lemma advance_trans th1 th2 th3 : advance th1 th2 → advance th2 th3 → advance th1 th3.
Proof.
  unfold advance. intros (A & B & D) (A' & B' & D'). split_and!.
  - intros Hb. pose proof (A Hb). subst. by apply A'.
  - intros Hf. destruct (B Hf) as [Hf' HU]. destruct (B' Hf') as [? HU']. split; [done|]. auto.
  - intros Ht. destruct (D Ht) as [->|Ht']; [left; apply A'; by intros []|by apply D'].
Qed.
Lemma advance_begin th arg : state th = Created arg → advance th (Slot Running (detached th) (cancelled th)).
Proof. intros Hst. unfold advance. rewrite Hst. simpl. split_and!; [naive_solver|done|by right]. Qed.
Lemma advance_finish v th : state th = Running →
  advance th (if detached th then unused else Slot (Finished v) false (cancelled th)).
Proof.
  intros Hst. unfold advance. rewrite Hst. destruct (detached th); simpl; (split_and!; [naive_solver|done|]).
  - by left.
  - done.
Qed.

Section threads.
Context {X : Type}.
Implicit Types (s : process X).

Definition state_of s (i : nat) : option status := state <$> slots s !! i.
Definition is_busy s (i : nat) : Prop := from_option busy False (state_of s i).
#[export] Instance is_busy_dec s i : Decision (is_busy s i).
Proof. unfold is_busy. destruct (state_of s i); apply _. Defined.

(** What a thread relies on: its slot is its own while it runs. *)
Definition slot_kept (i : nat) s s' : Prop :=
  (is_busy s i → state_of s' i = state_of s i) ∧ (state_of s' i = Some Running → state_of s i = Some Running).
Definition main_kept s s' : Prop :=
  result s' = result s ∧ created s' = created s ∧ Forall2 advance (slots s) (slots s').

Context (L : nat) (MI : process X → Prop) (MR : nat → process X → process X → Prop) (ok : fault → Prop).
Context (MR_refl : ∀ i s, MR i s s) (MR_trans : ∀ i s1 s2 s3, MR i s1 s2 → MR i s2 s3 → MR i s1 s3).

Definition process_inv s : Prop := length (slots s) = L ∧ MI s.
Definition process_rely (i : nat) s s' : Prop :=
  (i < L → slot_kept i s s') ∧ (i = L → main_kept s s') ∧ MR i s s'.
(** A slot waits for a thread, [main] for one to end; nobody runs when the process
    has ended. *)
Definition process_waits (i : nat) s : Prop :=
  result s ≠ None ∨ if decide (i < L) then ¬ is_busy s i else ∃ j, j < L ∧ is_busy s j.

Lemma slot_kept_trans i s1 s2 s3 : slot_kept i s1 s2 → slot_kept i s2 s3 → slot_kept i s1 s3.
Proof.
  intros [A B] [A' B']. split; [|auto]. intros Hb. rewrite A', A; [done..|].
  unfold is_busy in *. by rewrite A.
Qed.
Lemma main_kept_trans s1 s2 s3 : main_kept s1 s2 → main_kept s2 s3 → main_kept s1 s3.
Proof.
  intros (A & B & D) (A' & B' & D'). split_and!; [congruence..|].
  rewrite Forall2_lookup in *. intros j. specialize (D j). specialize (D' j).
  inversion D; destruct (slots s2 !! j) eqn:E2; simplify_eq; rewrite ?E2 in *; inversion D'; simplify_eq; constructor.
  by eapply advance_trans.
Qed.
Lemma main_kept_refl s : main_kept s s.
Proof. split_and!; [done..|]. apply Forall_Forall2_diag, Forall_forall. intros. apply advance_refl. Qed.

Lemma slots_rely_refl i s : process_rely i s s.
Proof. split_and!; [by split|intros; apply main_kept_refl|apply MR_refl]. Qed.

#[local] Program Instance process_rg : RG (process X) := {|
  I := process_inv; R := process_rely; okf := ok; wt := process_waits; fin _ s := result s ≠ None |}.
Next Obligation. apply slots_rely_refl. Qed.
Next Obligation.
  intros i s1 s2 s3 (A & B & D) (A' & B' & D'). split_and!; [..|by eapply MR_trans].
  - intros Hi. eapply slot_kept_trans; auto.
  - intros Hi. eapply main_kept_trans; auto.
Qed.

(** ** Steps *)

Lemma safe_live {B} n i (m : C (process X) B) k s :
  (∀ s1, process_inv s1 → process_rely i s s1 → result s1 = None →
    match m i s1 with
    | Ok b s2 => process_inv s2 ∧ (∀ j, j ≠ i → process_rely j s1 s2) ∧ safe n i (k b) s2
    | Blocked => process_waits i s1
    | Fault e => ok e
    end) →
  safe (Datatypes.S n) i (pbind (act m) k) s.
Proof.
  intros Hm. apply safe_act. intros s1 HI HR. unfold live. case_decide as Hr; [|by left]. by apply Hm.
Qed.

(** A step on the memory leaves the threads as they are. *)
Lemma safe_memory {B} n i (m : C X B) k s :
  (∀ s1, process_inv s1 → process_rely i s s1 → result s1 = None →
    match m i (memory s1) with
    | Ok b x => MI (set_memory x s1) ∧ (∀ j, j ≠ i → MR j s1 (set_memory x s1)) ∧ safe n i (k b) (set_memory x s1)
    | Blocked => process_waits i s1
    | Fault e => ok e
    end) →
  safe (Datatypes.S n) i (pbind (on_memory m) k) s.
Proof.
  intros Hm. apply safe_live. intros s1 HI HR Hr. specialize (Hm s1 HI HR Hr).
  destruct (m i (memory s1)) as [b x| |e]; [|done..]. destruct Hm as (HM & HMR & Hk).
  split; [by split; [apply HI|]|]. split; [|done].
  intros j Hj. split_and!; [by split|intros _; exact (main_kept_refl s1)|by apply HMR].
Qed.

(** What a step that changes one slot means to the others *)
Lemma kept_insert j t th th' s s' : slots s !! t = Some th → slots s' = <[t := th']> (slots s) →
  (busy (state th) → state th' = state th) → (state th' = Running → state th = Running) → slot_kept j s s'.
Proof.
  intros Ht Hs Hb Hrun. unfold slot_kept, is_busy, state_of. rewrite Hs.
  destruct (decide (t = j)) as [<-|Hne].
  - rewrite list_lookup_insert_eq by (by eapply lookup_lt_Some). rewrite Ht. simpl. split.
    + intros Hbusy. f_equal. by apply Hb.
    + intros [= E]. f_equal. by apply Hrun.
  - by rewrite list_lookup_insert_ne.
Qed.
Lemma kept_other j t th' s s' : j ≠ t → slots s' = <[t := th']> (slots s) → slot_kept j s s'.
Proof.
  intros Hne Hs. unfold slot_kept, is_busy, state_of. rewrite Hs. by rewrite list_lookup_insert_ne.
Qed.
Lemma main_insert t th th' s s' : slots s !! t = Some th → slots s' = <[t := th']> (slots s) →
  result s' = result s → created s' = created s → advance th th' → main_kept s s'.
Proof.
  intros Ht Hs Hr Hc Hadv. split_and!; [done..|]. rewrite Hs. apply Forall2_lookup. intros j.
  destruct (decide (t = j)) as [<-|Hne].
  - rewrite list_lookup_insert_eq by (by eapply lookup_lt_Some). rewrite Ht. by constructor.
  - rewrite list_lookup_insert_ne by done. destruct (slots s !! j); constructor. apply advance_refl.
Qed.

(** A step of a thread on its own slot *)
Lemma slot_step i th th' s (s' := set_slots (<[i := th']> (slots s)) s) : i < L →
  slots s !! i = Some th → advance th th' → process_inv s → MI s' → (∀ j, j ≠ i → MR j s s') →
  process_inv s' ∧ ∀ j, j ≠ i → process_rely j s s'.
Proof.
  intros Hi Ht Hadv [HL HI] HM HMR. split.
  - split; [|done]. simpl. by rewrite length_insert.
  - intros j Hj. split_and!; [|intros ->; by eapply main_insert|by apply HMR]. intros _. by eapply kept_other.
Qed.

(** ** The threads *)

Section slot.
Context (start : ptr → prog (process X) value) (i : nat) (in_range : i < L).
(** What holds when a thread starts, until it acts, and when it ends *)
Context (pre : ptr → process X → Prop) (post : value → process X → Prop).

Definition begun th s := set_slots (<[i := Slot Running (detached th) (cancelled th)]> (slots s)) s.
Definition ended v th s :=
  set_slots (<[i := if detached th then unused else Slot (Finished v) false (cancelled th)]> (slots s)) s.

Context (begin_ok : ∀ s arg th, process_inv s → result s = None → slots s !! i = Some th → state th = Created arg →
  MI (begun th s) ∧ (∀ j, j ≠ i → MR j s (begun th s)) ∧ pre arg (begun th s)).
Context (finish_ok : ∀ s v th, process_inv s → result s = None → slots s !! i = Some th → state th = Running → post v s →
  MI (ended v th s) ∧ ∀ j, j ≠ i → MR j s (ended v th s)).
Context (post_stable : ∀ v s s', post v s → process_rely i s s' → process_inv s' → post v s').
Context (start_safe : ∀ n s arg k, pre arg s → state_of s i = Some Running →
  (∀ m v s', m ≤ n → post v s' → state_of s' i = Some Running → safe m i (k v) s') →
  safe n i (pbind (start arg) k) s).

Lemma running_stable s s' : state_of s i = Some Running → process_rely i s s' → state_of s' i = Some Running.
Proof. intros Hr [[Hk _] _]; [done|]. rewrite Hk; [done|]. unfold is_busy. by rewrite Hr. Qed.

Lemma finish_safe n v k s : post v s → state_of s i = Some Running →
  (∀ m s', m ≤ n → state_of s' i ≠ Some Running → safe m i (k tt) s') →
  safe n i (pbind (act (finish v)) k) s.
Proof.
  intros Hpost Hrun Hk. destruct n as [|n]; [done|]. apply safe_live. intros s1 HI HR Hr.
  pose proof (running_stable _ _ Hrun HR) as Hrun1. unfold state_of in Hrun1.
  apply fmap_Some in Hrun1 as (th & Hth & Hst). unfold finish. rewrite Hth. unfold set_slot.
  destruct (finish_ok s1 v th) as [HM HMR]; [done..|by eapply post_stable|].
  destruct (slot_step i th (if detached th then unused else Slot (Finished v) false (cancelled th)) s1) as [HI' HG];
    [done|done|by apply advance_finish|done..|].
  split; [done|]. split; [done|]. apply Hk; [lia|]. unfold state_of. simpl.
  rewrite list_lookup_insert_eq by (by eapply lookup_lt_Some). simpl. by destruct (detached th).
Qed.

Lemma thread_slot_safe n s : state_of s i ≠ Some Running → safe n i (thread_slot start) s.
Proof.
  intros Hs. unfold thread_slot, forever.
  apply (safe_loop (λ _ s, state_of s i ≠ Some Running)); [|clear s Hs|done].
  { intros _ s1 s2 Hs1 [[_ Hk] _] _; [done|]. auto. }
  intros n' _ s Hn Hs Hloop. clear n Hn. rename n' into n. unfold mbind, prog_bind. rewrite !pbind_assoc.
  destruct n as [|n]; [done|]. apply safe_live. intros s1 HI HR Hr. unfold begin.
  destruct (slots s1 !! i) as [th|] eqn:Hth.
  2:{ right. rewrite decide_True by done. unfold is_busy, state_of. rewrite Hth. by intros []. }
  destruct (state th) as [|arg| |v] eqn:Hst; [..| |].
  all: try (right; rewrite decide_True by done; unfold is_busy, state_of; rewrite Hth; simpl; rewrite Hst; simpl; tauto).
  2:{ destruct HR as [[_ Hk] _]; [done|]. unfold state_of in Hk at 1. rewrite Hth in Hk. simpl in Hk.
      rewrite Hst in Hk. by specialize (Hk eq_refl). }
  destruct (begin_ok s1 arg th) as (HM & HMR & Hpre); [done..|].
  destruct (slot_step i th (Slot Running (detached th) (cancelled th)) s1) as [HI' HG]; [done|done|by eapply advance_begin|done..|].
  split; [done|]. split; [done|]. rewrite pbind_assoc. apply start_safe; [done| |].
  { unfold state_of. simpl. by rewrite list_lookup_insert_eq by (by eapply lookup_lt_Some). }
  intros m v s' Hm Hpost Hrun. cbv beta. rewrite ?pbind_assoc. apply finish_safe; [done|done|].
  intros m' s'' Hm' Hs''. apply Hloop; [lia|done].
Qed.
End slot.

(** ** [main] *)

Lemma main_step t th th' s s' : slots s !! t = Some th → slots s' = <[t := th']> (slots s) → t < L →
  (busy (state th) → state th' = state th) → (state th' = Running → state th = Running) →
  process_inv s → MI s' → (∀ j, j ≠ L → MR j s s') →
  process_inv s' ∧ ∀ j, j ≠ L → process_rely j s s'.
Proof.
  intros Ht Hs HtL Hb Hrun [HL HI] HM HMR. split.
  - split; [|done]. by rewrite Hs, length_insert.
  - intros j Hj. split_and!; [|done|by apply HMR].
    intros _. by eapply kept_insert.
Qed.

Lemma first_unused_Some s t : first_unused s = Some t → ∃ th, slots s !! t = Some th ∧ state th = Unused.
Proof.
  unfold first_unused. intros ([t' th] & Hf & E)%fmap_Some. simpl in E. subst.
  apply list_find_Some in Hf as (? & ? & _). by exists th.
Qed.

(** [pthread_create] *)
Definition with_thread (t : nat) (det : bool) (arg : ptr) s : process X :=
  Process (<[t := Slot (Created arg) det false]> (slots s)) (memory s) (result s) (Datatypes.S (created s)).

Lemma safe_create n det arg k s :
  (∀ s1, process_inv s1 → process_rely L s s1 → result s1 = None →
    match first_unused s1 with
    | Some t => MI (with_thread t det arg s1) ∧ (∀ j, j ≠ L → MR j s1 (with_thread t det arg s1)) ∧
        safe n L (k (0%Z, Some t)) (with_thread t det arg s1)
    | None => safe n L (k (EAGAIN, None)) s1
    end) →
  safe (Datatypes.S n) L (pbind (act (pthread_create det arg)) k) s.
Proof.
  intros Hk. apply safe_live. intros s1 HI HR Hr. specialize (Hk s1 HI HR Hr). unfold pthread_create.
  destruct (first_unused s1) as [t|] eqn:Hf.
  2:{ split; [done|]. split; [|done]. intros j _. apply slots_rely_refl. }
  destruct Hk as (HM & HMR & Hk). apply first_unused_Some in Hf as (th & Ht & Hst).
  destruct (main_step t th (Slot (Created arg) det false) s1 (with_thread t det arg s1)) as [HI' HG]; try done.
  { destruct HI as [<- _]. by eapply lookup_lt_Some. }
  rewrite Hst. by intros [].
Qed.

(** [pthread_join] *)
Definition without_thread (t : nat) s : process X := set_slots (<[t := unused]> (slots s)) s.

Lemma safe_pthread_join n t k s :
  (∀ s1, process_inv s1 → process_rely L s s1 → result s1 = None →
    ∃ th, slots s1 !! t = Some th ∧ detached th = false ∧ state th ≠ Unused ∧
      ∀ v, state th = Finished v → MI (without_thread t s1) ∧ (∀ j, j ≠ L → MR j s1 (without_thread t s1)) ∧
        safe n L (k (0%Z, v)) (without_thread t s1)) →
  safe (Datatypes.S n) L (pbind (act (pthread_join t)) k) s.
Proof.
  intros Hk. apply safe_live. intros s1 HI HR Hr. destruct (Hk s1 HI HR Hr) as (th & Ht & Hd & Hu & Hf).
  assert (t < L) as HtL. { destruct HI as [<- _]. by eapply lookup_lt_Some. }
  assert (busy (state th) → process_waits L s1) as Hwait.
  { intros Hb. right. rewrite decide_False by lia. exists t. split; [done|]. unfold is_busy, state_of. by rewrite Ht. }
  unfold pthread_join. rewrite Ht, Hd. destruct (state th) as [|arg| |v] eqn:Hst; [done|by apply Hwait..|].
  destruct (Hf v eq_refl) as (HM & HMR & Hsafe).
  destruct (main_step t th unused s1 (without_thread t s1)) as [HI' HG]; try done.
  rewrite Hst. by intros [].
Qed.

(** [pthread_cancel] *)
Definition with_request (t : nat) (th : slot) s : process X :=
  set_slots (<[t := Slot (state th) (detached th) true]> (slots s)) s.

Lemma safe_cancel n t k s :
  (∀ s1, process_inv s1 → process_rely L s s1 → result s1 = None →
    ∃ th, slots s1 !! t = Some th ∧ state th ≠ Unused ∧
      MI (with_request t th s1) ∧ (∀ j, j ≠ L → MR j s1 (with_request t th s1)) ∧
      safe n L (k tt) (with_request t th s1)) →
  safe (Datatypes.S n) L (pbind (act (pthread_cancel t)) k) s.
Proof.
  intros Hk. apply safe_live. intros s1 HI HR Hr. destruct (Hk s1 HI HR Hr) as (th & Ht & Hu & HM & HMR & Hsafe).
  unfold pthread_cancel, set_slot. rewrite Ht, decide_False by done.
  destruct (main_step t th (Slot (state th) (detached th) true) s1 (with_request t th s1)) as [HI' HG]; try done.
  destruct HI as [<- _]. by eapply lookup_lt_Some.
Qed.

(** [pthread_detach] *)
Definition with_detached (t : nat) (th : slot) s : process X :=
  set_slots (<[t := if decide (busy (state th)) then Slot (state th) true (cancelled th) else unused]> (slots s)) s.

Lemma safe_detach n t k s :
  (∀ s1, process_inv s1 → process_rely L s s1 → result s1 = None →
    ∃ th, slots s1 !! t = Some th ∧ state th ≠ Unused ∧
      MI (with_detached t th s1) ∧ (∀ j, j ≠ L → MR j s1 (with_detached t th s1)) ∧
      safe n L (k tt) (with_detached t th s1)) →
  safe (Datatypes.S n) L (pbind (act (pthread_detach t)) k) s.
Proof.
  intros Hk. apply safe_live. intros s1 HI HR Hr. destruct (Hk s1 HI HR Hr) as (th & Ht & Hu & HM & HMR & Hsafe).
  destruct (main_step t th (if decide (busy (state th)) then Slot (state th) true (cancelled th) else unused)
    s1 (with_detached t th s1)) as [HI' HG]; try done.
  - destruct HI as [<- _]. by eapply lookup_lt_Some.
  - intros Hb. by rewrite decide_True.
  - case_decide; [done|by intros].
  - unfold pthread_detach, set_slot. rewrite Ht. unfold with_detached in *.
    by destruct (state th) as [|arg| |v] eqn:Hst; [|rewrite decide_True in * by done..|rewrite decide_False in * by (by intros [])].
Qed.

(** [return r], the last step of [main] *)
Definition returned (r : Z) s : process X := Process (slots s) (memory s) (Some r) (created s).

Lemma safe_exit n r s :
  (∀ s1, process_inv s1 → process_rely L s s1 → result s1 = None →
    MI (returned r s1) ∧ ∀ j, j ≠ L → MR j s1 (returned r s1)) →
  safe n L (exit_process r) s.
Proof.
  intros Hk. destruct n as [|n]; [done|]. apply safe_act. intros s1 HI HR. unfold live.
  case_decide as Hr; [|by left]. destruct (Hk s1 HI HR Hr) as [HM HMR].
  split; [by split; [apply HI|]|]. split.
  - intros j Hj. split_and!; [by split|done|by apply HMR].
  - apply safe_ret. intros s2 _ [_ [[HR2 _] _]]; [done|]. change (result s2 ≠ None). by rewrite HR2.
Qed.

(** ** The process *)

(** Nothing unexpected happens, and until the process has ended a thread runs. *)
Lemma process_sound start main x c :
  MI (initial L x) → (∀ n i s, i < L → state_of s i ≠ Some Running → safe n i (thread_slot start) s) →
  (∀ n, safe n L main (initial L x)) →
  steps (initial L x, program L start main) c →
  process_inv (fst c) ∧ (∀ e, faulty c e → ok e) ∧ (stuck c → result (fst c) ≠ None).
Proof.
  intros HI Hslots Hmain Hsteps.
  assert (length (snd c) = Datatypes.S L) as Hlen.
  { rewrite (steps_length _ _ Hsteps). unfold program. simpl. rewrite length_app, length_replicate. simpl. lia. }
  destruct (rg_sound (initial L x, program L start main) c) as (HI' & Hf & Hb); [|done|].
  - split; [split; [simpl; by rewrite length_replicate|done]|]. intros n i p Hp. simpl in *. unfold program in Hp.
    apply lookup_app_Some in Hp as [[-> Hi]%lookup_replicate|[Hi Hp]].
    + apply Hslots; [done|]. unfold state_of. simpl. by rewrite lookup_replicate_2.
    + rewrite length_replicate in Hi, Hp. destruct (i - L) eqn:E; [|done]. simpl in Hp. simplify_eq.
      replace i with L by lia. apply Hmain.
  - split; [done|]. split; [done|]. intros Hst.
    assert (∀ i, i ≤ L → result (fst c) ≠ None ∨ process_waits i (fst c)) as Hw.
    { intros i Hi. destruct (lookup_lt_is_Some_2 (snd c) i) as [p Hp]; [lia|].
      specialize (Hb i p Hp (Hst i p Hp)). destruct p; [by left|by right..]. }
    destruct (Hw L) as [|[|Hj]]; [done..|]. rewrite decide_False in Hj by lia. destruct Hj as (j & Hj & Hbusy).
    destruct (Hw j) as [|[|Hn]]; [lia|done..|]. by rewrite decide_True in Hn.
Qed.
End threads.
