(* ===== verification/Lab1.v ===== *)
(** Lab1: the programs of lab1/src/1 to lab1/src/4, each in a Module named after
    its directory and file: threads that are joined (1 and 2/a), that return a
    value (2/b, 2/c), that are never joined or detached (2/d, 2/e, 2/f), that are
    handed data (3), and that are cancelled (4). *)
From S2P Require Import Prelude CString Threads Process.
#[local] Open Scope Z_scope.

(** * What the threads share *)

(** [data_t] of lab1/src/3; a field is [None] before it is written. *)
Record data_t := Data { number : option Z; message : option ptr }.
(** An array of characters, and those of them that were written *)
Abbreviation chars := (list (option Z)).

(** What the programs print: a number or a string, with the words before it *)
Inductive item := Int (label : string) (z : Z) | Str (label : string) (s : list Z) | Text (s : string).

(** The variable [global], the heaps, the answers of [malloc], the output.
    Auxiliary: the threads that have stored to [global]. *)
Record shared_t := Shared {
  global : Z;
  ints : mem (option Z);
  arrays : mem chars;
  datas : mem data_t;
  answers : list bool;
  stdout : list item;
  written : gset nat;
}.

#[export] Instance ints_heap : Heap shared_t (option Z).
Proof.
  refine {| heap := ints;
    set_heap m x := Shared (global x) m (arrays x) (datas x) (answers x) (stdout x) (written x) |};
  intros; repeat match goal with x : shared_t |- _ => destruct x end; reflexivity.
Defined.
#[export] Instance arrays_heap : Heap shared_t chars.
Proof.
  refine {| heap := arrays;
    set_heap m x := Shared (global x) (ints x) m (datas x) (answers x) (stdout x) (written x) |};
  intros; repeat match goal with x : shared_t |- _ => destruct x end; reflexivity.
Defined.
#[export] Instance datas_heap : Heap shared_t data_t.
Proof.
  refine {| heap := datas;
    set_heap m x := Shared (global x) (ints x) (arrays x) m (answers x) (stdout x) (written x) |};
  intros; repeat match goal with x : shared_t |- _ => destruct x end; reflexivity.
Defined.
#[export] Instance shared_oom : Oom shared_t.
Proof.
  refine {| oom := answers;
    set_oom o x := Shared (global x) (ints x) (arrays x) (datas x) o (stdout x) (written x) |};
  intros; repeat match goal with x : shared_t |- _ => destruct x end; reflexivity.
Defined.

Abbreviation proc := (process shared_t).

(** What a program starts from *)
Definition start_with (g : Z) (o : list bool) : shared_t :=
  Shared g mem_empty mem_empty mem_empty o [] ∅.

(** * Library functions *)

Definition print (x : item) : prog proc unit := on_memory (modify (λ m,
  Shared (global m) (ints m) (arrays m) (datas m) (answers m) (stdout m ++ [x]) (written m))).

(** [global++]: a load and a store *)
Definition load_global : prog proc Z := on_memory (gets global).
Definition store_global (z : Z) : prog proc unit := on_memory (λ t m,
  Ok tt (Shared z (ints m) (arrays m) (datas m) (answers m) (stdout m) ({[t]} ∪ written m))).
Definition incr_global : prog proc unit :=
  g ← load_global;
  g' ← act (signed_add INT_MAX g 1);
  store_global g'.

(** A string is written to an array, with its terminator. *)
Definition strcpy (p : ptr) (s : list Z) : C shared_t unit :=
  a ← load chars p;
  if decide (length s + 1 ≤ length a)%nat
  then update chars p (λ a, (Some <$> s ++ [NUL]) ++ drop (length s + 1) a)
  else fail OutOfBounds.
Abbreviation sprintf := strcpy.

(** The string at the beginning of an array *)
Fixpoint read_chars (a : chars) : C shared_t (list Z) :=
  match a with
  | [] => fail OutOfBounds
  | None :: _ => fail Uninit
  | Some c :: a' => if decide (c = NUL) then mret [] else s ← read_chars a'; mret (c :: s)
  end.
Definition read_string (p : ptr) : C shared_t (list Z) := a ← load chars p; read_chars a.

Definition written_field {A} (f : data_t → option A) (d : data_t) : C shared_t A :=
  match f d with Some a => mret a | None => fail Uninit end.
Definition field {A} (f : data_t → option A) (p : ptr) : C shared_t A :=
  d ← load data_t p; written_field f d.

(** [sleep]: a cancellation point; the threads that are not cancelled go on. *)
Definition sleep : prog proc bool := act cancel_requested.

(** * Threads that are created and joined *)

(** The first loop of [main]: the threads it created, [None] when a creation
    failed *)
Definition create_all (N : nat) : prog proc (option (list (option nat))) :=
  Loop (λ '(i, tids),
    if decide (i < N)%nat then
      r ← act (pthread_create false NULL);
      if decide (fst r ≠ 0) then mret (inr None)
      else
        _ ← act (array_get tids i);
        mret (inl (i + 1, <[i := snd r]> tids)%nat)
    else mret (inr (Some tids))) (0%nat, replicate N None) Ret.
(** The second: did every [pthread_join] succeed? *)
Definition join_all (N : nat) (tids : list (option nat)) : prog proc bool :=
  Loop (λ i : nat,
    if decide (i < N)%nat then
      v ← act (array_get tids i);
      t ← initialised v;
      r ← act (pthread_join t);
      mret (if decide (fst r ≠ 0) then inr false else inl (i + 1)%nat)
    else mret (inr true)) 0%nat Ret.
(** [main] with both, and what it does at the end *)
Definition create_and_join (N : nat) (last : list (option nat) → prog proc unit) : prog proc unit :=
  r ← create_all N;
  match r with
  | None => exit_process EXIT_FAILURE
  | Some tids =>
      ok ← join_all N tids;
      if (ok : bool) then last tids;; exit_process EXIT_SUCCESS else exit_process EXIT_FAILURE
  end.

(** [main] with one thread, and what it does with the value the thread returns *)
Definition create_join (last : value → prog proc unit) : prog proc unit :=
  r ← act (pthread_create false NULL);
  if decide (fst r ≠ 0) then exit_process (-1) else
  t ← initialised (snd r);
  r ← act (pthread_join t);
  if decide (fst r ≠ 0) then exit_process (-1) else
  last (snd r);;
  exit_process 0.

Module P1a.
Definition mythread (arg : ptr) : prog proc value :=
  print (Text "Hello from mythread!");; mret NULLV.
Definition main : prog proc unit :=
  print (Text "Hello from main!");; create_join (λ _, mret tt).
End P1a.

Module P1b.
Definition N : nat := 5.
Definition mythread (arg : ptr) : prog proc value :=
  g ← load_global;
  print (Int "mythread #" g);;
  incr_global;;
  mret NULLV.
Definition main : prog proc unit := create_and_join N (λ _, mret tt).
End P1b.

(** [gettid] is the kernel's identity of a thread. The variables that 1/c_2.c, 1/d.c and 1/e.c print: [local] is at most 12 * 99. *)
Definition print_variables (local local_const : Z) : prog proc unit :=
  print (Int "LOCAL" local);;
  print (Int "LOCAL STATIC" 11);;
  print (Int "LOCAL CONST" local_const);;
  g ← load_global;
  print (Int "GLOBAL" g).
(** What 1/d.c and 1/e.c do next *)
Definition update_variables (local : Z) : prog proc unit :=
  print (Text "=-=-=- UPDATING VALUES ... -=-=-=");;
  local ← act (signed_add INT_MAX local 1);
  incr_global;;
  print (Int "LOCAL" local);;
  g ← load_global;
  print (Int "GLOBAL" g).
Definition print_global : prog proc unit :=
  g ← load_global; print (Int "GLOBAL" g).
Module P1c_1.
Definition N : nat := 5.
Definition mythread (arg : ptr) : prog proc value := print (Text "mythread");; mret NULLV.
Definition print_tids (tids : list (option nat)) : prog proc unit :=
  Loop (λ i : nat,
    if decide (i < N)%nat then
      v ← act (array_get tids i);
      t ← initialised v;
      print (Int "tid" (Z.of_nat t));;
      mret (inl (i + 1)%nat)
    else mret (inr tt)) 0%nat Ret.
Definition main : prog proc unit := create_and_join N print_tids.
End P1c_1.

Module P1c_2.
Definition N : nat := 2.
Definition mythread (gettid : nat → Z) (arg : ptr) : prog proc value :=
  t ← act self;
  let m := Z.rem (gettid t) 100 in
  print_variables (12 * m) (13 * m);;
  mret NULLV.
Definition main : prog proc unit := create_and_join N (λ _, mret tt).
End P1c_2.

Module P1d.
Definition N : nat := 3.
Definition mythread (gettid : nat → Z) (arg : ptr) : prog proc value :=
  t ← act self;
  let m := Z.rem (gettid t) 100 in
  print_variables (12 * m) (13 * m);;
  update_variables (12 * m);;
  mret NULLV.
Definition main : prog proc unit := create_and_join N (λ _, print_global).
End P1d.

Module P1e.
Definition N : nat := 15.
Definition mythread (gettid : nat → Z) (arg : ptr) : prog proc value :=
  t ← act self;
  let m := Z.rem (gettid t) 100 in
  print_variables (12 * m) (13 * m);;
  update_variables (12 * m);;
  _ ← sleep;
  mret NULLV.
Definition main : prog proc unit := create_and_join N (λ _, print_global).
End P1e.

Module P2a.
Definition mythread (arg : ptr) : prog proc value :=
  print (Text "Hello from mythread!");; mret NULLV.
Definition main : prog proc unit :=
  print (Text "Hello from main!");; create_join (λ _, mret tt).
End P2a.

(** * Threads that return a value *)

Module P2b.
Definition RESULT : Z := 42.
Definition mythread (arg : ptr) : prog proc value :=
  print (Text "Hello from mythread!");;
  result ← on_memory (malloc (option Z) None);
  on_memory (update (option Z) result (λ _, Some RESULT));;
  mret (Ptr result).
(** [*resultPtr] *)
Definition deref (v : value) : prog proc Z :=
  match v with
  | Ptr p => on_memory (x ← load (option Z) p; match x with Some z => mret z | None => fail Uninit end)
  | PTHREAD_CANCELED => act (fail Segv)
  end.
Definition main : prog proc unit :=
  print (Text "Hello from main!");;
  create_join (λ resultPtr,
    z ← deref resultPtr;
    print (Int "pthread_join() returned" z)).
End P2b.

Module P2c.
Definition RESULT : list Z := lit "hello world".
Definition mythread (arg : ptr) : prog proc value :=
  print (Text "Hello from mythread!");;
  result ← on_memory (malloc chars (replicate (length RESULT) None));
  on_memory (sprintf result RESULT);;
  mret (Ptr result).
Definition main : prog proc unit :=
  print (Text "Hello from main!");;
  create_join (λ resultPtr,
    match resultPtr with
    | Ptr p => s ← on_memory (read_string p); print (Str "pthread_join() returned" s)
    | PTHREAD_CANCELED => act (fail Segv)
    end).
End P2c.

(** * Threads that nobody joins *)

Module P2d.
Definition mythread (arg : ptr) : prog proc value :=
  print (Text "Hello from mythread!");; mret NULLV.
Definition main : prog proc unit :=
  print (Text "Hello from main!");;
  Loop (λ _ : unit,
    r ← act (pthread_create false NULL);
    mret (if decide (fst r ≠ 0) then inr tt else inl tt)) tt
  (λ _, exit_process EXIT_FAILURE).
End P2d.

Module P2e.
Definition mythread (arg : ptr) : prog proc value :=
  print (Text "Hello from mythread!");; mret NULLV.
Definition main : prog proc unit :=
  print (Text "Hello from main!");;
  Loop (λ _ : unit,
    r ← act (pthread_create false NULL);
    if decide (fst r ≠ 0) then mret (inr tt) else
    t ← initialised (snd r);
    act (pthread_detach t);;
    mret (inl tt)) tt
  (λ _, exit_process EXIT_FAILURE).
End P2e.

Module P2f.
Definition mythread (arg : ptr) : prog proc value :=
  print (Text "Hello from mythread!");; mret NULLV.
Definition main : prog proc unit :=
  print (Text "Hello from main!");;
  Loop (λ _ : unit,
    r ← act (pthread_create true NULL);
    mret (if decide (fst r ≠ 0) then inr tt else inl tt)) tt
  (λ _, exit_process EXIT_FAILURE).
End P2f.

(** * Threads that are handed data *)

Module P3a.
Definition mythread (arg : ptr) : prog proc value :=
  print (Text "Hello from mythread!");;
  data ← on_memory (load data_t arg);
  _ ← sleep;
  m ← on_memory (written_field message data);
  s ← on_memory (read_string m);
  n ← on_memory (written_field number data);
  print (Str "data" s);;
  print (Int "" n);;
  mret NULLV.
(** [data] is an automatic variable: [pthread_exit] is its end, and nothing of
    [main] runs after it. *)
Definition pthread_exit (data : ptr) : prog proc unit := on_memory (free data_t data).
Definition main : prog proc unit :=
  data ← on_memory (new_cell (Data None None));
  on_memory (update data_t data (λ d, Data (Some 10) (message d)));;
  m ← on_memory (malloc chars (replicate 20 None));
  on_memory (update data_t data (λ d, Data (number d) (Some m)));;
  m ← on_memory (field message data);
  on_memory (strcpy m (lit "hello world"));;
  print (Text "Hello from main!");;
  r ← act (pthread_create true data);
  if decide (fst r ≠ 0) then exit_process (-1) else
  pthread_exit data.
End P3a.

Module P3b.
Definition mythread (arg : ptr) : prog proc value :=
  print (Text "Hello from mythread!");;
  m ← on_memory (field message arg);
  s ← on_memory (read_string m);
  n ← on_memory (field number arg);
  print (Str "data" s);;
  print (Int "" n);;
  m ← on_memory (field message arg);
  on_memory (free chars m);;
  on_memory (free data_t arg);;
  mret NULLV.
Definition main : prog proc unit :=
  data ← on_memory (malloc data_t (Data None None));
  on_memory (update data_t data (λ d, Data (Some 10) (message d)));;
  m ← on_memory (malloc chars (replicate 20 None));
  on_memory (update data_t data (λ d, Data (number d) (Some m)));;
  m ← on_memory (field message data);
  on_memory (strcpy m (lit "hello world"));;
  print (Text "Hello from main!");;
  r ← act (pthread_create true data);
  if decide (fst r ≠ 0) then exit_process (-1) else mret tt.
End P3b.

(** * Threads that are cancelled *)

(** The end of [main] in each *)
Definition cancel_and_join (t : nat) : prog proc unit :=
  act (pthread_cancel t);;
  _ ← act (pthread_join t);
  exit_process 0.
Definition create_and_cancel : prog proc unit :=
  print (Text "Hello from main!");;
  r ← act (pthread_create false NULL);
  if decide (fst r ≠ 0) then exit_process (-1) else
  t ← initialised (snd r);
  cancel_and_join t.

Module P4a.
Definition mythread (arg : ptr) : prog proc value :=
  Loop (λ _ : unit,
    print (Text "Hello from mythread!");;
    c ← sleep;
    mret (if (c : bool) then inr PTHREAD_CANCELED else inl tt)) tt Ret.
Definition main : prog proc unit := create_and_cancel.
End P4a.

Module P4b.
(** With [PTHREAD_CANCEL_ASYNCHRONOUS] the thread may be cancelled between any
    two instructions. *)
Definition mythread (arg : ptr) : prog proc value :=
  Loop (λ cnt : Z,
    c ← act cancel_requested;
    if (c : bool) then mret (inr PTHREAD_CANCELED) else
    cnt ← act (signed_add INT_MAX cnt 1);
    mret (inl cnt)) 0 Ret.
Definition main : prog proc unit := create_and_cancel.
End P4b.

Module P4c.
Definition myfree (arg : ptr) : prog proc unit :=
  on_memory (free chars arg);; print (Text "cleanup func").
(** [pthread_cleanup_push] is given the value [msg] has when it is called; the
    handler runs when the thread is cancelled. *)
Definition mythread (pthread_self : nat → Z) (arg : ptr) : prog proc value :=
  let msg := NULL in
  let handler := myfree msg in
  msg ← on_memory (malloc chars (replicate 1024 None));
  t ← act self;
  on_memory (sprintf msg (lit "Hello from thread " ++ print_dec (u64 (pthread_self t))));;
  Loop (λ _ : unit,
    s ← on_memory (read_string msg);
    print (Str "" s);;
    c ← sleep;
    if (c : bool) then handler;; mret (inr PTHREAD_CANCELED) else mret (inl tt)) tt Ret.
(** The failure of [pthread_create] is a positive number, never [-1]. *)
Definition main : prog proc unit :=
  print (Text "Hello from main!");;
  r ← act (pthread_create false NULL);
  if decide (fst r = -1) then exit_process (-1) else
  t ← initialised (snd r);
  cancel_and_join t.
End P4c.
