(* ===== verification/ForkJoin.v ===== *)
(** ForkJoin: the programs of lab1/src/1 and lab1/src/2/a.c, whose threads are all
    created and then joined. *)
From S2P Require Import Prelude Threads Process Lab1.
#[local] Open Scope Z_scope.

(** * The invariant *)

Section fork_join.
(** Room for [L] threads; [main] creates [N] and fails with [failure]; [global] is
    [init] at first, and every thread increments it if [counts]. *)
Context (L N : nat) (init failure : Z) (counts : bool).
Context (init_ok : 0 <= init ∧ init + Z.of_nat N <= INT_MAX).
Implicit Types (s : proc).

Record fj_inv s : Prop := {
  fi_new j th : slots s !! j = Some th → (created s ≤ j)%nat → state th = Unused;
  fi_attached j th : slots s !! j = Some th → detached th = false;
  fi_written j : j ∈ written (memory s) → (j < created s)%nat ∧ ∀ arg, state_of s j ≠ Some (Created arg);
  fi_low : init ≤ global (memory s) ∧ (written (memory s) ≠ ∅ → init + 1 ≤ global (memory s));
  fi_high : global (memory s) ≤ init + Z.of_nat (size (written (memory s)));
  fi_ended j st : counts = true → (j < created s)%nat → state_of s j = Some st → ¬ busy st → j ∈ written (memory s);
  fi_created : (created s ≤ N)%nat ∧ (created s ≤ L)%nat;
  fi_result r : result s = Some r →
    r = EXIT_SUCCESS ∧ created s = N ∧ (∀ j th, slots s !! j = Some th → state th = Unused) ∨
    r = failure ∧ created s = L ∧ (L < N)%nat;
}.

Definition fj_rely (i : nat) s s' : Prop :=
  written (memory s) ⊆ written (memory s') ∧ (i ∈ written (memory s') → i ∈ written (memory s)).

Lemma fj_rely_refl i s : fj_rely i s s.
Proof. by split. Qed.
Lemma fj_rely_trans i s1 s2 s3 : fj_rely i s1 s2 → fj_rely i s2 s3 → fj_rely i s1 s3.
Proof. intros [A B] [A' B']. split; [by etrans|auto]. Qed.

Definition fj_rg : RG proc := process_rg L fj_inv fj_rely (λ _, False) fj_rely_refl fj_rely_trans.
#[local] Existing Instance fj_rg.
Abbreviation inv := (process_inv L fj_inv).
Abbreviation rely := (process_rely L fj_rely).

(** A step that leaves the threads and [global] as they are *)
Definition calm s s' : Prop :=
  slots s' = slots s ∧ created s' = created s ∧ result s' = result s ∧
  global (memory s') = global (memory s) ∧ written (memory s') = written (memory s).

Lemma calm_inv s s' : calm s s' → fj_inv s → fj_inv s'.
Proof.
  intros (E1 & E2 & E3 & E4 & E5) []. split; unfold state_of in *; rewrite ?E1, ?E2, ?E3, ?E4, ?E5; auto.
Qed.
Lemma calm_rely i s s' : calm s s' → fj_rely i s s'.
Proof. intros (_ & _ & _ & _ & E). unfold fj_rely. by rewrite E. Qed.

(** * The threads *)

(** A running thread that has stored to [global], or has not *)
Definition own (b : bool) (i : nat) s : Prop :=
  state_of s i = Some Running ∧ (i ∈ written (memory s) ↔ b = true).

Lemma own_stable b i s s' : (i < L)%nat → own b i s → rely i s s' → own b i s'.
Proof.
  intros Hi [Hr Hw] HR. split; [by eapply (running_stable L)|]. destruct HR as (_ & _ & A & B). rewrite <-Hw.
  split; auto.
Qed.

(** A running thread that has not stored yet: fewer have stored than there are. *)
Lemma own_unwritten i s : fj_inv s → own false i s →
  (i ∉ written (memory s)) ∧ (i < created s)%nat ∧ (size (written (memory s)) < created s)%nat.
Proof.
  intros HI [Hr Hw]. assert (i ∉ written (memory s)) as Hi by (rewrite Hw; done). split; [done|].
  assert (i < created s)%nat as Hc.
  { apply fmap_Some in Hr as (th & Hth & Hst). destruct (decide (created s ≤ i)%nat) as [Hle|]; [|lia].
    by rewrite (fi_new _ HI i th Hth Hle) in Hst. }
  split; [done|]. rewrite <-(size_set_seq (C:=gset nat) 0 (created s)). apply subset_size. split.
  - intros j Hj. apply elem_of_set_seq. pose proof (fi_written _ HI j Hj). lia.
  - intros Hsub. apply Hi, Hsub, elem_of_set_seq. lia.
Qed.

Lemma fj_print_safe n i x k s b : (i < L)%nat → own b i s →
  (∀ m s', (m ≤ n)%nat → own b i s' → safe m i (k tt) s') → safe n i (pbind (print x) k) s.
Proof.
  intros Hi Hown Hk. destruct n as [|n]; [done|]. apply safe_memory. intros s1 HI HR _. simpl.
  match goal with |- context [set_memory ?m s1] => assert (calm s1 (set_memory m s1)) as Hc by done end.
  split; [eapply calm_inv; [done|apply HI]|]. split; [intros j _; by apply calm_rely|].
  apply Hk; [lia|]. by apply (own_stable b i s s1) in Hown.
Qed.

Lemma load_global_safe n i k s b : (i < L)%nat → own b i s →
  (∀ m s', (m ≤ n)%nat → own b i s' → init ≤ global (memory s') ≤ init + Z.of_nat (size (written (memory s'))) →
     inv s' → safe m i (k (global (memory s'))) s') →
  safe n i (pbind load_global k) s.
Proof.
  intros Hi Hown Hk. destruct n as [|n]; [done|]. apply safe_memory. intros s1 HI HR _. simpl.
  assert (set_memory (memory s1) s1 = s1) as -> by (by destruct s1).
  split; [apply HI|]. split; [intros j _; apply fj_rely_refl|]. destruct HI as [HL HI]. pose proof HI as HI2. destruct HI2.
  apply Hk; [lia|by apply (own_stable b i s s1) in Hown|naive_solver|done].
Qed.

(** The load, the addition and the store of [global++], between which other
    threads run *)
Lemma store_global_inv i g s (s' := set_memory (Shared g (ints (memory s)) (arrays (memory s)) (datas (memory s))
    (answers (memory s)) (stdout (memory s)) ({[i]} ∪ written (memory s))) s) :
  fj_inv s → own false i s → init + 1 ≤ g ≤ init + Z.of_nat (size (written (memory s))) + 1 → fj_inv s'.
Proof.
  intros HI Hown Hg. destruct (own_unwritten _ _ HI Hown) as (Hi & Hc & _). destruct Hown as [Hrun _].
  destruct HI as [A B D E F H]. split; try done; simpl.
  - intros j [Hj%elem_of_singleton|Hj]%elem_of_union; [|by apply D]. subst j. split; [done|]. intros arg. change (state_of s i ≠ Some (Created arg)). by rewrite Hrun.
  - lia.
  - rewrite size_union, size_singleton by set_solver. lia.
  - intros j st Hcn Hj Hst Hb. apply elem_of_union_r. by eapply H.
Qed.

Lemma incr_global_safe n i k s : (i < L)%nat → own false i s →
  (∀ m s', (m ≤ n)%nat → own true i s' → safe m i (k tt) s') → safe n i (pbind incr_global k) s.
Proof.
  intros Hi Hown Hk. unfold incr_global, mbind, prog_bind. rewrite pbind_assoc.
  apply load_global_safe with false; [done..|]. intros m s1 Hm Hown1 Hg HI1. rewrite pbind_assoc.
  destruct m as [|m]; [done|]. apply safe_live. intros s2 HI2 HR2 _.
  assert (own false i s2) as Hown2 by by eapply own_stable.
  pose proof HI2 as [_ HJ2]. destruct (own_unwritten _ _ HJ2 Hown2) as (_ & _ & Hsz). destruct (fi_created _ HJ2).
  assert (size (written (memory s1)) ≤ size (written (memory s2)))%nat as Hle by (apply subseteq_size; apply HR2).
  unfold signed_add. unfold INT_MAX in *. rewrite decide_True by lia.
  split; [done|]. split; [intros j _; apply slots_rely_refl, fj_rely_refl|].
  destruct m as [|m]; [done|]. apply safe_memory. intros s3 HI3 HR3 _. cbv beta.
  assert (own false i s3) as Hown3 by by eapply own_stable.
  assert (size (written (memory s2)) ≤ size (written (memory s3)))%nat as Hle3 by (apply subseteq_size; apply HR3).
  split; [apply store_global_inv; [apply HI3|done|lia]|]. split.
  - intros j Hj. split; simpl; set_solver.
  - apply Hk; [lia|]. destruct Hown3 as [Hrun _]. split; [done|]. simpl. set_solver.
Qed.

Lemma state_insert i j th s : (i < length (slots s))%nat →
  state_of (set_slots (<[i := th]> (slots s)) s) j = if decide (i = j) then Some (state th) else state_of s j.
Proof.
  intros Hi. unfold state_of. simpl. case_decide as E; [subst j; by rewrite list_lookup_insert_eq|].
  by rewrite list_lookup_insert_ne.
Qed.

(** A thread begins or ends. *)
Lemma fj_set_slot_inv i th th' s : fj_inv s → result s = None → slots s !! i = Some th → busy (state th) →
  detached th' = false → (∀ arg, state th' ≠ Created arg) →
  (counts = true → ¬ busy (state th') → i ∈ written (memory s)) →
  fj_inv (set_slots (<[i := th']> (slots s)) s).
Proof.
  intros HI Hr Hth Hb Hd Hc Hw. assert (i < length (slots s))%nat as Hi by by eapply lookup_lt_Some.
  assert (i < created s)%nat as Hic.
  { destruct (decide (created s ≤ i)%nat) as [Hle|]; [|lia]. by rewrite (fi_new _ HI i th Hth Hle) in Hb. }
  destruct HI as [A B D E F H K Z]. split; simpl in *; try done.
  - intros j th1 [(<- & -> & _)|[_ Hj]]%list_lookup_insert_Some Hle; [lia|by eapply A].
  - intros j th1 [(<- & -> & _)|[_ Hj]]%list_lookup_insert_Some; [done|by eapply B].
  - intros j Hj. split; [by apply D|]. intros arg. rewrite state_insert by done. case_decide; [intros [=]; by eapply Hc|by apply D].
  - intros j st Hcn Hj. rewrite state_insert by done. case_decide as E2; [subst j|by eauto]. intros [= <-] Hbz. auto.
  - intros r Hr'. congruence.
Qed.

(** What a start routine has to do for this *)
Definition body_safe (start : ptr → prog proc value) : Prop := ∀ n i s arg k, (i < L)%nat → own false i s →
  (∀ m v s' b, (m ≤ n)%nat → (counts = true → b = true) → own b i s' → safe m i (k v) s') →
  safe n i (pbind (start arg) k) s.

Lemma fj_slot_safe start n i s : body_safe start → (i < L)%nat → state_of s i ≠ Some Running →
  safe n i (thread_slot start) s.
Proof.
  intros Hstart Hi. apply (thread_slot_safe L fj_inv fj_rely (λ _, False) fj_rely_refl fj_rely_trans start i Hi
    (λ _, own false i) (λ _ s, counts = true → i ∈ written (memory s))).
  - intros s1 arg th [HL HI] Hr Hth Hst. assert (fj_inv (begun i th s1)) as HI'.
    { eapply fj_set_slot_inv; try done; [by rewrite Hst|exact (fi_attached _ HI i th Hth)]. }
    split; [done|]. split; [intros j _; by split|].
    split; [unfold begun; rewrite state_insert, decide_True by (try done; by eapply lookup_lt_Some); done|].
    split; [|done]. intros Hw. apply (fi_written _ HI) in Hw as [_ Hw]. unfold state_of in Hw. rewrite Hth in Hw. simpl in Hw. exfalso. apply (Hw arg). by rewrite Hst.
  - intros s1 v th [HL HI] Hr Hth Hst Hpost. split; [|intros j _; by split].
    pose proof (fi_attached _ HI i th Hth) as Hd. unfold ended. rewrite Hd.
    eapply fj_set_slot_inv; try done; [by rewrite Hst|by auto].
  - intros v s1 s2 Hw (_ & _ & HR & _) _ Hc. apply HR. auto.
  - intros m s1 arg k Hown Hrun Hk. apply Hstart; [done..|]. intros m' v s2 b Hm Hb [Hrun2 Hw2].
    apply Hk; [done| |done]. intros Hc. apply Hw2. auto.
Qed.

(** * [main] *)

(** [main] has created the first [i] threads and joined none. *)
Definition creating (i : nat) s : Prop :=
  result s = None ∧ created s = i ∧ ∀ j, (j < i)%nat → state_of s j ≠ Some Unused.
(** It has created all and joined the first [i]. *)
Definition joining (i : nat) s : Prop :=
  result s = None ∧ created s = N ∧ (∀ j, (i ≤ j < N)%nat → state_of s j ≠ Some Unused) ∧
  ∀ j, (j < i)%nat → state_of s j = Some Unused.

Lemma fj_main_unused j s s' : fj_inv s → main_kept s s' → (state_of s' j = Some Unused ↔ state_of s j = Some Unused).
Proof.
  intros HI (_ & _ & Hall). unfold state_of. rewrite Forall2_lookup in Hall. specialize (Hall j).
  destruct (slots s !! j) as [th|] eqn:Hth; inversion Hall as [th1 th2 [Ha [Hb _]]|]; simplify_eq; [|done]. simpl.
  split; intros [= Hu].
  - destruct (Hb (fi_attached _ HI j th Hth)) as [_ Hb']. f_equal. by apply Hb'.
  - rewrite Ha, Hu; [done|]. rewrite Hu. by intros [].
Qed.
Lemma creating_stable i s s' : fj_inv s → creating i s → rely L s s' → creating i s'.
Proof.
  intros HI (Hr & Hc & Hu) (_ & HR & _). specialize (HR eq_refl). pose proof HR as (Hr' & Hc' & _).
  split; [by rewrite Hr'|]. split; [by rewrite Hc'|]. intros j Hj. rewrite fj_main_unused by done. by apply Hu.
Qed.
Lemma joining_stable i s s' : fj_inv s → joining i s → rely L s s' → joining i s'.
Proof.
  intros HI (Hr & Hc & Hu & Hd) (_ & HR & _). specialize (HR eq_refl). pose proof HR as (Hr' & Hc' & _).
  split; [by rewrite Hr'|]. split; [by rewrite Hc'|]. split; intros j Hj; rewrite fj_main_unused by done; auto.
Qed.

(** The next thread gets the slot after those of the first ones. *)
Lemma first_unused_created i s : inv s → creating i s →
  first_unused s = if decide (i < L)%nat then Some i else None.
Proof.
  intros [HL HI] (_ & Hc & Hu). unfold first_unused.
  destruct (list_find _ _) as [[t th]|] eqn:E; simpl.
  - apply list_find_Some in E as (Ht & Hst & Hmin). assert (t < L)%nat by (rewrite <-HL; by eapply lookup_lt_Some).
    assert (i ≤ t)%nat.
    { destruct (decide (t < i)%nat) as [Hlt|]; [|lia]. exfalso. apply (Hu t Hlt). unfold state_of. rewrite Ht. simpl. by rewrite Hst. }
    rewrite decide_True by lia. f_equal. destruct (decide (i = t)) as [|Hne]; [done|]. exfalso.
    destruct (lookup_lt_is_Some_2 (slots s) i) as [th' Hth']; [lia|].
    apply (Hmin i th'); [done|lia|]. eapply fi_new; [done..|lia].
  - rewrite decide_False; [done|]. intros Hi. apply list_find_None in E. rewrite Forall_lookup in E.
    destruct (lookup_lt_is_Some_2 (slots s) i) as [th' Hth']; [lia|].
    apply (E i th' Hth'). eapply fi_new; [done..|lia].
Qed.

Lemma fj_create_safe n k s i : creating i s → fj_inv s → (i < N)%nat →
  (∀ m s', (m ≤ n)%nat → creating (i + 1) s' → fj_inv s' → safe m L (k (0, Some i)) s') →
  (∀ m s', (m ≤ n)%nat → creating i s' → fj_inv s' → i = L → safe m L (k (EAGAIN, None)) s') →
  safe n L (pbind (act (pthread_create false NULL)) k) s.
Proof.
  intros Hcr HI Hi Hk Hfail. destruct n as [|n]; [done|]. apply safe_create. intros s1 HI1 HR1 Hr1.
  pose proof (creating_stable _ _ _ HI Hcr HR1) as Hcr1. rewrite (first_unused_created i) by done.
  pose proof (fi_created _ (proj2 HI1)) as [_ HcL]. destruct Hcr1 as (_ & Hc1 & Hu1).
  case_decide as HiL; [|apply Hfail; [lia|done|apply HI1|lia]].
  assert (i < length (slots s1))%nat as Hlen by (by rewrite (proj1 HI1)).
  assert (fj_inv (with_thread i false NULL s1)) as HI'.
  { destruct HI1 as [HL [A B D E F H K Z]]. split; simpl in *; try done.
    - intros j th1 [(<- & <- & _)|[_ Hj]]%list_lookup_insert_Some Hle; [lia|]. eapply A; [done|lia].
    - intros j th1 [(<- & <- & _)|[_ Hj]]%list_lookup_insert_Some; [done|by eapply B].
    - intros j Hj. destruct (D j Hj) as [Hjc Hs]. split; [lia|]. intros arg. unfold state_of in *. simpl.
      rewrite list_lookup_insert_ne by lia. apply Hs.
    - intros j st Hcn Hj. unfold state_of in *. simpl. destruct (decide (i = j)) as [<-|Hne].
      + rewrite list_lookup_insert_eq by done. simpl. intros [= <-]. by intros [].
      + rewrite list_lookup_insert_ne by done. apply H; [done|lia].
    - lia.
    - congruence. }
  split; [done|]. split; [intros j _; by split|]. apply Hk; [lia| |done].
  split; [done|]. split; [simpl; lia|]. intros j Hj. unfold state_of in *. simpl.
  destruct (decide (i = j)) as [<-|Hne]; [by rewrite list_lookup_insert_eq|].
  rewrite list_lookup_insert_ne by done. apply Hu1. lia.
Qed.

Lemma fj_join_safe n k s i : joining i s → fj_inv s → (i < N)%nat →
  (∀ m v s', (m ≤ n)%nat → joining (i + 1) s' → fj_inv s' → safe m L (k (0, v)) s') →
  safe n L (pbind (act (pthread_join i)) k) s.
Proof.
  intros Hj HI Hi Hk. destruct n as [|n]; [done|]. apply safe_pthread_join. intros s1 HI1 HR1 Hr1.
  pose proof (joining_stable _ _ _ HI Hj HR1) as (_ & Hc1 & Hu1 & Hd1). destruct HI1 as [HL HI1].
  pose proof (fi_created _ HI1) as [_ HcL].
  destruct (lookup_lt_is_Some_2 (slots s1) i) as [th Hth]; [lia|]. exists th. split; [done|].
  split; [by eapply fi_attached|]. split.
  { intros Hst. apply (Hu1 i); [lia|]. unfold state_of. rewrite Hth. simpl. by rewrite Hst. }
  intros v Hst. assert (i < length (slots s1))%nat as Hlen by lia.
  assert (fj_inv (without_thread i s1)) as HI'.
  { destruct HI1 as [A B D E F H K Z]. split; simpl in *; try done.
    - intros j th1 [(<- & <- & _)|[_ Hj']]%list_lookup_insert_Some Hle; [done|by eapply A].
    - intros j th1 [(<- & <- & _)|[_ Hj']]%list_lookup_insert_Some; [done|by eapply B].
    - intros j Hw. split; [by apply D|]. intros arg. unfold without_thread. rewrite state_insert by done. case_decide; [done|by apply D].
    - intros j st Hcn Hjc. unfold without_thread. rewrite state_insert by done. case_decide as E2; [|by eauto]. subst j. intros _ _.
      apply (H i (state th)); [done|lia|unfold state_of; by rewrite Hth|]. rewrite Hst. by intros [].
    - congruence. }
  split; [done|]. split; [intros j _; by split|]. apply Hk; [lia| |done].
  split; [done|]. split; [done|]. unfold without_thread.
  split; intros j Hjr; rewrite state_insert by done; case_decide; [lia|apply Hu1; lia|done|apply Hd1; lia].
Qed.

Lemma attempt_safe {B} n (m : C proc B) b k s (Q : proc → Prop) :
  (∀ t s, m t s = Ok b s) → fj_inv s → Q s → (∀ s s', fj_inv s → Q s → rely L s s' → Q s') →
  (∀ m s', (m ≤ n)%nat → Q s' → fj_inv s' → safe m L (k b) s') → safe n L (pbind (act m) k) s.
Proof.
  intros Hm HI HQ Hst Hk. destruct n as [|n]; [done|]. apply safe_live. intros s1 HI1 HR1 _. rewrite Hm.
  split; [done|]. split; [intros j _; apply slots_rely_refl, fj_rely_refl|]. apply Hk; [lia|by eapply Hst|apply HI1].
Qed.

Definition all_tids (tids : list (option nat)) : Prop :=
  length tids = N ∧ ∀ j, (j < N)%nat → tids !! j = Some (Some j).

Lemma create_all_safe n k s : fj_inv s → creating 0 s →
  (∀ m s' tids, (m ≤ n)%nat → creating N s' → fj_inv s' → all_tids tids → safe m L (k (Some tids)) s') →
  (∀ m s', (m ≤ n)%nat → creating L s' → fj_inv s' → (L < N)%nat → safe m L (k None) s') →
  safe n L (pbind (create_all N) k) s.
Proof.
  intros HI Hcr Hk Hfail. unfold create_all. cbn [pbind].
  apply (safe_loop (λ '(i, tids) s, fj_inv s ∧ creating i s ∧ (i ≤ N)%nat ∧ length tids = N ∧
    ∀ j, (j < i)%nat → tids !! j = Some (Some j))).
  - intros [i tids] s1 s2 (H1 & H2 & ?) HR [_ HI2]. split; [done|]. split; [exact (creating_stable _ _ _ H1 H2 HR)|done].
  - clear s HI Hcr. intros n' [i tids] s Hn (HI & Hcr & Hi & Hlen & Ht) Hloop. case_decide as HiN.
    2:{ assert (i = N) as -> by lia. apply Hk; [lia|done..]. }
    unfold mbind, prog_bind. rewrite pbind_assoc. eapply fj_create_safe; [done..| |].
    + intros m s1 Hm Hcr1 HI1. cbn [fst snd]. rewrite decide_False by (intros Hz; by apply Hz). rewrite pbind_assoc.
      destruct (lookup_lt_is_Some_2 tids i) as [x Hx]; [lia|]. unfold array_get. rewrite Hx.
      eapply (attempt_safe m _ x _ _ (creating (i + 1))); [done..|exact (creating_stable _)|].
      intros m' s2 Hm' Hcr2 HI2. apply Hloop; [lia|]. split; [done|]. split; [done|]. split; [lia|].
      rewrite length_insert. split; [done|]. intros j Hj. destruct (decide (i = j)) as [<-|Hne].
      * rewrite list_lookup_insert_eq by lia. done.
      * rewrite list_lookup_insert_ne by done. apply Ht. lia.
    + intros m s1 Hm Hcr1 HI1 ->. cbn [fst snd]. rewrite decide_True by done. apply Hfail; [lia|done..].
  - split; [done|]. split; [done|]. split; [lia|]. rewrite length_replicate. split; [done|]. lia.
Qed.

Lemma join_all_safe n k s tids : fj_inv s → joining 0 s → all_tids tids →
  (∀ m s', (m ≤ n)%nat → joining N s' → fj_inv s' → safe m L (k true) s') →
  safe n L (pbind (join_all N tids) k) s.
Proof.
  intros HI Hj [Hlen Ht] Hk. unfold join_all. cbn [pbind].
  apply (safe_loop (λ i s, fj_inv s ∧ joining i s ∧ (i ≤ N)%nat)).
  - intros i s1 s2 (H1 & H2 & ?) HR [_ HI2]. split; [done|]. split; [exact (joining_stable _ _ _ H1 H2 HR)|done].
  - clear s HI Hj. intros n' i s Hn (HI & Hj & Hi) Hloop. case_decide as HiN.
    2:{ assert (i = N) as -> by lia. apply Hk; [lia|done..]. }
    unfold mbind, prog_bind. rewrite pbind_assoc. unfold array_get. rewrite (Ht i HiN).
    eapply (attempt_safe n' _ (Some i) _ _ (joining i)); [done..|exact (joining_stable _)|].
    intros m s1 Hm Hj1 HI1. cbn [initialised]. rewrite pbind_assoc. eapply fj_join_safe; [done..|].
    intros m' v s2 Hm' Hj2 HI2. cbn [fst snd pbind]. rewrite decide_False by (intros Hz; by apply Hz).
    apply Hloop; [lia|]. split; [done|]. split; [done|lia].
  - split; [done|]. split; [done|lia].
Qed.

Lemma joined_exit_safe n s : fj_inv s → joining N s → safe n L (exit_process EXIT_SUCCESS) s.
Proof.
  intros HI Hj. apply safe_exit. intros s1 HI1 HR1 Hr1. split; [|intros j _; by split].
  pose proof (joining_stable _ _ _ HI Hj HR1) as (_ & Hc & _ & Hd). destruct HI1 as [HL [A B D E F H K Z]].
  split; try done. simpl. intros r [= <-]. left. split; [done|]. split; [done|]. intros j th Hth.
  destruct (decide (j < N)%nat) as [HjN|HjN]; [|apply (A j); [done|lia]]. specialize (Hd j HjN).
  unfold state_of in Hd. rewrite Hth in Hd. by simplify_eq/=.
Qed.
Lemma fj_failed_exit_safe n s : fj_inv s → creating L s → (L < N)%nat → safe n L (exit_process failure) s.
Proof.
  intros HI Hcr HLN. apply safe_exit. intros s1 HI1 HR1 Hr1. split; [|intros j _; by split].
  pose proof (creating_stable _ _ _ HI Hcr HR1) as (_ & Hc & _). destruct HI1 as [HL [A B D E F H K Z]].
  split; try done. simpl. intros r [= <-]. by right.
Qed.

(** What [main] does before it creates threads, and after it has joined them *)
Definition quiet (Q : proc → Prop) (p : prog proc unit) : Prop := ∀ n k s, fj_inv s → Q s →
  (∀ m s', (m ≤ n)%nat → Q s' → fj_inv s' → safe m L (k tt) s') → safe n L (pbind p k) s.

Lemma create_and_join_safe n s (last : list (option nat) → prog proc unit) : fj_inv s → creating 0 s → failure = EXIT_FAILURE →
  (∀ tids, all_tids tids → quiet (joining N) (last tids)) → safe n L (create_and_join N last) s.
Proof.
  intros HI Hcr Hf Hlast. unfold create_and_join, mbind, prog_bind. apply create_all_safe; [done..| |].
  - intros m s1 tids Hm (Hr & Hc & Hu) HI1 Htids. apply join_all_safe; [done| |done|].
    + split; [done|]. split; [done|]. split; [|lia]. intros j Hj. apply Hu. lia.
    + intros m' s2 Hm' Hj2 HI2. cbn [pbind]. apply Hlast; [done..|]. intros m'' s3 _ Hj3 HI3. by apply joined_exit_safe.
  - intros m s1 Hm Hcr1 HI1 HLN. rewrite <-Hf. by apply fj_failed_exit_safe.
Qed.

Lemma create_join_safe n s : fj_inv s → creating 0 s → N = 1%nat → failure = -1 →
  safe n L (create_join (λ _, mret tt)) s.
Proof.
  intros HI Hcr HN Hf. unfold create_join, mbind, prog_bind. eapply fj_create_safe; [done..|lia| |].
  - intros m s1 Hm (Hr & Hc & Hu) HI1. cbn [fst snd initialised pbind]. rewrite decide_False by (intros Hz; by apply Hz).
    eapply (fj_join_safe _ _ _ 0); [|done|lia|].
    + split; [done|]. split; [lia|]. split; [|lia]. intros j Hj. apply Hu. lia.
    + intros m' v s2 Hm' Hj2 HI2. cbn [fst snd pbind]. rewrite decide_False by (intros Hz; by apply Hz).
      apply joined_exit_safe; [done|]. by rewrite HN.
  - intros m s1 Hm Hcr1 HI1 HL. cbn [fst snd]. rewrite decide_True by done. rewrite <-Hf, HL in *. apply fj_failed_exit_safe; [done..|lia].
Qed.

(** ** The start routines *)

Lemma own_attempt {B} n i (m : C proc B) b x k s : (i < L)%nat → own b i s →
  (∀ s, state_of s i = Some Running → m i s = Ok x s) →
  (∀ m s', (m ≤ n)%nat → own b i s' → safe m i (k x) s') → safe n i (pbind (act m) k) s.
Proof.
  intros Hi Hown Hm Hk. destruct n as [|n]; [done|]. apply safe_live. intros s1 HI1 HR1 _.
  assert (own b i s1) as Hown1 by by eapply own_stable. rewrite Hm by apply Hown1.
  split; [done|]. split; [intros j _; apply slots_rely_refl, fj_rely_refl|]. apply Hk; [lia|done].
Qed.

Lemma print_only x : counts = false → body_safe (λ _, print x;; mret NULLV).
Proof.
  intros Hc n i s arg k Hi Hown Hk. unfold mbind, prog_bind. rewrite pbind_assoc. apply fj_print_safe with false; [done..|].
  intros m s1 Hm Hown1. apply Hk with false; [done|by rewrite Hc|done].
Qed.
Lemma print_global_own_safe l n i b k s : (i < L)%nat → own b i s →
  (∀ m s', (m ≤ n)%nat → own b i s' → safe m i (k tt) s') →
  safe n i (pbind (g ← load_global; print (Int l g)) k) s.
Proof.
  intros Hi Hown Hk. unfold mbind, prog_bind. rewrite pbind_assoc. apply load_global_safe with b; [done..|].
  intros m s1 Hm Hown1 _ _. apply fj_print_safe with b; [done..|]. intros m' s2 Hm' Hown2. apply Hk; [lia|done].
Qed.
Lemma print_variables_safe n i x y b k s : (i < L)%nat → own b i s →
  (∀ m s', (m ≤ n)%nat → own b i s' → safe m i (k tt) s') → safe n i (pbind (print_variables x y) k) s.
Proof.
  intros Hi Hown Hk. unfold print_variables, mbind, prog_bind. do 3 (rewrite pbind_assoc; apply fj_print_safe with b; [done..|];
    clear dependent s; intros ? s ? Hown).
  eapply print_global_own_safe; [done..|]. intros m' s' Hm' Hown'. apply Hk; [lia|done].
Qed.
Lemma update_variables_safe n i x k s : (i < L)%nat → own false i s → -1200 ≤ x ≤ 1200 →
  (∀ m s', (m ≤ n)%nat → own true i s' → safe m i (k tt) s') → safe n i (pbind (update_variables x) k) s.
Proof.
  intros Hi Hown Hx Hk. unfold update_variables, mbind, prog_bind. rewrite pbind_assoc. apply fj_print_safe with false; [done..|].
  intros m1 s1 Hm1 Hown1. rewrite pbind_assoc. apply own_attempt with false (x + 1); [done..| |].
  { intros s' _. unfold signed_add, INT_MAX. by rewrite decide_True by lia. }
  intros m2 s2 Hm2 Hown2. rewrite pbind_assoc. apply incr_global_safe; [done..|]. intros m3 s3 Hm3 Hown3.
  rewrite pbind_assoc. apply fj_print_safe with true; [done..|]. intros m4 s4 Hm4 Hown4.
  apply print_global_own_safe with true; [done..|]. intros m5 s5 Hm5 Hown5. apply Hk; [lia|done].
Qed.

Lemma P1b_body : body_safe P1b.mythread.
Proof.
  intros n i s arg k Hi Hown Hk. unfold P1b.mythread, mbind, prog_bind. rewrite pbind_assoc.
  apply load_global_safe with false; [done..|]. intros m s1 Hm Hown1 _ _.
  rewrite pbind_assoc. apply fj_print_safe with false; [done..|]. intros m2 s2 Hm2 Hown2.
  rewrite pbind_assoc. apply incr_global_safe; [done..|]. intros m3 s3 Hm3 Hown3. apply Hk with true; [lia|done..].
Qed.
Lemma variables_bound z : -1200 ≤ 12 * Z.rem z 100 ≤ 1200.
Proof. pose proof (Z.rem_bound_abs z 100). lia. Qed.
Lemma P1c_2_body gettid : counts = false → body_safe (P1c_2.mythread gettid).
Proof.
  intros Hc n i s arg k Hi Hown Hk. unfold P1c_2.mythread, mbind, prog_bind. rewrite pbind_assoc.
  apply own_attempt with false i; [done..|]. intros m s1 Hm Hown1. cbv zeta. rewrite pbind_assoc.
  apply print_variables_safe with false; [done..|]. intros m2 s2 Hm2 Hown2. apply Hk with false; [lia|by rewrite Hc|done].
Qed.
Lemma P1d_body gettid : body_safe (P1d.mythread gettid).
Proof.
  intros n i s arg k Hi Hown Hk. unfold P1d.mythread, mbind, prog_bind. rewrite pbind_assoc.
  apply own_attempt with false i; [done..|]. intros m s1 Hm Hown1. cbv zeta. rewrite pbind_assoc.
  apply print_variables_safe with false; [done..|]. intros m2 s2 Hm2 Hown2. rewrite pbind_assoc.
  apply update_variables_safe; [done..|apply variables_bound|]. intros m3 s3 Hm3 Hown3. apply Hk with true; [lia|done..].
Qed.
Lemma P1e_body gettid : body_safe (P1e.mythread gettid).
Proof.
  intros n i s arg k Hi Hown Hk. unfold P1e.mythread, mbind, prog_bind. rewrite pbind_assoc.
  apply own_attempt with false i; [done..|]. intros m s1 Hm Hown1. cbv zeta. rewrite pbind_assoc.
  apply print_variables_safe with false; [done..|]. intros m2 s2 Hm2 Hown2. rewrite pbind_assoc.
  apply update_variables_safe; [done..|apply variables_bound|]. intros m3 s3 Hm3 Hown3.
  unfold sleep. rewrite pbind_assoc. destruct m3 as [|m3]; [done|]. apply safe_live. intros s4 HI4 HR4 _.
  assert (own true i s4) as Hown4 by by eapply own_stable. unfold cancel_requested.
  destruct Hown4 as [Hrun Hw]. pose proof Hrun as Hrun'. apply fmap_Some in Hrun' as (th & Hth & _). rewrite Hth.
  split; [done|]. split; [intros j _; apply slots_rely_refl, fj_rely_refl|]. apply Hk with true; [lia|done|by split].
Qed.

(** ** The rest of [main] *)

Lemma main_print_safe (Q : proc → Prop) x : (∀ s s', fj_inv s → Q s → rely L s s' → Q s') →
  (∀ s s', calm s s' → Q s → Q s') → quiet Q (print x).
Proof.
  intros Hst Hc n k s HI HQ Hk. destruct n as [|n]; [done|]. apply safe_memory. intros s1 HI1 HR1 _. simpl.
  match goal with |- context [set_memory ?m s1] => assert (calm s1 (set_memory m s1)) as Hcalm by done end.
  assert (fj_inv (set_memory (Shared (global (memory s1)) (ints (memory s1)) (arrays (memory s1)) (datas (memory s1))
    (answers (memory s1)) (stdout (memory s1) ++ [x]) (written (memory s1))) s1)) as HI' by (eapply calm_inv; [done|apply HI1]).
  split; [done|]. split; [intros j _; by apply calm_rely|]. apply Hk; [lia|eapply Hc; [done|by apply (Hst s s1)]|done].
Qed.
Lemma creating_calm i s s' : calm s s' → creating i s → creating i s'.
Proof. intros (E1 & E2 & E3 & _). unfold creating, state_of. by rewrite E1, E2, E3. Qed.
Lemma joining_calm i s s' : calm s s' → joining i s → joining i s'.
Proof. intros (E1 & E2 & E3 & _). unfold joining, state_of. by rewrite E1, E2, E3. Qed.

Lemma print_global_quiet : quiet (joining N) print_global.
Proof.
  intros n k s HI Hj Hk. unfold print_global, load_global, mbind, prog_bind. rewrite pbind_assoc.
  destruct n as [|n]; [done|]. apply safe_memory. intros s1 HI1 HR1 _. unfold gets. cbv beta iota.
  assert (set_memory (memory s1) s1 = s1) as -> by (by destruct s1).
  split; [apply HI1|]. split; [intros j _; apply fj_rely_refl|].
  apply (main_print_safe (joining N)); [exact (joining_stable N)|exact (joining_calm N)|apply HI1|by eapply joining_stable|].
  intros m s2 Hm. apply Hk. lia.
Qed.
Lemma nothing_quiet Q : quiet Q (mret tt).
Proof. intros n k s HI HQ Hk. by apply Hk. Qed.
Lemma print_tids_quiet tids : N = P1c_1.N → all_tids tids → quiet (joining N) (P1c_1.print_tids tids).
Proof.
  intros HN [Hlen Ht] n k s HI Hj Hk. unfold P1c_1.print_tids. rewrite <-HN. cbn [pbind].
  apply (safe_loop (λ (_ : nat) s, fj_inv s ∧ joining N s)); [| |done].
  - intros i s1 s2 [H1 H2] HR [_ HI2]. split; [done|exact (joining_stable _ _ _ H1 H2 HR)].
  - clear s HI Hj. intros n' i s Hn [HI Hj] Hloop. case_decide as HiN; [|apply Hk; [lia|done..]].
    unfold mbind, prog_bind. rewrite pbind_assoc. unfold array_get. rewrite (Ht i HiN).
    eapply (attempt_safe n' _ (Some i) _ _ (joining N)); [done..|exact (joining_stable _)|].
    intros m s1 Hm Hj1 HI1. cbn [initialised]. unfold mret, prog_ret. cbn [pbind]. rewrite pbind_assoc.
    apply (main_print_safe (joining N)); [exact (joining_stable N)|exact (joining_calm N)|done|done|].
    intros m2 s2 Hm2 Hj2 HI2. cbn [pbind]. apply Hloop; [lia|done].
Qed.
Lemma hello_safe n x s : fj_inv s → creating 0 s → N = 1%nat → failure = -1 →
  safe n L (print x;; create_join (λ _, mret tt)) s.
Proof.
  intros HI Hcr HN Hf. apply (main_print_safe (creating 0)); [exact (creating_stable 0)|exact (creating_calm 0)|done|done|].
  intros m s1 _ Hcr1 HI1. by apply create_join_safe.
Qed.

Lemma fj_initial : fj_inv (initial L (start_with init [])) ∧ creating 0 (initial L (start_with init [])).
Proof.
  split; [|split; [done|split; [done|intros j Hj; lia]]]. split; simpl; try done; try lia.
  - by intros j th [-> _]%lookup_replicate.
  - by intros j th [-> _]%lookup_replicate.
Qed.

Lemma fj_sound start main c : body_safe start → (∀ n, safe n L main (initial L (start_with init []))) → (0 < N)%nat →
  steps (initial L (start_with init []), program L start main) c →
  (∀ e, ¬ faulty c e) ∧ (stuck c → result (fst c) ≠ None) ∧
  ∀ r, result (fst c) = Some r →
    r = EXIT_SUCCESS ∧ created (fst c) = N ∧ Forall (λ th, state th = Unused) (slots (fst c)) ∧
      (counts = true → init + 1 ≤ global (memory (fst c)) ≤ init + Z.of_nat N) ∨
    r = failure ∧ (L < N)%nat.
Proof.
  intros Hstart Hmain HN Hsteps.
  destruct (process_sound L fj_inv fj_rely (λ _, False) fj_rely_refl fj_rely_trans start main (start_with init []) c)
    as ([HL HI] & Hf & Hst); [apply fj_initial|intros; by apply fj_slot_safe|done|done|].
  split; [done|]. split; [done|]. intros r Hr. destruct (fi_result _ HI r Hr) as [(-> & Hc & Hu)|(-> & _ & ?)]; [left|by right].
  split; [done|]. split; [done|]. split; [by apply Forall_lookup|]. intros Hcn.
  assert (∀ j, (j < N)%nat → j ∈ written (memory (fst c))) as Hall.
  { intros j Hj. destruct (lookup_lt_is_Some_2 (slots (fst c)) j) as [th Hth]; [destruct (fi_created _ HI); lia|].
    apply (fi_ended _ HI j (state th)); [done|lia|unfold state_of; by rewrite Hth|]. rewrite (Hu j th Hth). by intros []. }
  destruct (fi_low _ HI) as [_ Hlow]. split; [apply Hlow; specialize (Hall 0%nat HN); set_solver|].
  pose proof (fi_high _ HI). assert (size (written (memory (fst c))) ≤ N)%nat; [|lia].
  rewrite <-(size_set_seq (C:=gset nat) 0 N). apply subseteq_size. intros j Hj. apply elem_of_set_seq.
  pose proof (fi_written _ HI j Hj). lia.
Qed.
End fork_join.

(** * The programs *)

(** How many threads a program creates, what [global] is at first, what [main]
    returns when it cannot create them, and whether each increments [global] *)
Record joined := Joined {
  j_threads : nat; j_global : Z; j_failure : Z; j_counts : bool;
  j_start : ptr → prog proc value; j_main : prog proc unit }.
Definition joined_programs (gettid : nat → Z) : list joined :=
  [ Joined 1 0 (-1) false P1a.mythread P1a.main;
    Joined P1b.N 1 EXIT_FAILURE true P1b.mythread P1b.main;
    Joined P1c_1.N 0 EXIT_FAILURE false P1c_1.mythread P1c_1.main;
    Joined P1c_2.N 14 EXIT_FAILURE false (P1c_2.mythread gettid) P1c_2.main;
    Joined P1d.N 14 EXIT_FAILURE true (P1d.mythread gettid) P1d.main;
    Joined P1e.N 14 EXIT_FAILURE true (P1e.mythread gettid) P1e.main;
    Joined 1 0 (-1) false P2a.mythread P2a.main ].

(** C27: Each program of lab1/src/1, and lab1/src/2/a.c, with room for any number
    [L] of threads and in every interleaving: nothing undefined happens, and it
    does not stop before [main] returns. [main] returns success only when it has
    created all of its threads and each has ended and was joined; where threads
    increment [global] without a lock, increments may get lost, but between one
    and all of them count. It returns failure only when there is no room for its
    threads. *)
Theorem fork_join_correct (gettid : nat → Z) (p : joined) (L : nat) (c : config proc) : p ∈ joined_programs gettid →
  steps (initial L (start_with (j_global p) []), program L (j_start p) (j_main p)) c →
  (∀ e, ¬ faulty c e) ∧ (stuck c → result (fst c) ≠ None) ∧
  ∀ r, result (fst c) = Some r →
    r = EXIT_SUCCESS ∧ created (fst c) = j_threads p ∧ Forall (λ th, state th = Unused) (slots (fst c)) ∧
      (j_counts p = true → j_global p + 1 ≤ global (memory (fst c)) ≤ j_global p + Z.of_nat (j_threads p)) ∨
    r = j_failure p ∧ (L < j_threads p)%nat.
Proof.
  intros Hp. assert (0 <= j_global p ∧ j_global p + Z.of_nat (j_threads p) <= INT_MAX) as Hb.
  { unfold joined_programs in Hp. rewrite !elem_of_cons in Hp.
    destruct Hp as [->|[->|[->|[->|[->|[->|[->|[]%elem_of_nil]]]]]]]; vm_compute; split; congruence. }
  destruct (fj_initial L (j_threads p) (j_global p) (j_failure p) (j_counts p)) as [HI Hcr].
  unfold joined_programs in Hp. rewrite !elem_of_cons in Hp.
  destruct Hp as [->|[->|[->|[->|[->|[->|[->|[]%elem_of_nil]]]]]]]; apply fj_sound; try exact Hb; cbn [j_start j_main]; try (apply Nat.ltb_lt; reflexivity).
  - by apply print_only.
  - intros n. by apply hello_safe.
  - by apply P1b_body.
  - intros n. apply create_and_join_safe; try done. intros tids _. apply nothing_quiet.
  - by apply print_only.
  - intros n. apply create_and_join_safe; try done. intros tids Ht. by apply print_tids_quiet.
  - by apply P1c_2_body.
  - intros n. apply create_and_join_safe; try done. intros tids _. apply nothing_quiet.
  - by apply P1d_body.
  - intros n. apply create_and_join_safe; try done. intros tids _. apply print_global_quiet.
  - by apply P1e_body.
  - intros n. apply create_and_join_safe; try done. intros tids _. apply print_global_quiet.
  - by apply print_only.
  - intros n. by apply hello_safe.
Qed.

(** 1/d.c with room for its three threads *)
Definition P1d_config : config proc :=
  (initial 3 (start_with 14 []), program 3 (P1d.mythread Z.of_nat) P1d.main).
Definition P1d_ends (c : config proc) (z : Z) : Prop :=
  result (fst c) = Some EXIT_SUCCESS ∧ global (memory (fst c)) = z.

(** After 12 steps a thread has loaded [global] and not stored it. *)
Definition create_three : list nat := replicate 20 3%nat.
Definition up_to_store (i : nat) : list nat := replicate 12 i.
Definition to_the_end (i : nat) : list nat := replicate 30 i.

Lemma P1d_one_counts : ∃ c, steps P1d_config c ∧ P1d_ends c 15.
Proof.
  apply (run_schedule_ends (λ c, P1d_ends c _) (create_three ++ flat_map up_to_store [0; 1; 2]%nat ++ flat_map to_the_end [0; 1; 2; 3]%nat)).
  vm_compute. done.
Qed.

Example fork_join_correct_witness : ∃ c, steps P1d_config c ∧ result (fst c) = Some EXIT_SUCCESS ∧
  14 + 1 ≤ global (memory (fst c)) ≤ 14 + 3.
Proof.
  destruct P1d_one_counts as (c & Hs & Hr & _). exists c. split; [exact Hs|]. split; [exact Hr|].
  destruct (fork_join_correct Z.of_nat (Joined P1d.N 14 EXIT_FAILURE true (P1d.mythread Z.of_nat) P1d.main) 3 c)
    as (_ & _ & H); [unfold joined_programs; do 4 right; left|exact Hs|].
  destruct (H _ Hr) as [(_ & _ & _ & Hg)|[Hf _]]; [by apply Hg|discriminate].
Defined.

(** The increments of 1/d.c do get lost: it may end with any of the counts
    that [fork_join_correct] leaves, 15, 16 and 17. *)
Theorem lost_increments : ∀ z, 15 ≤ z ≤ 17 → ∃ c, steps P1d_config c ∧ P1d_ends c z.
Proof.
  intros z Hz. assert (z = 15 ∨ z = 16 ∨ z = 17) as [->|[->| ->] ] by lia.
  - apply P1d_one_counts.
  - apply (run_schedule_ends (λ c, P1d_ends c _) (create_three ++ flat_map up_to_store [0; 1]%nat ++ flat_map to_the_end [0; 1; 2; 3]%nat)). vm_compute. done.
  - apply (run_schedule_ends (λ c, P1d_ends c _) (create_three ++ flat_map to_the_end [0; 1; 2; 3]%nat)). vm_compute. done.
Qed.
Example lost_increments_witness : ∃ c, steps P1d_config c ∧ P1d_ends c 16.
Proof. apply (lost_increments 16). lia. Defined.
