(* ===== verification/Handover.v ===== *)
(** Handover: lab1/src/2/b.c, 2/c.c, 3/a.c and 3/b.c, in which one thread and
    [main] pass each other data. Their executions are finite, and [search] visits
    all of them. *)
From S2P Require Import Prelude CString Threads Process Lab1.
#[local] Open Scope Z_scope.

(** A program with room for [L] threads, and the answers of [malloc] *)
Definition one_thread (L : nat) (o : list bool) (mythread : ptr → prog proc value) (main : prog proc unit) : config proc :=
  (initial L (start_with 0 o), program L mythread main).

Definition P2b_config : nat → list bool → config proc := λ L o, one_thread L o P2b.mythread P2b.main.
Definition P2c_config : nat → list bool → config proc := λ L o, one_thread L o P2c.mythread P2c.main.
Definition P3a_config : nat → list bool → config proc := λ L o, one_thread L o P3a.mythread P3a.main.
Definition P3b_config : nat → list bool → config proc := λ L o, one_thread L o P3b.mythread P3b.main.

(** Every execution has fewer than [n] steps, runs into no fault, and ends in [P]. *)
Definition always_ends (n : nat) (c : config proc) (P : proc → Prop) : Prop :=
  ∀ k c', nsteps step k c c' → (k < n)%nat ∧ (∀ e, ¬ faulty c' e) ∧ (stuck c' → P (fst c')).
(** Every execution has fewer than [n] steps and ends with the fault [e]. *)
Definition always_faults (n : nat) (c : config proc) (e : fault) : Prop :=
  ∀ k c', nsteps step k c c' → (k < n)%nat ∧ (∀ e', faulty c' e' → e' = e) ∧ ¬ stuck c'.

Lemma search_ends n c (P : proc → Prop) `{∀ s, Decision (P s)} :
  search (λ _, true) (λ s, bool_decide (P s)) (λ _, false) n c = true → always_ends n c P.
Proof.
  intros Hs k c' Hk. destruct (search_sound _ _ _ n c Hs k c' Hk) as (Hn & _ & Hf & He).
  split; [done|]. split; [intros e Hfe; by specialize (Hf e Hfe)|]. intros Hst. by eapply bool_decide_eq_true_1, He.
Qed.
Ltac by_search :=
  lazymatch goal with |- always_ends ?n ?c ?P =>
    let D := constr:(ltac:(intros s; cbv beta; apply _) : ∀ s, Decision (P s)) in
    apply (search_ends n c P (H := D)); vm_compute; reflexivity
  end.

Lemma search_faults n c e : search (λ _, true) (λ _, false) (λ e', bool_decide (e' = e)) n c = true → always_faults n c e.
Proof.
  intros Hs k c' Hk. destruct (search_sound _ _ _ n c Hs k c' Hk) as (Hn & _ & Hf & He).
  split; [done|]. split; [intros e' Hfe; by apply (bool_decide_unpack _), Is_true_true, Hf|]. intros Hst. by specialize (He Hst).
Qed.

#[export] Instance item_eq_dec : EqDecision item.
Proof. solve_decision. Defined.
#[export] Instance data_eq_dec : EqDecision data_t.
Proof. solve_decision. Defined.

(** How many objects the program has on the heap; the automatic [data] of 3/a.c
    is among the [data_t]. *)
Definition objects (s : proc) : nat :=
  (size (cells (ints (memory s))) + size (cells (arrays (memory s))) + size (cells (datas (memory s))))%nat.

(** C30: What a thread returns, or is handed, arrives, in every interleaving: the
    main thread of 2/b.c prints the 42 of the thread it joins; the thread of
    3/b.c, which nobody waits for, prints the data [main] has allocated for it,
    and frees both objects, each once. Assumed: the thread can be created and
    malloc succeeds. *)
Theorem handover_correct :
  always_ends 40 (P2b_config 1 [])
    (λ s, result s = Some 0 ∧ last (stdout (memory s)) = Some (Int "pthread_join() returned" 42)) ∧
  always_ends 40 (P3b_config 1 [])
    (λ s, stdout (memory s) = Text "Hello from main!" :: Text "Hello from mythread!" ::
            [Str "data" (lit "hello world"); Int "" 10] ∧ objects s = 0%nat ∧ slots s = [unused]).
Proof. split; by_search. Qed.

(** C39: What the same programs, and 2/c.c and 3/a.c, get wrong, in every
    interleaving unless said otherwise. 2/c.c writes its string of 12 characters,
    the terminator included, to 11. 2/b.c and 3/b.c use what [malloc] returns when
    it fails. 3/a.c frees nothing, and in some interleavings its thread reads the
    [data] of [main] after [main] has ended, though it can also print it. 3/b.c
    keeps both objects when there is no room for the thread. *)
Theorem handover_hazards :
  always_faults 40 (P2c_config 1 []) OutOfBounds ∧
  always_faults 40 (P2b_config 1 [false]) Segv ∧
  always_faults 40 (P3b_config 1 [false]) Segv ∧ always_faults 40 (P3b_config 1 [true; false]) Segv ∧
  always_ends 40 (P3b_config 0 []) (λ s, result s = Some (-1) ∧ objects s = 2%nat) ∧
  (∃ c, steps (P3a_config 1 []) c ∧ faulty c Segv) ∧
  (∃ c, steps (P3a_config 1 []) c ∧ last (stdout (memory (fst c))) = Some (Int "" 10)) ∧
  ∀ c, steps (P3a_config 1 []) c → stuck c → size (cells (arrays (memory (fst c)))) = 1%nat.
Proof.
  split_and!; try (apply search_faults; vm_compute; reflexivity); try by_search.
  - assert (run_schedule (replicate 30 1 ++ replicate 20 0)%nat (P3a_config 1 []) = inr Segv) as E by (vm_compute; reflexivity).
    apply (run_schedule_faulty _ _ _ E).
  - apply (run_schedule_ends (λ c, last (stdout (memory (fst c))) = Some (Int "" 10)) (replicate 8 1 ++ replicate 20 0)%nat).
    vm_compute. reflexivity.
  - intros c [k Hk]%rtc_nsteps Hst.
    assert (search (λ _, true) (λ s, bool_decide (size (cells (arrays (memory s))) = 1%nat)) (λ _, true) 40 (P3a_config 1 []) = true)
      as Hs by (vm_compute; reflexivity).
    destruct (search_sound _ _ _ _ _ Hs k c Hk) as (_ & _ & _ & He).
    by eapply bool_decide_eq_true_1, He.
Qed.
