(* ===== verification/Cancellation.v ===== *)
(** Cancellation: what becomes of a thread of lab1/src/4 that is asked to
    terminate while [main] joins it: within a bounded number of its own steps it
    comes to a cancellation point and ends, so every execution is finite from
    there on. *)
From Stdlib Require Import Wellfounded.
From S2P Require Import Prelude CString Threads Process Lab1.
#[local] Open Scope nat_scope.

(** The thread has been asked to terminate. *)
Definition asked (s : proc) : Prop :=
  ∃ th, slots s !! 0 = Some th ∧ cancelled th = true ∧ detached th = false.

(** * Steps that leave the threads as they are *)

Definition quiet {A} (m : C proc A) : Prop := ∀ t s a s', m t s = Ok a s' →
  slots s' = slots s ∧ result s' = result s ∧ created s' = created s.

Lemma quiet_live {A} (m : C proc A) : quiet m → quiet (live m).
Proof. intros Hm t s a s'. unfold live. case_decide; [apply Hm|done]. Qed.
Lemma quiet_memory {A} (m : C shared_t A) : quiet (λ (t : tid) (s : proc),
  match m t (memory s) with Ok a x => Ok a (set_memory x s) | Blocked => Blocked | Fault e => Fault e end).
Proof. intros t s a s'. destruct (m t (memory s)); [|done..]. by intros [= _ <-]. Qed.
Lemma quiet_cancel_requested : quiet cancel_requested.
Proof. intros t s a s'. unfold cancel_requested. destruct (slots s !! t); [|done]. by intros [= _ <-]. Qed.
Lemma quiet_self : quiet self.
Proof. intros t s a s'. by intros [= _ <-]. Qed.
Lemma quiet_signed_add m a b : quiet (signed_add m a b).
Proof. intros t s z s'. unfold signed_add. case_decide; [|done]. by intros [= _ <-]. Qed.
Create HintDb quiet.
#[export] Hint Resolve quiet_live quiet_memory quiet_cancel_requested quiet_self quiet_signed_add : quiet.

(** * The thread *)

Section thread.
Context (start : ptr → prog proc value).

(** A slot before a thread is created in it, waiting for one, and after its start
    routine returned *)
Definition slot_body : unit → prog proc (unit + unit) := λ x,
  pbind (arg ← act begin; v ← start arg; act (finish v)) (λ x', Ret (inl x')).
Definition next_thread (r : unit + unit) : prog proc unit :=
  match r with inl x => Loop slot_body x Ret | inr y => Ret y end.
Definition waiting : prog proc unit := pbind (slot_body tt) next_thread.
Definition ending (v : value) : prog proc unit := pbind (act (finish v)) (λ x, Loop slot_body x Ret).
Definition begun_thread (arg : ptr) : prog proc unit := pbind (start arg) ending.

Lemma waiting_step i s p' s' : prog_step waiting i s = Ok p' s' →
  ∃ th arg, slots s !! i = Some th ∧ state th = Created arg ∧ p' = begun_thread arg ∧
    s' = set_slots (<[i := Slot Running (detached th) (cancelled th)]> (slots s)) s.
Proof.
  unfold waiting, slot_body, act, atomic, mbind, prog_bind. cbn [pbind prog_step]. unfold live at 1. case_decide; [|done].
  unfold begin.
  destruct (slots s !! i) as [th|]; [|done]. destruct (state th) as [|arg| |] eqn:Hst; try done.
  intros [= <- <-]. exists th, arg. split_and!; try done. unfold begun_thread. by rewrite !pbind_assoc.
Qed.

(** A step of the thread: it goes on, or it ends as a cancelled thread. *)
Definition thread_step (on : prog proc unit → Prop) (s : proc) (p' : prog proc unit) (s' : proc) : Prop :=
  result s' = result s ∧ created s' = created s ∧
  (slots s' = slots s ∧ on p' ∨
   p' = thread_slot start ∧ ∃ th, slots s !! 0 = Some th ∧
     (detached th = false → slots s' = <[0 := Slot (Finished PTHREAD_CANCELED) false (cancelled th)]> (slots s))).

(** The thread ends within [n] steps, from any state in which it is asked to. *)
Fixpoint ends (n : nat) (p : prog proc unit) : Prop :=
  match n with
  | O => False
  | Datatypes.S n' => ∀ s p' s', asked s → prog_step p 0 s = Ok p' s' → thread_step (ends n') s p' s'
  end.

(** More than any of the threads needs *)
Definition STEPS : nat := 16.
(** It does so at each of the next [n] steps, whether it has been asked or not. *)
Fixpoint always (n : nat) (p : prog proc unit) : Prop :=
  match n with
  | O => True
  | Datatypes.S n' => ends STEPS p ∧ ∀ s p' s', prog_step p 0 s = Ok p' s' → thread_step (always n') s p' s'
  end.

Lemma thread_step_mono (P Q : prog proc unit → Prop) s p' s' :
  (∀ p, P p → Q p) → thread_step P s p' s' → thread_step Q s p' s'.
Proof. intros HPQ (? & ? & [[? ?]|?]); split_and!; [done..|left; auto|done|done|by right]. Qed.
Lemma ends_mono n m p : ends n p → n ≤ m → ends m p.
Proof.
  revert m p. induction n as [|n IH]; intros [|m] p Hp Hm; simpl in *; [done..|lia|].
  intros s p' s' Ha Hs. eapply thread_step_mono; [|by apply Hp]. intros q Hq. apply IH; [done|lia].
Qed.
Lemma always_mono n m p : always n p → m ≤ n → always m p.
Proof.
  revert m p. induction n as [|n IH]; intros [|m] p Hp Hm; simpl in *; [done|lia|done|].
  destruct Hp as [He Hp]. split; [done|]. intros s p' s' Hs. eapply thread_step_mono; [|by apply Hp].
  intros q Hq. apply IH; [done|lia].
Qed.

(** ** Rules *)

Lemma act_thread_step {B} (P : prog proc unit → Prop) (m : C proc B) k s p' s' : quiet m → (∀ b, P (k b)) →
  prog_step (Act m k) 0 s = Ok p' s' → thread_step P s p' s'.
Proof.
  intros Hq Hk. simpl. destruct (m 0 s) as [b s1| |] eqn:Hm; [|done..]. intros [= <- <-].
  destruct (Hq _ _ _ _ Hm) as (? & ? & ?). split_and!; [done..|]. left. by split.
Qed.
Lemma loop_thread_step {X Y} (P : prog proc unit → Prop) (body : X → prog proc (X + Y)) x k s p' s' :
  P (pbind (body x) (λ r, match r with inl x' => Loop body x' k | inr y => k y end)) →
  prog_step (Loop body x k) 0 s = Ok p' s' → thread_step P s p' s'.
Proof. intros HP. simpl. intros [= <- <-]. split_and!; [done..|]. by left. Qed.
Lemma ending_thread_step (P : prog proc unit → Prop) s p' s' :
  prog_step (ending PTHREAD_CANCELED) 0 s = Ok p' s' → thread_step P s p' s'.
Proof.
  unfold ending, act, atomic. cbn [pbind prog_step]. unfold live. case_decide; [|done]. unfold finish.
  destruct (slots s !! 0) as [th|] eqn:Hth; [|done]. unfold set_slot. intros [= <- <-]. split_and!; [done..|]. right. split; [done|]. exists th. split; [done|].
  intros Hd. by rewrite Hd.
Qed.

Lemma ends_act {B} n (m : C proc B) k : quiet m → (∀ b, ends n (k b)) → ends (Datatypes.S n) (Act m k).
Proof. intros Hq Hk s p' s' _. by apply act_thread_step. Qed.
Lemma ends_loop {X Y} n (body : X → prog proc (X + Y)) x k :
  ends n (pbind (body x) (λ r, match r with inl x' => Loop body x' k | inr y => k y end)) →
  ends (Datatypes.S n) (Loop body x k).
Proof. intros He s p' s' _. by apply loop_thread_step. Qed.
Lemma ends_cancel n k : ends n (k true) → ends (Datatypes.S n) (Act (live cancel_requested) k).
Proof.
  intros He s p' s' (th & Hth & Hc & _). cbn. unfold live, cancel_requested. case_decide; [|done]. rewrite Hth, Hc.
  intros [= <- <-]. split_and!; [done..|]. by left.
Qed.
Lemma ends_ending n : ends (Datatypes.S n) (ending PTHREAD_CANCELED).
Proof. intros s p' s' _. apply ending_thread_step. Qed.

Lemma always_act {B} n (m : C proc B) k : quiet m → ends STEPS (Act m k) → (∀ b, always n (k b)) →
  always (Datatypes.S n) (Act m k).
Proof. intros Hq He Hk. split; [done|]. intros s p' s'. by apply act_thread_step. Qed.
Lemma always_ending n : always n (ending PTHREAD_CANCELED).
Proof. destruct n as [|n]; [done|]. split; [apply ends_ending|]. intros s p' s'. apply ending_thread_step. Qed.
Lemma always_loop {X Y} (body : X → prog proc (X + Y)) k :
  (∀ x, ends STEPS (Loop body x k)) →
  (∀ n x, (∀ x', always n (Loop body x' k)) →
    always n (pbind (body x) (λ r, match r with inl x' => Loop body x' k | inr y => k y end))) →
  ∀ n x, always n (Loop body x k).
Proof.
  intros He Hbody. induction n as [|n IH]; intros x; [done|]. split; [done|]. intros s p' s'.
  apply loop_thread_step, Hbody, IH.
Qed.
(** The same without counting *)
Lemma always_act_le {B} n (m : C proc B) k : quiet m → ends STEPS (Act m k) → (∀ b, always n (k b)) → always n (Act m k).
Proof. intros Hq He Hk. apply (always_mono (Datatypes.S n)); [by apply always_act|lia]. Qed.
End thread.

(** The proofs of [ends] and [always] follow the program. *)
Ltac show_act := unfold print, sleep, on_memory, act, atomic, mbind, prog_bind, mret, prog_ret; cbn [pbind].
Ltac solve_quiet := auto with quiet.
Ltac solve_ends := show_act; repeat (show_act; first
  [ apply ends_ending | apply ends_cancel; show_act | apply ends_act; [solve_quiet|intros ?] | apply ends_loop ]).

(** * From then on every execution is finite *)

Section finite.
Context (L : nat) (start : ptr → prog proc value).

(** [main] in [pthread_join] *)
Definition joining : prog proc unit := pbind (act (pthread_join 0)) (λ _, exit_process 0%Z).

Definition idle (s : proc) (i : nat) : Prop := ∀ th arg, slots s !! i = Some th → state th ≠ Created arg.
Definition asked_in (st : status) (s : proc) : Prop :=
  ∃ th, slots s !! 0 = Some th ∧ cancelled th = true ∧ detached th = false ∧ state th = st.

(** How many steps are left to thread [i], at most *)
Inductive weighs (s : proc) : nat → prog proc unit → nat → Prop :=
  | weighs_slot i : i < L → idle s i → weighs s i (thread_slot start) 1
  | weighs_waiting i : i < L → idle s i → weighs s i (waiting start) 0
  | weighs_created arg : 0 < L → asked_in (Created arg) s → weighs s 0 (thread_slot start) (STEPS + 4)
  | weighs_created_waiting arg : 0 < L → asked_in (Created arg) s → weighs s 0 (waiting start) (STEPS + 3)
  | weighs_running n p : 0 < L → n ≤ STEPS → asked_in Running s → ends start n p → weighs s 0 p (n + 2)
  | weighs_joining : weighs s L joining 2
  | weighs_exit : weighs s L (exit_process 0%Z) 1
  | weighs_returned : weighs s L (Ret tt) 0.

Lemma asked_in_asked st s : asked_in st s → asked s.
Proof. intros (th & Hth & Hc & Hd & _). by exists th. Qed.
Lemma asked_in_unique st st' s : asked_in st s → asked_in st' s → st = st'.
Proof. intros (th & Hth & _ & _ & <-) (th' & Hth' & _ & _ & <-). congruence. Qed.
Lemma idle_insert s i j th : idle s i → (i = j → ∀ arg, state th ≠ Created arg) → idle (set_slots (<[j := th]> (slots s)) s) i.
Proof.
  intros Hi Hth th' arg. simpl. intros [(<- & <- & _)|[_ Hl]]%list_lookup_insert_Some; [by apply Hth|by eapply Hi].
Qed.

(** The others see nothing of a step that leaves their slots as they are. *)
Lemma weighs_same s s' j p w : slots s' !! 0 = slots s !! 0 → slots s' !! j = slots s !! j → weighs s j p w → weighs s' j p w.
Proof.
  intros H0 Hj Hw. destruct Hw; try by constructor; unfold idle, asked_in in *; rewrite ?H0, ?Hj.
  - econstructor; [done|]. unfold asked_in in *. by rewrite H0.
  - econstructor; [done|]. unfold asked_in in *. by rewrite H0.
Qed.
Lemma weighs_begin s th : 0 < L → slots s !! 0 = Some th → ∀ arg, state th = Created arg →
  asked_in (Created arg) s → (∀ arg, ends start STEPS (begun_thread start arg)) →
  weighs (set_slots (<[0 := Slot Running (detached th) (cancelled th)]> (slots s)) s) 0 (begun_thread start arg) (STEPS + 2).
Proof.
  intros HL Hth arg Hst (th' & Hth' & Hc & Hd & _) He. assert (th' = th) as -> by congruence.
  apply weighs_running; [done|done| |done]. eexists. simpl. rewrite list_lookup_insert_eq by (by eapply lookup_lt_Some). done.
Qed.
Lemma weighs_other s s' j p w : (∀ i, i ≠ 0 → slots s' !! i = slots s !! i) → j ≠ 0 → weighs s j p w → weighs s' j p w.
Proof. intros Hs Hj Hw. destruct Hw; try done; constructor; try done; unfold idle in *; by rewrite Hs. Qed.

(** A step makes what is left to the thread less. *)
Lemma weighs_step s i p w p' s' : (∀ arg, ends start STEPS (begun_thread start arg)) →
  weighs s i p w → prog_step p i s = Ok p' s' → ∃ w', w' < w ∧ weighs s' i p' w'.
Proof.
  intros Hstart Hw Hs. destruct Hw as [i Hi Hd|i Hi Hd|arg HL Ha|arg HL Ha|n p HL Hn Ha He| | |].
  - injection Hs as <- <-. exists 0. split; [lia|by apply weighs_waiting].
  - apply waiting_step in Hs as (th & arg & Hth & Hst & _). by destruct (Hd th arg).
  - injection Hs as <- <-. exists (STEPS + 3). split; [lia|by apply (weighs_created_waiting _ arg)].
  - apply waiting_step in Hs as (th & arg' & Hth & Hst & -> & ->). exists (STEPS + 2). split; [lia|].
    assert (arg' = arg) as -> by (destruct Ha as (th' & Hth' & _ & _ & Hst'); congruence).
    by apply weighs_begin.
  - destruct n as [|n]; [done|]. destruct (He _ _ _ (asked_in_asked _ _ Ha) Hs) as (_ & _ & [[Hsl He']|[-> (th & Hth & Hsl)]]).
    + exists (n + 2). split; [lia|]. apply weighs_running; [done|lia| |done]. unfold asked_in in *. by rewrite Hsl.
    + exists 1. split; [lia|]. apply weighs_slot; [done|]. destruct Ha as (th' & Hth' & _ & Hd & _).
      intros th1 arg. rewrite Hsl by congruence. by intros [(_ & <- & _)|[? _]]%list_lookup_insert_Some.
  - exists 1. split; [lia|]. revert Hs. unfold joining, act, atomic. cbn [pbind prog_step]. unfold live at 1. case_decide; [|done].
    unfold pthread_join. destruct (slots s !! 0) as [th|]; [|done]. destruct (detached th); [done|].
    destruct (state th); try done. intros [= <- <-]. apply weighs_exit.
  - exists 0. split; [lia|]. revert Hs. unfold exit_process, act, atomic. cbn [prog_step]. unfold live. case_decide; [|done].
    intros [= <- <-]. apply weighs_returned.
  - done.
Qed.

(** Nothing is more left to the others. *)
Lemma weighs_step_others s i p w p' s' j q v :
  weighs s i p w → prog_step p i s = Ok p' s' → j ≠ i → weighs s j q v → weighs s' j q v.
Proof.
  intros Hw Hs Hne Hv. destruct Hw as [i Hi Hd|i Hi Hd|arg HL Ha|arg HL Ha|n p HL Hn Ha He| | |].
  - by injection Hs as _ <-.
  - apply waiting_step in Hs as (th & arg & Hth & Hst & _). by destruct (Hd th arg).
  - by injection Hs as _ <-.
  - apply waiting_step in Hs as (th & arg' & Hth & Hst & -> & ->). apply (weighs_other s); [|done..].
    intros k Hk. simpl. by rewrite list_lookup_insert_ne.
  - destruct n as [|n]; [done|]. destruct (He _ _ _ (asked_in_asked _ _ Ha) Hs) as (_ & _ & [[Hsl _]|[-> (th & Hth & Hsl)]]).
    + apply (weighs_same s); [by rewrite Hsl..|done].
    + apply (weighs_other s); [|done..]. intros k Hk. destruct Ha as (th' & Hth' & _ & Hd & _).
      rewrite Hsl by congruence. by rewrite list_lookup_insert_ne.
  - revert Hs. unfold joining, act, atomic. cbn [pbind prog_step]. unfold live at 1. case_decide; [|done].
    unfold pthread_join. destruct (slots s !! 0) as [th|] eqn:Hth; [|done]. destruct (detached th); [done|].
    destruct (state th) eqn:Hst; try done. intros [= <- <-].
    destruct (decide (j = 0)) as [->|Hj].
    + destruct Hv as [j Hj Hd|j Hj Hd|arg HL Ha|arg HL Ha|n p HL Hn Ha He| | |]; try done;
        try (constructor; [done|]; by apply idle_insert);
        destruct Ha as (th' & Hth' & _ & _ & Hst'); congruence.
    + apply (weighs_other s); [|done..]. intros k Hk. simpl. by rewrite list_lookup_insert_ne.
  - revert Hs. unfold exit_process, act, atomic. cbn [prog_step]. unfold live. case_decide; [|done].
    intros [= <- <-]. by apply (weighs_same s).
  - done.
Qed.

Lemma sum_list_insert_lt (ws : list nat) i w w' : ws !! i = Some w → w' < w → sum_list (<[i:=w']> ws) < sum_list ws.
Proof.
  revert i. induction ws as [|x ws IH]; intros [|i] Hi Hw; simplify_eq/=; [lia|]. specialize (IH i Hi Hw). lia.
Qed.
Lemma weights_of (P : nat → prog proc unit → nat → Prop) (ths : list (prog proc unit)) : (∀ i p, ths !! i = Some p → ∃ w, P i p w) →
  ∃ ws : list nat, ∀ i p, ths !! i = Some p → ∃ w, ws !! i = Some w ∧ P i p w.
Proof.
  induction ths as [|p ths IH] using rev_ind; intros Hall; [by exists []|].
  destruct IH as [ws Hws]; [intros i q Hi; apply Hall; by apply lookup_app_l_Some|].
  destruct (Hall (length ths) p) as [w Hw]; [by apply list_lookup_middle|].
  exists (take (length ths) ws ++ [w]). intros i q [Hi|[Hi Hq]]%lookup_app_Some.
  - destruct (Hws i q Hi) as (v & Hv & HP). exists v. split; [|done]. apply lookup_app_l_Some.
    rewrite lookup_take_Some. split; [done|by eapply lookup_lt_Some].
  - apply list_lookup_singleton_Some in Hq as [Hz <-]. assert (i = length ths) as -> by lia. exists w. split; [|done].
    assert (length (take (length ths) ws) = length ths) as Hl.
    { rewrite length_take. destruct ths as [|x ths]; [done|].
      destruct (lookup_lt_is_Some_2 (x :: ths) (length ths)) as [y Hy]; [simpl; lia|].
      destruct (Hws _ _ Hy) as (v & Hv%lookup_lt_Some & _). apply Nat.min_l. cbn [length]. lia. }
    rewrite lookup_app_r by lia. by rewrite Hl, Nat.sub_diag.
Qed.

(** So every execution is finite. *)
Lemma weighs_sn : (∀ arg, ends start STEPS (begun_thread start arg)) →
  ∀ (ws : list nat) (c : config proc), (∀ i p, snd c !! i = Some p → ∃ w, ws !! i = Some w ∧ weighs (fst c) i p w) → sn step c.
Proof.
  intros Hstart ws. induction (well_founded_ltof _ sum_list ws) as [ws _ IH]. intros c Hc.
  constructor. intros c' Hs. unfold flip in Hs. destruct Hs as [s ths i p p' s' Hp Hs]. cbn [fst snd] in Hc.
  destruct (Hc i p Hp) as (w & Hw & Hwp). destruct (weighs_step s i p w p' s' Hstart Hwp Hs) as (w' & Hlt & Hw').
  apply (IH (<[i := w']> ws)); [by apply (sum_list_insert_lt _ _ w)|]. cbn [fst snd].
  intros j q [(<- & <- & _)|[Hne Hq]]%list_lookup_insert_Some.
  - exists w'. split; [|done]. apply list_lookup_insert_eq. by eapply lookup_lt_Some.
  - destruct (Hc j q Hq) as (v & Hv & Hvq). exists v. rewrite list_lookup_insert_ne by done. split; [done|].
    eapply weighs_step_others; [exact Hwp|exact Hs|done|done].
Qed.
End finite.
