(* ===== verification/Cancel.v ===== *)
(** Cancel: lab1/src/4, whose main thread creates one thread, cancels it and
    joins it; and the thread of 4/c.c, whose cleanup handler is to free a buffer.
    That every execution ends once the thread is asked to is in Cancellation.v. *)
From S2P Require Import Prelude CString Threads Process Lab1 Cancellation.
#[local] Open Scope Z_scope.

(** * The invariant *)

Section cancel.
(** Room for [L] threads; if [keeps_buffer], a thread that has ended has left its
    buffer. *)
Context (L : nat) (keeps_buffer : bool) (expected : fault → Prop).
Implicit Types (s : proc).

Definition buffer_left s : Prop := size (cells (arrays (memory s))) = 1%nat.

Record cj_inv s : Prop := {
  ci_attached j th : slots s !! j = Some th → detached th = false;
  ci_first j th : slots s !! j = Some th → (created s ≤ j)%nat → state th = Unused;
  ci_created : (created s ≤ 1)%nat ∧ (created s ≤ L)%nat;
  ci_start : ¬ is_busy s 0 → created s = 0%nat ∨ (keeps_buffer = true → buffer_left s);
  ci_arrays arg : created s = 0%nat ∨ state_of s 0 = Some (Created arg) → cells (arrays (memory s)) = ∅ ∧ answers (memory s) = [];
  ci_result r : result s = Some r →
    r = 0 ∧ created s = 1%nat ∧ state_of s 0 = Some Unused ∨ r = -1 ∧ L = 0%nat;
}.

(** While the thread runs nobody else touches the memory. *)
Definition cj_rely (i : nat) s s' : Prop :=
  i = 0%nat → is_busy s 0 → memory s' = memory s ∧ state_of s' 0 = state_of s 0.

Lemma cj_rely_refl i s : cj_rely i s s.
Proof. done. Qed.
Lemma cj_rely_trans i s1 s2 s3 : cj_rely i s1 s2 → cj_rely i s2 s3 → cj_rely i s1 s3.
Proof.
  intros A B Hi Hb. destruct (A Hi Hb) as [E1 E2]. destruct (B Hi) as [E3 E4]; [|by rewrite E3, E4].
  unfold is_busy in *. by rewrite E2.
Qed.

#[local] Instance cj_rg : RG proc := process_rg L cj_inv cj_rely expected cj_rely_refl cj_rely_trans.
Abbreviation inv := (process_inv L cj_inv).
Abbreviation rely := (process_rely L cj_rely).

(** * The thread *)

(** The thread runs, and knows [Q] of the memory. *)
Definition runs (Q : shared_t → Prop) s : Prop := state_of s 0 = Some Running ∧ Q (memory s).

Lemma runs_stable Q s s' : runs Q s → rely 0 s s' → runs Q s'.
Proof.
  intros [Hr HQ] (_ & _ & HR). assert (is_busy s 0) as Hb by (unfold is_busy; by rewrite Hr).
  destruct (HR eq_refl Hb) as [E1 E2]. split; [by rewrite E2|by rewrite E1].
Qed.

(** A step of the running thread *)
Lemma set_memory_inv x s : cj_inv s → state_of s 0 = Some Running → cj_inv (set_memory x s).
Proof.
  intros [A B D E F H] Hr. split; try done.
  - intros Hb. exfalso. apply Hb. unfold is_busy. change (state_of (set_memory x s) 0) with (state_of s 0). by rewrite Hr.
  - intros arg [Hc|Hc]; simpl in *.
    + exfalso. apply fmap_Some in Hr as (th & Hth & Hst). specialize (B 0%nat th Hth). rewrite Hc in B.
      specialize (B ltac:(lia)). congruence.
    + change (state_of (set_memory x s) 0) with (state_of s 0) in Hc. congruence.
Qed.

Lemma thread_memory {B} n (m : C shared_t B) k s (Q : shared_t → Prop) : runs Q s →
  (∀ x, Q x → match m 0%nat x with
     | Ok b x' => ∀ m' s', (m' ≤ n)%nat → state_of s' 0 = Some Running → memory s' = x' → safe m' 0 (k b) s'
     | Blocked => False
     | Fault e => expected e
     end) →
  safe n 0 (pbind (on_memory m) k) s.
Proof.
  intros Hrun Hm. destruct n as [|n]; [done|]. apply safe_memory. intros s1 HI1 HR1 _.
  destruct (runs_stable _ _ _ Hrun HR1) as [Hr1 HQ1]. specialize (Hm _ HQ1).
  destruct (m 0%nat (memory s1)) as [b x| |e]; [|done..].
  split; [apply set_memory_inv; [apply HI1|done]|]. split; [by intros j Hj Hj0|].
  apply Hm; [lia|done..].
Qed.
Lemma thread_act {B} n (m : C proc B) k s (Q : shared_t → Prop) : runs Q s →
  (∀ s, runs Q s → match m 0%nat s with
     | Ok b s' => s' = s ∧ ∀ m', (m' ≤ n)%nat → safe m' 0 (k b) s
     | Blocked => False
     | Fault e => expected e
     end) →
  safe n 0 (pbind (act m) k) s.
Proof.
  intros Hrun Hm. destruct n as [|n]; [done|]. apply safe_live. intros s1 HI1 HR1 _.
  specialize (Hm s1 (runs_stable _ _ _ Hrun HR1)). destruct (m 0%nat s1) as [b s2| |e]; [|done..].
  destruct Hm as [-> Hk]. split; [done|]. split; [intros j _; apply slots_rely_refl, cj_rely_refl|]. apply Hk. lia.
Qed.
Lemma thread_print n x k s (Q : shared_t → Prop) : runs Q s →
  (∀ g i a d o out w x, Q (Shared g i a d o out w) → Q (Shared g i a d o (out ++ [x]) w)) →
  (∀ m s', (m ≤ n)%nat → runs Q s' → safe m 0 (k tt) s') → safe n 0 (pbind (print x) k) s.
Proof.
  intros Hrun HQ Hk. apply (thread_memory _ _ _ _ Q Hrun). intros [] Hx. simpl. intros m s' Hm Hr Hs'. apply Hk; [done|].
  split; [done|]. rewrite Hs'. by apply HQ.
Qed.
(** Is the thread cancelled? *)
Lemma thread_sleep n k s (Q : shared_t → Prop) : runs Q s →
  (∀ m s' c, (m ≤ n)%nat → runs Q s' → safe m 0 (k c) s') → safe n 0 (pbind (act cancel_requested) k) s.
Proof.
  intros Hrun Hk. eapply thread_act; [done|]. intros s1 Hrun1. unfold cancel_requested.
  pose proof (proj1 Hrun1) as Hr. apply fmap_Some in Hr as (th & -> & _). split; [done|]. intros m Hm. by apply Hk.
Qed.

(** A start routine that is safe, and leaves the buffer if it is to *)
Definition routine_safe (start : ptr → prog proc value) : Prop := ∀ n s arg k,
  runs (λ x, cells (arrays x) = ∅ ∧ answers x = []) s →
  (∀ m v s', (m ≤ n)%nat → runs (λ x, keeps_buffer = true → size (cells (arrays x)) = 1%nat) s' → safe m 0 (k v) s') →
  safe n 0 (pbind (start arg) k) s.

Definition fresh_arrays (x : shared_t) : Prop := cells (arrays x) = ∅ ∧ answers x = [].
Definition kept_buffer (x : shared_t) : Prop := keeps_buffer = true → size (cells (arrays x)) = 1%nat.

(** The first thread begins or ends. *)
Lemma cj_set_slot_inv th' s : (0 < length (slots s))%nat → cj_inv s → result s = None → is_busy s 0 → detached th' = false →
  (∀ arg, state th' ≠ Created arg) → (¬ busy (state th') → kept_buffer (memory s)) →
  cj_inv (set_slots (<[0%nat := th']> (slots s)) s).
Proof.
  intros Hlen HI Hr Hb Hd Hc Hk.
  assert (created s = 1%nat) as Hcr.
  { destruct (ci_created _ HI). destruct (decide (created s = 0%nat)) as [E|]; [|lia]. exfalso. unfold is_busy, state_of in Hb.
    destruct (slots s !! 0%nat) as [th|] eqn:Hth; [|done]. simpl in Hb. rewrite (ci_first _ HI 0%nat th Hth) in Hb; [done|lia]. }
  assert (state_of (set_slots (<[0%nat := th']> (slots s)) s) 0 = Some (state th')) as Hst.
  { unfold state_of. simpl. by rewrite list_lookup_insert_eq. }
  destruct HI as [A B D E F H]. split; simpl in *; try done.
  - intros j th1 [(<- & <- & _)|[_ Hj]]%list_lookup_insert_Some; [done|by eapply A].
  - intros j th1 [(<- & <- & _)|[_ Hj]]%list_lookup_insert_Some Hle; [lia|by eapply B].
  - unfold is_busy. rewrite Hst. simpl. intros Hnb. right. by apply Hk.
  - intros arg [Hc0|Hc0]; [lia|]. rewrite Hst in Hc0. injection Hc0 as Hc0. by destruct (Hc arg).
  - congruence.
Qed.

Lemma cj_slot_safe start n i s : routine_safe start → (i < L)%nat → state_of s i ≠ Some Running →
  safe n i (thread_slot start) s.
Proof.
  intros Hstart Hi. destruct (decide (i = 0%nat)) as [->|Hne].
  - apply (thread_slot_safe L cj_inv cj_rely expected cj_rely_refl cj_rely_trans start 0 Hi
      (λ _, runs fresh_arrays) (λ _, runs kept_buffer)).
    + intros s1 arg th [HL HI] Hr Hth Hst. assert (state_of s1 0 = Some (Created arg)) as Hs1 by (unfold state_of; rewrite Hth; simpl; by rewrite Hst).
      split; [apply cj_set_slot_inv; try done; [lia|unfold is_busy; by rewrite Hs1|exact (ci_attached _ HI 0%nat th Hth)]|].
      split; [by intros j Hj Hj0|]. split; [unfold begun, state_of; simpl; by rewrite list_lookup_insert_eq by lia|].
      apply (ci_arrays _ HI arg). by right.
    + intros s1 v th [HL HI] Hr Hth Hst [Hrun Hkb]. split; [|by intros j Hj Hj0].
      pose proof (ci_attached _ HI 0%nat th Hth) as Hd. unfold ended. rewrite Hd.
      apply cj_set_slot_inv; try done; [lia|unfold is_busy; by rewrite Hrun].
    + intros v s1 s2 Hr HR _. by eapply runs_stable.
    + intros m s1 arg k Hrun _ Hk. apply Hstart; [done|]. intros m' v s2 Hm Hr2. by apply Hk; [|..|apply Hr2].
  - apply (thread_slot_safe L cj_inv cj_rely expected cj_rely_refl cj_rely_trans start i Hi (λ _ _, False) (λ _ _, False)).
    + intros s1 arg th [HL HI] Hr Hth Hst. exfalso. destruct (ci_created _ HI).
      by rewrite (ci_first _ HI i th Hth) in Hst by lia.
    + by intros s1 v th _ _ _ _ [].
    + by intros v s1 s2 [].
    + by intros m s1 arg k [].
Qed.

(** * [main] *)

(** [main] has created the thread, and has not joined it. *)
Definition before_create s : Prop := result s = None ∧ created s = 0%nat.
Definition before_join s : Prop := result s = None ∧ created s = 1%nat ∧ state_of s 0 ≠ Some Unused.
Definition joined s : Prop := result s = None ∧ created s = 1%nat ∧ state_of s 0 = Some Unused.

Lemma cj_main_unused s s' : cj_inv s → main_kept s s' → (state_of s' 0 = Some Unused ↔ state_of s 0 = Some Unused).
Proof.
  intros HI (_ & _ & Hall). unfold state_of. rewrite Forall2_lookup in Hall. specialize (Hall 0%nat).
  destruct (slots s !! 0%nat) as [th|] eqn:Hth; inversion Hall as [th1 th2 [Ha [Hb _]]|]; simplify_eq; [|done]. simpl.
  split; intros [= Hu].
  - destruct (Hb (ci_attached _ HI 0%nat th Hth)) as [_ Hb']. f_equal. by apply Hb'.
  - rewrite Ha, Hu; [done|]. rewrite Hu. by intros [].
Qed.
Lemma before_join_stable s s' : cj_inv s → before_join s → rely L s s' → before_join s'.
Proof.
  intros HI (Hr & Hc & Hu) (_ & HR & _). specialize (HR eq_refl). pose proof HR as (Hr' & Hc' & _).
  split; [by rewrite Hr'|]. split; [by rewrite Hc'|]. by rewrite cj_main_unused.
Qed.
Lemma joined_stable s s' : cj_inv s → joined s → rely L s s' → joined s'.
Proof.
  intros HI (Hr & Hc & Hu) (_ & HR & _). specialize (HR eq_refl). pose proof HR as (Hr' & Hc' & _).
  split; [by rewrite Hr'|]. split; [by rewrite Hc'|]. by rewrite cj_main_unused.
Qed.

(** [main] says hello: no thread runs yet. *)
Lemma main_hello_safe n x k s : before_create s →
  (∀ m s', (m ≤ n)%nat → before_create s' → safe m L (k tt) s') → safe n L (pbind (print x) k) s.
Proof.
  intros [Hr Hc] Hk. destruct n as [|n]; [done|]. apply safe_memory. intros s1 [HL HI] (_ & HR & _) Hr1. simpl.
  destruct (HR eq_refl) as (_ & Hc1 & _). rewrite Hc in Hc1.
  split; [|split].
  - destruct HI as [A B D E F H]. split; try done.
  - intros j Hj -> Hb. exfalso. unfold is_busy, state_of in Hb.
    destruct (slots s1 !! 0%nat) as [th|] eqn:Hth; [|done]. simpl in Hb. rewrite (ci_first _ HI 0%nat th Hth) in Hb; [done|lia].
  - by apply Hk; [lia|].
Qed.

Lemma first_unused_start s : inv s → created s = 0%nat → first_unused s = if decide (L = 0%nat) then None else Some 0%nat.
Proof.
  intros [HL HI] Hc. unfold first_unused. destruct (slots s) as [|th l] eqn:Hs; simpl in *.
  - by rewrite decide_True.
  - assert (state th = Unused) as Hu by (apply (ci_first _ HI 0%nat th); [by rewrite Hs|lia]).
    rewrite decide_True by done. simpl. rewrite decide_False by lia. done.
Qed.

Lemma cj_create_safe n k s : before_create s →
  (∀ m s', (m ≤ n)%nat → before_join s' → cj_inv s' → safe m L (k (0, Some 0%nat)) s') →
  (∀ m s', (m ≤ n)%nat → before_create s' → cj_inv s' → L = 0%nat → safe m L (k (EAGAIN, None)) s') →
  safe n L (pbind (act (pthread_create false NULL)) k) s.
Proof.
  intros [Hr Hc] Hk Hfail. destruct n as [|n]; [done|]. apply safe_create. intros s1 HI1 (_ & HR & _) Hr1.
  destruct (HR eq_refl) as (_ & Hc1 & _). rewrite Hc in Hc1. rewrite first_unused_start by done.
  case_decide as HL0; [by apply Hfail; [lia| |apply HI1|]|].
  destruct HI1 as [HL HI]. assert (0 < length (slots s1))%nat as Hlen by lia.
  assert (state_of (with_thread 0 false NULL s1) 0 = Some (Created NULL)) as Hst.
  { unfold state_of. simpl. by rewrite list_lookup_insert_eq. }
  assert (cj_inv (with_thread 0 false NULL s1)) as HI'.
  { destruct HI as [A B D E F H]. split; simpl in *; try done.
    - intros j th1 [(<- & <- & _)|[_ Hj]]%list_lookup_insert_Some; [done|by eapply A].
    - intros j th1 [(<- & <- & _)|[_ Hj]]%list_lookup_insert_Some Hle; [lia|]. eapply B; [done|lia].
    - lia.
    - unfold is_busy. rewrite Hst. simpl. tauto.
    - intros arg [Hc0|Hc0]; [lia|]. apply (F arg). by left.
    - congruence. }
  split; [done|]. split.
  - intros j Hj -> Hb. exfalso. unfold is_busy, state_of in Hb.
    destruct (slots s1 !! 0%nat) as [th|] eqn:Hth; [|done]. simpl in Hb. rewrite (ci_first _ HI 0%nat th Hth) in Hb; [done|lia].
  - apply Hk; [lia| |done]. split; [done|]. split; [simpl; lia|]. by rewrite Hst.
Qed.

Lemma cancel_and_join_safe n s : before_join s → cj_inv s → safe n L (cancel_and_join 0) s.
Proof.
  intros Hbj HI. unfold cancel_and_join, mbind, prog_bind. destruct n as [|n]; [done|]. apply safe_cancel. intros s1 HI1 HR1 Hr1.
  pose proof (before_join_stable _ _ HI Hbj HR1) as (_ & Hc1 & Hu1). destruct HI1 as [HL HI1].
  destruct (ci_created _ HI1) as [_ HcL].
  destruct (lookup_lt_is_Some_2 (slots s1) 0) as [th Hth]; [lia|]. exists th. split; [done|].
  assert (state th ≠ Unused) as Hu by (intros Hst; apply Hu1; unfold state_of; rewrite Hth; simpl; by rewrite Hst).
  assert (∀ j, state_of (with_request 0 th s1) j = state_of s1 j) as Hst.
  { intros j. unfold state_of. simpl. destruct (decide (0%nat = j)) as [<-|Hne].
    - rewrite list_lookup_insert_eq by lia. by rewrite Hth.
    - by rewrite list_lookup_insert_ne. }
  assert (cj_inv (with_request 0 th s1)) as HI2.
  { destruct HI1 as [A B D E F H]. unfold is_busy in *. split; try done.
    - intros j th1 [(<- & <- & _)|[_ Hj]]%list_lookup_insert_Some; [exact (A 0%nat th Hth)|by eapply A].
    - intros j th1 [(<- & <- & _)|[_ Hj]]%list_lookup_insert_Some Hle; [exact (B 0%nat th Hth Hle)|by eapply B].
    - unfold is_busy. by rewrite Hst.
    - intros arg. rewrite Hst. apply F.
    - rewrite Hst. exact H. }
  split; [done|]. split; [done|]. split; [by intros j _ -> _|].
  assert (before_join (with_request 0 th s1)) as Hbj2 by (split; [done|split; [done|by rewrite Hst]]).
  clear - HI2 Hbj2. generalize dependent (with_request 0 th s1). clear s1 th. intros s1 HI1 Hbj1.
  destruct n as [|n]; [done|]. apply safe_pthread_join. intros s2 HI2 HR2 Hr2.
  pose proof (before_join_stable _ _ HI1 Hbj1 HR2) as (_ & Hc2 & Hu2). destruct HI2 as [HL2 HI2].
  destruct (ci_created _ HI2) as [_ HcL].
  destruct (lookup_lt_is_Some_2 (slots s2) 0) as [th Hth]; [lia|]. exists th. split; [done|].
  split; [by eapply ci_attached|]. split.
  { intros Hst. apply Hu2. unfold state_of. rewrite Hth. simpl. by rewrite Hst. }
  intros v Hst. assert (state_of (without_thread 0 s2) 0 = Some Unused) as Hst'.
  { unfold state_of. simpl. by rewrite list_lookup_insert_eq by lia. }
  assert (cj_inv (without_thread 0 s2)) as HI3.
  { destruct HI2 as [A B D E F H]. split; try done.
    - intros j th1 [(<- & <- & _)|[_ Hj]]%list_lookup_insert_Some; [done|by eapply A].
    - intros j th1 [(<- & <- & _)|[_ Hj]]%list_lookup_insert_Some Hle; [done|by eapply B].
    - intros _. apply E. unfold is_busy, state_of. rewrite Hth. simpl. rewrite Hst. by intros [].
    - intros arg. rewrite Hst'. intros [Hc0|?]; [simpl in Hc0; lia|done].
    - simpl. congruence. }
  split; [done|]. split.
  { intros j _ -> Hb. exfalso. unfold is_busy, state_of in Hb. rewrite Hth in Hb. simpl in Hb. by rewrite Hst in Hb. }
  cbn [pbind]. apply safe_exit. intros s3 [HL3 HI4] HR3 Hr3.
  destruct (joined_stable (without_thread 0 s2) s3) as (_ & Hc3 & Hu3); [done| |done|].
  { split; [done|]. split; [done|done]. }
  split; [|by intros j _ -> _]. destruct HI4 as [A B D E F H]. split; try done.
  simpl. intros r [= <-]. by left.
Qed.

Lemma cj_failed_exit_safe n s : L = 0%nat → safe n L (exit_process (-1)) s.
Proof.
  intros HL0. apply safe_exit. intros s1 [HL HI] HR Hr. split; [|by intros j _ -> _].
  destruct HI as [A B D E F H]. split; try done. simpl. intros r [= <-]. by right.
Qed.

Lemma create_and_cancel_safe n s : before_create s → safe n L create_and_cancel s.
Proof.
  intros Hs. unfold create_and_cancel, mbind, prog_bind. apply main_hello_safe; [done|]. intros m s1 _ Hs1.
  apply cj_create_safe; [done|..].
  - intros m2 s2 _ Hs2 HI2. cbn [fst snd initialised pbind]. rewrite decide_False by (intros Hz; by apply Hz).
    by apply cancel_and_join_safe.
  - intros m2 s2 _ Hs2 HI2 HL0. cbn [fst snd]. rewrite decide_True by done. by apply cj_failed_exit_safe.
Qed.
(** With room for the thread, the test of 4/c.c does not matter. *)
Lemma P4c_main_safe n s : before_create s → (0 < L)%nat → safe n L P4c.main s.
Proof.
  intros Hs HL0. unfold P4c.main, mbind, prog_bind. apply main_hello_safe; [done|]. intros m s1 _ Hs1.
  apply cj_create_safe; [done|..|lia].
  intros m2 s2 _ Hs2 HI2. cbn [fst snd initialised pbind]. rewrite decide_False by done. by apply cancel_and_join_safe.
Qed.

(** * The start routines *)

Lemma P4a_routine : keeps_buffer = false → routine_safe P4a.mythread.
Proof.
  intros Hkb n s arg k [Hrun _] Hk. unfold P4a.mythread. cbn [pbind].
  apply (safe_loop (λ (_ : unit) s, runs (λ _, True) s)); [| |done].
  - intros _ s1 s2 H1 HR _. exact (runs_stable _ _ _ H1 HR).
  - clear s arg Hrun. intros n' _ s Hn Hrun Hloop. unfold mbind, prog_bind. rewrite pbind_assoc.
    eapply thread_print; [done|done|]. intros m s1 Hm Hrun1. unfold sleep. rewrite pbind_assoc.
    eapply thread_sleep; [done|]. intros m2 s2 c Hm2 Hrun2. cbn [pbind]. destruct c; [|apply Hloop; [lia|done]].
    apply Hk; [lia|]. split; [apply Hrun2|]. unfold kept_buffer. by rewrite Hkb.
Qed.

Lemma P4b_routine : keeps_buffer = false → expected Overflow → routine_safe P4b.mythread.
Proof.
  intros Hkb Hov n s arg k [Hrun _] Hk. unfold P4b.mythread. cbn [pbind].
  apply (safe_loop (λ (_ : Z) s, runs (λ _, True) s)); [| |done].
  - intros _ s1 s2 H1 HR _. exact (runs_stable _ _ _ H1 HR).
  - clear s arg Hrun. intros n' cnt s Hn Hrun Hloop. unfold mbind, prog_bind. rewrite pbind_assoc.
    eapply thread_sleep; [done|]. intros m s1 c Hm Hrun1. destruct c; cbn [pbind].
    + apply Hk; [lia|]. split; [apply Hrun1|]. unfold kept_buffer. by rewrite Hkb.
    + rewrite pbind_assoc. eapply thread_act; [done|]. intros s2 Hrun2. unfold signed_add. case_decide; [|done].
      split; [done|]. intros m2 Hm2. cbn [pbind]. apply Hloop; [lia|done].
Qed.

Lemma read_chars_written str rest t x : ∃ r, read_chars ((Some <$> str ++ [NUL]) ++ rest) t x = Ok r x.
Proof.
  induction str as [|c str IH]; cbn [fmap list_fmap app read_chars].
  - rewrite decide_True by done. by eexists.
  - case_decide; [by eexists|]. destruct IH as [r Hr]. exists (c :: r). by erewrite bind_ok by exact Hr.
Qed.

Lemma P4c_routine pthread_self : routine_safe (P4c.mythread pthread_self).
Proof.
  intros n s arg k Hrun Hk. unfold P4c.mythread, mbind, prog_bind. cbv zeta. rewrite pbind_assoc.
  apply (thread_memory _ _ _ _ _ Hrun). intros x [Ha Ho].
  unfold malloc, malloc_answer, new_cell, mbind, C_bind, oom. cbn [shared_oom]. rewrite Ho.
  set (l := fresh_loc _). intros m s1 Hm Hr1 Hs1.
  assert (runs (λ x, cells (arrays x) = {[l := replicate 1024 None]}) s1) as Hrun1.
  { split; [done|]. rewrite Hs1. cbn. by rewrite Ha. }
  clearbody l. clear Hr1 Hs1 Ha Ho x Hrun. rewrite pbind_assoc. eapply thread_act; [done|]. intros s2 Hrun2. unfold self.
  split; [done|]. intros m2 Hm2. rewrite pbind_assoc.
  set (text := lit "Hello from thread " ++ _).
  assert (length text + 1 ≤ length (replicate 1024 (@None Z)))%nat as Hlen.
  { unfold text. rewrite length_app, length_replicate. change (length (lit "Hello from thread ")) with 18%nat.
    pose proof (print_dec_length 20 (u64 (pthread_self 0%nat))) as Hd. unfold u_wrap in *.
    pose proof (Z.mod_pos_bound (pthread_self 0%nat) (2 ^ 64)). specialize (Hd ltac:(lia) ltac:(lia)). lia. }
  apply (thread_memory _ _ _ _ _ Hrun2). intros x Hx.
  unfold sprintf, load, update, mbind, C_bind, heap. cbn [arrays_heap]. rewrite Hx, lookup_singleton_eq, decide_True by done.
  rewrite Hx, lookup_singleton_eq. set (a := (Some <$> _) ++ _).
  intros m3 s3 Hm3 Hr3 Hs3.
  assert (runs (λ x, cells (arrays x) = {[l := a]}) s3) as Hrun3.
  { split; [done|]. rewrite Hs3. cbn. by rewrite Hx, insert_singleton_eq. }
  assert (∀ t x, ∃ r, read_chars a t x = Ok r x) as Hread by (intros; apply read_chars_written).
  clearbody a. clear Hr3 Hs3 Hx x Hlen Hrun1 Hrun2. cbn [pbind].
  apply (safe_loop (λ (_ : unit) s, runs (λ x, cells (arrays x) = {[l := a]}) s)); [| |done].
  { intros _ s' s'' H1 HR _. exact (runs_stable _ _ _ H1 HR). }
  clear s3 Hrun3. intros n' _ s' Hn Hrun Hloop. rewrite pbind_assoc.
  apply (thread_memory _ _ _ _ _ Hrun). intros x Hx.
  unfold read_string, load, mbind, C_bind, heap. cbn [arrays_heap]. rewrite Hx, lookup_singleton_eq.
  destruct (Hread 0%nat x) as [r ->]. intros m4 s4 Hm4 Hr4 Hs4.
  assert (runs (λ x, cells (arrays x) = {[l := a]}) s4) as Hrun4 by (split; [done|by rewrite Hs4]).
  rewrite pbind_assoc. eapply thread_print; [done|done|]. intros m5 s5 Hm5 Hrun5. unfold sleep. rewrite pbind_assoc.
  eapply thread_sleep; [done|]. intros m6 s6 c Hm6 Hrun6. destruct c; cbn [pbind]; [|apply Hloop; [lia|done]].
  unfold P4c.myfree, mbind, prog_bind. rewrite !pbind_assoc. apply (thread_memory _ _ _ _ _ Hrun6). intros x' Hx'. simpl.
  intros m7 s7 Hm7 Hr7 Hs7.
  eapply (thread_print _ _ _ _ (λ x, cells (arrays x) = {[l := a]})); [by split; [|rewrite Hs7]|done|]. intros m8 s8 Hm8 [Hr8 Hx8].
  apply Hk; [lia|]. split; [done|]. intros _. by rewrite Hx8, map_size_singleton.
Qed.

Lemma cj_initial : cj_inv (initial L (start_with 0 [])).
Proof.
  split; simpl; try done; try lia.
  - by intros j th [-> _]%lookup_replicate.
  - by intros j th [-> _]%lookup_replicate.
Qed.
End cancel.

(** * Where [main] and the threads are *)

Section where_they_are.
Context (L : nat) (keeps_buffer : bool) (start : ptr → prog proc value) (created_or_failed : Z * option nat → prog proc unit).
Context (on_created : created_or_failed (0, Some 0%nat) = cancel_and_join 0).
Context (on_failed : L = 0%nat → created_or_failed (EAGAIN, None) = exit_process (-1)).
Context (start_always : ∀ n arg, always start n (begun_thread start arg)).
Abbreviation inv := (process_inv L (cj_inv L keeps_buffer)).

Definition creating : prog proc unit := pbind (act (pthread_create false NULL)) created_or_failed.
Definition the_main : prog proc unit := pbind (print (Text "Hello from main!")) (λ _, creating).

(** Only while [main] joins has the thread been asked to terminate. *)
Inductive main_at (s : proc) : prog proc unit → Prop :=
  | at_hello : created s = 0%nat → ¬ asked s → main_at s the_main
  | at_create : created s = 0%nat → ¬ asked s → main_at s creating
  | at_cancel : ¬ asked s → main_at s (cancel_and_join 0)
  | at_joining : asked s → main_at s joining
  | at_exit r : ¬ asked s → main_at s (exit_process r)
  | at_returned : ¬ asked s → result s ≠ None → main_at s (Ret tt).

Definition thread_at (s : proc) (i : nat) (p : prog proc unit) : Prop :=
  p = thread_slot start ∨ p = waiting start ∨
  i = 0%nat ∧ state_of s 0 = Some Running ∧ ∀ n, always start n p.

Record places (c : config proc) : Prop := {
  pl_length : length (snd c) = (L + 1)%nat;
  pl_main m : snd c !! L = Some m → main_at (fst c) m;
  pl_threads i p : (i < L)%nat → snd c !! i = Some p → thread_at (fst c) i p;
  pl_value v : state_of (fst c) 0 = Some (Finished v) → v = PTHREAD_CANCELED;
}.

(** Steps of the threads *)
Lemma asked_insert (s s' : proc) i th th' : slots s !! i = Some th → slots s' = <[i := th']> (slots s) →
  cancelled th' = cancelled th → detached th' = detached th → asked s' ↔ asked s.
Proof.
  intros Hth Hs Hc Hd. unfold asked. rewrite Hs. destruct (decide (i = 0%nat)) as [->|Hne].
  - rewrite list_lookup_insert_eq by (by eapply lookup_lt_Some). rewrite Hth. split.
    + intros (x & [= <-] & ? & ?). exists th. by rewrite <-Hc, <-Hd.
    + intros (x & [= <-] & ? & ?). exists th'. by rewrite Hc, Hd.
  - by rewrite list_lookup_insert_ne.
Qed.
Lemma asked_slots (s s' : proc) : slots s' = slots s → asked s' ↔ asked s.
Proof. intros Hs. unfold asked. by rewrite Hs. Qed.
Lemma main_at_same (s s' : proc) m : (asked s' ↔ asked s) → result s' = result s → created s' = created s → main_at s m → main_at s' m.
Proof. intros Ha Hr Hc Hm. destruct Hm; constructor; rewrite ?Ha, ?Hr, ?Hc; done. Qed.
Lemma state_of_insert (s s' : proc) i th' : (i < length (slots s))%nat → slots s' = <[i := th']> (slots s) → state_of s' i = Some (state th').
Proof. intros Hl Hs. unfold state_of. by rewrite Hs, list_lookup_insert_eq. Qed.

(** A thread's step leaves it at one of its places, and [main] where it was. *)
Lemma thread_at_step s i p p' s' : inv s → (i < L)%nat → thread_at s i p → prog_step p i s = Ok p' s' →
  (∀ v, state_of s 0 = Some (Finished v) → v = PTHREAD_CANCELED) →
  thread_at s' i p' ∧ (asked s' ↔ asked s) ∧ result s' = result s ∧ created s' = created s ∧
  (∀ j q, j ≠ i → thread_at s j q → thread_at s' j q) ∧
  (∀ v, state_of s' 0 = Some (Finished v) → v = PTHREAD_CANCELED).
Proof.
  intros [HL HI] Hi Hat Hs Hv. destruct Hat as [->|[->|(-> & Hrun & Hall)]].
  - injection Hs as <- <-. split_and!; try done. right. by left.
  - apply waiting_step in Hs as (th & arg & Hth & Hst & -> & ->).
    assert (i = 0%nat) as ->.
    { destruct (decide (i = 0%nat)) as [|Hne]; [done|]. destruct (ci_created _ _ _ HI).
      rewrite (ci_first _ _ _ HI i th Hth) in Hst; [done|lia]. }
    split_and!; try done.
    + right. right. split; [done|]. split; [by apply (state_of_insert s _ 0 (Slot Running (detached th) (cancelled th))); [lia|]|]. intros n. apply start_always.
    + by eapply asked_insert.
    + intros j q Hj [?|[?|[? _]]]; [by left|right; by left|done].
    + intros v. by rewrite (state_of_insert s _ 0 (Slot Running (detached th) (cancelled th))) by (done || lia).
  - destruct (proj2 (Hall 1%nat) s p' s' Hs) as (Hr & Hc & Hcase).
    assert (slots s' = slots s ∧ (∀ n, always start n p') ∨
      p' = thread_slot start ∧ ∃ th, slots s !! 0%nat = Some th ∧
        slots s' = <[0%nat := Slot (Finished PTHREAD_CANCELED) (detached th) (cancelled th)]> (slots s)) as Hgo.
    { destruct Hcase as [[Hsl _]|[-> (th & Hth & Hsl)]].
      - left. split; [done|]. intros n. destruct (proj2 (Hall (Datatypes.S n)) s p' s' Hs) as (_ & _ & [[_ ?]|[-> (th & Hth & Hsl')]]); [done|].
        exfalso. specialize (Hsl' (ci_attached _ _ _ HI 0%nat th Hth)). unfold state_of in Hrun.
        rewrite Hsl in Hsl'. rewrite Hsl', list_lookup_insert_eq in Hrun by lia. done.
      - right. split; [done|]. exists th. split; [done|]. pose proof (ci_attached _ _ _ HI 0%nat th Hth) as Hd.
        rewrite Hd. by apply Hsl. }
    destruct Hgo as [[Hsl Hall']|[-> (th & Hth & Hsl)]].
    + assert (∀ j, state_of s' j = state_of s j) as Hst by (intros j; unfold state_of; by rewrite Hsl).
      split_and!; try done; [right; right; by rewrite Hst|by apply asked_slots| |by rewrite Hst].
      intros j q Hj. unfold thread_at. by rewrite Hst.
    + split_and!; try done; [by left|by eapply asked_insert| |].
      * intros j q Hj [?|[?|[? _]]]; [by left|right; by left|done].
      * intros v. rewrite (state_of_insert s _ 0 _ ltac:(lia) Hsl). by intros [= <-].
Qed.
(** A step of [main] *)
Lemma not_asked_insert (s s' : proc) th' : slots s' = <[0%nat := th']> (slots s) → cancelled th' = false → ¬ asked s → ¬ asked s'.
Proof.
  intros Hs Hc Hn (th & Hth & Ht & Hd). rewrite Hs in Hth.
  apply list_lookup_insert_Some in Hth as [(_ & <- & _)|[? _]]; [congruence|done].
Qed.
Lemma threads_unused s i p : inv s → created s = 0%nat → thread_at s i p → p = thread_slot start ∨ p = waiting start.
Proof.
  intros [HL HI] Hc [?|[?|(-> & Hrun & _)]]; [by left|by right|]. exfalso. unfold state_of in Hrun.
  destruct (slots s !! 0%nat) as [th|] eqn:Hth; [|done]. simpl in Hrun. rewrite (ci_first _ _ _ HI 0%nat th Hth) in Hrun; [done|lia].
Qed.

Lemma main_at_step s m p' s' : inv s → main_at s m → prog_step m L s = Ok p' s' →
  (∀ v, state_of s 0 = Some (Finished v) → v = PTHREAD_CANCELED) →
  main_at s' p' ∧ (∀ i p, thread_at s i p → thread_at s' i p) ∧
  (∀ v, state_of s' 0 = Some (Finished v) → v = PTHREAD_CANCELED).
Proof.
  intros HI Hm Hs Hv. pose proof HI as [HL HC]. destruct Hm as [Hc Ha|Hc Ha|Ha|(th & Hth & Hc & Hd)|r Ha|Ha Hr].
  - revert Hs. unfold the_main, print, on_memory, act, atomic. cbn [pbind prog_step]. unfold live at 1. case_decide; [|done].
    intros [= <- <-]. split; [|by split]. by apply at_create.
  - revert Hs. unfold creating, act, atomic. cbn [pbind prog_step]. unfold live at 1. case_decide; [|done].
    unfold pthread_create. rewrite (first_unused_start L keeps_buffer s HI Hc). case_decide as HL0.
    + intros [= <- <-]. rewrite on_failed by done. split; [by apply at_exit|by split].
    + intros [= <- <-]. rewrite on_created. set (s1 := Process _ _ _ _). split_and!.
      * apply at_cancel. by apply (not_asked_insert s _ (Slot (Created NULL) false false)).
      * intros i p Hp%threads_unused; [|done..]. destruct Hp; [by left|right; by left].
      * intros v. by rewrite (state_of_insert s s1 0 (Slot (Created NULL) false false)) by (done || lia).
  - revert Hs. unfold cancel_and_join, act, atomic. cbn [mbind prog_bind pbind prog_step]. unfold live at 1. case_decide; [|done].
    unfold pthread_cancel. destruct (slots s !! 0%nat) as [th|] eqn:Hth; [|done]. case_decide as Hu; [done|].
    unfold set_slot. intros [= <- <-]. set (th' := Slot (state th) (detached th) true).
    assert (0 < length (slots s))%nat as Hlen by (by eapply lookup_lt_Some).
    assert (∀ j, state_of (set_slots (<[0%nat := th']> (slots s)) s) j = state_of s j) as Hst.
    { intros j. unfold state_of. simpl. destruct (decide (0%nat = j)) as [<-|Hne].
      - by rewrite list_lookup_insert_eq, Hth by done.
      - by rewrite list_lookup_insert_ne. }
    split_and!; [|intros i p; unfold thread_at; by rewrite Hst|by rewrite Hst].
    apply at_joining. exists th'. simpl. rewrite list_lookup_insert_eq by done.
    split_and!; [done..|]. exact (ci_attached _ _ _ HC 0%nat th Hth).
  - revert Hs. unfold joining, act, atomic. cbn [pbind prog_step]. unfold live at 1. case_decide; [|done].
    unfold pthread_join. rewrite Hth, Hd. destruct (state th) as [| | |v] eqn:Hst; try done. intros [= <- <-].
    assert (0 < length (slots s))%nat as Hlen by (by eapply lookup_lt_Some). split_and!.
    + apply at_exit. intros (x & Hx & Hcx & _). simpl in Hx. rewrite list_lookup_insert_eq in Hx by done. by simplify_eq.
    + intros i p [?|[?|(_ & Hrun & _)]]; [by left|right; by left|]. unfold state_of in Hrun. rewrite Hth in Hrun.
      simpl in Hrun. congruence.
    + intros v'. by rewrite (state_of_insert s _ 0 unused) by (done || lia).
  - revert Hs. unfold exit_process, act, atomic. cbn [prog_step]. unfold live. case_decide; [|done].
    intros [= <- <-]. split; [by apply at_returned|by split].
  - done.
Qed.

Lemma places_step c c' : inv (fst c) → places c → step c c' → places c'.
Proof.
  intros HI [Hlen Hm Hth Hv] Hs. destruct Hs as [s ths i p p' s' Hp Hs]. cbn [fst snd] in *.
  assert (i < L + 1)%nat as Hi by (rewrite <-Hlen; by eapply lookup_lt_Some).
  destruct (decide (i = L)) as [->|Hne].
  - destruct (main_at_step s p p' s' HI (Hm p Hp) Hs Hv) as (Hm' & Hall & Hv'). split; cbn [fst snd].
    + by rewrite length_insert.
    + rewrite list_lookup_insert_eq by lia. by intros m [= <-].
    + intros j q Hj. rewrite list_lookup_insert_ne by lia. intros Hq. by apply Hall, Hth.
    + done.
  - destruct (thread_at_step s i p p' s' HI ltac:(lia) (Hth i p ltac:(lia) Hp) Hs Hv) as (Hp' & Ha & Hr & Hc & Hall & Hv').
    split; cbn [fst snd].
    + by rewrite length_insert.
    + intros m. rewrite list_lookup_insert_ne by done. intros Hq. eapply main_at_same; [done..|by apply Hm].
    + intros j q Hj [(<- & <- & _)|[Hjne Hq]]%list_lookup_insert_Some; [done|]. by apply Hall; [|apply Hth].
    + done.
Qed.

Lemma places_start : places (initial L (start_with 0 []), program L start the_main).
Proof.
  split; cbn [fst snd].
  - unfold program. by rewrite length_app, length_replicate.
  - intros m. unfold program. rewrite lookup_app_r, length_replicate, Nat.sub_diag by (by rewrite length_replicate).
    intros [= <-]. apply at_hello; [done|]. intros (th & [-> _]%lookup_replicate & Hc & _). done.
  - intros i p Hi. unfold program. rewrite lookup_app_l by (by rewrite length_replicate).
    intros [-> _]%lookup_replicate. by left.
  - intros v Hv. unfold state_of in Hv. apply fmap_Some in Hv as (th & [-> _]%lookup_replicate & Hv). done.
Qed.

Section reached.
Context (all_inv : ∀ c, steps (initial L (start_with 0 []), program L start the_main) c → inv (fst c)).

Lemma places_reached c : steps (initial L (start_with 0 []), program L start the_main) c → places c.
Proof.
  revert c. apply (rtc_ind_r _ _ places_start). intros c c' Hc Hs IH. by apply (places_step c); [apply all_inv| |].
Qed.

(** [main] waits for nothing but a thread it has asked to terminate. *)
Lemma waits_asked c m : places c → snd c !! L = Some m → result (fst c) = None → prog_step m L (fst c) = Blocked → asked (fst c).
Proof.
  intros [_ Hm _ _] Hml Hr Hb. destruct (Hm m Hml) as [Hc Ha|Hc Ha|Ha|Ha|r Ha|Ha Hr']; [exfalso..|done|exfalso|done].
  - revert Hb. unfold the_main, print, on_memory, act, atomic. cbn [pbind prog_step]. unfold live. by rewrite decide_True.
  - revert Hb. unfold creating, act, atomic. cbn [pbind prog_step]. unfold live. rewrite decide_True by done.
    unfold pthread_create. by destruct (first_unused _).
  - revert Hb. unfold cancel_and_join, act, atomic. cbn [mbind prog_bind pbind prog_step]. unfold live at 1.
    rewrite decide_True by done. unfold pthread_cancel. destruct (slots (fst c) !! 0%nat); [|done]. by case_decide.
  - revert Hb. unfold exit_process, act, atomic. cbn [prog_step]. unfold live. by rewrite decide_True.
Qed.

(** Once it has, every execution is finite. *)
Lemma asked_sn c : inv (fst c) → places c → asked (fst c) → sn step c.
Proof.
  intros [HL HI] [Hlen Hm Hth _] Ha.
  destruct (weights_of (weighs L start (fst c)) (snd c)) as [ws Hws].
  - intros i p Hp. assert (i < L + 1)%nat as Hi by (rewrite <-Hlen; by eapply lookup_lt_Some).
    destruct (decide (i = L)) as [->|Hne].
    { destruct (Hm p Hp) as [Hc Hna|Hc Hna|Hna|_|r Hna|Hna Hr]; try done. exists 2%nat. apply weighs_joining. }
    assert (i < L)%nat as HiL by lia.
    assert (idle (fst c) i ∨ i = 0%nat ∧ ∃ arg, asked_in (Created arg) (fst c)) as Hidle.
    { destruct (slots (fst c) !! i) as [th|] eqn:Ht; [|left; by intros th arg ?; congruence].
      destruct (decide (i = 0%nat)) as [->|Hi0].
      - destruct Ha as (th' & Hth' & Hc & Hd). assert (th' = th) as -> by congruence.
        destruct (state th) as [|arg| |v] eqn:Hst; [left; intros x arg ?; congruence| |left; intros x arg ?; congruence..].
        right. split; [done|]. exists arg, th. by split_and!.
      - left. intros x arg Hx Hst. destruct (ci_created _ _ _ HI). rewrite (ci_first _ _ _ HI i x Hx) in Hst; [done|lia]. }
    destruct (Hth i p HiL Hp) as [->|[->|(-> & Hrun & Hall)]].
    + destruct Hidle as [?|[-> [arg ?]]]; [exists 1%nat; by apply weighs_slot|]. eexists. by apply (weighs_created _ _ _ arg).
    + destruct Hidle as [?|[-> [arg ?]]]; [exists 0%nat; by apply weighs_waiting|]. eexists. by apply (weighs_created_waiting _ _ _ arg).
    + exists (STEPS + 2)%nat. apply weighs_running; [done|done| |by apply (Hall 1%nat)].
      destruct Ha as (th & Ht & Hc & Hd). exists th. split_and!; try done. unfold state_of in Hrun. rewrite Ht in Hrun. simpl in Hrun. congruence.
  - apply (weighs_sn L start (λ arg, proj1 (start_always 1 arg)) ws c Hws).
Qed.
End reached.
End where_they_are.

(** * The programs *)

(** In every interleaving only the faults in [expected] may happen; [main] waits
    for nothing but a thread it has asked to terminate, and every execution from
    there is finite; nothing stops before [main] returns; the thread ends as a
    cancelled one; and [main] returns 0 after the thread has ended and was joined,
    and then [Q] holds, or -1 without room for the thread. *)
Definition cancels (L : nat) (expected : fault → Prop) (Q : proc → Prop)
    (start : ptr → prog proc value) (main : prog proc unit) : Prop :=
  ∀ c, steps (initial L (start_with 0 []), program L start main) c →
    (∀ e, faulty c e → expected e) ∧ (stuck c → result (fst c) ≠ None) ∧
    (∀ m, snd c !! L = Some m → result (fst c) = None → prog_step m L (fst c) = Blocked → asked (fst c)) ∧
    (asked (fst c) → sn step c) ∧
    (∀ v, state_of (fst c) 0 = Some (Finished v) → v = PTHREAD_CANCELED) ∧
    ∀ r, result (fst c) = Some r → r = 0 ∧ state_of (fst c) 0 = Some Unused ∧ Q (fst c) ∨ r = -1 ∧ L = 0%nat.

Lemma cancels_intro L keeps expected start k (Q : proc → Prop) :
  routine_safe L keeps expected start →
  (∀ n s, before_create s → safe (H:=cj_rg L keeps expected) n L (the_main k) s) →
  k (0, Some 0%nat) = cancel_and_join 0 → (L = 0%nat → k (EAGAIN, None) = exit_process (-1)) →
  (∀ n arg, always start n (begun_thread start arg)) →
  (∀ s, (keeps = true → buffer_left s) → Q s) →
  cancels L expected Q start (the_main k).
Proof.
  intros Hstart Hmain Hok Hfail Halways HQ.
  pose proof (process_sound L (cj_inv L keeps) cj_rely expected cj_rely_refl cj_rely_trans start (the_main k) (start_with 0 [])) as Hsound.
  assert (∀ c, steps (initial L (start_with 0 []), program L start (the_main k)) c →
    process_inv L (cj_inv L keeps) (fst c) ∧ (∀ e, faulty c e → expected e) ∧ (stuck c → result (fst c) ≠ None)) as Hall.
  { intros c Hc. apply Hsound; [apply cj_initial|intros; by apply cj_slot_safe|intros n; by apply Hmain|done]. }
  intros c Hc. destruct (Hall c Hc) as (HI & Hf & Hst).
  assert (places L start k c) as Hpl by (eapply places_reached; [done..|intros c' Hc'; by apply Hall|done]).
  split_and!; [done|done| | |apply Hpl|].
  - intros m Hm. by eapply waits_asked.
  - by eapply asked_sn.
  - intros r Hr. destruct HI as [HL HI]. destruct (ci_result _ _ _ HI r Hr) as [(-> & Hcr & Hu)|[-> HL0]]; [left|by right].
    split; [done|]. split; [done|]. apply HQ. destruct (ci_start _ _ _ HI) as [?|Hb]; [|congruence|done].
    unfold is_busy. rewrite Hu. by intros [].
Qed.

(** The threads of 4/a.c, 4/b.c and 4/c.c end when they are asked to. *)
Ltac solve_always := repeat (show_act; first
  [ apply always_ending | match goal with H : ∀ x', always _ _ (Loop _ x' _) |- _ => apply H end
  | apply always_act_le; [solve_quiet|solve_ends|intros ?] | match goal with |- context [if ?b then _ else _] => is_var b; destruct b end ]).
Lemma P4a_always st n arg : always st n (pbind (P4a.mythread arg) (ending st)).
Proof.
  unfold P4a.mythread. cbn [pbind]. apply always_loop; clear n; [intros ?; solve_ends|].
  intros n x Hloop. solve_always.
Qed.
Lemma P4b_always st n arg : always st n (pbind (P4b.mythread arg) (ending st)).
Proof.
  unfold P4b.mythread. cbn [pbind]. apply always_loop; clear n; [intros ?; solve_ends|].
  intros n x Hloop. solve_always.
Qed.
Lemma P4c_always pthread_self st n arg : always st n (pbind (P4c.mythread pthread_self arg) (ending st)).
Proof.
  unfold P4c.mythread, P4c.myfree. cbv zeta. do 3 (show_act; apply always_act_le; [solve_quiet|solve_ends|intros ?]).
  show_act. apply always_loop; clear n; [intros ?; solve_ends|].
  intros n x Hloop. solve_always.
Qed.

(** What [main] does with the result of [pthread_create]: 4/a.c and 4/b.c, and
    4/c.c *)
Definition on_create (r : Z * option nat) : prog proc unit :=
  if decide (fst r ≠ 0) then exit_process (-1) else t ← initialised (snd r); cancel_and_join t.
Definition on_create_c (r : Z * option nat) : prog proc unit :=
  if decide (fst r = -1) then exit_process (-1) else t ← initialised (snd r); cancel_and_join t.

Lemma create_and_cancel_cancels L expected start : routine_safe L false expected start →
  (∀ st n arg, always st n (pbind (start arg) (ending st))) →
  cancels L expected (λ _, True) start create_and_cancel.
Proof.
  intros Hstart Halways. apply (cancels_intro L false expected start on_create); try done.
  - intros n s Hs. exact (create_and_cancel_safe L false expected n s Hs).
  - intros n arg. apply Halways.
Qed.

(** C28: lab1/src/4, in every interleaving. [main] comes to [pthread_join] without
    waiting for anything, having asked the thread to terminate; from then on every
    execution is finite, and nothing stops before [main] has returned: the thread
    ends as a cancelled one, is joined, and [main] returns 0 (-1 without room for
    the thread). The one fault is the overflow of the counter of 4/b.c. The cleanup
    handler of 4/c.c was given the value [msg] had before [malloc], so the buffer
    is never freed; and without room for the thread its [main], which takes a
    failure to be -1, cancels a thread it never created. *)
Theorem cancelled_and_joined (L : nat) :
  cancels L (λ _, False) (λ _, True) P4a.mythread P4a.main ∧
  cancels L (λ e, e = Overflow) (λ _, True) P4b.mythread P4b.main ∧
  (∀ pthread_self, (0 < L)%nat → cancels L (λ _, False) buffer_left (P4c.mythread pthread_self) P4c.main) ∧
  ∃ c, steps (initial 0 (start_with 0 []), program 0 (P4c.mythread Z.of_nat) P4c.main) c ∧ faulty c Uninit.
Proof.
  split_and!.
  - apply create_and_cancel_cancels; [by apply P4a_routine|apply P4a_always].
  - apply create_and_cancel_cancels; [by apply P4b_routine|apply P4b_always].
  - intros pthread_self HL. apply (cancels_intro L true _ _ on_create_c); try done; try lia; [apply P4c_routine| | |by auto].
    + intros n s Hs. exact (P4c_main_safe L true _ n s Hs HL).
    + intros n arg. apply P4c_always.
  - apply (run_schedule_faulty (replicate 10 0%nat)). vm_compute. reflexivity.
Qed.
Example cancelled_and_joined_witness : cancels 1 (λ _, False) buffer_left (P4c.mythread Z.of_nat) P4c.main.
Proof. destruct (cancelled_and_joined 1) as (_ & _ & H & _). apply H. lia. Defined.
