(* ===== verification/Detached.v ===== *)
(** Detached: lab1/src/2/d.c, 2/e.c and 2/f.c, which create threads for as long as
    they can: d.c neither joins nor detaches them. *)
From S2P Require Import Prelude Threads Process Lab1 ForkJoin.
#[local] Open Scope Z_scope.

(** * 2/d.c runs out of threads *)

Section exhausted.
Context (L : nat).
(** [main] never has all of [L + 1] threads, nor joins one. *)
#[local] Instance d_rg : RG proc := fj_rg L (S L) 0 EXIT_FAILURE false.
Abbreviation inv := (fj_inv L (S L) 0 EXIT_FAILURE false).

Lemma P2d_main_safe n : safe n L P2d.main (initial L (start_with 0 [])).
Proof.
  destruct (fj_initial L (S L) 0 EXIT_FAILURE false) as [HI Hcr]. unfold P2d.main, mbind, prog_bind.
  apply (main_print_safe L (S L) 0 EXIT_FAILURE false (creating 0));
    [exact (creating_stable _ _ _ _ _ 0)|exact (creating_calm 0)|done|done|].
  intros m s _ Hcr1 HI1. cbn [pbind].
  apply (safe_loop (λ (_ : unit) s, inv s ∧ ∃ i, creating i s ∧ (i ≤ L)%nat)); [| |by split; [|exists 0%nat; split; [|lia]]].
  - intros _ s1 s2 [H1 (i & Hi & HiL)] HR [_ HI2]. split; [done|]. exists i. split; [|done].
    exact (creating_stable _ _ _ _ _ _ _ _ H1 Hi HR).
  - clear. intros m1 _ s Hm [HI (i & Hcr & HiL)] Hloop. rewrite pbind_assoc.
    eapply (fj_create_safe L (S L) 0 EXIT_FAILURE false); [done|done|lia|..]; cbn [fst].
    + intros m' s' Hm' Hcr' HI'. rewrite decide_False by (intros Hz; by apply Hz). cbn [pbind]. apply Hloop; [lia|].
      split; [done|]. exists (i + 1)%nat. split; [done|]. destruct Hcr' as (_ & Hc & _). destruct (fi_created _ _ _ _ _ _ HI'). lia.
    + intros m' s' Hm' Hcr' HI' ->. rewrite decide_True by done. cbn [pbind].
      apply (fj_failed_exit_safe L (S L) 0 EXIT_FAILURE false); [done..|lia].
Qed.
End exhausted.

(** * 2/e.c and 2/f.c *)

Section detached.
Context (L : nat).
Implicit Types (s : proc).

Definition e_inv s : Prop := ∀ r, result s = Some r → r = EXIT_FAILURE.
Definition e_rely (i : nat) s s' : Prop := True.
#[local] Instance e_rg : RG proc := process_rg L e_inv e_rely (λ _, False) (λ _ _, Logic.I) (λ _ _ _ _ _ _, Logic.I).

Lemma e_print_safe n i x k s : (∀ m s', (m ≤ n)%nat → safe m i (k tt) s') → safe n i (pbind (print x) k) s.
Proof.
  intros Hk. destruct n as [|n]; [done|]. apply safe_memory. intros s1 [HL HI] HR Hr. simpl.
  split; [exact HI|]. split; [done|]. apply Hk. lia.
Qed.
Lemma e_slot_safe n i s x : (i < L)%nat → state_of s i ≠ Some Running →
  safe n i (thread_slot (λ _, print x;; mret NULLV)) s.
Proof.
  intros Hi. apply (thread_slot_safe L e_inv e_rely (λ _, False) (λ _ _, Logic.I) (λ _ _ _ _ _ _, Logic.I) _ i Hi (λ _ _, True) (λ _ _, True)).
  - by intros s1 arg th [_ HI].
  - by intros s1 v th [_ HI].
  - done.
  - intros m s1 arg k _ Hrun Hk. unfold mbind, prog_bind. rewrite pbind_assoc.
    destruct m as [|m]; [done|]. apply safe_memory. intros s2 [HL HI] HR Hr. simpl.
    split; [exact HI|]. split; [done|]. apply Hk; [lia|done|]. change (state_of s2 i = Some Running). by eapply (running_stable L).
Qed.

Lemma exit_failure_safe n s : safe n L (exit_process EXIT_FAILURE) s.
Proof. apply safe_exit. intros s1 _ _ _. split; [|done]. by intros r [= <-]. Qed.

Lemma P2f_main_safe n s : safe n L P2f.main s.
Proof.
  unfold P2f.main, mbind, prog_bind. apply e_print_safe. intros m s1 _. cbn [pbind].
  apply (safe_loop (λ (_ : unit) (_ : proc), True)); [done| |done]. clear. intros m1 _ s Hm _ Hloop. rewrite pbind_assoc.
  destruct m1 as [|m1]; [done|]. apply safe_create. intros s1 [HL HI] HR Hr. destruct (first_unused s1) as [t|]; cbn [fst pbind].
  - split; [exact HI|]. split; [done|]. rewrite decide_False by (intros Hz; by apply Hz). cbn [pbind]. by apply Hloop; [lia|].
  - rewrite decide_True by done. apply exit_failure_safe.
Qed.

(** A thread that was created stays until it is detached. *)
Lemma P2e_main_safe n s : safe n L P2e.main s.
Proof.
  unfold P2e.main, mbind, prog_bind. apply e_print_safe. intros m s1 _. cbn [pbind].
  apply (safe_loop (λ (_ : unit) (_ : proc), True)); [done| |done]. clear. intros m1 _ s Hm _ Hloop. rewrite pbind_assoc.
  destruct m1 as [|m1]; [done|]. apply safe_create. intros s1 [HL HI] HR Hr. destruct (first_unused s1) as [t|] eqn:Ht; cbn [fst snd].
  2:{ rewrite decide_True by done. apply exit_failure_safe. }
  apply first_unused_Some in Ht as (th & Ht & _).
  split; [exact HI|]. split; [done|]. rewrite decide_False by (intros Hz; by apply Hz). cbn [initialised]. 
  unfold mret, prog_ret. cbn [pbind]. rewrite pbind_assoc.
  destruct m1 as [|m1]; [done|]. apply safe_detach. intros s2 [HL2 HI2] (_ & HR2 & _) Hr2.
  destruct (HR2 eq_refl) as (_ & _ & Hall). rewrite Forall2_lookup in Hall. specialize (Hall t). simpl in Hall.
  rewrite list_lookup_insert_eq in Hall by (by eapply lookup_lt_Some).
  destruct (slots s2 !! t) as [th2|] eqn:Ht2; inversion Hall as [th1' th2' (_ & Hd & _)|]; simplify_eq. exists th2. split; [done|].
  destruct (Hd eq_refl) as [_ Hu]. split; [intros Hst; by specialize (Hu Hst)|].
  split; [exact HI2|]. split; [done|]. cbn [pbind]. by apply Hloop; [lia|].
Qed.
End detached.

(** * Both together *)

(** A program with room for [L] threads *)
Definition P2d_config (L : nat) : config proc := (initial L (start_with 0 []), program L P2d.mythread P2d.main).
Definition P2e_config (L : nat) : config proc := (initial L (start_with 0 []), program L P2e.mythread P2e.main).
Definition P2f_config (L : nat) : config proc := (initial L (start_with 0 []), program L P2f.mythread P2f.main).

(** What is left of [main] after its first step *)
Definition after_hello (main : prog proc unit) : prog proc unit :=
  match prog_step main 1%nat (initial 1 (start_with 0 [])) with Ok p _ => p | _ => main end.
(** One round of [main], and of the thread that it creates, in the same slot *)
Definition P2e_round (x : shared_t) (n : nat) : config proc :=
  (Process [unused] x None n, [thread_slot P2e.mythread;
    after_hello P2e.main]).
Definition P2f_round (x : shared_t) (n : nat) : config proc :=
  (Process [unused] x None n, [thread_slot P2f.mythread;
    after_hello P2f.main]).
Definition hello (x : shared_t) : shared_t :=
  Shared (global x) (ints x) (arrays x) (datas x) (answers x) (stdout x ++ [Text "Hello from mythread!"]) (written x).

Lemma P2e_one x n : steps (P2e_round x n) (P2e_round (hello x) (S n)).
Proof. apply (run_schedule_steps ([1; 1; 1; 0; 0; 0; 0])%nat). reflexivity. Qed.
Lemma P2f_one x n : steps (P2f_round x n) (P2f_round (hello x) (S n)).
Proof. apply (run_schedule_steps ([1; 1; 0; 0; 0; 0])%nat). reflexivity. Qed.
Lemma any_number (round : shared_t → nat → config proc) c x0 n :
  steps c (round x0 0%nat) → (∀ x n, steps (round x n) (round (hello x) (S n))) → ∃ x, steps c (round x n).
Proof.
  intros H0 Hone. induction n as [|n [x IH]]; [by exists x0|]. exists (hello x). by etransitivity.
Qed.

(** C29: Threads that are neither joined nor detached take up what the process has
    room for: in every interleaving 2/d.c creates [L] threads, no more, and then
    fails. With detached threads, 2/e.c and 2/f.c, room for one suffices to create
    any number of them one after the other. None of the three runs into a fault or
    stops before [main] returns. *)
Theorem detached_threads (L : nat) :
  (∀ c, steps (P2d_config L) c → (∀ e, ¬ faulty c e) ∧ (stuck c → result (fst c) ≠ None) ∧
     (created (fst c) ≤ L)%nat ∧ ∀ r, result (fst c) = Some r → r = EXIT_FAILURE ∧ created (fst c) = L) ∧
  (∀ c, steps (P2e_config L) c ∨ steps (P2f_config L) c →
     (∀ e, ¬ faulty c e) ∧ (stuck c → result (fst c) ≠ None) ∧ ∀ r, result (fst c) = Some r → r = EXIT_FAILURE) ∧
  (∀ n, ∃ c, steps (P2e_config 1) c ∧ created (fst c) = n ∧ result (fst c) = None) ∧
  (∀ n, ∃ c, steps (P2f_config 1) c ∧ created (fst c) = n ∧ result (fst c) = None).
Proof.
  split_and!.
  - intros c Hc.
    destruct (process_sound L (fj_inv L (S L) 0 EXIT_FAILURE false) fj_rely (λ _, False) fj_rely_refl fj_rely_trans
      P2d.mythread P2d.main (start_with 0 []) c) as ([HL HI] & Hf & Hst); [apply fj_initial| |intros; apply P2d_main_safe|done|].
    { intros n i s Hi. apply fj_slot_safe; [by apply print_only|done]. }
    destruct (fi_created _ _ _ _ _ _ HI) as [_ HcL]. split; [done|]. split; [done|]. split; [done|]. intros r Hr.
    destruct (fi_result _ _ _ _ _ _ HI r Hr) as [(_ & Hcr & _)|(-> & -> & _)]; [lia|done].
  - intros c [Hc|Hc].
    + destruct (process_sound L e_inv e_rely (λ _, False) (λ _ _, Logic.I) (λ _ _ _ _ _ _, Logic.I)
        P2e.mythread P2e.main (start_with 0 []) c) as ([HL HI] & Hf & Hst); [done|intros; by apply e_slot_safe|intros; apply P2e_main_safe|done|done].
    + destruct (process_sound L e_inv e_rely (λ _, False) (λ _ _, Logic.I) (λ _ _ _ _ _ _, Logic.I)
        P2f.mythread P2f.main (start_with 0 []) c) as ([HL HI] & Hf & Hst); [done|intros; by apply e_slot_safe|intros; apply P2f_main_safe|done|done].
  - intros n. destruct (any_number P2e_round (P2e_config 1) _ n ltac:(apply (run_schedule_steps [1]%nat); reflexivity) P2e_one) as [x Hx].
    by exists (P2e_round x n).
  - intros n. destruct (any_number P2f_round (P2f_config 1) _ n ltac:(apply (run_schedule_steps [1]%nat); reflexivity) P2f_one) as [x Hx].
    by exists (P2f_round x n).
Qed.
Example detached_threads_witness : ∃ c, steps (P2e_config 1) c ∧ created (fst c) = 3%nat ∧ result (fst c) = None.
Proof. destruct (detached_threads 1) as (_ & _ & H & _). apply (H 3%nat). Defined.
