(* ===== verification/Signals.v ===== *)
(** Signals: lab1/src/5/a.c, whose threads block a signal, handle one, and wait for
    two with sigwait, while [main] sends SIGQUIT and SIGUSR1 to the process. *)
From S2P Require Import Prelude Threads.
#[local] Open Scope Z_scope.

(** * The model *)

Definition SIGINT : Z := 2.
Definition SIGQUIT : Z := 3.
Definition SIGUSR1 : Z := 10.
Definition NSIG : Z := 65.

(** What the program prints: a blocked signal, or what a thread waits for or has
    caught *)
Inductive line := Blocked_signal (i : Z) | Hello | Signals_blocked | Waiting (thread : nat) (sig : Z) | Caught (thread : nat) (sig : Z) | Perror.

(** The signal mask of each thread, [main] is thread 0; the threads that were
    created; the signals sent to the process that no thread has taken; those with
    a handler; the signal that has terminated the process, and what [main]
    returned. *)
Record sigstate := SigState {
  masks : list (gset Z);
  created : gset nat;
  pending : gset Z;
  handlers : gset Z;
  killed : option Z;
  result : option Z;
  stdout : list line;
}.

Definition set_masks m s := SigState m (created s) (pending s) (handlers s) (killed s) (result s) (stdout s).
Definition set_created m s := SigState (masks s) m (pending s) (handlers s) (killed s) (result s) (stdout s).
Definition set_pending m s := SigState (masks s) (created s) m (handlers s) (killed s) (result s) (stdout s).
Definition set_handlers m s := SigState (masks s) (created s) (pending s) m (killed s) (result s) (stdout s).
Definition set_killed m s := SigState (masks s) (created s) (pending s) (handlers s) m (result s) (stdout s).
Definition set_result m s := SigState (masks s) (created s) (pending s) (handlers s) (killed s) m (stdout s).
Definition set_stdout m s := SigState (masks s) (created s) (pending s) (handlers s) (killed s) (result s) m.

(** Nothing runs after the end of the process. *)
Definition alive s : bool := bool_decide (killed s = None ∧ result s = None).
Definition act {A} (m : C sigstate A) : prog sigstate A :=
  atomic (λ t s, if alive s then m t s else Blocked).

Definition print (x : line) : prog sigstate unit := act (modify (λ s, set_stdout (stdout s ++ [x]) s)).
Definition sleep : prog sigstate unit := act (mret tt).

Definition mask_of (t : nat) s : gset Z := default ∅ (masks s !! t).

(** [pthread_sigmask(SIG_BLOCK, set, NULL)], for the running thread only *)
Definition SIG_BLOCK (set : gset Z) : prog sigstate unit := act (λ t s,
  Ok tt (set_masks (<[t := set ∪ mask_of t s]> (masks s)) s)).
Definition sigaction (sig : Z) : prog sigstate unit := act (modify (λ s, set_handlers ({[sig]} ∪ handlers s) s)).

(** [kill(getpid(), sig)]: a signal the caller does not block is delivered before
    [kill] returns, to a thread that does not block it; unless it has a handler,
    which is the answer, it terminates the process. A signal the caller blocks
    stays for a thread that takes it. The program starts with the default
    dispositions and gets no signal from another process: neither an inherited
    SIG_IGN nor a signal from outside is in the model. *)
Definition kill (sig : Z) : C sigstate bool := λ t s,
  if decide (sig ∈ mask_of t s) then Ok false (set_pending ({[sig]} ∪ pending s) s)
  else if decide (sig ∈ handlers s) then Ok true s
  else Ok false (set_killed (Some sig) s).

(** [sigwait] for the one signal of its set *)
Definition sigwait (sig : Z) : prog sigstate Z := act (λ t s,
  if decide (sig ∈ pending s) then Ok sig (set_pending (pending s ∖ {[sig]}) s) else Blocked).

(** [pause] returns when a handler has run in the thread; the answer is its signal. *)
Definition pause : C sigstate Z := λ t s,
  match elements ((pending s ∩ handlers s) ∖ mask_of t s) with
  | sig :: _ => Ok sig (set_pending (pending s ∖ {[sig]}) s)
  | [] => Blocked
  end.

(** A new thread has the mask of the thread that creates it. [ok]: is it created? *)
Definition pthread_create (i : nat) (ok : bool) : prog sigstate (option nat) := act (λ t s,
  if ok then Ok (Some i) (set_masks (<[i := mask_of t s]> (masks s)) (set_created ({[i]} ∪ created s) s))
  else Ok None s).
(** The threads of this program do not end. *)
Definition pthread_join (t : option nat) : prog sigstate unit :=
  act (match t with Some _ => wait | None => fail Uninit end).

(** A thread runs once it was created. *)
Definition thread (body : prog sigstate unit) : prog sigstate unit :=
  act (λ t s, if decide (t ∈ created s) then Ok tt s else Blocked);; body.

(** * The program *)

(** [ok]: does [sigprocmask] succeed? *)
Definition print_sigmask (ok : bool) : prog sigstate unit :=
  if ok then
    current_mask ← act (λ t s, Ok (mask_of t s) s);
    Loop (λ i : Z,
      if decide (i < NSIG) then
        (if decide (i ∈ (current_mask : gset Z)) then print (Blocked_signal i) else mret tt);;
        mret (inl (i + 1))
      else mret (inr tt)) 1 Ret
  else print Perror.

Definition block_signals : prog sigstate unit :=
  SIG_BLOCK {[SIGINT; SIGQUIT]};;
  print Signals_blocked;;
  forever (λ _ : unit, sleep) tt.

Definition sigint_handler (signum : Z) : prog sigstate unit := print (Caught 2 SIGINT).

Definition handle_sigint : prog sigstate unit :=
  sigaction SIGINT;;
  print (Waiting 2 SIGINT);;
  forever (λ _ : unit, sig ← act pause; sigint_handler sig) tt.

Definition wait_sigquit : prog sigstate unit :=
  print (Waiting 3 SIGQUIT);;
  forever (λ _ : unit, _ ← sigwait SIGQUIT; print (Caught 3 SIGQUIT)) tt.

Definition wait_sigusr1 : prog sigstate unit :=
  print (Waiting 4 SIGUSR1);;
  forever (λ _ : unit, _ ← sigwait SIGUSR1; print (Caught 4 SIGUSR1)) tt.

Definition send (sig : Z) : prog sigstate unit :=
  handled ← act (kill sig);
  if (handled : bool) then sigint_handler sig else mret tt.

(** [ok i]: is thread [i] created? [main] does not look. *)
Definition main (mask_ok : bool) (ok : nat → bool) : prog sigstate unit :=
  print_sigmask mask_ok;;
  print Hello;;
  SIG_BLOCK {[SIGUSR1]};;
  thread1 ← pthread_create 1 (ok 1%nat);
  thread2 ← pthread_create 2 (ok 2%nat);
  send SIGQUIT;;
  sleep;;
  send SIGUSR1;;
  sleep;;
  thread3 ← pthread_create 3 (ok 3%nat);
  _ ← pthread_create 4 (ok 4%nat);
  pthread_join thread1;;
  pthread_join thread2;;
  pthread_join thread3;;
  act (modify (set_result (Some 0))).

Definition program (mask_ok : bool) (ok : nat → bool) : list (prog sigstate unit) :=
  [main mask_ok ok; thread block_signals; thread handle_sigint; thread wait_sigquit; thread wait_sigusr1].
(** [mask]: the signals that were blocked before *)
Definition initial (mask : gset Z) : sigstate := SigState (replicate 5 mask) ∅ ∅ ∅ None None [].

(** * SIGQUIT terminates the process *)

Record sig_inv s : Prop := {
  gi_masks : length (masks s) = 5%nat;
  gi_main : SIGQUIT ∉ mask_of 0 s;
  gi_handlers : SIGQUIT ∉ handlers s;
  gi_created : ∀ i, i ∈ created s → (1 ≤ i ≤ 2)%nat;
  gi_killed : killed s = None ∨ killed s = Some SIGQUIT;
  gi_result : result s = None;
  gi_stdout : ∀ i sig, Caught i sig ∉ stdout s;
  gi_pending : pending s = ∅;
}.

(** A thread relies on it that it stays created, and only [main] kills. *)
Definition sig_rely (i : nat) s s' : Prop := created s ⊆ created s' ∧ (i = 0%nat → killed s' = killed s).
Definition main_dead (i : nat) s : Prop := i = 0%nat → killed s ≠ None.

#[local] Program Instance sig_rg : RG sigstate := {|
  I := sig_inv; R := sig_rely; okf _ := False; wt := main_dead; fin := main_dead |}.
Next Obligation. by split. Qed.
Next Obligation. intros i s1 s2 s3 [A B] [A' B']. split; [by etrans|]. intros Hi. by rewrite B', B. Qed.

Lemma act_safe {B} n i (m : C sigstate B) k s :
  (∀ s1, sig_inv s1 → sig_rely i s s1 → killed s1 = None →
    match m i s1 with
    | Ok b s2 => sig_inv s2 ∧ (∀ j, j ≠ i → sig_rely j s1 s2) ∧ safe n i (k b) s2
    | Blocked => i ≠ 0%nat
    | Fault e => False
    end) →
  safe (S n) i (pbind (act m) k) s.
Proof.
  intros Hm. apply safe_act. intros s1 HI HR. unfold alive. case_bool_decide as Hk.
  - specialize (Hm s1 HI HR (proj1 Hk)). destruct (m i s1); try done. by intros ->.
  - intros _ Hn. apply Hk. split; [done|apply HI].
Qed.
(** A step on fields that the invariant does not constrain, or as it allows *)
Lemma set_stdout_inv x s : (∀ i sig, x ≠ Caught i sig) → sig_inv s → sig_inv (set_stdout (stdout s ++ [x]) s).
Proof.
  intros Hx []. split; try done. simpl. intros i sig [?|He]%elem_of_app; [by eapply gi_stdout0|].
  apply list_elem_of_singleton in He. by eapply Hx.
Qed.
Lemma sig_print_safe n i x k s : (∀ j sig, x ≠ Caught j sig) → (∀ m s', (m ≤ n)%nat → safe m i (k tt) s') →
  safe n i (pbind (print x) k) s.
Proof.
  intros Hx Hk. destruct n as [|n]; [done|]. apply act_safe. intros s1 HI HR _. cbn.
  split; [by apply set_stdout_inv|]. split; [by intros j _; split|]. apply Hk. lia.
Qed.
Lemma sleep_safe n i k s : (∀ m s', (m ≤ n)%nat → safe m i (k tt) s') → safe n i (pbind sleep k) s.
Proof.
  intros Hk. destruct n as [|n]; [done|]. apply act_safe. intros s1 HI HR _. cbn.
  split; [done|]. split; [by intros j _; split|]. apply Hk. lia.
Qed.
Lemma SIG_BLOCK_safe n i set k s : (i = 0%nat → SIGQUIT ∉ set) → (∀ m s', (m ≤ n)%nat → safe m i (k tt) s') →
  safe n i (pbind (SIG_BLOCK set) k) s.
Proof.
  intros Hset Hk. destruct n as [|n]; [done|]. apply act_safe. intros s1 HI HR _. cbn.
  split; [|split; [by intros j _; split|apply Hk; lia]].
  destruct HI. split; try done; simpl.
  - by rewrite length_insert.
  - unfold mask_of in *. simpl. destruct (decide (i = 0%nat)) as [->|Hne].
    + rewrite list_lookup_insert_eq by lia. simpl. apply not_elem_of_union. auto.
    + by rewrite list_lookup_insert_ne.
Qed.
Lemma sig_create_safe n i ok k s : (1 ≤ i ≤ 2)%nat → (∀ m s' t, (m ≤ n)%nat → safe m 0 (k t) s') →
  safe n 0 (pbind (pthread_create i ok) k) s.
Proof.
  intros Hi Hk. destruct n as [|n]; [done|]. apply act_safe. intros s1 HI HR _. destruct ok.
  2:{ split; [done|]. split; [by intros j _; split|apply Hk; lia]. }
  split; [|split; [|apply Hk; lia]].
  - destruct HI. split; try done; simpl.
    + by rewrite length_insert.
    + unfold mask_of in *. simpl. by rewrite list_lookup_insert_ne by lia.
    + intros j [->%elem_of_singleton|?]%elem_of_union; [lia|auto].
  - intros j _. split; [simpl; set_solver|done].
Qed.
(** A thread that takes signals never gets one. *)
Lemma no_signal_safe {B} n i (m : C sigstate B) k s : i ≠ 0%nat → (∀ s, pending s = ∅ → m i s = Blocked) →
  safe n i (pbind (act m) k) s.
Proof.
  intros Hi Hm. destruct n as [|n]; [done|]. apply act_safe. intros s1 HI HR _. by rewrite Hm by apply HI.
Qed.
(** After the end of the process *)
Lemma dead_safe {B} n (m : C sigstate B) k s : killed s ≠ None → safe n 0 (pbind (act m) k) s.
Proof.
  intros Hd. destruct n as [|n]; [done|]. apply act_safe. intros s1 HI [_ HR] Hk. by rewrite HR in Hk.
Qed.

Lemma sig_thread_safe n i body s : i ≠ 0%nat → (∀ n s, i ∈ created s → safe n i body s) → safe n i (thread body) s.
Proof.
  intros Hi Hb. unfold thread, mbind, prog_bind. destruct n as [|n]; [done|]. apply act_safe. intros s1 HI HR _.
  case_decide; [|done]. split; [done|]. split; [by intros j _; split|]. by apply Hb.
Qed.
Lemma forever_safe {Y} n i (body : Y → prog sigstate Y) x s :
  (∀ n x k s, (∀ m x s', (m ≤ n)%nat → safe m i (k x) s') → safe n i (pbind (body x) k) s) → safe n i (forever body x) s.
Proof.
  intros Hb. unfold forever. apply (safe_loop (λ _ _, True)); [done| |done].
  intros m y s' Hm _ Hloop. rewrite pbind_assoc. apply Hb. intros m' y' s'' Hm'. cbn [pbind]. by apply Hloop.
Qed.

Lemma print_sigmask_safe n ok k s : (∀ m s', (m ≤ n)%nat → safe m 0 (k tt) s') → safe n 0 (pbind (print_sigmask ok) k) s.
Proof.
  intros Hk. unfold print_sigmask. destruct ok; [|by apply sig_print_safe]. unfold mbind, prog_bind. rewrite pbind_assoc.
  destruct n as [|n]; [done|]. apply act_safe. intros s1 HI HR _. split; [done|]. split; [by intros j _; split|].
  generalize (mask_of 0 s1). intros mask. cbn [pbind].
  apply (safe_loop (λ _ _, True)); [done| |done]. intros m i s' Hm _ Hloop. case_decide; [|apply Hk; lia].
  rewrite pbind_assoc. case_decide; cbn [pbind mret prog_ret]; [|by apply Hloop].
  apply sig_print_safe; [done|]. intros m' s'' Hm'. by apply Hloop.
Qed.

Lemma sig_main_safe n mask_ok ok s : safe n 0 (main mask_ok ok) s.
Proof.
  unfold main, mbind, prog_bind. apply print_sigmask_safe. intros n1 s1 _.
  apply sig_print_safe; [done|]. intros n2 s2 _. apply SIG_BLOCK_safe; [by intros _ ?%elem_of_singleton|]. intros n3 s3 _.
  apply sig_create_safe; [lia|]. intros n4 s4 t1 _. apply sig_create_safe; [lia|]. intros n5 s5 t2 _.
  unfold send, mbind, prog_bind. rewrite pbind_assoc. destruct n5 as [|n5]; [done|]. apply act_safe. intros s6 HI HR Hk.
  unfold kill. rewrite !decide_False by apply HI. split; [|split].
  - destruct HI. split; try done. by right.
  - intros j Hj. by split.
  - cbn [pbind mret prog_ret]. by apply dead_safe.
Qed.

Lemma sig_threads_safe n i p mask_ok ok s : program mask_ok ok !! i = Some p → safe n i p s.
Proof.
  destruct i as [|[|[|[|[|i]]]]]; simpl; intros [= <-]; [apply sig_main_safe| | | |]; (apply sig_thread_safe; [lia|]; clear n s; intros n s _).
  - unfold block_signals, mbind, prog_bind. apply SIG_BLOCK_safe; [lia|]. intros m1 s1 _. apply sig_print_safe; [done|]. intros m2 s2 _.
    apply forever_safe. intros m x k s' Hk. apply sleep_safe. auto.
  - unfold handle_sigint, mbind, prog_bind. destruct n as [|n]; [done|]. apply act_safe. intros s1 HI HR _. unfold modify. cbv beta iota.
    split; [|split; [by intros j _; split|]].
    + destruct HI. split; try done. simpl. apply not_elem_of_union. split; [by intros ?%elem_of_singleton|done].
    + apply sig_print_safe; [done|]. intros m s2 _. apply forever_safe. intros m' x k s' Hk. cbv beta. rewrite pbind_assoc.
      apply no_signal_safe; [done|]. intros s3 Hp. unfold pause. rewrite Hp.
      by replace ((∅ ∩ handlers s3) ∖ mask_of 2 s3) with (∅ : gset Z) by set_solver.
  - unfold wait_sigquit, mbind, prog_bind. apply sig_print_safe; [done|]. intros m s2 _. apply forever_safe. intros m' x k s' Hk.
    cbv beta. rewrite pbind_assoc. apply no_signal_safe; [done|]. intros s3 Hp. rewrite Hp. by rewrite decide_False by set_solver.
  - unfold wait_sigusr1, mbind, prog_bind. apply sig_print_safe; [done|]. intros m s2 _. apply forever_safe. intros m' x k s' Hk.
    cbv beta. rewrite pbind_assoc. apply no_signal_safe; [done|]. intros s3 Hp. rewrite Hp. by rewrite decide_False by set_solver.
Qed.

(** C38: [main] of 5/a.c does not block the SIGQUIT it sends to its own process,
    which terminates it: in every interleaving, whichever of the first two threads
    could be created, the threads that wait for SIGQUIT and SIGUSR1 are never
    created and no signal is ever caught; [main] can always go on until the process
    is terminated, and then nothing can. *)
Theorem sigquit_terminates (mask : gset Z) (mask_ok : bool) (ok : nat → bool) (c : config sigstate) : SIGQUIT ∉ mask →
  steps (initial mask, program mask_ok ok) c →
  (∀ e, ¬ faulty c e) ∧ (3%nat ∉ created (fst c)) ∧ (4%nat ∉ created (fst c)) ∧ result (fst c) = None ∧
  (∀ i sig, Caught i sig ∉ stdout (fst c)) ∧
  ((∃ p, snd c !! 0%nat = Some p ∧ prog_step p 0%nat (fst c) ≠ Blocked) ∨ killed (fst c) = Some SIGQUIT).
Proof.
  intros Hmask Hc. destruct (rg_sound (initial mask, program mask_ok ok) c) as (HI & Hf & Hb); [|done|].
  { split; [|intros n i p Hp; by eapply sig_threads_safe]. split; try done; simpl; [|set_solver..]. by left. }
  destruct HI. split; [done|]. split; [intros Hi; apply gi_created0 in Hi; lia|]. split; [intros Hi; apply gi_created0 in Hi; lia|]. split; [done|]. split; [done|].
  assert (0 < length (snd c))%nat as Hlen by (rewrite (steps_length _ _ Hc); simpl; lia).
  destruct (lookup_lt_is_Some_2 _ _ Hlen) as [p Hp]. specialize (Hb 0%nat p Hp).
  destruct gi_killed0 as [Hk|]; [left; exists p|by right]. split; [done|]. intros Hpb. specialize (Hb Hpb).
  destruct p; by apply Hb.
Qed.

Lemma sigquit_run : ∃ c, steps (initial ∅, program true (λ _, true)) c ∧ killed (fst c) = Some SIGQUIT.
Proof.
  apply (run_schedule_ends (λ c, killed (fst c) = Some SIGQUIT) (replicate 300 0%nat)). vm_compute. reflexivity.
Qed.
Example sigquit_terminates_witness : ∃ c, steps (initial ∅, program true (λ _, true)) c ∧ killed (fst c) = Some SIGQUIT ∧
  (3%nat ∉ created (fst c)).
Proof.
  destruct sigquit_run as (c & Hs & Hk). exists c. split; [exact Hs|]. split; [exact Hk|].
  destruct (sigquit_terminates ∅ true (λ _, true) c) as (_ & H & _); [intros H; by apply elem_of_empty in H|exact Hs|exact H].
Defined.
