(* ===== verification/Server.v ===== *)
(** Server: the loop that accepts connections (lab3/src/server/server.c) and hands
    each to the handler pool. *)
From S2P Require Import Prelude Threads Subscription Handler.

#[local] Open Scope Z_scope.

(** * Data *)

(** The process, the connections that arrive, a negative one being an error of
    [accept], and the server's own sockets that are open *)
Record sstate := SState { process : hstate; connections : list Z; sockets : list Z }.

Definition set_process x s := SState x (connections s) (sockets s).
(** A call into handler.c, or an access of its state *)
Definition on_process {A} (op : C hstate A) : C sstate A := lift_act process set_process op.

(** [accept] waits for a connection. *)
Definition accept : C sstate Z := λ _ s,
  match connections s with
  | [] => Blocked
  | f :: l => Ok f (SState (process s) l (sockets s))
  end.
Definition close_socket (f : Z) : C sstate unit :=
  modify (λ s, SState (process s) (connections s) (filter (λ f', f' ≠ f) (sockets s))).

(** To network byte order *)
Definition htons (x : Z) : Z := (x mod 256) * 256 + (x / 256) mod 256.

Section server.
(** The answers of [socket] and, for a port, of [bind] *)
Context (new_socket : Z) (bind : Z → Z).

Definition socket : C sstate Z :=
  modify (λ s, SState (process s) (connections s) (if decide (new_socket < 0) then sockets s else new_socket :: sockets s));;
  mret new_socket.

(** [while (!context->stop)] *)
Definition accept_loop (context : ptr) : prog sstate unit :=
  Loop (λ _ : unit,
    c ← atomic (on_process (load proxy_context_t context));
    if decide (stop c = 0) then
      client_socket ← atomic accept;
      if decide (client_socket < 0) then mret (inl tt) else
      _ ← atomic (on_process (handle_client client_socket context));
      mret (inl tt)
    else mret (inr tt)) tt Ret.

Definition start_server (context : ptr) : prog sstate Z :=
  server_socket ← atomic socket;
  if decide (server_socket < 0) then mret (-1) else
  c ← atomic (on_process (load proxy_context_t context));
  let err := bind (htons (port c)) in
  if decide (err < 0) then atomic (close_socket server_socket);; mret 1 else
  _ ← atomic (on_process (load proxy_context_t context));
  accept_loop context;;
  atomic (close_socket server_socket);;
  mret 0.
End server.

(** * Accepting *)

(** The process after [handle_client] of the connections [fs]: the tasks [ls] are
    on top of the stack, the last one first. *)
Record handed (cx : positive) (fs : list Z) (ls : list positive) (S S' : hstate) : Prop := {
  handed_tasks : handler_tasks (private S') = rev ls ++ handler_tasks (private S);
  handed_clients : Forall2 (λ l f, cells (clients_data (private S')) !! l = Some (ClientData (Some cx) f)) ls fs;
  handed_old l d : cells (clients_data (private S)) !! l = Some d → cells (clients_data (private S')) !! l = Some d;
  handed_shared : shared S' = shared S;
  handed_contexts : contexts (private S') = contexts (private S);
  handed_memory : own_answers (private S') = [];
}.

Lemma handed_one cx f t S : own_answers (private S) = [] →
  ∃ l S', handle_client f (Some cx) t S = Ok 0 S' ∧ handed cx [f] [l] S S'.
Proof.
  destruct S as [m [tb rq dl cd se co inc ht an]]. cbn. intros ->. unfold handle_client.
  exists (fresh_loc cd). erewrite bind_ok by (by apply malloc_ok). cbn.
  erewrite bind_ok by (eapply (@update_ok _ _ clients_heap); cbn; apply lookup_insert_eq). cbn.
  erewrite bind_ok by (eapply (@update_ok _ _ clients_heap); cbn; apply lookup_insert_eq). cbn.
  eexists. split; [done|]. split; cbn; [done| | |done..].
  - constructor; [by rewrite lookup_insert_eq|done].
  - intros l d Hl. rewrite !lookup_insert_ne; [done|..]; intros <-; by rewrite fresh_loc_none in Hl.
Qed.

Lemma handed_nil cx S : own_answers (private S) = [] → handed cx [] [] S S.
Proof. by split. Qed.
Lemma handed_app cx fs1 fs2 ls1 ls2 S1 S2 S3 :
  handed cx fs1 ls1 S1 S2 → handed cx fs2 ls2 S2 S3 → handed cx (fs1 ++ fs2) (ls1 ++ ls2) S1 S3.
Proof.
  intros [] []. split; try congruence.
  - rewrite handed_tasks1, handed_tasks0, rev_app_distr. by rewrite app_assoc.
  - apply Forall2_app; [|done]. eapply Forall2_impl; [done|]. intros l f Hl. by apply handed_old1.
  - auto.
Qed.

(** One access of a thread that runs alone *)
Lemma alone_access {S A B} t (m : C S B) (k : B → prog S A) s b s' p2 s2 :
  m t s = Ok b s' → alone t (k b) s' p2 s2 → alone t (pbind (atomic m) k) s p2 s2.
Proof. intros Hm Hk. eapply alone_step; [cbn; by rewrite Hm|done]. Qed.
Lemma on_process_ok {A} (op : C hstate A) t s a S : op t (process s) = Ok a S →
  on_process op t s = Ok a (set_process S s).
Proof. intros H. unfold on_process, lift_act. by rewrite H. Qed.

Section accepting.
Context (cx : positive) (c : proxy_context_t) (t : tid).
Hypothesis Hstop : stop c = 0.

Lemma load_context s : cells (contexts (private (process s))) !! cx = Some c →
  on_process (load proxy_context_t (Some cx)) t s = Ok c s.
Proof.
  intros Hc. unfold on_process, lift_act. rewrite (@load_ok _ _ contexts_heap _ c) by done. by destruct s.
Qed.

(** The loop up to where it waits *)
Lemma accept_loop_alone (k : unit → prog sstate Z) fs s : cells (contexts (private (process s))) !! cx = Some c →
  own_answers (private (process s)) = [] → connections s = fs →
  ∃ (p' : prog sstate Z) S' ls, alone t (pbind (accept_loop (Some cx)) k) s p' (SState S' [] (sockets s)) ∧
    prog_step p' t (SState S' [] (sockets s)) = Blocked ∧ (∀ a, p' ≠ Ret a) ∧
    handed cx (filter (λ f, 0 ≤ f) fs) ls (process s) S'.
Proof.
  revert s. induction fs as [|f fs IH]; intros [S co so] Hc Ha; cbn in *; intros ->.
  - eexists _, S, []. split.
    { eapply alone_step; [done|]. cbn -[on_process]. eapply alone_step; [cbn; by rewrite load_context|].
      rewrite decide_True by done. constructor. }
    split; [done|]. split; [done|]. by apply handed_nil.
  - assert (∃ S1 ls1, alone t (pbind (accept_loop (Some cx)) k) (SState S (f :: fs) so) (pbind (accept_loop (Some cx)) k) (SState S1 fs so) ∧
      handed cx (filter (λ f, 0 ≤ f) [f]) ls1 S S1) as (S1 & ls1 & Hal & Hh).
    { rewrite filter_cons. destruct (decide (f < 0)) as [Hf|Hf].
      - rewrite decide_False by lia. exists S, []. split; [|by apply handed_nil].
        eapply alone_step; [done|]. cbn -[on_process]. eapply alone_step; [cbn; by rewrite load_context|].
        rewrite decide_True by done. eapply alone_step; [done|]. cbn. rewrite decide_True by done. constructor.
      - rewrite decide_True by lia. destruct (handed_one cx f t S Ha) as (l & S1 & Hrun & Hh).
        exists S1, [l]. split; [|done].
        eapply alone_step; [done|]. cbn -[on_process]. eapply alone_step; [cbn; by rewrite load_context|].
        rewrite decide_True by done. eapply alone_step; [done|]. cbn -[on_process]. rewrite decide_False by done.
        eapply alone_step; [cbn -[on_process handle_client]; by rewrite (on_process_ok _ t (SState S fs so) _ _ Hrun)|]. constructor. }
    destruct (IH (SState S1 fs so)) as (p' & S' & ls & Hal' & Hb & Hr & Hh'); cbn;
      [by rewrite (handed_contexts _ _ _ _ _ Hh)|apply (handed_memory _ _ _ _ _ Hh)|done|].
    exists p', S', (ls1 ++ ls). split; [by eapply alone_trans|]. split; [done|]. split; [done|].
    change (handed cx (filter (λ f, 0 ≤ f) ([f] ++ fs)) (ls1 ++ ls) S S'). rewrite filter_app. by eapply handed_app.
Qed.
End accepting.

(** C31: The server, given a socket and its port, in the state where the
    connections [connections s] arrive one after the other and memory suffices:
    it hands every connection to the handler pool, as a task for that client in
    this context, in the order of arrival, passing over the errors of [accept];
    then it waits for the next connection, and it does not return. *)
Theorem server_accepts new_socket bind cx c t s :
  0 ≤ new_socket → 0 ≤ bind (htons (port c)) → stop c = 0 →
  cells (contexts (private (process s))) !! cx = Some c → own_answers (private (process s)) = [] →
  ∃ p' S' ls, alone t (start_server new_socket bind (Some cx)) s p' (SState S' [] (new_socket :: sockets s)) ∧
    prog_step p' t (SState S' [] (new_socket :: sockets s)) = Blocked ∧ (∀ a, p' ≠ Ret a) ∧
    handler_tasks (private S') = rev ls ++ handler_tasks (private (process s)) ∧
    Forall2 (λ l f, cells (clients_data (private S')) !! l = Some (ClientData (Some cx) f)) ls
      (filter (λ f, 0 ≤ f) (connections s)) ∧
    shared S' = shared (process s).
Proof.
  intros Hso Hb Hst Hc Ha. set (s1 := SState (process s) (connections s) (new_socket :: sockets s)).
  destruct (accept_loop_alone cx c t Hst (λ _, atomic (close_socket new_socket) ≫= λ _, mret 0) (connections s) s1)
    as (p' & S' & ls & Hal & Hbl & Hr & Hh); [done..|].
  exists p', S', ls. split; [|split; [done|split; [done|split_and!; apply Hh]]].
  unfold start_server, socket. apply (alone_access t _ _ _ new_socket s1).
  { unfold mbind, C_bind, modify, s1. cbn beta iota. by rewrite decide_False by lia. }
  rewrite decide_False by lia. apply (alone_access t _ _ _ c s1); [by apply load_context|]. cbv zeta.
  rewrite decide_False by lia. by apply (alone_access t _ _ _ c s1); [apply load_context|].
Qed.

(** Two clients and an error in between *)
Example server_accepts_witness :
  ∃ p' S' l1 l2, alone 0%nat (start_server 3 (λ _, 0) (Some 1%positive))
      (SState (HState mstart first_client) [5; -1; 6] []) p' (SState S' [] [3]) ∧
    prog_step p' 0%nat (SState S' [] [3]) = Blocked ∧
    handler_tasks (private S') = [l2; l1] ∧
    cells (clients_data (private S')) !! l1 = Some (ClientData (Some 1%positive) 5) ∧
    cells (clients_data (private S')) !! l2 = Some (ClientData (Some 1%positive) 6).
Proof.
  destruct (server_accepts 3 (λ _, 0) 1 (ProxyContext 0 8080 (Some 1%positive)) 0%nat
    (SState (HState mstart first_client) [5; -1; 6] [])) as (p' & S' & ls & Hal & Hb & _ & Ht & Hc & _); [done..|].
  assert (filter (λ f, 0 ≤ f) [5; -1; 6] = [5; 6]) as Hf by reflexivity. cbn [connections] in Hc. rewrite Hf in Hc.
  inversion Hc as [|l1 ? ls1 ? H1 Hc1]; subst. inversion Hc1 as [|l2 ? ls2 ? H2 Hc2]; subst. inversion Hc2; subst.
  exists p', S', l1, l2. done.
Defined.
